(* ===== verification/_CoqProject ===== *)
-Q . S2P
Prelude.v
Float64.v
GoStrings.v
Json.v
JsonFacts.v
World.v
HttpUtils.v
Operator.v
Files.v
LogAggregation.v
DataService.v
ConmanProc.v
LogRotateConf.v
Nodes.v
NodesFacts.v
Demo.v
NodesProps.v
Heartbeat.v
Wire.v
PodSetup.v
Sha256.v
GoTime.v
Creds.v
ConmanConfig.v
ConmanProps.v
LogRotation.v
LogRotationProps.v
Monitor.v
Zombies.v
Health.v
Server.v
FakeLogs.v
Flags.v
Main.v
Threads.v
Ending.v
Steps.v
PodSpec.v
Runs.v
System.v
Progress.v
Fairness.v
Reconfigure.v
Process.v
Isolation.v
