(* ===== verification/Prelude.v ===== *)
(** * console-node: a verification library

    console-node is a Kubernetes pod that watches the serial consoles of the
    nodes of a machine.  It asks the console-data service for nodes, runs the
    conmand process on a configuration file it generates, copies the console
    logs into one aggregation log, rotates the logs, and gives the nodes back
    when it has too many or is shut down.  All of the program is the Go package
    src/src/console_node/; this library models it and proves what its parts,
    and the threads together, guarantee.

    ** How the program is modelled

    The package's variables are the record [World.world]: the three maps of
    nodes and the targets ([nodesState], nodes.go), the table of tails with
    the goroutines that tail, those that were told to stop and have not noticed
    included ([tailState], logAggregation.go), the variable [command] (conman.go), the
    last credentials ([credState], creds.go and monitor.go), the rotation
    parameters ([rotState], logRotation.go), the identity of the pod
    ([podState], consoleNodeMain.go and data.go), the files, a counter of
    interactions and the trace of what the program did to the outside.

    A function of the program is a definition of the same name in the monad
    [World.M]: it ends with [Done] and a value, with [Panic] where the code
    panics (an explicit log.Panic, a nil dereference, an index out of range),
    or with [Stuck] where it never ends: it made a request that never returns,
    or the fuel of an unbounded loop is used up.  [World.wp]
    is its weakest precondition: with [total = false] about the runs that end
    well, with [total = true] also stating that the run does.

    Everything outside is the record [World.env], a parameter: the answers of
    HTTP requests ([None] if there never is one; that there always is one is
    the hypothesis [requests_return] where a theorem needs it), the order in which a range statement visits a map (any
    permutation), faults of file operations, the environment variables, the
    clock, the time zone, the secure storage library, gjson and the commands
    ps and logrotate.  Each is indexed by the counter of interactions, so
    nothing is assumed to be the same twice.  A request is in the trace with
    its outcome, so that what a theorem says was asked, and what was made of
    the answer, is tied to what happened.

    An int is an integer in the range of 64 bits, wrapped by [Prelude.i64]; a
    comparison of the code that goes through float64 is computed in Float64 as
    IEEE 754 rounding, and agrees with the Standard Library's binary64 numbers
    on a grid of inputs.  A string is a list of bytes.

    The goroutines that [main] starts are transition systems (Steps) over the
    shared state and the mutex [currNodesMutex], one relation for each:
    [node_step] ([watchForNodes]), [heart_step] ([doHeartbeat]), [conman_step]
    ([runConman]), [mon_step] ([doMonitor]), [rot_step] ([doLogRotate]),
    [tail_step] ([watchConsoleLogFile] and [killTails]), [zombie_step]
    ([watchForZombies] and the goroutines it starts), the end of the conmand
    process, which is not up to the program ([by_process]), and [main_step]
    ([main] from the signal on).  A step ends wherever
    another thread could make a difference: where the lock is taken or given
    back, before the conmand variable is tested and before its process is
    used, and between the parts of the work that is done without the lock.
    [tstep] is their composition; files may change between any two steps.
    Cancelling a tail moves its goroutine to those that linger: they may still
    take lines, and return when they notice.  [Process.proc_by] adds the API
    server, a transition system on its connections, and the two ends of the
    process, [main]'s return and a panic of any goroutine.

    ** Files

    - Prelude: integers, lengths, the hint database [go] and shared lemmas;
    - Float64, GoStrings, GoTime, Json, Sha256: what the program uses of the
      language and its standard library (strings, strconv, bufio, path, time,
      encoding/json, crypto/sha256);
    - JsonFacts: printed JSON values parse to themselves;
    - World: the state, the environment, the monad and its rules;
    - HttpUtils (httpUtils.go), Files (package os, and [ensureDirPresent]);
    - Operator (operator.go): the interface [OperatorService] is a type class,
      what callers may rely on is the class [OperatorServiceSpec], and
      [OperatorManager_spec] proves it of the implementation; the clients
      (Nodes, PodSetup, Main, Steps, System) are verified against the class;
    - DataService, Heartbeat, Wire (data.go): requests to console-data, the
      heartbeat, and what survives encoding and decoding; FakeLogs (data.go):
      the fake console logs of debug mode;
    - LogAggregation (logAggregation.go), ConmanProc (the process and its
      signals, conman.go), LogRotateConf (the generated rotation file);
    - Nodes, NodesFacts, NodesProps (nodes.go): acquiring, rebalancing and
      releasing nodes; [node_cycle] is the specification of one pass that the
      pass is proved to refine;
    - PodSetup (settings, names, location, release; consoleNodeMain.go);
    - Creds (creds.go): passwords with retries, the Mountain key;
    - ConmanConfig, ConmanProps (conman.go): the configuration file and turns
      of the thread that runs conmand;
    - LogRotation, LogRotationProps (logRotation.go): reading the state file of
      logrotate and reacting to it;
    - Monitor (monitor.go), Zombies (zombies.go), Health (health.go and the
      paths that [main] registers);
    - Flags: the command line, as package flag reads it;
    - Main: the start of [main] from the initial values, and its end;
    - Threads: what the work of each thread may change;
    - Ending: which operations end, and which can wait for a request;
    - Steps: the threads, the mutex and their composition;
    - PodSpec: the abstract specification of a pod, a transition system on
      what is watched, tailed and read (by goroutines that were told to stop,
      too), the life of the process and the phase;
    - Runs: concrete executions, built from steps;
    - System: the invariant of every reachable state, the refinement of
      PodSpec, what the mutex protects, the races;
    - Progress: release of the mutex;
    - Fairness: infinite executions under a fair scheduler;
    - Reconfigure: how conmand catches up with the nodes;
    - Server: the connections of the API server, as net/http documents them;
    - Process: threads and server together, up to the end of the process;
    - Isolation: steps that do not look at the nodes and the table of tails;
    - Demo: a concrete pod and environments for the witnesses.

    ** What the theorems show

    - Node management: a pass neither loses nor duplicates a node, releases
      exactly what it says it releases, keeps within the acquisition bounds,
      reaches the requested sizes, restarts conmand when something changed, and
      always ends; the float rule of ten percent is the integer rule.
    - Configuration: the generated file has one line for each watched node with
      its credentials and the log never shows a password; exactly the watched
      nodes are tailed; conmand runs only when there is a node.
    - Credentials, rotation, monitor, zombies, endpoints, fake logs: the
      functional behaviour of each, with its retries, round trips and error
      answers.
    - The command line: what the arguments make of debug mode, and which of
      them end the process.
    - The system: the invariant [sys_inv] in every reachable state, mutual
      exclusion included; every step is one the abstract specification allows
      ([pod_refines_spec]), from which the finality of the shutdown follows;
      the nodes and the table of tails change only under the lock
      ([lock_protects]), and outside debug mode are not even read without it
      but by the health report ([lock_isolates]); a thread that holds the lock
      needs no other thread to give it back ([lock_released]) and does so in
      every fair execution ([fair_release]), unless it crashes or waits for
      another service; conmand can always be brought to run with exactly the
      nodes that are watched ([conman_reconfigures]).
    - The process: after the signal the holder of the lock, [main] and the
      server can end it ([process_exits]), possibly with nodes in hand
      ([exit_with_nodes]); a panic ends it at once ([crash_with_nodes]), and a
      service that does not answer keeps it from ending
      ([hung_service_blocks]).
    - Behaviour that its comments do not intend: a signal to a command not yet
      started or already forgotten, a lost restart, nodes taken after shutdown,
      a log that is not tailed again after its goroutine ended, Paradise nodes
      that are never given back, malformed targets stored as zero, null
      answers, a key hash remembered for a file not written, a flag at the edge
      of its buffer, a health report that is not sent as JSON.

    ** Bounds and fuel

    Loops of the code that end by themselves are recursive functions on the
    list they traverse; [release_mtn] takes one turn per node and one more
    ([mtn_fuel]), which is proved to be enough.  Loops that wait for a service
    ([setPodLocation], [vault_login], [fetch_key]) take fuel, one unit for each
    request: for the location it is proved that an operator which answers after
    k failures needs k + 1 units, for the vault that one accepted request
    needs one.  [json_parse] computes its own fuel from the length of the
    text.  [createTestLogFile] takes the number of turns of its endless loop.
    The loops of the threads are modelled by their turns, and in Steps by the
    step relations, which have no bound; the step that waits for the keys is
    there for every fuel.  The bound of [lock_released] is four steps, the
    longest critical section (the node thread after a change); that of
    [conman_reconfigures] is eleven, from the creation of an outdated process
    through its end and a configuration to the start of the next; that of
    [process_exits] is those four, the release, the call of Shutdown and the
    return, and one step for each connection.

    ** What is not modelled

    The text of log messages is modelled where they could show passwords
    (ConmanConfig) and for the output of conmand; elsewhere logging is left
    out, and so are the pauses between the turns of the threads in the
    composition: a thread makes its next step when it does.
    Steps are atomic and happen when their piece of code is done: a piece in
    which a request never returns makes no step, and what it did before the
    request is not seen by others; reads of the maps that the code makes
    without the lock (the rotation thread in debug mode, [killTails], the
    health report) see one state between two pieces, and Go's own detection
    of concurrent map use is left out; so is reordering of memory accesses.
    A tailing goroutine may return at any time, not only when its tail could
    not be started or it was told to stop.  The fake logs of debug mode are an
    event of the trace in the composition, what they write is among the
    changes of files that may happen at any time.  Of net/http only what
    decides which requests are answered, and with what status, type and body,
    is modelled: no request headers, no timeouts, no headers that every
    response has, no bytes on the wire; the detection of content types and
    what the multiplexer answers for paths that are not registered are
    parameters.  conmand itself goes on when the process ends
    and is not modelled.  The vendored libraries (tail, the secure storage and
    credential libraries, gjson) are parameters. *)

From Stdlib Require Import ZArith Lia.
From stdpp Require Import base numbers strings gmap sets list.

(** ** Scopes and integers of the language *)

Declare Scope go_scope.
Delimit Scope go_scope with go.

(** A Go [int] is a 64-bit two's complement integer: results of arithmetic are
    brought back into range by [i64]. *)
Definition i64 (z : Z) : Z := (z + 2 ^ 63) `mod` 2 ^ 64 - 2 ^ 63.

(** The largest and the smallest [int]. *)
Definition maxInt64 : Z := 2 ^ 63 - 1.
Definition minInt64 : Z := - 2 ^ 63.

Definition in_i64 (z : Z) : Prop := (minInt64 ≤ z ≤ maxInt64)%Z.

Notation "a +i b" := (i64 (a + b)%Z) (at level 50, left associativity) : go_scope.
Notation "a -i b" := (i64 (a - b)%Z) (at level 50, left associativity) : go_scope.

(** The length of a Go map, as an [int]. *)
Definition zlen {V} (m : gmap string V) : Z := Z.of_nat (size m).

(** ** Hint databases and tactics of the development *)

Create HintDb go discriminated.
Create Rewrite HintDb go.

(** Boolean comparisons of the code as propositions. *)
Ltac zbool :=
  repeat match goal with
  | H : (_ <? _)%Z = true |- _ => apply Z.ltb_lt in H
  | H : (_ <? _)%Z = false |- _ => apply Z.ltb_ge in H
  | H : (_ <=? _)%Z = true |- _ => apply Z.leb_le in H
  | H : (_ <=? _)%Z = false |- _ => apply Z.leb_gt in H
  | H : (_ =? _)%Z = true |- _ => apply Z.eqb_eq in H
  | H : (_ =? _)%Z = false |- _ => apply Z.eqb_neq in H
  | H : _ && _ = true |- _ => apply andb_true_iff in H as [? ?]
  | H : _ || _ = false |- _ => apply orb_false_iff in H as [? ?]
  | H : negb _ = true |- _ => apply negb_true_iff in H
  | H : negb _ = false |- _ => apply negb_false_iff in H
  end.

(** Case analysis on the tests of an unfolded definition, then arithmetic. *)
Ltac case_tests :=
  repeat (match goal with
  | |- context [if ?b then _ else _] => destruct b eqn:?
  end; simpl in *); zbool.

(** ** Generic lemmas *)

(** *** Machine integers *)

Lemma i64_small z : in_i64 z → i64 z = z.
Proof.
  unfold in_i64, i64, minInt64, maxInt64. intros H.
  rewrite Z.mod_small by lia. lia.
Qed.

Lemma i64_range z : in_i64 (i64 z).
Proof.
  unfold in_i64, i64, minInt64, maxInt64.
  pose proof (Z.mod_pos_bound (z + 2 ^ 63) (2 ^ 64) ltac:(lia)). lia.
Qed.

Lemma i64_idemp z : i64 (i64 z) = i64 z.
Proof. apply i64_small, i64_range. Qed.

(** Wrapping twice is wrapping once. *)
Lemma i64_add_l a b : i64 (i64 a + b) = i64 (a + b).
Proof.
  unfold i64. f_equal.
  replace ((a + 2 ^ 63) `mod` 2 ^ 64 - 2 ^ 63 + b + 2 ^ 63)%Z with ((a + 2 ^ 63) `mod` 2 ^ 64 + b)%Z by lia.
  rewrite Zplus_mod_idemp_l. f_equal. lia.
Qed.

Lemma in_i64_mid z : (- 2 ^ 62 ≤ z ≤ 2 ^ 62)%Z → in_i64 z.
Proof. unfold in_i64, minInt64, maxInt64. lia. Qed.

#[export] Hint Resolve i64_range : go.
#[export] Hint Rewrite i64_idemp : go.

Ltac i64s := repeat rewrite i64_small by (unfold in_i64, minInt64, maxInt64 in *; lia).

(** *** Maps, as the code measures and traverses them *)

Section maps.
Context {V : Type}.
Implicit Types (m : gmap string V) (l : list (string * V)).

Lemma zlen_nonneg m : (0 ≤ zlen m)%Z.
Proof. unfold zlen. lia. Qed.

Lemma zlen_empty : zlen (∅ : gmap string V) = 0%Z.
Proof. unfold zlen. by rewrite map_size_empty. Qed.

Lemma zlen_zero_empty m : zlen m = 0%Z → m = ∅.
Proof. unfold zlen. intros H. apply map_size_empty_inv. lia. Qed.

Lemma zlen_delete m k v : m !! k = Some v → zlen (delete k m) = (zlen m - 1)%Z.
Proof.
  intros H. unfold zlen. rewrite map_size_delete_Some; [|eauto].
  assert (size m ≠ 0) by (intros E; apply map_size_empty_inv in E; subst; by rewrite lookup_empty in H).
  lia.
Qed.

(** A permutation of the entries of a map, the order in which one [range]
    statement visits it, has each key once and finds each entry in the map. *)
Lemma range_nodup m l : l ≡ₚ map_to_list m → NoDup l.*1.
Proof. intros ->. apply NoDup_fst_map_to_list. Qed.

Lemma range_elem m l k v : l ≡ₚ map_to_list m → (k, v) ∈ l ↔ m !! k = Some v.
Proof. intros ->. by rewrite elem_of_map_to_list. Qed.

Lemma range_length m l : l ≡ₚ map_to_list m → Z.of_nat (length l) = zlen m.
Proof. intros ->. unfold zlen. by rewrite length_map_to_list. Qed.

Lemma range_nil m : [] ≡ₚ map_to_list m → m = ∅.
Proof. intros H. apply zlen_zero_empty. by rewrite <- (range_length m []). Qed.

Lemma range_cons m l k v :
  (k, v) :: l ≡ₚ map_to_list m → m !! k = Some v ∧ l ≡ₚ map_to_list (delete k m).
Proof.
  intros H.
  assert (Hk : m !! k = Some v) by (apply (range_elem m _ k v H); by left).
  split; [done|].
  rewrite <- (insert_delete_id m k v Hk), map_to_list_insert in H by apply lookup_delete_eq.
  by apply Permutation_cons_inv in H.
Qed.

Lemma range_fst_dom m l : l ≡ₚ map_to_list m → list_to_set l.*1 = dom m.
Proof.
  intros H. apply set_eq. intros k. rewrite elem_of_list_to_set, list_elem_of_fmap, elem_of_dom.
  split.
  - intros ([k' v] & -> & Hin). apply (range_elem m l _ _ H) in Hin. by eexists.
  - intros [v Hv]. exists (k, v). split; [done|]. by apply (range_elem m l).
Qed.

End maps.

#[export] Hint Resolve zlen_nonneg : go.
