(* ===== verification/Float64.v ===== *)
(** * Binary64 arithmetic used by the balancing rule

    [calcChangeInNodes] in src/src/console_node/nodes.go compares
    [float64(currNumRvr) > (1.1 * float64(idealNumRvr))].  This file models
    the three float64 operations of that expression (conversion from int,
    multiplication, comparison) with round-to-nearest-even on a 53-bit
    significand, and proves which integers satisfy the comparison. *)

From S2P Require Import Prelude.
From Stdlib Require Import ZArith Lia SpecFloat.
From stdpp Require Import base numbers strings gmap sets list.

Local Open Scope Z_scope.

(** A finite float64: [f_m * 2 ^ f_e].  The operands are conversions of ints
    (at most 2^63) and their product by 1.1, far from overflow and from the
    subnormal range, so infinities, NaN and the exponent bounds play no role. *)
Record f64 := F64 { f_m : Z; f_e : Z }.

(** Round a natural significand to a multiple of [2 ^ k], ties to even. *)
Definition round_half_even (m k : Z) : Z :=
  if k <=? 0 then m else
  let q := m / 2 ^ k in
  let r := m mod 2 ^ k in
  let h := 2 ^ (k - 1) in
  if r <? h then q else
  if h <? r then q + 1 else
  if Z.even q then q else q + 1.

(** The float64 nearest to [m * 2 ^ e]. *)
Definition rne (m e : Z) : f64 :=
  let k := Z.max 0 (Z.log2 (Z.abs m) - 52) in
  F64 (Z.sgn m * round_half_even (Z.abs m) k) (e + k).

(** [float64(n)] *)
Definition float64_of_int (n : Z) : f64 := rne n 0.

(** [a * b] *)
Definition f64_mul (a b : f64) : f64 := rne (f_m a * f_m b) (f_e a + f_e b).

(** [a > b]: both scaled to the smaller exponent. *)
Definition f64_gtb (a b : f64) : bool :=
  let e := Z.min (f_e a) (f_e b) in
  f_m b * 2 ^ (f_e b - e) <? f_m a * 2 ^ (f_e a - e).

(** The constant [1.1] as a float64 (0x3FF199999999999A). *)
Definition c1_1 : f64 := F64 4953959590107546 (-52).

(** [float64(curr) > (1.1 * float64(ideal))] *)
Definition overTenPercent (curr ideal : Z) : bool :=
  f64_gtb (float64_of_int curr) (f64_mul c1_1 (float64_of_int ideal)).

(** ** The same expression with the Standard Library's IEEE 754 model *)

Definition spec_of_int (n : Z) : spec_float := binary_normalize 53 1024 n 0 false.

Definition spec_c1_1 : spec_float := S754_finite false 4953959590107546 (-52).

Definition specOverTenPercent (curr ideal : Z) : bool :=
  match SFcompare (spec_of_int curr) (SFmul 53 1024 spec_c1_1 (spec_of_int ideal)) with
  | Some Gt => true
  | _ => false
  end.

(** ** Lemmas *)

(** The model and the Standard Library's IEEE model agree on a grid of inputs,
    products that round up to an integer's neighbour (ideal = 100) included. *)
Example over_agrees_spec_float :
  forallb (fun i => forallb (fun d =>
    let ideal := Z.of_nat i in
    let curr := ideal * 11 / 10 + Z.of_nat d - 2 in
    Bool.eqb (overTenPercent curr ideal) (specOverTenPercent curr ideal))
    (seq 0 5)) (seq 1 200) = true.
Proof. vm_compute. reflexivity. Qed.

Lemma round_half_even_bounds m k :
  0 <= m -> 0 < k ->
  m - 2 ^ (k - 1) <= round_half_even m k * 2 ^ k <= m + 2 ^ (k - 1).
Proof.
  intros Hm Hk. unfold round_half_even.
  assert (E : 2 ^ k = 2 * 2 ^ (k - 1)) by (rewrite <- Z.pow_succ_r by lia; f_equal; lia).
  assert (P : 0 < 2 ^ (k - 1)) by (apply Z.pow_pos_nonneg; lia).
  pose proof (Z.div_mod m (2 ^ k) ltac:(lia)) as D.
  pose proof (Z.mod_pos_bound m (2 ^ k) ltac:(lia)) as B.
  destruct (Z.leb_spec k 0); [lia|].
  destruct (Z.ltb_spec (m mod 2 ^ k) (2 ^ (k - 1))); [nia|].
  destruct (Z.ltb_spec (2 ^ (k - 1)) (m mod 2 ^ k)); [nia|].
  destruct (Z.even _); nia.
Qed.

(** Rounding does not cross a multiple of the grid. *)
Lemma round_half_even_grid m k q :
  0 <= m -> 0 < k -> q * 2 ^ k <= m -> q <= round_half_even m k.
Proof.
  intros Hm Hk Hq. unfold round_half_even.
  assert (P : 0 < 2 ^ k) by (apply Z.pow_pos_nonneg; lia).
  assert (q <= m / 2 ^ k) by (apply Z.div_le_lower_bound; lia).
  destruct (Z.leb_spec k 0); [lia|].
  destruct (_ <? _); [lia|]. destruct (_ <? _); [lia|]. destruct (Z.even _); lia.
Qed.

Lemma rne_exact m e : 0 <= m < 2 ^ 53 -> rne m e = F64 m e.
Proof.
  intros Hm. unfold rne. rewrite Z.abs_eq by lia.
  assert (Z.log2 m < 53).
  { destruct (Z.eq_dec m 0) as [->|]; [reflexivity|]. apply Z.log2_lt_pow2; lia. }
  rewrite Z.max_l by lia. unfold round_half_even. cbn.
  f_equal; [|lia]. destruct m; lia.
Qed.

Lemma float64_of_int_exact n : 0 <= n < 2 ^ 53 -> float64_of_int n = F64 n 0.
Proof. apply rne_exact. Qed.

(** The product [1.1 * float64(n)]: its exponent and the two facts about its
    significand that decide the comparison. *)
Lemma mul_c1_1_spec n :
  1 <= n <= 2 ^ 40 ->
  exists p k, f64_mul c1_1 (float64_of_int n) = F64 p (k - 52) /\ 0 <= k <= 41 /\
    (forall c, 0 <= c -> c * 2 ^ 52 <= 4953959590107546 * n -> c * 2 ^ 52 <= p * 2 ^ k) /\
    p * 2 ^ k <= 4953959590107546 * n + 2 * n.
Proof.
  intros Hn. rewrite float64_of_int_exact by lia.
  unfold f64_mul, c1_1, rne. cbn [f_m f_e].
  set (P := 4953959590107546 * n).
  assert (HP : 2 ^ 52 <= P < 2 ^ 94) by (unfold P; lia).
  rewrite Z.abs_eq, Z.sgn_pos by lia.
  assert (L : 52 <= Z.log2 P < 94).
  { split; [apply Z.log2_le_pow2; lia|apply Z.log2_lt_pow2; lia]. }
  pose proof (Z.log2_spec P ltac:(lia)) as [S1 S2].
  rewrite Z.max_r by lia. set (k := Z.log2 P - 52) in *.
  exists (1 * round_half_even P k), k. split; [f_equal; lia|]. split; [lia|].
  rewrite Z.mul_1_l. destruct (Z.eq_dec k 0) as [->|Hk].
  { cbn. split; [intros c _ H; lia|lia]. }
  split.
  - intros c Hc HcP. replace 52 with (52 - k + k) in * by lia.
    rewrite Z.pow_add_r, Z.mul_assoc in * by lia.
    apply Z.mul_le_mono_nonneg_r; [lia|]. apply round_half_even_grid; lia.
  - pose proof (round_half_even_bounds P k ltac:(lia) ltac:(lia)) as [_ B].
    assert (2 ^ Z.log2 P = 2 ^ (k - 1) * 2 ^ 53) as E.
    { rewrite <- Z.pow_add_r by lia. f_equal. lia. }
    rewrite E in S1. unfold P in *. lia.
Qed.

(** On the range that node counts can have, the comparison with the rounded
    product decides exactly "more than ten percent over". *)
Lemma overTenPercent_exact curr ideal :
  0 <= curr < 2 ^ 53 -> 1 <= ideal <= 2 ^ 40 ->
  overTenPercent curr ideal = (11 * ideal <? 10 * curr).
Proof.
  intros Hc Hi. unfold overTenPercent.
  destruct (mul_c1_1_spec ideal Hi) as (p & k & -> & Hk & Hlow & Hup).
  rewrite float64_of_int_exact by lia. unfold f64_gtb. cbn [f_m f_e].
  destruct (Z.ltb_spec (11 * ideal) (10 * curr)) as [G|G].
  - apply Z.ltb_lt.
    assert (p * 2 ^ k < curr * 2 ^ 52) by lia.
    set (e := Z.min 0 (k - 52)).
    replace (k - 52 - e) with (k + (- 52 - e)) by lia.
    replace (0 - e) with (52 + (- 52 - e)) by lia.
    destruct (Z.eq_dec e (k - 52)) as [He|]; [|unfold e in *; lia].
    rewrite He. replace (k + (-52 - (k - 52))) with 0 by lia.
    replace (52 + (-52 - (k - 52))) with (52 - k) by lia.
    assert (P2 : 0 < 2 ^ k) by (apply Z.pow_pos_nonneg; lia).
    apply (Z.mul_lt_mono_pos_r (2 ^ k)); [done|].
    rewrite <- (Z.mul_assoc curr), <- Z.pow_add_r by lia.
    replace (52 - k + k) with 52 by lia. lia.
  - apply Z.ltb_ge.
    assert (L : curr * 2 ^ 52 <= p * 2 ^ k) by (apply Hlow; lia).
    rewrite Z.min_r by lia.
    replace (k - 52 - (k - 52)) with 0 by lia.
    replace (0 - (k - 52)) with (52 - k) by lia.
    assert (P2 : 0 < 2 ^ k) by (apply Z.pow_pos_nonneg; lia).
    apply (Z.mul_le_mono_pos_r _ _ (2 ^ k)); [done|].
    rewrite <- (Z.mul_assoc curr), <- Z.pow_add_r by lia.
    replace (52 - k + k) with 52 by lia. lia.
Qed.
