(* ===== verification/GoStrings.v ===== *)
(** * Byte strings: the functions of Go's strings, strconv and bufio packages

    A Go string is a sequence of bytes; [string] (a list of 8-bit [ascii]) is
    the same.  The definitions follow the documented behaviour of the standard
    library on every input the program can give them, malformed ones
    included; slicing out of range is [None], which the callers turn into a
    run-time panic. *)

From S2P Require Import Prelude.
From Stdlib Require Import ZArith Lia Ascii String.
From stdpp Require Import base numbers strings gmap sets list.

Local Open Scope Z_scope.

(** ** Lengths, slices *)

Definition slen (s : string) : Z := Z.of_nat (String.length s).

Fixpoint drop_s (n : nat) (s : string) : string :=
  match n, s with
  | S n', String _ s' => drop_s n' s'
  | _, _ => s
  end.

Fixpoint take_s (n : nat) (s : string) : string :=
  match n, s with
  | S n', String a s' => String a (take_s n' s')
  | _, _ => EmptyString
  end.

(** [s[i:j]]; [None] is a slice-bounds panic. *)
Definition slice (s : string) (i j : Z) : option string :=
  if (0 <=? i) && (i <=? j) && (j <=? slen s)
  then Some (take_s (Z.to_nat (j - i)) (drop_s (Z.to_nat i) s)) else None.

(** [s[i:]] *)
Definition slice_from (s : string) (i : Z) : option string := slice s i (slen s).

(** [s[i]]; [None] is an index-out-of-range panic. *)
Definition byte_at (s : string) (i : Z) : option ascii :=
  if (0 <=? i) && (i <? slen s) then String.get (Z.to_nat i) s else None.

(** Literals of the source that hold double quotes are written here with single
    quotes and converted by [qs]. *)
Fixpoint qs (s : string) : string :=
  match s with
  | EmptyString => EmptyString
  | String a r => String (if Ascii.eqb a "'"%char then "034"%char else a) (qs r)
  end.

(** ** Searching *)

Fixpoint index_nat (sub s : string) : option nat :=
  if String.prefix sub s then Some O else
  match s with
  | EmptyString => None
  | String _ s' => S <$> index_nat sub s'
  end.

(** [strings.Index] *)
Definition strIndex (s sub : string) : Z :=
  match index_nat sub s with Some n => Z.of_nat n | None => -1 end.

Fixpoint last_nat (sub s : string) : option nat :=
  match s with
  | EmptyString => if String.prefix sub s then Some O else None
  | String _ s' =>
      match last_nat sub s' with
      | Some n => Some (S n)
      | None => if String.prefix sub s then Some O else None
      end
  end.

(** [strings.LastIndex] *)
Definition strLastIndex (s sub : string) : Z :=
  match last_nat sub s with Some n => Z.of_nat n | None => -1 end.

(** ** White space and fields *)

Definition code (a : ascii) : Z := Z.of_N (N_of_ascii a).

(** The width in bytes of the white-space character at the head of [s]
    ([unicode.IsSpace], UTF-8 encoded), 0 when there is none.  The bytes that
    start such a character never occur inside another character, so scanning
    byte by byte finds the same characters as decoding does. *)
Definition space_width (s : string) : nat :=
  match s with
  | EmptyString => 0
  | String a r =>
    let c := code a in
    if ((9 <=? c) && (c <=? 13)) || (c =? 32) then 1%nat else
    match r with
    | EmptyString => 0
    | String b r2 =>
      let d := code b in
      if (c =? 194) && ((d =? 133) || (d =? 160)) then 2%nat else
      match r2 with
      | EmptyString => 0
      | String x _ =>
        let e := code x in
        if ((c =? 225) && (d =? 154) && (e =? 128))
        || ((c =? 226) && (d =? 128) && (((128 <=? e) && (e <=? 138)) || (e =? 168) || (e =? 169) || (e =? 175)))
        || ((c =? 226) && (d =? 129) && (e =? 159))
        || ((c =? 227) && (d =? 128) && (e =? 128))
        then 3%nat else 0%nat
      end
    end
  end.

Definition flush (cur : string) : list string :=
  match cur with EmptyString => [] | _ => [cur] end.

Fixpoint fields_go (skip : nat) (cur s : string) : list string :=
  match s with
  | EmptyString => flush cur
  | String a r =>
    match skip with
    | S k => fields_go k cur r
    | O => match space_width s with
           | O => fields_go 0 (cur +:+ String a EmptyString) r
           | S k => flush cur ++ fields_go k EmptyString r
           end
    end
  end.

(** [strings.Fields] *)
Definition Fields (s : string) : list string := fields_go 0 EmptyString s.

(** ** Lines of a buffered reader *)

Definition nl : ascii := "010"%char.

Fixpoint lines_go (cur s : string) : list string :=
  match s with
  | EmptyString => []
  | String a r =>
    if Ascii.eqb a nl then (cur +:+ String a EmptyString) :: lines_go EmptyString r
    else lines_go (cur +:+ String a EmptyString) r
  end.

(** The strings that repeated [ReadString('\n')] returns before its first
    error: each ends in a newline; what follows the last newline comes with
    io.EOF, and the callers leave their loop on any error. *)
Definition read_lines (s : string) : list string := lines_go EmptyString s.

(** ** Slash-separated paths *)

Definition slash : ascii := "/"%char.

Fixpoint split_slash (cur s : string) : list string :=
  match s with
  | EmptyString => [cur]
  | String a r =>
    if Ascii.eqb a slash then cur :: split_slash EmptyString r
    else split_slash (cur +:+ String a EmptyString) r
  end.

(** The elements of a path that remain after cleaning, last one first. *)
Fixpoint clean_elems (rooted : bool) (stack elems : list string) : list string :=
  match elems with
  | [] => stack
  | e :: es =>
    if decide (e = EmptyString \/ e = "."%string) then clean_elems rooted stack es
    else if decide (e = ".."%string) then
      match stack with
      | [] => clean_elems rooted (if rooted then [] else [e]) es
      | x :: st => clean_elems rooted (if decide (x = ".."%string) then e :: stack else st) es
      end
    else clean_elems rooted (e :: stack) es
  end.

(** [filepath.Clean] *)
Definition pathClean (path : string) : string :=
  let rooted := String.prefix "/" path in
  let body := String.concat "/" (rev (clean_elems rooted [] (split_slash EmptyString path))) in
  if rooted then String slash body
  else if decide (body = EmptyString) then "."%string else body.

(** [filepath.Dir] *)
Definition pathDir (path : string) : string :=
  pathClean (take_s (Z.to_nat (strLastIndex path "/" + 1)) path).

(** ** Numbers *)

Inductive num_err := ErrSyntax | ErrRange.

#[export] Instance num_err_eq_dec : EqDecision num_err.
Proof. solve_decision. Defined.

Definition maxUint64 : Z := 2 ^ 64 - 1.

Definition digit_val (a : ascii) : option Z :=
  let c := code a in if (48 <=? c) && (c <=? 57) then Some (c - 48) else None.

(** The digit loop of [strconv.ParseUint] in base 10 with 64 bits: a bad digit
    gives 0 and a syntax error; overflow stops at once with the maximum. *)
Fixpoint puint_go (v : Z) (s : string) : Z * option num_err :=
  match s with
  | EmptyString => (v, None)
  | String a r =>
    match digit_val a with
    | None => (0, Some ErrSyntax)
    | Some d =>
      if maxUint64 / 10 + 1 <=? v then (maxUint64, Some ErrRange)
      else if maxUint64 <? v * 10 + d then (maxUint64, Some ErrRange)
      else puint_go (v * 10 + d) r
    end
  end.

Definition ParseUint (s : string) : Z * option num_err :=
  match s with
  | EmptyString => (0, Some ErrSyntax)
  | _ => puint_go 0 s
  end.

Definition minus : ascii := "-"%char.
Definition plus : ascii := "+"%char.

(** [strconv.ParseInt(s, 10, 64)]: on a range error the nearest int64. *)
Definition ParseInt (s : string) : Z * option num_err :=
  let '(neg, ds) :=
    match s with
    | String a r => if Ascii.eqb a minus then (true, r) else if Ascii.eqb a plus then (false, r) else (false, s)
    | EmptyString => (false, s)
    end in
  match ParseUint ds with
  | (_, Some ErrSyntax) => (0, Some ErrSyntax)
  | (u, e) =>
    if neg then (if 2 ^ 63 <? u then (minInt64, Some ErrRange) else (- u, e))
    else if 2 ^ 63 <=? u then (maxInt64, Some ErrRange) else (u, e)
  end.

(** [strconv.Atoi]: its fast path for short strings computes the same. *)
Definition Atoi (s : string) : Z * option num_err := ParseInt s.

Definition digit_char (d : Z) : ascii := ascii_of_N (Z.to_N (48 + d)).

Fixpoint utoa (fuel : nat) (n : Z) (acc : string) : string :=
  let acc' := String (digit_char (n mod 10)) acc in
  match fuel with
  | O => acc'
  | S f => if n <? 10 then acc' else utoa f (n / 10) acc'
  end.

(** [strconv.Itoa], and the verb %d of fmt: 20 digits are enough for 64 bits. *)
Definition Itoa (n : Z) : string :=
  if n <? 0 then String minus (utoa 20 (- n) EmptyString) else utoa 20 n EmptyString.

(** ** Lemmas *)

Lemma slen_nonneg s : 0 <= slen s.
Proof. unfold slen. lia. Qed.

(** stdpp keeps [append] from unfolding: its two equations. *)
Lemma append_cons a s t : String a s +:+ t = String a (s +:+ t).
Proof. reflexivity. Qed.

Lemma append_nil_l t : EmptyString +:+ t = t.
Proof. reflexivity. Qed.

Lemma append_nil_r s : s +:+ EmptyString = s.
Proof. induction s as [|a s IH]; [done|]. by rewrite append_cons, IH. Qed.

Lemma append_assoc s t u : (s +:+ t) +:+ u = s +:+ (t +:+ u).
Proof. induction s as [|a s IH]; [done|]. by rewrite !append_cons, IH. Qed.

Lemma append_snoc s a t : (s +:+ String a EmptyString) +:+ t = s +:+ String a t.
Proof. by rewrite append_assoc, append_cons, append_nil_l. Qed.

Lemma length_append s t : String.length (s +:+ t) = (String.length s + String.length t)%nat.
Proof. induction s as [|a s IH]; [done|]. rewrite append_cons. cbn. by rewrite IH. Qed.

Lemma slen_append s t : slen (s +:+ t) = slen s + slen t.
Proof. unfold slen. rewrite length_append. lia. Qed.

Lemma slen_cons a s : slen (String a s) = slen s + 1.
Proof. unfold slen. cbn [String.length]. lia. Qed.

Lemma drop_s_app s t : drop_s (String.length s) (s +:+ t) = t.
Proof. induction s as [|a s IH]; [by destruct t|]. rewrite append_cons. apply IH. Qed.

Lemma take_s_app s t : take_s (String.length s) (s +:+ t) = s.
Proof. induction s as [|a s IH]; [by destruct t|]. rewrite append_cons. cbn. by rewrite IH. Qed.

Lemma take_s_all s : take_s (String.length s) s = s.
Proof. induction s as [|a s IH]; [done|]. cbn. by rewrite IH. Qed.

Lemma length_drop_s n s : String.length (drop_s n s) = (String.length s - n)%nat.
Proof. revert s. induction n as [|n IH]; intros [|a s]; cbn; try lia. by rewrite IH. Qed.

Lemma slice_from_app s t : slice_from (s +:+ t) (slen s) = Some t.
Proof.
  unfold slice_from, slice. rewrite slen_append.
  pose proof (slen_nonneg s). pose proof (slen_nonneg t).
  destruct (Z.leb_spec 0 (slen s)); [|lia].
  destruct (Z.leb_spec (slen s) (slen s + slen t)); [|lia].
  rewrite Z.leb_refl. cbn [andb]. f_equal.
  unfold slen. rewrite !Nat2Z.id, drop_s_app.
  replace (Z.to_nat _) with (String.length t) by lia. apply take_s_all.
Qed.

(** A slice in the middle of a string. *)
Lemma slice_mid s t u : slice (s +:+ t +:+ u) (slen s) (slen s + slen t) = Some t.
Proof.
  unfold slice. rewrite !slen_append.
  pose proof (slen_nonneg s). pose proof (slen_nonneg t). pose proof (slen_nonneg u).
  destruct (Z.leb_spec 0 (slen s)); [|lia].
  destruct (Z.leb_spec (slen s) (slen s + slen t)); [|lia].
  destruct (Z.leb_spec (slen s + slen t) (slen s + (slen t + slen u))); [|lia].
  cbn [andb]. f_equal. unfold slen. rewrite Nat2Z.id, drop_s_app.
  replace (Z.to_nat _) with (String.length t) by lia. apply take_s_app.
Qed.

Lemma prefix_app s t : String.prefix s (s +:+ t) = true.
Proof.
  induction s as [|a s IH]; [by destruct t|]. rewrite append_cons. cbn.
  destruct (ascii_dec a a); [apply IH|done].
Qed.

Lemma prefix_spec s t : String.prefix s t = true -> exists u, t = s +:+ u.
Proof.
  revert t. induction s as [|a s IH]; intros t H; [by exists t|].
  destruct t as [|b t]; [done|]. cbn in H.
  destruct (ascii_dec a b) as [->|]; [|done].
  destruct (IH _ H) as [u ->]. by exists u.
Qed.

(** What [strings.Index] finds is an occurrence. *)
Lemma index_nat_spec sub s n :
  index_nat sub s = Some n -> exists a b, s = a +:+ sub +:+ b /\ String.length a = n.
Proof.
  revert n. induction s as [|c s IH]; intros n; cbn [index_nat].
  - destruct (String.prefix sub EmptyString) eqn:E; [|done]. intros [= <-].
    apply prefix_spec in E as [u E]. by exists EmptyString, u.
  - destruct (String.prefix sub (String c s)) eqn:E.
    + intros [= <-]. apply prefix_spec in E as [u E]. by exists EmptyString, u.
    + destruct (index_nat sub s) as [m|]; [|done]. intros [= <-].
      destruct (IH m eq_refl) as (a & b & -> & <-). by exists (String c a), b.
Qed.

Lemma strIndex_range s sub :
  strIndex s sub = -1 \/ (0 <= strIndex s sub /\ strIndex s sub + slen sub <= slen s).
Proof.
  unfold strIndex. destruct (index_nat sub s) as [n|] eqn:E; [right|by left].
  apply index_nat_spec in E as (a & b & -> & <-).
  rewrite !slen_append. unfold slen. lia.
Qed.

(** The last byte of a string. *)
Fixpoint last_char (s : string) : option ascii :=
  match s with
  | EmptyString => None
  | String a EmptyString => Some a
  | String _ r => last_char r
  end.

Lemma last_char_append s t : t <> EmptyString -> last_char (s +:+ t) = last_char t.
Proof.
  intros Ht. induction s as [|a s IH]; [done|]. rewrite append_cons. cbn [last_char].
  rewrite <- IH. destruct (s +:+ t) eqn:E; [|done].
  destruct s; [by rewrite append_nil_l in E|by rewrite append_cons in E].
Qed.

(** An occurrence found on a line ends before the newline. *)
Lemma strIndex_before_newline t sub c :
  last_char sub = Some c -> c <> nl -> 0 <= strIndex (t +:+ String nl EmptyString) sub ->
  strIndex (t +:+ String nl EmptyString) sub + slen sub <= slen t.
Proof.
  unfold strIndex. intros Hs Hc Hp. destruct (index_nat _ _) as [n|] eqn:E; [|lia].
  apply index_nat_spec in E as (a & b & E & <-).
  assert (L := f_equal slen E). rewrite !slen_append in L.
  assert (slen (String nl EmptyString) = 1) by done. unfold slen in *.
  destruct b as [|x b]; [|cbn in *; lia]. exfalso. apply Hc.
  assert (sub <> EmptyString) by (by intros ->).
  apply (f_equal last_char) in E. rewrite append_nil_r, !last_char_append in E by done.
  cbn in E. congruence.
Qed.

(** Lines end in the newline that closed them. *)
Lemma lines_go_newline cur s l : l ∈ lines_go cur s -> exists t, l = t +:+ String nl EmptyString.
Proof.
  revert cur. induction s as [|a s IH]; intros cur; cbn [lines_go]; [by rewrite elem_of_nil|].
  destruct (Ascii.eqb a nl) eqn:E; [|apply IH].
  apply Ascii.eqb_eq in E as ->. rewrite elem_of_cons. intros [->|H]; [by eexists|by eapply IH].
Qed.

(** *** Itoa and Atoi *)

Lemma code_digit_char d : 0 <= d < 10 -> code (digit_char d) = 48 + d.
Proof.
  intros H. unfold code, digit_char. rewrite N_ascii_embedding; lia.
Qed.

Lemma digit_val_char d : 0 <= d < 10 -> digit_val (digit_char d) = Some d.
Proof.
  intros H. unfold digit_val. rewrite code_digit_char by lia.
  destruct (Z.leb_spec 48 (48 + d)); [|lia]. destruct (Z.leb_spec (48 + d) 57); [|lia].
  cbn. f_equal. lia.
Qed.

Lemma puint_go_digit v d s :
  0 <= v -> 0 <= d < 10 -> v * 10 + d <= maxUint64 ->
  puint_go v (String (digit_char d) s) = puint_go (v * 10 + d) s.
Proof.
  intros Hv Hd Hm. cbn [puint_go]. rewrite digit_val_char by lia.
  unfold maxUint64 in *.
  destruct (Z.leb_spec ((2 ^ 64 - 1) / 10 + 1) v) as [L|_].
  { change ((2 ^ 64 - 1) / 10 + 1) with 1844674407370955162 in L. lia. }
  destruct (Z.ltb_spec (2 ^ 64 - 1) (v * 10 + d)); [lia|done].
Qed.

Lemma puint_utoa fuel n acc :
  0 <= n <= maxUint64 -> n < 10 ^ (Z.of_nat fuel + 1) ->
  puint_go 0 (utoa fuel n acc) = puint_go n acc.
Proof.
  revert n acc. induction fuel as [|f IH]; intros n acc Hn Hf; cbn [utoa].
  - assert (n < 10) by (change (10 ^ (Z.of_nat 0 + 1)) with 10 in Hf; lia).
    rewrite Z.mod_small by lia. rewrite puint_go_digit by lia. f_equal.
  - destruct (Z.ltb_spec n 10).
    + rewrite Z.mod_small by lia. rewrite puint_go_digit by lia. f_equal.
    + pose proof (Z.div_mod n 10 ltac:(lia)). pose proof (Z.mod_pos_bound n 10 ltac:(lia)).
      replace (Z.of_nat (S f) + 1) with (Z.succ (Z.of_nat f + 1)) in Hf by lia.
      rewrite Z.pow_succ_r in Hf by lia.
      rewrite IH by (try apply Z.div_lt_upper_bound; lia).
      rewrite puint_go_digit by lia. f_equal. lia.
Qed.

Lemma utoa_cons fuel n acc : 0 <= n -> exists d s, utoa fuel n acc = String (digit_char d) s /\ 0 <= d < 10.
Proof.
  revert n acc. induction fuel as [|f IH]; intros n acc Hn; cbn [utoa].
  - do 2 eexists. split; [done|]. apply Z.mod_pos_bound. lia.
  - destruct (n <? 10); [do 2 eexists; split; [done|]; apply Z.mod_pos_bound; lia|].
    apply IH. apply Z.div_pos; lia.
Qed.

Lemma ParseUint_utoa n : 0 <= n <= maxUint64 -> ParseUint (utoa 20 n EmptyString) = (n, None).
Proof.
  intros H. destruct (utoa_cons 20 n EmptyString) as (d & s & E & _); [lia|].
  unfold ParseUint. rewrite E, <- E, puint_utoa; [done|lia|].
  unfold maxUint64 in H. change (10 ^ (Z.of_nat 20 + 1)) with (10 ^ 21). lia.
Qed.

(** Numbers printed with [Itoa] or %d are read back by [Atoi]. *)
Lemma Atoi_Itoa_roundtrip n : in_i64 n -> Atoi (Itoa n) = (n, None).
Proof.
  unfold in_i64, minInt64, maxInt64, Atoi, Itoa. intros H.
  destruct (Z.ltb_spec n 0).
  - unfold ParseInt. rewrite (Ascii.eqb_refl minus), ParseUint_utoa by (unfold maxUint64; lia).
    destruct (Z.ltb_spec (2 ^ 63) (- n)); [lia|]. f_equal. lia.
  - destruct (utoa_cons 20 n EmptyString) as (d & s & E & Hd); [lia|].
    unfold ParseInt. rewrite E.
    assert (Hc := code_digit_char d Hd).
    destruct (Ascii.eqb_spec (digit_char d) minus) as [Em|_].
    { rewrite Em in Hc. change (code minus) with 45 in Hc. lia. }
    destruct (Ascii.eqb_spec (digit_char d) plus) as [Ep|_].
    { rewrite Ep in Hc. change (code plus) with 43 in Hc. lia. }
    rewrite <- E, ParseUint_utoa by (unfold maxUint64; lia).
    destruct (Z.leb_spec (2 ^ 63) n); [lia|done].
Qed.

(** Whatever the input, [Atoi] returns an int. *)
Lemma Atoi_range s : in_i64 (Atoi s).1.
Proof.
  unfold Atoi, ParseInt.
  destruct (match s with String a r => _ | EmptyString => (false, s) end) as [neg ds].
  assert (Hu : 0 <= (ParseUint ds).1).
  { unfold ParseUint. destruct ds as [|a ds]; [done|]. generalize (String a ds). intros t.
    assert (G : forall v, 0 <= v -> 0 <= (puint_go v t).1); [|by apply G].
    induction t as [|b t IH]; intros v Hv; cbn [puint_go]; [done|].
    destruct (digit_val b) as [d|] eqn:E; [|done].
    unfold digit_val in E. case_match; [|done]. injection E as <-. zbool.
    destruct (_ <=? v); [done|]. destruct (_ <? _); [done|]. apply IH. lia. }
  unfold in_i64, minInt64, maxInt64 in *.
  destruct (ParseUint ds) as [u [[|]|]]; cbn in Hu; [cbn; lia| |]; destruct neg; case_tests; cbn; lia.
Qed.

#[export] Hint Resolve slen_nonneg Atoi_range Atoi_Itoa_roundtrip : go.
#[export] Hint Rewrite append_nil_l append_nil_r append_snoc slen_append : go.

(** *** Bytes a string does not hold *)

(** [c] does not occur in [s]. *)
Fixpoint no_char (c : ascii) (s : string) : Prop :=
  match s with
  | EmptyString => True
  | String a r => a <> c /\ no_char c r
  end.

Lemma no_char_app c s t : no_char c (s +:+ t) <-> no_char c s /\ no_char c t.
Proof.
  induction s as [|a s IH]; [rewrite append_nil_l; cbn; tauto|].
  rewrite append_cons. cbn [no_char]. rewrite IH. tauto.
Qed.

Lemma no_char_dec c s : {no_char c s} + {~ no_char c s}.
Proof.
  induction s as [|a s [IH|IH]]; cbn; [by left| |right; tauto].
  destruct (ascii_dec a c); [right; tauto|by left].
Defined.

#[export] Instance no_char_decision c s : Decision (no_char c s) := no_char_dec c s.

(** The first line of a text. *)
Lemma lines_go_first cur s r :
  no_char nl s -> lines_go cur (s +:+ String nl r) = (cur +:+ s +:+ String nl EmptyString) :: lines_go EmptyString r.
Proof.
  revert cur. induction s as [|a s IH]; intros cur.
  - intros _. rewrite !append_nil_l. cbn [lines_go]. by rewrite Ascii.eqb_refl.
  - intros [Ha Hs]. rewrite !append_cons. cbn [lines_go].
    destruct (Ascii.eqb_spec a nl); [done|]. by rewrite IH, append_snoc by done.
Qed.

Lemma read_lines_first s r :
  no_char nl s -> read_lines (s +:+ String nl r) = (s +:+ String nl EmptyString) :: read_lines r.
Proof. apply lines_go_first. Qed.

(** A text that begins with a byte not in [s] is not found in [s]. *)
Lemma index_nat_absent c sub s : no_char c s -> index_nat (String c sub) s = None.
Proof.
  induction s as [|a s IH]; [done|]. intros [Ha Hs]. cbn [index_nat String.prefix].
  destruct (ascii_dec c a); [congruence|]. by rewrite IH.
Qed.

Lemma index_nat_head sub s : index_nat sub (sub +:+ s) = Some O.
Proof.
  destruct (sub +:+ s) as [|a r] eqn:E; cbn [index_nat]; rewrite <- E, prefix_app; done.
Qed.

Lemma index_nat_skip a c sub s :
  a <> c -> index_nat (String c sub) (String a s) = S <$> index_nat (String c sub) s.
Proof. intros H. cbn [index_nat String.prefix]. by destruct (ascii_dec c a). Qed.

Lemma utoa_no_char c fuel n acc :
  0 <= n -> (forall d, 0 <= d < 10 -> digit_char d <> c) -> no_char c acc -> no_char c (utoa fuel n acc).
Proof.
  intros Hn Hc. revert n acc Hn. induction fuel as [|f IH]; intros n acc Hn Ha; cbn [utoa].
  - split; [apply Hc, Z.mod_pos_bound; lia|done].
  - destruct (n <? 10); [|apply IH; [apply Z.div_pos; lia|]];
      (split; [apply Hc, Z.mod_pos_bound; lia|done]).
Qed.

(** Printed numbers hold digits and a minus sign only. *)
Definition is_num_char (c : ascii) : bool := (code c =? 45) || ((48 <=? code c) && (code c <=? 57)).

Lemma Itoa_no_char c n : is_num_char c = false -> no_char c (Itoa n).
Proof.
  unfold is_num_char. intros Hc. apply orb_false_iff in Hc as [Hm Hr]. apply Z.eqb_neq in Hm.
  assert (Hd : forall d, 0 <= d < 10 -> digit_char d <> c).
  { intros d H E. pose proof (code_digit_char d H) as Ec. rewrite E in Ec.
    destruct (Z.leb_spec 48 (code c)); [|lia]. destruct (Z.leb_spec (code c) 57); [done|lia]. }
  unfold Itoa. destruct (n <? 0) eqn:En; zbool.
  - cbn [no_char]. split; [|apply utoa_no_char; [lia|done|done]]. intros <-. by apply Hm.
  - apply utoa_no_char; [lia|done|done].
Qed.

(** *** Heads of longer texts *)

Lemma take_s_append n s t : (String.length s <= n)%nat -> take_s n (s +:+ t) = s +:+ take_s (n - String.length s) t.
Proof.
  revert n. induction s as [|a s IH]; intros n Hn.
  - rewrite !append_nil_l. cbn. by rewrite Nat.sub_0_r.
  - rewrite !append_cons. cbn in Hn. destruct n as [|n]; [lia|]. cbn [take_s]. rewrite IH by lia. done.
Qed.

Lemma index_nat_after c sub a s :
  no_char c a -> index_nat (String c sub) (a +:+ s) = (fun n => (String.length a + n)%nat) <$> index_nat (String c sub) s.
Proof.
  induction a as [|x a IH]; intros Ha.
  - rewrite append_nil_l. by destruct (index_nat _ s).
  - destruct Ha as [Hx Ha]. rewrite append_cons, index_nat_skip, IH by done. by destruct (index_nat _ s).
Qed.

Lemma slen_take n s : slen (take_s n s) = Z.min (Z.of_nat n) (slen s).
Proof.
  unfold slen. revert s. induction n as [|n IH]; intros [|a s]; cbn [take_s String.length]; try lia.
  specialize (IH s). lia.
Qed.

Lemma get_append s a t : String.get (String.length s) (s +:+ String a t) = Some a.
Proof. induction s as [|b s IH]; [done|]. by rewrite append_cons. Qed.

