(* ===== verification/Json.v ===== *)
(** * JSON, as the encoding/json package reads and writes it

    Bodies of HTTP requests and responses are JSON texts.  This file models
    what the program uses of encoding/json: the syntax check, decoding into
    structs (names matched exactly, else case-insensitively; unknown members
    skipped; null leaving a field alone; a value of the wrong type recorded as
    an error while the rest is still decoded), and Marshal's escaping. *)

From S2P Require Import Prelude GoStrings.
From Stdlib Require Import ZArith Lia Ascii String.
From stdpp Require Import base numbers strings gmap sets list.

Local Open Scope Z_scope.

(** ** Values *)

Inductive json :=
| JNull
| JBool (b : bool)
| JNum (lit : string)
| JStr (s : string)
| JArr (l : list json)
| JObj (ms : list (string * json)).

(** ** UTF-8 *)

Definition chr (c : Z) : ascii := ascii_of_N (Z.to_N c).

(** U+FFFD, written for invalid input. *)
Definition replacement : string :=
  String (chr 239) (String (chr 191) (String (chr 189) EmptyString)).

Definition cont (b : ascii) : bool := (128 <=? code b) && (code b <=? 191).
Definition between (lo hi : Z) (b : ascii) : bool := (lo <=? code b) && (code b <=? hi).

(** The width of the valid multi-byte character at the head, 0 if none. *)
Definition utf8_width (s : string) : nat :=
  match s with
  | String a (String b r) =>
    let c := code a in
    if between 194 223 a then (if cont b then 2%nat else 0%nat) else
    match r with
    | String d r' =>
      let ok3 := ((c =? 224) && between 160 191 b) || (between 225 236 a && cont b)
                 || ((c =? 237) && between 128 159 b) || (between 238 239 a && cont b) in
      if ok3 && cont d then 3%nat else
      match r' with
      | String e _ =>
        let ok4 := ((c =? 240) && between 144 191 b) || (between 241 243 a && cont b)
                   || ((c =? 244) && between 128 143 b) in
        if ok4 && cont d && cont e then 4%nat else 0%nat
      | EmptyString => 0%nat
      end
    | EmptyString => 0%nat
    end
  | _ => 0%nat
  end.

(** The encoding of a code point. *)
Definition utf8_encode (u : Z) : string :=
  if u <? 128 then String (chr u) EmptyString
  else if u <? 2048 then String (chr (192 + u / 64)) (String (chr (128 + u mod 64)) EmptyString)
  else if u <? 65536 then
    String (chr (224 + u / 4096)) (String (chr (128 + u / 64 mod 64)) (String (chr (128 + u mod 64)) EmptyString))
  else String (chr (240 + u / 262144)) (String (chr (128 + u / 4096 mod 64))
    (String (chr (128 + u / 64 mod 64)) (String (chr (128 + u mod 64)) EmptyString))).

(** ** Scanning *)

Fixpoint skip_ws (s : string) : string :=
  match s with
  | String a r =>
    let c := code a in
    if (c =? 32) || (c =? 9) || (c =? 10) || (c =? 13) then skip_ws r else s
  | EmptyString => s
  end.

Definition hex_val (a : ascii) : option Z :=
  let c := code a in
  if (48 <=? c) && (c <=? 57) then Some (c - 48)
  else if (97 <=? c) && (c <=? 102) then Some (c - 87)
  else if (65 <=? c) && (c <=? 70) then Some (c - 55)
  else None.

Definition hex4 (a b c d : ascii) : option Z :=
  match hex_val a, hex_val b, hex_val c, hex_val d with
  | Some w, Some x, Some y, Some z => Some (((w * 16 + x) * 16 + y) * 16 + z)
  | _, _, _, _ => None
  end.

Definition simple_escape (c : Z) : option Z :=
  if (c =? 34) || (c =? 92) || (c =? 47) then Some c
  else if c =? 98 then Some 8
  else if c =? 102 then Some 12
  else if c =? 110 then Some 10
  else if c =? 114 then Some 13
  else if c =? 116 then Some 9
  else None.

Definition pre (p : string) (o : option (string * string)) : option (string * string) :=
  match o with Some (s, r) => Some (p +:+ s, r) | None => None end.

(** The rest of a string literal after its opening quote: the decoded string
    and the text after the closing quote. *)
Fixpoint jstring (s : string) : option (string * string) :=
  match s with
  | EmptyString => None
  | String a r =>
    let c := code a in
    if c =? 34 then Some (EmptyString, r)
    else if c =? 92 then
      match r with
      | EmptyString => None
      | String e r1 =>
        match simple_escape (code e) with
        | Some x => pre (String (chr x) EmptyString) (jstring r1)
        | None =>
          if code e =? 117 then
            match r1 with
            | String h1 (String h2 (String h3 (String h4 r2))) =>
              match hex4 h1 h2 h3 h4 with
              | None => None
              | Some u =>
                if (55296 <=? u) && (u <=? 57343) then
                  match r2 with
                  | String b1 (String b2 (String k1 (String k2 (String k3 (String k4 r3))))) =>
                    match (if (code b1 =? 92) && (code b2 =? 117) then hex4 k1 k2 k3 k4 else None) with
                    | Some v =>
                      if (u <=? 56319) && (56320 <=? v) && (v <=? 57343)
                      then pre (utf8_encode (65536 + (u - 55296) * 1024 + (v - 56320))) (jstring r3)
                      else pre replacement (jstring r2)
                    | None => pre replacement (jstring r2)
                    end
                  | _ => pre replacement (jstring r2)
                  end
                else pre (utf8_encode u) (jstring r2)
              end
            | _ => None
            end
          else None
        end
      end
    else if c <? 32 then None
    else if c <? 128 then pre (String a EmptyString) (jstring r)
    else
      match utf8_width s, r with
      | 2%nat, String b r1 => pre (String a (String b EmptyString)) (jstring r1)
      | 3%nat, String b (String d r2) => pre (String a (String b (String d EmptyString))) (jstring r2)
      | 4%nat, String b (String d (String e r3)) =>
        pre (String a (String b (String d (String e EmptyString)))) (jstring r3)
      | _, _ => pre replacement (jstring r)
      end
  end.

Fixpoint take_digits (s : string) : string * string :=
  match s with
  | String a r =>
    match digit_val a with
    | Some _ => let '(d, r') := take_digits r in (String a d, r')
    | None => (EmptyString, s)
    end
  | EmptyString => (EmptyString, s)
  end.

(** The exponent and fraction parts of a number literal. *)
Definition jexp (s : string) : option (string * string) :=
  match s with
  | String e r =>
    if (code e =? 101) || (code e =? 69) then
      let '(sg, r1) := match r with
        | String p r' => if (code p =? 43) || (code p =? 45) then (String p EmptyString, r') else (EmptyString, r)
        | EmptyString => (EmptyString, r) end in
      match take_digits r1 with
      | (EmptyString, _) => None
      | (d, r2) => Some (String e (sg +:+ d), r2)
      end
    else Some (EmptyString, s)
  | EmptyString => Some (EmptyString, s)
  end.

Definition jfrac (s : string) : option (string * string) :=
  match s with
  | String p r =>
    if code p =? 46 then
      match take_digits r with
      | (EmptyString, _) => None
      | (d, r1) => pre (String p d) (jexp r1)
      end
    else jexp s
  | EmptyString => Some (EmptyString, s)
  end.

Definition jint (s : string) : option (string * string) :=
  match s with
  | String a r =>
    if code a =? 48 then pre (String a EmptyString) (jfrac r)
    else if (49 <=? code a) && (code a <=? 57) then
      let '(d, r1) := take_digits r in pre (String a d) (jfrac r1)
    else None
  | EmptyString => None
  end.

Definition jnumber (s : string) : option (string * string) :=
  match s with
  | String a r => if code a =? 45 then pre (String a EmptyString) (jint r) else jint s
  | EmptyString => None
  end.

(** [s] after the literal [w]. *)
Definition jword (w s : string) : option string :=
  if String.prefix w s then Some (drop_s (String.length w) s) else None.

Definition maxNestingDepth : Z := 10000.

Fixpoint jvalue (fuel : nat) (depth : Z) (s : string) : option (json * string) :=
  match fuel with
  | O => None
  | S f =>
    match skip_ws s with
    | EmptyString => None
    | String a r =>
      let c := code a in
      if c =? 34 then match jstring r with Some (x, r') => Some (JStr x, r') | None => None end
      else if c =? 91 then
        if maxNestingDepth <=? depth then None else
        match skip_ws r with
        | String b r' =>
          if code b =? 93 then Some (JArr [], r')
          else match jelems f (depth + 1) (String b r') with Some (l, r2) => Some (JArr l, r2) | None => None end
        | EmptyString => None
        end
      else if c =? 123 then
        if maxNestingDepth <=? depth then None else
        match skip_ws r with
        | String b r' =>
          if code b =? 125 then Some (JObj [], r')
          else match jmembers f (depth + 1) (String b r') with Some (l, r2) => Some (JObj l, r2) | None => None end
        | EmptyString => None
        end
      else if c =? 110 then match jword "null" (String a r) with Some r' => Some (JNull, r') | None => None end
      else if c =? 116 then match jword "true" (String a r) with Some r' => Some (JBool true, r') | None => None end
      else if c =? 102 then match jword "false" (String a r) with Some r' => Some (JBool false, r') | None => None end
      else match jnumber (String a r) with Some (n, r') => Some (JNum n, r') | None => None end
    end
  end
with jelems (fuel : nat) (depth : Z) (s : string) : option (list json * string) :=
  match fuel with
  | O => None
  | S f =>
    match jvalue f depth s with
    | None => None
    | Some (v, r) =>
      match skip_ws r with
      | String b r' =>
        if code b =? 93 then Some ([v], r')
        else if code b =? 44 then
          match jelems f depth r' with Some (l, r2) => Some (v :: l, r2) | None => None end
        else None
      | EmptyString => None
      end
    end
  end
with jmembers (fuel : nat) (depth : Z) (s : string) : option (list (string * json) * string) :=
  match fuel with
  | O => None
  | S f =>
    match skip_ws s with
    | String q r =>
      if code q =? 34 then
        match jstring r with
        | None => None
        | Some (k, r1) =>
          match skip_ws r1 with
          | String col r2 =>
            if code col =? 58 then
              match jvalue f depth r2 with
              | None => None
              | Some (v, r3) =>
                match skip_ws r3 with
                | String b r' =>
                  if code b =? 125 then Some ([(k, v)], r')
                  else if code b =? 44 then
                    match jmembers f depth r' with Some (l, r4) => Some ((k, v) :: l, r4) | None => None end
                  else None
                | EmptyString => None
                end
              end
            else None
          | EmptyString => None
          end
        end
      else None
    | EmptyString => None
    end
  end.

(** A whole text: one value and nothing but white space after it.  Every call
    of the parser consumes a byte or is followed by one that does, so twice
    the length is enough fuel. *)
Definition json_parse (s : string) : option json :=
  match jvalue (2 * String.length s + 2) 0 s with
  | Some (v, r) => match skip_ws r with EmptyString => Some v | _ => None end
  | None => None
  end.

(** ** Decoding into structs *)

(** Case folding of member names: ASCII letters, and the two other characters
    whose simple fold is an ASCII letter (long s and the Kelvin sign). *)
Definition upper (a : ascii) : ascii :=
  if (97 <=? code a) && (code a <=? 122) then chr (code a - 32) else a.

Fixpoint foldName (s : string) : string :=
  match s with
  | EmptyString => EmptyString
  | String a r =>
    match r with
    | String b r1 =>
      if (code a =? 197) && (code b =? 191) then String "S"%char (foldName r1) else
      match r1 with
      | String d r2 =>
        if (code a =? 226) && (code b =? 132) && (code d =? 170) then String "K"%char (foldName r2)
        else String (upper a) (foldName r)
      | EmptyString => String (upper a) (foldName r)
      end
    | EmptyString => String (upper a) (foldName r)
    end
  end.

(** A decoder updates a value and says whether an error was recorded. *)
Definition decoder (T : Type) := json → T → T * bool.

Definition dec_string : decoder string := λ j cur,
  match j with
  | JStr s => (s, false)
  | JNull => (cur, false)
  | _ => (cur, true)
  end.

Definition dec_int : decoder Z := λ j cur,
  match j with
  | JNum lit => match ParseInt lit with (n, None) => (n, false) | _ => (cur, true) end
  | JNull => (cur, false)
  | _ => (cur, true)
  end.

(** A decoder of one field of a struct. *)
Definition dec_field {T F} (get : T → F) (set : F → T → T) (d : decoder F) : decoder T := λ j cur,
  let '(f, e) := d j (get cur) in (set f cur, e).

Definition find_field {T} (fields : list (string * decoder T)) (k : string) : option (decoder T) :=
  match list_find (λ f, f.1 = k) fields with
  | Some (_, f) => Some f.2
  | None => snd ∘ snd <$> list_find (λ f, foldName f.1 = foldName k) fields
  end.

Fixpoint dec_members {T} (fields : list (string * decoder T)) (ms : list (string * json)) (cur : T) : T * bool :=
  match ms with
  | [] => (cur, false)
  | (k, j) :: ms' =>
    let '(cur1, e1) := match find_field fields k with Some d => d j cur | None => (cur, false) end in
    let '(cur2, e2) := dec_members fields ms' cur1 in (cur2, e1 || e2)
  end.

Definition dec_struct {T} (fields : list (string * decoder T)) : decoder T := λ j cur,
  match j with
  | JObj ms => dec_members fields ms cur
  | JNull => (cur, false)
  | _ => (cur, true)
  end.

Fixpoint dec_elems {T} (d : decoder T) (zero : T) (l : list json) : list T * bool :=
  match l with
  | [] => ([], false)
  | j :: l' =>
    let '(x, e1) := d j zero in
    let '(xs, e2) := dec_elems d zero l' in (x :: xs, e1 || e2)
  end.

(** Decoding into a nil slice. *)
Definition dec_slice {T} (d : decoder T) (zero : T) (j : json) : list T * bool :=
  match j with
  | JArr l => dec_elems d zero l
  | JNull => ([], false)
  | _ => ([], true)
  end.

(** Decoding into a non-nil pointer through its address: null makes it nil. *)
Definition dec_ptr {T} (d : decoder T) (cur : T) (j : json) : option T * bool :=
  match j with
  | JNull => (None, false)
  | _ => let '(x, e) := d j cur in (Some x, e)
  end.

(** [json.Unmarshal]: a text that is not JSON leaves the target alone. *)
Definition Unmarshal {T} (target : T) (dec : json → T * bool) (body : string) : T * bool :=
  match json_parse body with
  | None => (target, true)
  | Some j => dec j
  end.

(** ** Marshal *)

Definition hex_digit (d : Z) : ascii := if d <? 10 then chr (48 + d) else chr (87 + d).

Definition u_escape (c : Z) : string :=
  "\u00" +:+ String (hex_digit (c / 16)) (String (hex_digit (c mod 16)) EmptyString).

(** The escape of one ASCII byte, HTML characters included. *)
Definition quote_ascii (a : ascii) : string :=
  let c := code a in
  if (c =? 34) || (c =? 92) then String (chr 92) (String a EmptyString)
  else if c =? 8 then "\b" else if c =? 12 then "\f"
  else if c =? 10 then "\n" else if c =? 13 then "\r" else if c =? 9 then "\t"
  else if (c <? 32) || (c =? 60) || (c =? 62) || (c =? 38) then u_escape c
  else String a EmptyString.

(** The inside of a string literal; invalid UTF-8 and the two Unicode line
    separators are escaped. *)
Fixpoint quote_body (s : string) : string :=
  match s with
  | EmptyString => EmptyString
  | String a r =>
    if code a <? 128 then quote_ascii a +:+ quote_body r else
    match utf8_width s, r with
    | 2%nat, String b r1 => String a (String b (quote_body r1))
    | 3%nat, String b (String d r2) =>
      if (code a =? 226) && (code b =? 128) && ((code d =? 168) || (code d =? 169))
      then (if code d =? 168 then "\u2028" else "\u2029") +:+ quote_body r2
      else String a (String b (String d (quote_body r2)))
    | 4%nat, String b (String d (String e r3)) => String a (String b (String d (String e (quote_body r3))))
    | _, _ => "\ufffd" +:+ quote_body r
    end
  end.

Definition dquote : ascii := chr 34.

Definition quote (s : string) : string := String dquote (quote_body s +:+ String dquote EmptyString).

Fixpoint json_print (j : json) : string :=
  match j with
  | JNull => "null"
  | JBool true => "true"
  | JBool false => "false"
  | JNum lit => lit
  | JStr s => quote s
  | JArr l =>
    "[" +:+ (fix go (first : bool) (l : list json) : string :=
      match l with
      | [] => EmptyString
      | x :: l' => (if first then EmptyString else ",") +:+ json_print x +:+ go false l'
      end) true l +:+ "]"
  | JObj ms =>
    "{" +:+ (fix go (first : bool) (ms : list (string * json)) : string :=
      match ms with
      | [] => EmptyString
      | (k, x) :: ms' => (if first then EmptyString else ",") +:+ quote k +:+ ":" +:+ json_print x +:+ go false ms'
      end) true ms +:+ "}"
  end.

Example parse_ex :
  json_parse (qs " [ {'a' : -12.5e3, '\u0041b':[true,null , 'x\ud83d\ude00\n']} , {} ] ") =
  Some (JArr [JObj [("a", JNum "-12.5e3");
    ("Ab", JArr [JBool true; JNull; JStr ("x" +:+ utf8_encode 128512 +:+ String nl EmptyString)])]; JObj []]).
Proof. vm_compute. reflexivity. Qed.
