(* ===== verification/JsonFacts.v ===== *)
(** * Printing and parsing JSON

    What [json_print] writes is read back by [json_parse], for every value
    whose strings are ASCII (escapes included), whose numbers are 64-bit
    integers and which is not nested too deeply. *)

From S2P Require Import Prelude GoStrings Json.
From Stdlib Require Import ZArith Lia Ascii.
From stdpp Require Import base numbers strings gmap sets list.

Local Open Scope Z_scope.

(** ** The values *)

(** ASCII text. *)
Fixpoint ascii_text (s : string) : Prop :=
  match s with EmptyString => True | String a r => code a < 128 ∧ ascii_text r end.

#[export] Instance ascii_text_dec s : Decision (ascii_text s).
Proof. induction s as [|a s IH]; cbn [ascii_text]; apply _. Defined.

Lemma ascii_text_app s t : ascii_text (s +:+ t) ↔ ascii_text s ∧ ascii_text t.
Proof.
  induction s as [|a s IH]; [rewrite append_nil_l; cbn; tauto|].
  rewrite append_cons. cbn [ascii_text]. rewrite IH. tauto.
Qed.

Inductive json_ok : Z → json → Prop :=
| ok_null d : json_ok d JNull
| ok_bool d b : json_ok d (JBool b)
| ok_num d n : in_i64 n → json_ok d (JNum (Itoa n))
| ok_str d s : ascii_text s → json_ok d (JStr s)
| ok_arr d l : d < maxNestingDepth → Forall (json_ok (d + 1)) l → json_ok d (JArr l)
| ok_obj d ms : d < maxNestingDepth →
    Forall (λ m : string * json, ascii_text m.1 ∧ json_ok (d + 1) m.2) ms → json_ok d (JObj ms).

(** The text after a value does not continue a number. *)
Definition ends_value (r : string) : Prop :=
  match r with
  | EmptyString => True
  | String a _ => (code a =? 44) || (code a =? 93) || (code a =? 125) || (code a =? 10) = true
  end.

(** ** Strings *)

Lemma jstring_quote_ascii a r : code a < 128 →
  jstring (quote_ascii a +:+ r) = pre (String a EmptyString) (jstring r).
Proof.
  destruct a as [[] [] [] [] [] [] [] []]; intros H; (vm_compute in H; discriminate H) || reflexivity.
Qed.

Lemma jstring_quote s r : ascii_text s →
  jstring (quote_body s +:+ String dquote r) = Some (s, r).
Proof.
  induction s as [|a s IH]; [done|]. intros [Ha Hs]. cbn [quote_body].
  destruct (Z.ltb_spec (code a) 128); [|lia].
  by rewrite append_assoc, jstring_quote_ascii, IH by done.
Qed.

Lemma quote_split s r : quote s +:+ r = String dquote (quote_body s +:+ String dquote r).
Proof. unfold quote. by rewrite append_cons, append_snoc. Qed.

(** ** Numbers *)

Fixpoint all_digits (s : string) : Prop :=
  match s with EmptyString => True | String a r => (∃ d, 0 ≤ d < 10 ∧ a = digit_char d) ∧ all_digits r end.

Lemma take_digits_app s r : all_digits s → ends_value r → take_digits (s +:+ r) = (s, r).
Proof.
  intros Hs Hr. induction s as [|a s IH].
  - rewrite append_nil_l. destruct r as [|b r]; [done|]. cbn [take_digits]. unfold digit_val.
    cbn [ends_value] in Hr. destruct (Z.leb_spec 48 (code b)), (Z.leb_spec (code b) 57); try done.
    exfalso. repeat (apply orb_prop in Hr as [Hr|Hr]); apply Z.eqb_eq in Hr; lia.
  - destruct Hs as [(d&Hd&->) Hs]. rewrite append_cons. cbn [take_digits].
    by rewrite digit_val_char, IH by done.
Qed.

Lemma utoa_digits fuel n acc : 0 ≤ n → all_digits acc → all_digits (utoa fuel n acc).
Proof.
  assert (Hm : ∀ m, 0 ≤ m mod 10 < 10) by (intros; apply Z.mod_pos_bound; lia).
  revert n acc. induction fuel as [|f IH]; intros n acc Hn Ha; cbn [utoa].
  - split; [by exists (n mod 10)|done].
  - destruct (n <? 10); [split; [by exists (n mod 10)|done]|].
    apply IH; [by apply Z.div_pos|]. split; [by exists (n mod 10)|done].
Qed.

(** No leading zero. *)
Lemma utoa_first fuel n acc : 0 < n → n < 10 ^ (Z.of_nat fuel + 1) → all_digits acc →
  ∃ d s, utoa fuel n acc = String (digit_char d) s ∧ 0 < d < 10 ∧ all_digits s.
Proof.
  revert n acc. induction fuel as [|f IH]; intros n acc Hn Hf Ha; cbn [utoa].
  - change (10 ^ (Z.of_nat 0 + 1)) with 10 in Hf. rewrite Z.mod_small by lia. by exists n, acc.
  - destruct (Z.ltb_spec n 10); [rewrite Z.mod_small by lia; by exists n, acc|].
    pose proof (Z.div_mod n 10 ltac:(lia)). pose proof (Z.mod_pos_bound n 10 ltac:(lia)).
    replace (Z.of_nat (S f) + 1) with (Z.succ (Z.of_nat f + 1)) in Hf by lia.
    rewrite Z.pow_succ_r in Hf by lia.
    apply IH; [lia|apply Z.div_lt_upper_bound; lia|]. split; [by exists (n mod 10)|done].
Qed.

Lemma jfrac_end r : ends_value r → jfrac r = Some (EmptyString, r).
Proof.
  destruct r as [|b r]; [done|]. cbn [ends_value]. intros Hr. unfold jfrac, jexp.
  repeat (apply orb_prop in Hr as [Hr|Hr]); apply Z.eqb_eq in Hr; by rewrite Hr.
Qed.

Lemma jint_utoa n r : 0 ≤ n < 10 ^ 21 → ends_value r →
  jint (utoa 20 n EmptyString +:+ r) = Some (utoa 20 n EmptyString, r).
Proof.
  intros Hn Hr. destruct (decide (n = 0)) as [->|Hz].
  - change (utoa 20 0 EmptyString) with "0"%string. unfold jint. rewrite append_cons, append_nil_l.
    change (code "0"%char =? 48) with true. cbn iota. by rewrite jfrac_end.
  - destruct (utoa_first 20 n EmptyString) as (d&s&->&Hd&Hs); [lia|exact (proj2 Hn)|done|].
    rewrite append_cons. unfold jint. rewrite code_digit_char by lia.
    destruct (Z.eqb_spec (48 + d) 48); [lia|].
    rewrite (proj2 (Z.leb_le 49 (48 + d))), (proj2 (Z.leb_le (48 + d) 57)) by lia. cbn [andb].
    rewrite take_digits_app by done. rewrite jfrac_end by done. cbn [pre]. by rewrite append_nil_r.
Qed.

Lemma jnumber_Itoa n r : in_i64 n → ends_value r → jnumber (Itoa n +:+ r) = Some (Itoa n, r).
Proof.
  unfold in_i64, minInt64, maxInt64, Itoa. intros Hn Hr. destruct (Z.ltb_spec n 0).
  - rewrite append_cons. unfold jnumber. change (code GoStrings.minus =? 45) with true. cbn iota.
    by rewrite jint_utoa by (done || lia).
  - destruct (utoa_cons 20 n EmptyString) as (d & s & E & Hd); [lia|].
    rewrite <- (jint_utoa n r) by (done || lia). rewrite E, append_cons. unfold jnumber.
    rewrite code_digit_char by done. by destruct (Z.eqb_spec (48 + d) 45); [lia|].
Qed.

(** ** The shape of what is printed *)

Definition starts_value (a : ascii) : bool :=
  negb ((code a =? 32) || (code a =? 9) || (code a =? 10) || (code a =? 13) || (code a =? 93) || (code a =? 125)).

Lemma skip_ws_starts a r : starts_value a = true → skip_ws (String a r) = String a r.
Proof.
  unfold starts_value. cbn [skip_ws]. intros H. apply negb_true_iff in H.
  repeat (apply orb_false_elim in H as [H ?]). by repeat match goal with E : _ = false |- _ => rewrite E; clear E end.
Qed.

Lemma skip_ws_end r : ends_value r → match r with String a _ => code a ≠ 10 | _ => True end → skip_ws r = r.
Proof.
  destruct r as [|b r]; [done|]. cbn [ends_value skip_ws]. intros Hr Hn.
  repeat (apply orb_prop in Hr as [Hr|Hr]); apply Z.eqb_eq in Hr; rewrite Hr; done.
Qed.

(** The elements of an array and the members of an object, as printed. *)
Fixpoint print_elems (first : bool) (l : list json) : string :=
  match l with
  | [] => EmptyString
  | x :: l' => (if first then EmptyString else ",") +:+ json_print x +:+ print_elems false l'
  end.

Fixpoint print_members (first : bool) (ms : list (string * json)) : string :=
  match ms with
  | [] => EmptyString
  | (k, x) :: ms' =>
    (if first then EmptyString else ",") +:+ quote k +:+ ":" +:+ json_print x +:+ print_members false ms'
  end.

Lemma json_print_arr l : json_print (JArr l) = "[" +:+ print_elems true l +:+ "]".
Proof.
  cbn [json_print]. apply (f_equal (String.append _)), (f_equal (λ s, s +:+ _)).
  match goal with |- ?g true l = _ => assert (G : ∀ l b, g b l = print_elems b l); [|apply G] end.
  clear l. intros l. induction l as [|x l IH]; intros b; cbn [print_elems]; [done|]. by rewrite IH.
Qed.

Lemma json_print_obj ms : json_print (JObj ms) = "{" +:+ print_members true ms +:+ "}".
Proof.
  cbn [json_print]. apply (f_equal (String.append _)), (f_equal (λ s, s +:+ _)).
  match goal with |- ?g true ms = _ => assert (G : ∀ ms b, g b ms = print_members b ms); [|apply G] end.
  clear ms. intros ms. induction ms as [|[k x] ms IH]; intros b; cbn [print_members]; [done|]. by rewrite IH.
Qed.

Lemma print_head d j : json_ok d j → ∃ a s, json_print j = String a s ∧ starts_value a = true.
Proof.
  destruct 1 as [d|d b|d n Hn|d s Hs|d l Hd Hl|d ms Hd Hm].
  - by do 2 eexists.
  - destruct b; by do 2 eexists.
  - cbn [json_print]. unfold Itoa, in_i64, minInt64, maxInt64 in *. destruct (Z.ltb_spec n 0); [by do 2 eexists|].
    destruct (utoa_cons 20 n EmptyString) as (d'&s&->&Hd'); [lia|]. do 2 eexists. split; [done|].
    unfold starts_value. rewrite code_digit_char by done.
    repeat match goal with |- context [48 + d' =? ?k] => destruct (Z.eqb_spec (48 + d') k); [lia|] end. done.
  - by do 2 eexists.
  - rewrite json_print_arr. by do 2 eexists.
  - rewrite json_print_obj. by do 2 eexists.
Qed.

(** ** Parsing what was printed *)

Definition parses (d : Z) (j : json) : Prop := ∀ f r,
  (2 * String.length (json_print j) ≤ f)%nat → ends_value r →
  jvalue f d (json_print j +:+ r) = Some (j, r).

(** What closes an array or an object. *)
Definition closes (c : Z) (a : ascii) : Prop := code a = c.

Lemma jelems_print d x l : parses d x → Forall (parses d) l →
  (Forall (json_ok d) l) → ∀ f r c, closes 93 c →
  (2 * String.length (print_elems true (x :: l)) + 1 ≤ f)%nat →
  jelems f d (print_elems true (x :: l) +:+ String c r) = Some (x :: l, r).
Proof.
  intros Hx Hl. revert x Hx. induction Hl as [|y l Hy Hl IH]; intros x Hx Hok f r c Hc Hf;
    (destruct f as [|f]; [lia|]); cbn [print_elems] in Hf |- *;
    rewrite ?append_nil_l, ?append_nil_r, ?length_append in *; cbn [jelems].
  - rewrite Hx; [|cbn [String.length] in Hf; lia|cbn [ends_value]; rewrite Hc; done].
    rewrite skip_ws_end by (cbn [ends_value]; rewrite ?Hc; done). rewrite Hc. done.
  - inversion Hok as [|? ? Hoky Hokl]; subst.
    rewrite !append_assoc. rewrite Hx; [|lia|done].
    rewrite !append_cons, !append_nil_l. rewrite skip_ws_end by done. cbn [code].
    change (code ","%char) with 44. cbn iota beta. change (44 =? 93) with false. change (44 =? 44) with true. cbn iota.
    specialize (IH y Hy Hokl f r c Hc). cbn [print_elems] in IH. rewrite append_nil_l, !append_assoc in IH.
    rewrite IH; [done|]. rewrite !length_append. change (String.length ",") with 1%nat in Hf. lia.
Qed.

Lemma jmembers_print d k x ms : ascii_text k → parses d x →
  Forall (λ m : string * json, ascii_text m.1 ∧ parses d m.2) ms →
  ∀ f r c, closes 125 c →
  (2 * String.length (print_members true ((k, x) :: ms)) + 1 ≤ f)%nat →
  jmembers f d (print_members true ((k, x) :: ms) +:+ String c r) = Some ((k, x) :: ms, r).
Proof.
  intros Hk Hx Hl. revert k x Hk Hx. induction Hl as [|[k' y] ms [Hk' Hy] _ IH]; intros k x Hk Hx f r c Hc Hf;
    (destruct f as [|f]; [lia|]); cbn [print_members] in Hf |- *;
    rewrite ?append_nil_l, ?append_nil_r, ?length_append in *; change (String.length ":") with 1%nat in Hf;
    rewrite !append_assoc, quote_split; cbn [jmembers];
    rewrite skip_ws_starts by done; change (code dquote =? 34) with true; cbn iota;
    rewrite jstring_quote by done; rewrite append_cons, append_nil_l, skip_ws_starts by done;
    change (code ":"%char =? 58) with true; cbn iota.
  - rewrite Hx; [|lia|cbn [ends_value]; rewrite Hc; done].
    rewrite skip_ws_end by (cbn [ends_value]; rewrite ?Hc; done). rewrite Hc. done.
  - rewrite Hx; [|lia|done].
    rewrite !append_cons, !append_nil_l. rewrite skip_ws_end by done.
    change (code ","%char =? 125) with false. change (code ","%char =? 44) with true. cbn iota.
    specialize (IH k' y Hk' Hy f r c Hc). cbn [print_members] in IH.
    rewrite append_nil_l, !append_assoc, !append_cons, !append_nil_l in IH.
    rewrite IH; [done|]. cbn [String.length] in Hf.
    rewrite length_append. cbn [String.length].
    rewrite length_append. lia.
Qed.

Lemma jword_app w r : jword w (w +:+ r) = Some r.
Proof. unfold jword. by rewrite GoStrings.prefix_app, drop_s_app. Qed.

(** Decide the tests on a known character. *)
Ltac code_tests := repeat match goal with
  |- context [code ?a =? ?k] => let b := eval vm_compute in (code a =? k) in change (code a =? k) with b; cbn iota
  end.

Ltac jliteral w r :=
  let J := fresh in assert (J := jword_app w r); cbn [json_print jvalue];
  rewrite append_cons in J |- *; rewrite skip_ws_starts by done; code_tests; by rewrite J.

Lemma parses_scalar d j : match j with JArr _ | JObj _ => False | _ => True end → json_ok d j → parses d j.
Proof.
  intros Hj H f r Hf Hr. destruct f as [|f].
  { destruct (print_head d j H) as (a&s&E&_). rewrite E in Hf. cbn in Hf. lia. }
  destruct H as [d|d b|d n Hn|d s Hs| |]; [| | | |done|done].
  - jliteral "null"%string r.
  - destruct b; [jliteral "true"%string r|jliteral "false"%string r].
  - destruct (print_head d (JNum (Itoa n))) as (a&s&E&Ha); [by constructor|]. cbn [json_print] in *.
    assert (Hj' := jnumber_Itoa n r Hn Hr). rewrite E, append_cons in *. cbn [jvalue].
    rewrite skip_ws_starts, Hj' by done.
    assert (G : (code a =? 34) = false ∧ (code a =? 91) = false ∧ (code a =? 123) = false ∧
      (code a =? 110) = false ∧ (code a =? 116) = false ∧ (code a =? 102) = false).
    { assert (Hd : a = GoStrings.minus ∨ ∃ d', 0 ≤ d' < 10 ∧ a = digit_char d').
      { unfold Itoa in E. destruct (n <? 0) eqn:En; [injection E as <- _; by left|].
        apply Z.ltb_ge in En. destruct (utoa_cons 20 n EmptyString En) as (d'&s'&E'&Hd').
        rewrite E' in E. injection E as <- _. right. by exists d'. }
      destruct Hd as [-> | (d'&Hd&->)]; [done|]. rewrite code_digit_char by done. rewrite !Z.eqb_neq. lia. }
    destruct G as (->&->&->&->&->&->). done.
  - cbn [json_print]. rewrite quote_split. cbn [jvalue]. rewrite skip_ws_starts by done.
    change (code dquote =? 34) with true. cbn iota. by rewrite jstring_quote.
Qed.

Lemma json_ok_parses : ∀ d j, json_ok d j → parses d j.
Proof.
  fix IH 3. intros d j H.
  destruct H as [d|d b|d n Hn|d s Hs|d l Hd Hl|d ms Hd Hm];
    try (apply parses_scalar; [done|by constructor]).
  - assert (Hp : Forall (parses (d + 1)) l) by (clear Hd; induction Hl; constructor; auto). clear IH.
    intros f r Hf Hr. rewrite json_print_arr in *. rewrite !length_append in Hf.
    change (String.length "[") with 1%nat in Hf. change (String.length "]") with 1%nat in Hf.
    destruct f as [|f]; [lia|]. rewrite !append_cons, append_nil_l, append_snoc. cbn [jvalue].
    rewrite skip_ws_starts by done. change (code "["%char =? 34) with false. change (code "["%char =? 91) with true.
    cbn iota. destruct (Z.leb_spec maxNestingDepth d) as [|_]; [lia|].
    destruct l as [|x l]; [done|].
    assert (Hh := jelems_print (d + 1) x l). inversion Hp; inversion Hl; subst.
    specialize (Hh ltac:(done) ltac:(done) ltac:(done) f r "]"%char ltac:(done) ltac:(lia)).
    destruct (print_head (d + 1) x) as (a&s&E&Ha); [done|].
    assert (Ea : print_elems true (x :: l) = String a (s +:+ print_elems false l)).
    { cbn [print_elems]. by rewrite append_nil_l, E, append_cons. }
    rewrite Ea, append_cons in *. rewrite skip_ws_starts by done.
    destruct (Z.eqb_spec (code a) 93) as [E93|_].
    { unfold starts_value in Ha. by rewrite E93 in Ha. }
    by rewrite Hh.
  - assert (Hp : Forall (λ m : string * json, ascii_text m.1 ∧ parses (d + 1) m.2) ms).
    { clear Hd. induction Hm as [|m ms [H1 H2] _ IHm]; constructor; auto. } clear IH.
    intros f r Hf Hr. rewrite json_print_obj in *. rewrite !length_append in Hf.
    change (String.length "{") with 1%nat in Hf. change (String.length "}") with 1%nat in Hf.
    destruct f as [|f]; [lia|]. rewrite !append_cons, append_nil_l, append_snoc. cbn [jvalue].
    rewrite skip_ws_starts by done. change (code "{"%char =? 34) with false. change (code "{"%char =? 91) with false.
    change (code "{"%char =? 123) with true.
    cbn iota. destruct (Z.leb_spec maxNestingDepth d) as [|_]; [lia|].
    destruct ms as [|[k x] ms]; [done|].
    inversion Hp as [|? ? [Hk Hx] Hms]; subst.
    assert (Hh := jmembers_print (d + 1) k x ms Hk Hx Hms f r "}"%char ltac:(done) ltac:(lia)).
    assert (Ea : print_members true ((k, x) :: ms) =
      String dquote (quote_body k +:+ String dquote (":" +:+ json_print x +:+ print_members false ms))).
    { cbn [print_members]. by rewrite append_nil_l, quote_split. }
    rewrite Ea, append_cons in *. rewrite skip_ws_starts by done.
    change (code dquote =? 125) with false. cbn iota. by rewrite Hh.
Qed.

(** A printed value, with or without the newline an encoder adds, parses to
    itself. *)
Lemma json_parse_print j r : json_ok 0 j → r = EmptyString ∨ r = String nl EmptyString →
  json_parse (json_print j +:+ r) = Some j.
Proof.
  intros H Hr. unfold json_parse. rewrite (json_ok_parses 0 j H).
  - by destruct Hr as [-> | ->].
  - rewrite length_append. lia.
  - by destruct Hr as [-> | ->].
Qed.
