(* ===== verification/World.v ===== *)
(** * The pod's memory, its environment, and the monad of its code

    Data structures shared by the Go files (nodes.go, operator.go, data.go,
    logAggregation.go, conman.go, creds.go, logRotation.go), the package-level
    variables as one record [world], the outside world as a record of oracles
    [env], and the state monad [M] in which every function is written: a
    computation ends with a value ([Done]), kills the process ([Panic]), or
    does not end ([Stuck]): it made a request that never returns, or ran out of
    the retry budget given to a loop that waits for another service. *)

From S2P Require Import Prelude.
From Stdlib Require Import ZArith.
From stdpp Require Import base numbers strings gmap sets list.

(** ** Data types *)

(** [type nodeConsoleInfo struct] (the field [Class] is [nodeClass] here). *)
Record nodeConsoleInfo := NodeCI {
  NodeName : string;
  BmcName : string;
  BmcFqdn : string;
  nodeClass : string;
  NID : Z;
  Role : string
}.

#[export] Instance nodeConsoleInfo_eq_dec : EqDecision nodeConsoleInfo.
Proof. solve_decision. Defined.

(** [type PodLocationDataResponse struct] *)
Record PodLocationDataResponse := PodLoc {
  pl_PodName : string;
  pl_Alias : string;
  pl_Xname : string
}.

(** [type CurrentTargets struct] *)
Record CurrentTargets := Targets {
  TargetNumRvrNodes : Z;
  TargetNumMtnNodes : Z;
  TotalRvrNodes : Z;
  TotalMtnNodes : Z;
  TargetNumNodePods : Z
}.

(** The fields of the vault record that the program reads. *)
Record CompCredentials := Creds {
  Username : string;
  Password : string
}.

#[export] Instance CompCredentials_eq_dec : EqDecision CompCredentials.
Proof. solve_decision. Defined.

(** ** Package-level variables *)

(** nodes.go: the three groups of nodes and the acquisition parameters.  The
    maps hold pointers to records that nothing modifies after they are stored,
    so they are maps to the records themselves. *)
Record nodesState := NodesState {
  currentMtnNodes : gmap string nodeConsoleInfo;
  currentRvrNodes : gmap string nodeConsoleInfo;
  currentPdsNodes : gmap string nodeConsoleInfo;
  targetRvrNodes : Z;
  targetMtnNodes : Z;
  maxAcquireRvr : Z;
  maxAcquireMtn : Z;
  newNodeLookupSec : Z
}.

(** logAggregation.go: [tailThreads] maps an xname to the cancel function of
    the goroutine tailing its log; a cancel function is the number of the
    goroutine it stops.  [watchers] are the goroutines that run and were not
    told to stop; [lingering] are those whose context was cancelled and that
    have not noticed yet: their select statement may still take lines. *)
Record tailState := TailState {
  tailThreads : gmap string nat;
  watchers : gmap nat string;
  lingering : gmap nat string;
  nextWatch : nat;
  conAggLogFile : string;
  conAggLogger : option string
}.

(** conman.go: [command *exec.Cmd].  Between [exec.Command] and [Start] the
    command exists but its [Process] field is nil; after the process ends the
    command stays until [executeConman] resets it. *)
Inductive cmdState := CmdNil | CmdCreated | CmdRunning | CmdExited.

#[export] Instance cmdState_eq_dec : EqDecision cmdState.
Proof. solve_decision. Defined.

(** creds.go and monitor.go: what was last configured; [None] is nil. *)
Record credState := CredState {
  previousPrivateKeyHash : option (list Z);
  previousPasswords : option (gmap string CompCredentials)
}.

(** logRotation.go: rotation parameters. *)
Record rotState := RotState {
  logRotEnabled : bool;
  logRotCheckFreqSec : Z;
  logRotConFileSize : string;
  logRotConNumRotate : Z;
  logRotAggFileSize : string;
  logRotAggNumRotate : Z
}.

(** consoleNodeMain.go and data.go; [podLocData] is a pointer. *)
Record podState := PodState {
  debugOnly : bool;
  podName : string;
  podID : string;
  podLocData : option PodLocationDataResponse;
  inShutdown : bool;
  heartbeatIntervalSecs : Z;
  lastHeartbeatTime : string
}.

(** A file or directory: contents and permission bits. *)
Record file := File { content : string; mode : Z }.

(** ** Interactions with the outside *)

Record http_request := HttpRequest {
  rq_method : string;
  rq_url : string;
  rq_body : option string;
  rq_headers : list (string * string)
}.

(** How [http.NewRequest], [client.Do] and [io.ReadAll] can end, when they
    end: the client has no timeout. *)
Inductive http_outcome :=
| NewRequestFails
| DoFails
| ReadBodyFails (status : Z)
| Response (status : Z) (body : string).

Inductive signal := SIGHUP | SIGTERM.

#[export] Instance signal_eq_dec : EqDecision signal.
Proof. solve_decision. Defined.

Inductive fs_op := OpStat | OpOpen | OpCreate | OpWrite | OpChmod | OpMkdir | OpSeek | OpRead.

(** What the process does to the outside: a request it makes, with its outcome
    ([None]: it never returns); for [EvReap] a goroutine that will wait for a
    zombie, for [EvWait] that it did. *)
Inductive event :=
| EvHttp (rq : http_request) (o : option http_outcome)
| EvSleep (ns : Z)
| EvSignal (s : signal)
| EvWatchStart (id : nat) (xname : string)
| EvCancel (id : nat)
| EvExec (argv : list string)
| EvMkdir (dir : string) (perm : Z)
| EvReap (pid : Z)
| EvWait (pid : Z)
| EvFakeLog (xname : string)
| EvAggLine (line : string)
| EvLog (line : string).

(** How running an external command ended: [Run] failed to start it, or its
    exit code, with its output and the files it wrote. *)
Record run_outcome := RunOutcome {
  run_exit : option Z;
  run_output : string;
  run_files : gmap string file
}.

(** The outside world, asked at each interaction with the number of
    interactions so far, so that repeated questions may have different
    answers.  [http_do] is [None] for a request that never returns.  [map_range] is the order in which a [range] statement visits a
    map: any permutation of its entries, chosen afresh each time.  [zone_lookup]
    gives, for an instant in Unix seconds, the offset of the local time zone and
    the interval in which it is in force. *)
Record env := Env {
  getenv : string → string;
  http_do : nat → http_request → option http_outcome;
  map_range : nat → ∀ V : Type, gmap string V → list (string * V);
  map_range_perm : ∀ n V (m : gmap string V), map_range n V m ≡ₚ map_to_list m;
  fs_fault : nat → fs_op → string → option string;
  read_limit : nat → string → option nat;
  umask : Z;
  clock : nat → string;
  zone_lookup : Z → Z * Z * Z;
  rand_source : nat → Z;
  vault_adapter : nat → option string;
  vault_creds : nat → list string → gmap string CompCredentials + string;
  gjson_get : string → string → string;
  run_cmd : nat → list string → run_outcome
}.

(** ** The state *)

Record world := World {
  nodes : nodesState;
  tails : tailState;
  command : cmdState;
  creds : credState;
  rot : rotState;
  pod : podState;
  fs : gmap string file;
  tick : nat;
  trace : list event
}.

(** Updates of one part. *)
Definition upd_nodes (f : nodesState → nodesState) (w : world) : world :=
  World (f (nodes w)) (tails w) (command w) (creds w) (rot w) (pod w) (fs w) (tick w) (trace w).
Definition upd_tails (f : tailState → tailState) (w : world) : world :=
  World (nodes w) (f (tails w)) (command w) (creds w) (rot w) (pod w) (fs w) (tick w) (trace w).
Definition upd_command (f : cmdState → cmdState) (w : world) : world :=
  World (nodes w) (tails w) (f (command w)) (creds w) (rot w) (pod w) (fs w) (tick w) (trace w).
Definition upd_creds (f : credState → credState) (w : world) : world :=
  World (nodes w) (tails w) (command w) (f (creds w)) (rot w) (pod w) (fs w) (tick w) (trace w).
Definition upd_rot (f : rotState → rotState) (w : world) : world :=
  World (nodes w) (tails w) (command w) (creds w) (f (rot w)) (pod w) (fs w) (tick w) (trace w).
Definition upd_pod (f : podState → podState) (w : world) : world :=
  World (nodes w) (tails w) (command w) (creds w) (rot w) (f (pod w)) (fs w) (tick w) (trace w).
Definition upd_fs (f : gmap string file → gmap string file) (w : world) : world :=
  World (nodes w) (tails w) (command w) (creds w) (rot w) (pod w) (f (fs w)) (tick w) (trace w).
Definition next_tick (w : world) : world :=
  World (nodes w) (tails w) (command w) (creds w) (rot w) (pod w) (fs w) (S (tick w)) (trace w).
Definition add_event (ev : event) (w : world) : world :=
  World (nodes w) (tails w) (command w) (creds w) (rot w) (pod w) (fs w) (tick w) (trace w ++ [ev]).

Definition set_currentMtnNodes m (s : nodesState) : nodesState :=
  NodesState m (currentRvrNodes s) (currentPdsNodes s) (targetRvrNodes s) (targetMtnNodes s)
    (maxAcquireRvr s) (maxAcquireMtn s) (newNodeLookupSec s).
Definition set_currentRvrNodes m (s : nodesState) : nodesState :=
  NodesState (currentMtnNodes s) m (currentPdsNodes s) (targetRvrNodes s) (targetMtnNodes s)
    (maxAcquireRvr s) (maxAcquireMtn s) (newNodeLookupSec s).
Definition set_currentPdsNodes m (s : nodesState) : nodesState :=
  NodesState (currentMtnNodes s) (currentRvrNodes s) m (targetRvrNodes s) (targetMtnNodes s)
    (maxAcquireRvr s) (maxAcquireMtn s) (newNodeLookupSec s).
Definition set_targets (rvr mtn : Z) (s : nodesState) : nodesState :=
  NodesState (currentMtnNodes s) (currentRvrNodes s) (currentPdsNodes s) rvr mtn
    (maxAcquireRvr s) (maxAcquireMtn s) (newNodeLookupSec s).

Definition set_inShutdown (b : bool) (p : podState) : podState :=
  PodState (debugOnly p) (podName p) (podID p) (podLocData p) b (heartbeatIntervalSecs p) (lastHeartbeatTime p).
Definition set_podLocData (d : option PodLocationDataResponse) (p : podState) : podState :=
  PodState (debugOnly p) (podName p) (podID p) d (inShutdown p) (heartbeatIntervalSecs p) (lastHeartbeatTime p).
Definition set_lastHeartbeatTime (t : string) (p : podState) : podState :=
  PodState (debugOnly p) (podName p) (podID p) (podLocData p) (inShutdown p) (heartbeatIntervalSecs p) t.

(** The three maps of the current nodes. *)
Definition mtn (w : world) : gmap string nodeConsoleInfo := currentMtnNodes (nodes w).
Definition rvr (w : world) : gmap string nodeConsoleInfo := currentRvrNodes (nodes w).
Definition pds (w : world) : gmap string nodeConsoleInfo := currentPdsNodes (nodes w).

(** Every request that is made returns: the assumption under which code that
    talks to other services ends. *)
Definition requests_return (E : env) : Prop := ∀ n rq, http_do E n rq ≠ None.

(** The last thing that was done is a request that never returns. *)
Definition hung (w : world) : Prop := ∃ rq, last (trace w) = Some (EvHttp rq None).

(** ** The monad *)

Inductive res (A : Type) : Type :=
| Done (a : A) (w : world)
| Panic (msg : string) (w : world)
| Stuck (w : world).
Arguments Done {A} a w.
Arguments Panic {A} msg w.
Arguments Stuck {A} w.

Definition M (A : Type) : Type := world → res A.

#[export] Instance M_ret : MRet M := λ A a w, Done a w.
#[export] Instance M_bind : MBind M := λ A B f m w,
  match m w with
  | Done a w' => f a w'
  | Panic msg w' => Panic msg w'
  | Stuck w' => Stuck w'
  end.

Definition gets {A} (f : world → A) : M A := λ w, Done (f w) w.
Definition modify (f : world → world) : M () := λ w, Done () (f w).
Definition panic {A} (msg : string) : M A := λ w, Panic msg w.
Definition stuck {A} : M A := λ w, Stuck w.
Definition emit (ev : event) : M () := modify (add_event ev).

(** The number of this interaction. *)
Definition next : M nat := λ w, Done (tick w) (next_tick w).

(** A value the code dereferences or indexes; [None] is a run-time panic. *)
Definition deref {A} (msg : string) (o : option A) : M A :=
  match o with Some a => mret a | None => panic msg end.

(** [time.Second], and [time.Sleep] of a duration in nanoseconds. *)
Definition second : Z := 1000000000.
Definition sleep (ns : Z) : M () := emit (EvSleep ns).

(** The entries of a map in the order one [range] statement visits them. *)
Definition goRange {V} (E : env) (m : gmap string V) : M (list (string * V)) :=
  n ← next; mret (map_range E n V m).

(** [for _, x := range l { body x }] *)
Fixpoint forEach {A} (l : list A) (body : A → M ()) : M () :=
  match l with
  | [] => mret ()
  | x :: l' => body x;; forEach l' body
  end.

(** ** Reasoning: weakest preconditions

    [wp total m Q w]: if [m] started in [w] ends with [Done], then its value
    and final state satisfy [Q]; with [total = true] it also does end so
    (no panic, no exhausted budget). *)
Definition wp {A} (total : bool) (m : M A) (Q : A → world → Prop) (w : world) : Prop :=
  match m w with
  | Done a w' => Q a w'
  | _ => if total then False else True
  end.

(** Everything but the interaction counter and the trace. *)
Definition core (w : world) :=
  (nodes w, tails w, command w, creds w, rot w, pod w, fs w).

Definition same_core (w w' : world) : Prop := core w = core w'.

(** The state is unchanged and the events [evs] happened. *)
Definition io (evs : list event) (w w' : world) : Prop :=
  same_core w w' ∧ trace w' = trace w ++ evs.

#[export] Instance same_core_equiv : Equivalence same_core.
Proof. unfold same_core. split; congruence. Qed.

#[export] Instance nodes_proper : Proper (same_core ==> eq) nodes.
Proof. intros w w' H. unfold same_core, core in H. congruence. Qed.
#[export] Instance tails_proper : Proper (same_core ==> eq) tails.
Proof. intros w w' H. unfold same_core, core in H. congruence. Qed.
#[export] Instance command_proper : Proper (same_core ==> eq) command.
Proof. intros w w' H. unfold same_core, core in H. congruence. Qed.
#[export] Instance creds_proper : Proper (same_core ==> eq) creds.
Proof. intros w w' H. unfold same_core, core in H. congruence. Qed.
#[export] Instance rot_proper : Proper (same_core ==> eq) rot.
Proof. intros w w' H. unfold same_core, core in H. congruence. Qed.
#[export] Instance pod_proper : Proper (same_core ==> eq) pod.
Proof. intros w w' H. unfold same_core, core in H. congruence. Qed.
#[export] Instance fs_proper : Proper (same_core ==> eq) fs.
Proof. intros w w' H. unfold same_core, core in H. congruence. Qed.
#[export] Instance rvr_proper : Proper (same_core ==> eq) rvr.
Proof. intros w w' H. unfold rvr. by rewrite H. Qed.
#[export] Instance mtn_proper : Proper (same_core ==> eq) mtn.
Proof. intros w w' H. unfold mtn. by rewrite H. Qed.
#[export] Instance pds_proper : Proper (same_core ==> eq) pds.
Proof. intros w w' H. unfold pds. by rewrite H. Qed.

Section wp_rules.
Context {A : Type}.
Implicit Types (t : bool) (w : world).

Lemma wp_ret t (a : A) Q w : wp t (mret a) Q w ↔ Q a w.
Proof. done. Qed.

Lemma wp_bind {B} t (m : M A) (f : A → M B) Q w :
  wp t (m ≫= f) Q w ↔ wp t m (λ a, wp t (f a) Q) w.
Proof. unfold wp, mbind, M_bind. by destruct (m w), t. Qed.

Lemma wp_mono t (m : M A) (Q Q' : A → world → Prop) w :
  wp t m Q w → (∀ a w', Q a w' → Q' a w') → wp t m Q' w.
Proof. unfold wp. destruct (m w); auto. Qed.

Lemma wp_and t (m : M A) (Q Q' : A → world → Prop) w :
  wp t m Q w → wp t m Q' w → wp t m (λ a w', Q a w' ∧ Q' a w') w.
Proof. unfold wp. destruct (m w); auto. Qed.

(** A total and a partial fact together. *)
Lemma wp_join (m : M A) (Q Q' : A → world → Prop) w :
  wp true m Q w → wp false m Q' w → wp true m (λ a w', Q a w' ∧ Q' a w') w.
Proof. unfold wp. by destruct (m w). Qed.

Lemma wp_weaken (m : M A) Q w : wp true m Q w → wp false m Q w.
Proof. unfold wp. by destruct (m w). Qed.

Lemma wp_gets t (f : world → A) Q w : wp t (gets f) Q w ↔ Q (f w) w.
Proof. done. Qed.

Lemma wp_done t (m : M A) Q w a w' : m w = Done a w' → wp t m Q w → Q a w'.
Proof. unfold wp. by intros ->. Qed.

Lemma wp_total_done (m : M A) Q w :
  wp true m Q w → ∃ a w', m w = Done a w' ∧ Q a w'.
Proof. unfold wp. destruct (m w); [eauto|done|done]. Qed.

Lemma wp_panic msg Q w : wp false (panic msg : M A) Q w.
Proof. done. Qed.

Lemma wp_deref t msg (o : option A) Q w :
  match o with Some a => Q a w | None => t = false end → wp t (deref msg o) Q w.
Proof. destruct o; [done|]. by intros ->. Qed.

End wp_rules.

Lemma wp_modify t f Q w : wp t (modify f) Q w ↔ Q () (f w).
Proof. done. Qed.

Lemma wp_emit t ev Q w : wp t (emit ev) Q w ↔ Q () (add_event ev w).
Proof. done. Qed.

Lemma wp_sleep t n Q w : wp t (sleep n) Q w ↔ Q () (add_event (EvSleep n) w).
Proof. done. Qed.

Lemma wp_next t Q w : wp t next Q w ↔ Q (tick w) (next_tick w).
Proof. done. Qed.

Lemma wp_goRange {V} t E (m : gmap string V) Q w :
  (∀ l, l = map_range E (tick w) V m → l ≡ₚ map_to_list m → Q l (next_tick w)) → wp t (goRange E m) Q w.
Proof. intros H. apply (H _ eq_refl). apply map_range_perm. Qed.

Lemma wp_forEach {A} t (Inv : list A → world → Prop) (body : A → M ()) (Q : () → world → Prop) l w :
  Inv l w →
  (∀ x l' w', Inv (x :: l') w' → wp t (body x) (λ _, Inv l') w') →
  (∀ w', Inv [] w' → Q () w') →
  wp t (forEach l body) Q w.
Proof.
  intros H0 Hs Hq. revert w H0. induction l as [|x l IH]; intros w H0; cbn [forEach].
  - apply wp_ret. auto.
  - rewrite wp_bind. eapply wp_mono; [apply Hs, H0|]. intros [] w'. apply IH.
Qed.

Create Rewrite HintDb wp.
#[export] Hint Rewrite @wp_bind @wp_ret @wp_gets @wp_modify @wp_emit @wp_sleep @wp_next : wp.

(** Runs through the straight-line part of a computation. *)
Ltac wp_pure := repeat (rewrite ?wp_bind, ?wp_ret, ?wp_gets, ?wp_modify, ?wp_emit, ?wp_sleep, ?wp_next).

(** ** Interactions leave the state alone *)

Lemma io_refl w : io [] w w.
Proof. split; [done|]. by rewrite app_nil_r. Qed.

Lemma io_trans evs1 evs2 w w1 w2 : io evs1 w w1 → io evs2 w1 w2 → io (evs1 ++ evs2) w w2.
Proof. intros [H1 T1] [H2 T2]. split; [by etrans|]. by rewrite T2, T1, app_assoc. Qed.

Lemma io_next w : io [] w (next_tick w).
Proof. split; [done|]. cbn. by rewrite app_nil_r. Qed.

Lemma io_event ev w : io [ev] w (add_event ev w).
Proof. by split. Qed.

#[export] Hint Resolve io_refl io_next io_event : go.
