(* ===== verification/HttpUtils.v ===== *)
(** * HTTP client helpers: src/src/console_node/httpUtils.go

    [postURL] and [getURL] as computations over the environment's HTTP
    oracle.  The clients are made without a timeout, so that a request whose
    answer never comes does not return.  A nil byte slice is [None]; [io.ReadAll] never returns nil
    without an error, so the body is present exactly when there is no error. *)

From S2P Require Import Prelude GoStrings World.
From Stdlib Require Import ZArith.
From stdpp Require Import base numbers strings gmap sets list.

Local Open Scope Z_scope.

Section client.
Context (E : env).

(** [http.NewRequest], [client.Do] and reading the body: the outcome, if there
    ever is one. *)
Definition do_request (rq : http_request) : M http_outcome :=
  n ← next;
  emit (EvHttp rq (http_do E n rq));;
  match http_do E n rq with
  | Some o => mret o
  | None => stuck
  end.

(** The three results of the helpers: body, status code, error. *)
Definition http_result (o : http_outcome) : option string * Z * option string :=
  match o with
  | NewRequestFails => (None, -1, Some "error creating new request")
  | DoFails => (None, -1, Some "error on request")
  | ReadBodyFails sc => (None, sc, Some "error reading response")
  | Response sc body => (Some body, sc, None)
  end.

(** The headers of [requestHeaders], in the order [range] gives them. *)
Definition header_list (requestHeaders : option (gmap string string)) : M (list (string * string)) :=
  match requestHeaders with
  | Some hs => goRange E hs
  | None => mret []
  end.

Definition postURL (URL requestBody : string) (requestHeaders : option (gmap string string))
    : M (option string * Z * option string) :=
  hs ← header_list requestHeaders;
  o ← do_request (HttpRequest "POST" URL (Some requestBody) (("Content-Type", "application/json") :: hs));
  mret (http_result o).

Definition getURL (URL : string) (requestHeaders : option (gmap string string))
    : M (option string * Z * option string) :=
  hs ← header_list requestHeaders;
  o ← do_request (HttpRequest "GET" URL None hs);
  mret (http_result o).

(** The requests the programs makes without headers of its own. *)
Definition post_request (URL body : string) : http_request :=
  HttpRequest "POST" URL (Some body) [("Content-Type", "application/json")].
Definition get_request (URL : string) : http_request := HttpRequest "GET" URL None [].

(** The event of one exchange. *)
Definition sent (o : http_outcome) (rq : http_request) : list event := [EvHttp rq (Some o)].

(** ** Lemmas *)

Lemma wp_do_request t rq Q w :
  (t = true → requests_return E) →
  (∀ o w', http_do E (tick w) rq = Some o → io (sent o rq) w w' → tick w' = S (tick w) → Q o w') →
  wp t (do_request rq) Q w.
Proof.
  intros Ht H. unfold do_request. wp_pure.
  destruct (http_do E (tick w) rq) as [o|] eqn:Eo.
  - apply wp_ret, H; [done| |done]. by split.
  - destruct t; [|done]. by destruct (Ht eq_refl (tick w) rq).
Qed.

Lemma wp_postURL t URL body Q w :
  (t = true → requests_return E) →
  (∀ o w', http_do E (tick w) (post_request URL body) = Some o →
    io (sent o (post_request URL body)) w w' → tick w' = S (tick w) → Q (http_result o) w') →
  wp t (postURL URL body None) Q w.
Proof.
  intros Ht H. unfold postURL, header_list. wp_pure.
  apply wp_do_request; [done|]. intros o w' Eo Hio Hk. rewrite wp_ret. by apply H.
Qed.

Lemma wp_getURL t URL Q w :
  (t = true → requests_return E) →
  (∀ o w', http_do E (tick w) (get_request URL) = Some o →
    io (sent o (get_request URL)) w w' → tick w' = S (tick w) → Q (http_result o) w') →
  wp t (getURL URL None) Q w.
Proof.
  intros Ht H. unfold getURL, header_list. wp_pure.
  apply wp_do_request; [done|]. intros o w' Eo Hio Hk. rewrite wp_ret. by apply H.
Qed.

(** With headers: one exchange whose headers are the given ones. *)
Lemma wp_getURL_headers t URL (hs : gmap string string) Q w :
  (t = true → requests_return E) →
  (∀ o w' l, l ≡ₚ map_to_list hs →
    http_do E (S (tick w)) (HttpRequest "GET" URL None l) = Some o →
    io (sent o (HttpRequest "GET" URL None l)) w w' → Q (http_result o) w') →
  wp t (getURL URL (Some hs)) Q w.
Proof.
  intros Ht H. unfold getURL, header_list. rewrite wp_bind.
  apply wp_goRange. intros l _ Hl. rewrite wp_bind.
  apply wp_do_request; [done|]. intros o w' Eo Hio _. rewrite wp_ret. eapply H; [done..|].
  rewrite <- (app_nil_l (sent _ _)). eapply io_trans; [apply io_next|done].
Qed.

(** A request that never returns: the caller never returns either, and this is
    the last thing it did. *)
Lemma do_request_hangs rq w : http_do E (tick w) rq = None →
  ∃ w', do_request rq w = Stuck w' ∧ hung w'.
Proof.
  intros H. unfold do_request, mbind, M_bind, next, emit, modify. rewrite H. eexists. split; [done|].
  exists rq. cbn. by rewrite last_snoc.
Qed.

Lemma http_result_body o : (http_result o).1.1 = None ↔ (http_result o).2 ≠ None.
Proof. by destruct o. Qed.

Lemma http_result_ok o b sc : http_result o = (Some b, sc, None) ↔ o = Response sc b.
Proof. destruct o; cbn; split; congruence. Qed.

End client.
