(* ===== verification/Operator.v ===== *)
(** * The console-operator client: src/src/console_node/operator.go

    The interface [OperatorService] as a type class of operations, its
    implementation [OperatorManager], and the promise the interface makes to
    its clients: talking to console-operator changes nothing in the pod. *)

From S2P Require Import Prelude GoStrings World Json HttpUtils.
From Stdlib Require Import ZArith.
From stdpp Require Import base numbers strings gmap sets list.

Local Open Scope Z_scope.

(** ** The interface *)

(** [type OperatorService interface]: a pointer result is an option, an error
    is [Some] message; durations are nanoseconds. *)
Class OperatorService := {
  getPodLocation : string → M (option PodLocationDataResponse * option string);
  OperatorRetryInterval : Z;
  getCurrentTargets : M (option CurrentTargets * option string)
}.

(** Only HTTP requests that returned: no other event. *)
Definition only_http (evs : list event) : Prop := Forall (λ ev, ∃ rq o, ev = EvHttp rq (Some o)) evs.

(** The operation returns, or hangs in a request. *)
Definition ends_or_hangs {A} (m : M A) : Prop :=
  ∀ w, match m w with Done _ _ => True | Panic _ _ => False | Stuck w' => hung w' end.

(** What a service promises its clients: it returns unless a request does not,
    leaves the pod's state alone, does nothing but HTTP, and an error comes
    without a result. *)
Class OperatorServiceSpec (S : OperatorService) : Prop := {
  getPodLocation_io : ∀ id w Q,
    (∀ r w' evs, io evs w w' → only_http evs → (r.2 ≠ None → r.1 = None) → Q r w') →
    wp false (getPodLocation id) Q w;
  getCurrentTargets_io : ∀ w Q,
    (∀ r w' evs, io evs w w' → only_http evs → (r.2 ≠ None → r.1 = None) → Q r w') →
    wp false getCurrentTargets Q w;
  getPodLocation_ends : ∀ id, ends_or_hangs (getPodLocation id);
  getCurrentTargets_ends : ends_or_hangs getCurrentTargets
}.

(** ** The implementation *)

(** [type OperatorManager struct] *)
Record OperatorManager := OpManager {
  operatorAddrBase : string;
  operatorRetryInterval : Z
}.

(** [NewOperatorService] *)
Definition NewOperatorService : OperatorManager :=
  OpManager "http://cray-console-operator/console-operator" (30 * second).

Definition podLocation_zero : PodLocationDataResponse :=
  PodLoc EmptyString EmptyString EmptyString.

(** The members of the JSON form of [PodLocationDataResponse]. *)
Definition podLocation_fields : list (string * decoder PodLocationDataResponse) :=
  [("podname", dec_field pl_PodName (λ x p, PodLoc x (pl_Alias p) (pl_Xname p)) dec_string);
   ("alias", dec_field pl_Alias (λ x p, PodLoc (pl_PodName p) x (pl_Xname p)) dec_string);
   ("xname", dec_field pl_Xname (λ x p, PodLoc (pl_PodName p) (pl_Alias p) x) dec_string)].

Definition targets_zero : CurrentTargets := Targets 0 0 0 0 0.

(** The members of the JSON form of [CurrentTargets]. *)
Definition targets_fields : list (string * decoder CurrentTargets) :=
  [("targetnumrvrnodes", dec_field TargetNumRvrNodes
      (λ x c, Targets x (TargetNumMtnNodes c) (TotalRvrNodes c) (TotalMtnNodes c) (TargetNumNodePods c)) dec_int);
   ("targetnummtnnodes", dec_field TargetNumMtnNodes
      (λ x c, Targets (TargetNumRvrNodes c) x (TotalRvrNodes c) (TotalMtnNodes c) (TargetNumNodePods c)) dec_int);
   ("totalrvrnodes", dec_field TotalRvrNodes
      (λ x c, Targets (TargetNumRvrNodes c) (TargetNumMtnNodes c) x (TotalMtnNodes c) (TargetNumNodePods c)) dec_int);
   ("totalmtnnodes", dec_field TotalMtnNodes
      (λ x c, Targets (TargetNumRvrNodes c) (TargetNumMtnNodes c) (TotalRvrNodes c) x (TargetNumNodePods c)) dec_int);
   ("targetnumnodepods", dec_field TargetNumNodePods
      (λ x c, Targets (TargetNumRvrNodes c) (TargetNumMtnNodes c) (TotalRvrNodes c) (TotalMtnNodes c) x) dec_int)].

Section manager.
Context (E : env) (om : OperatorManager).

(** The common end of both queries: a 200 answer is decoded into a fresh
    struct through the address of the pointer to it, so a JSON null sets the
    pointer to nil. *)
Definition decode_answer {T} (fields : list (string * decoder T)) (zero : T) (failed : string)
    (r : option string * Z * option string) : option T * option string :=
  match r with
  | (_, _, Some err) => (None, Some err)
  | (rb, sc, None) =>
    if negb (sc =? 200) then (None, Some failed) else
    match rb with
    | None => (Some zero, None)
    | Some body =>
      match Unmarshal (Some zero) (dec_ptr (dec_struct fields) zero) body with
      | (_, true) => (None, Some "unmarshal")
      | (resp, false) => (resp, None)
      end
    end
  end.

(** [func (om OperatorManager) getPodLocation] *)
Definition om_getPodLocation (podID : string) : M (option PodLocationDataResponse * option string) :=
  r ← getURL E (operatorAddrBase om +:+ "/location/" +:+ podID) None;
  mret (decode_answer podLocation_fields podLocation_zero "failed to getPodLocation" r).

(** [func (om OperatorManager) getCurrentTargets] *)
Definition om_getCurrentTargets : M (option CurrentTargets * option string) :=
  r ← getURL E (operatorAddrBase om +:+ "/currentTargets") None;
  mret (decode_answer targets_fields targets_zero "failed to get current targets" r).

#[export] Instance OperatorManager_service : OperatorService := {
  getPodLocation := om_getPodLocation;
  OperatorRetryInterval := operatorRetryInterval om;
  getCurrentTargets := om_getCurrentTargets
}.

(** ** Lemmas *)

Lemma decode_answer_err {T} fields (zero : T) failed r :
  (decode_answer fields zero failed r).2 ≠ None → (decode_answer fields zero failed r).1 = None.
Proof.
  destruct r as [[rb sc] [err|]]; [done|]. unfold decode_answer.
  destruct (negb _); [done|]. destruct rb as [body|]; [|done].
  by destruct (Unmarshal _ _ _) as [resp []].
Qed.

Lemma sent_only_http o rq : only_http (sent o rq).
Proof. unfold only_http, sent. repeat constructor; by do 2 eexists. Qed.

Lemma getURL_ends url {A} (f : option string * Z * option string → A) : ends_or_hangs (r ← getURL E url None; mret (f r)).
Proof.
  intros w. unfold getURL, header_list, mbind, M_bind, mret, M_ret.
  destruct (http_do E (tick w) (HttpRequest "GET" url None [])) as [o|] eqn:Eo.
  - unfold do_request, mbind, M_bind, next, emit, modify, mret, M_ret. by rewrite Eo.
  - destruct (do_request_hangs E _ w Eo) as (w'&->&H). exact H.
Qed.

(** The implementation keeps the interface's promise. *)
#[export] Instance OperatorManager_spec : OperatorServiceSpec OperatorManager_service.
Proof.
  split; intros; cbn; unfold om_getPodLocation, om_getCurrentTargets; [..|apply getURL_ends|apply getURL_ends];
    rewrite wp_bind; (apply wp_getURL; [done|]); intros o w' _ Hio _; rewrite wp_ret;
    eapply H; eauto using sent_only_http, decode_answer_err.
Qed.

(** Without an error the answer had status 200. *)
Lemma decode_answer_ok {T} fields (zero : T) failed r x :
  decode_answer fields zero failed r = (x, None) → r.1.2 = 200 ∧ r.2 = None.
Proof.
  destruct r as [[rb sc] [err|]]; unfold decode_answer; [done|].
  destruct (negb (sc =? 200)) eqn:Es; [done|]. intros _. cbn. zbool. by split.
Qed.

End manager.

(** ** Properties *)

(** A query is answered from the body of a 200 response and from nothing else:
    transport errors, other status codes and undecodable bodies are errors. *)
Lemma om_getCurrentTargets_result E om w o :
  http_do E (tick w) (get_request (operatorAddrBase om +:+ "/currentTargets")) = Some o →
  om_getCurrentTargets E om w =
  Done (decode_answer targets_fields targets_zero "failed to get current targets" (http_result o))
       (foldr add_event (next_tick w) (sent o (get_request (operatorAddrBase om +:+ "/currentTargets")))).
Proof.
  intros H. unfold om_getCurrentTargets, getURL, do_request, header_list, mbind, M_bind, mret, M_ret, next, emit, modify. cbn.
  fold (get_request (operatorAddrBase om +:+ "/currentTargets")). by rewrite H.
Qed.
