(* ===== verification/Files.v ===== *)
(** * Files

    The calls of package os the program makes, over the file map of [world]:
    each may fail for a reason of its own (the environment's [fs_fault]), and
    a read may end early with an error ([read_limit]).  Also the helper
    [ensureDirPresent] of src/src/console_node/consoleNodeMain.go. *)

From S2P Require Import Prelude GoStrings World.
From Stdlib Require Import ZArith.
From stdpp Require Import base numbers strings gmap sets list.

Local Open Scope Z_scope.

(** The answers of [os.Stat] the program tells apart. *)
Inductive stat_result := StatOk (f : file) | StatNotExist | StatErr (err : string).

Section files.
Context (E : env).

Definition fault (op : fs_op) (path : string) : M (option string) :=
  n ← next; mret (fs_fault E n op path).

(** [os.Stat] *)
Definition osStat (path : string) : M stat_result :=
  e ← fault OpStat path;
  m ← gets fs;
  mret match e with
       | Some err => StatErr err
       | None => match m !! path with Some f => StatOk f | None => StatNotExist end
       end.

(** [os.MkdirAll]: only the nine permission bits of [perm] count, less the
    process's umask.  Parent directories are not recorded. *)
Definition osMkdirAll (dir : string) (perm : Z) : M (option string) :=
  e ← fault OpMkdir dir;
  match e with
  | Some err => mret (Some err)
  | None =>
    emit (EvMkdir dir perm);;
    modify (upd_fs <[dir := File EmptyString (Z.ldiff (Z.land perm 511) (umask E))]>);;
    mret None
  end.

(** [os.Open]: the contents the handle will read. *)
Definition osOpen (path : string) : M (option string) :=
  e ← fault OpOpen path;
  m ← gets fs;
  mret match e with None => content <$> m !! path | Some _ => None end.

(** [os.Open] and reading to the end or to the first error: [None] when the
    file cannot be opened, else the bytes read and whether that was all. *)
Definition osRead (path : string) : M (option (string * bool)) :=
  e ← fault OpOpen path;
  m ← gets fs;
  n ← next;
  mret match e, m !! path with
       | None, Some f =>
         match read_limit E n path with
         | None => Some (content f, true)
         | Some k => Some (take_s k (content f), false)
         end
       | _, _ => None
       end.

(** [os.OpenFile] with O_TRUNC|O_WRONLY|O_CREATE, and [os.Create]. *)
Definition osTruncate (path : string) (perm : Z) : M (option string) :=
  e ← fault OpCreate path;
  match e with
  | Some err => mret (Some err)
  | None =>
    modify (upd_fs (λ m,
      let md := match m !! path with Some f => mode f | None => Z.ldiff perm (umask E) end in
      <[path := File EmptyString md]> m));;
    mret None
  end.

(** Appending to an open file: [WriteString], [Fprintf], ... *)
Definition osAppend (path str : string) : M (option string) :=
  e ← fault OpWrite path;
  match e with
  | Some err => mret (Some err)
  | None =>
    modify (upd_fs (alter (λ f, File (content f +:+ str) (mode f)) path));;
    mret None
  end.

(** [os.WriteFile] *)
Definition osWriteFile (path data : string) (perm : Z) : M (option string) :=
  e ← osTruncate path perm;
  match e with
  | Some err => mret (Some err)
  | None => osAppend path data
  end.

(** [os.Chmod] *)
Definition osChmod (path : string) (md : Z) : M (option string) :=
  e ← fault OpChmod path;
  match e with
  | Some err => mret (Some err)
  | None =>
    modify (upd_fs (alter (λ f, File (content f) md) path));;
    mret None
  end.

(** Running an external command: it may write files. *)
Definition run_external (argv : list string) : M run_outcome :=
  n ← next;
  let o := run_cmd E n argv in
  emit (EvExec argv);;
  modify (upd_fs (λ m, run_files o ∪ m));;
  mret o.

(** [ensureDirPresent]: only "does not exist" leads to a creation; any other
    stat error is taken for presence. *)
Definition ensureDirPresent (dir : string) (perm : Z) : M (bool * option string) :=
  st ← osStat dir;
  match st with
  | StatNotExist =>
    err ← osMkdirAll dir perm;
    match err with
    | Some e => mret (false, Some e)
    | None => mret (true, None)
    end
  | _ => mret (true, None)
  end.

(** ** Lemmas *)

(** File operations change files only. *)
Definition only_fs (w w' : world) : Prop :=
  nodes w' = nodes w ∧ tails w' = tails w ∧ command w' = command w ∧ creds w' = creds w ∧
  rot w' = rot w ∧ pod w' = pod w.

#[export] Instance only_fs_preorder : PreOrder only_fs.
Proof.
  split; [by repeat split|].
  intros w1 w2 w3 (?&?&?&?&?&?) (?&?&?&?&?&?). repeat split; congruence.
Qed.

Lemma wp_fault t op path Q w :
  Q (fs_fault E (tick w) op path) (next_tick w) → wp t (fault op path) Q w.
Proof. done. Qed.

Lemma wp_ensureDirPresent t dir perm Q w :
  (∀ r w', only_fs w w' → (r.2 ≠ None → r.1 = false) →
     (fs w' = fs w ∨ fs w' = <[dir := File EmptyString (Z.ldiff (Z.land perm 511) (umask E))]> (fs w)) →
     Q r w') →
  wp t (ensureDirPresent dir perm) Q w.
Proof.
  intros H. unfold ensureDirPresent, osStat, osMkdirAll, fault. wp_pure. cbn [fs next_tick].
  destruct (fs_fault E (tick w) OpStat dir); [apply H; cbn; [repeat split|done|by left]|].
  destruct (fs w !! dir); [apply H; cbn; [repeat split|done|by left]|].
  wp_pure. cbn [tick next_tick].
  destruct (fs_fault E _ OpMkdir dir); wp_pure; apply H; cbn; try done; auto; repeat split.
Qed.

End files.
