(* ===== verification/LogAggregation.v ===== *)
(** * Log aggregation: src/src/console_node/logAggregation.go

    Which console logs are being tailed into the pod's aggregation log: the
    map [tailThreads] of cancel functions and the goroutines they control, and
    the aggregation logger itself. *)

From S2P Require Import Prelude GoStrings World Files.
From Stdlib Require Import ZArith Lia.
From stdpp Require Import base numbers strings gmap sets list.

Local Open Scope Z_scope.

(** ** The table of tailing goroutines *)

(** [tailThreads[xname] = &cancel] and [go watchConsoleLogFile(ctx, xname)] *)
Definition start_watch (xname : string) (s : tailState) : tailState :=
  TailState (<[xname := nextWatch s]> (tailThreads s)) (<[nextWatch s := xname]> (watchers s))
    (lingering s) (S (nextWatch s)) (conAggLogFile s) (conAggLogger s).

(** A call of a cancel function closes the Done channel of the goroutine's
    context: the goroutine goes on until its select statement takes that case. *)
Definition cancel_watch (id : nat) (s : tailState) : tailState :=
  match watchers s !! id with
  | Some xname =>
    TailState (tailThreads s) (delete id (watchers s)) (<[id := xname]> (lingering s)) (nextWatch s)
      (conAggLogFile s) (conAggLogger s)
  | None => s
  end.

(** A goroutine returns. *)
Definition drop_watch (id : nat) (s : tailState) : tailState :=
  TailState (tailThreads s) (delete id (watchers s)) (delete id (lingering s)) (nextWatch s)
    (conAggLogFile s) (conAggLogger s).

(** [delete(tailThreads, xname)] *)
Definition forget_watch (xname : string) (s : tailState) : tailState :=
  TailState (delete xname (tailThreads s)) (watchers s) (lingering s) (nextWatch s) (conAggLogFile s) (conAggLogger s).

Definition set_conAggLogger (l : option string) (s : tailState) : tailState :=
  TailState (tailThreads s) (watchers s) (lingering s) (nextWatch s) (conAggLogFile s) l.

(** [aggregateFile]: true when the file was not being tailed yet. *)
Definition aggregateFile (xname : string) : M bool :=
  s ← gets tails;
  match tailThreads s !! xname with
  | Some _ => mret false
  | None =>
    modify (upd_tails (start_watch xname));;
    emit (EvWatchStart (nextWatch s) xname);;
    mret true
  end.

Definition cancel (id : nat) : M () :=
  modify (upd_tails (cancel_watch id));;
  emit (EvCancel id).

(** [stopTailing] *)
Definition stopTailing (xname : string) : M () :=
  s ← gets tails;
  match tailThreads s !! xname with
  | Some id =>
    cancel id;;
    modify (upd_tails (forget_watch xname))
  | None => mret ()
  end.

(** ** The goroutine [watchConsoleLogFile] *)

(** What its select statement receives: the cancellation, or a line from the
    tail library (a closed channel gives a nil line). *)
Inductive tail_input := TailDone | TailLine (text : string) | TailClosed.

(** [writeToAggLog] *)
Definition writeToAggLog (str : string) : M () :=
  s ← gets tails;
  match conAggLogger s with
  | Some _ => emit (EvAggLine str)
  | None => mret ()
  end.

(** The loop over what is received; true when the goroutine has returned. *)
Fixpoint watch_loop (xname : string) (ins : list tail_input) : M bool :=
  match ins with
  | [] => mret false
  | TailDone :: _ => mret true
  | TailLine text :: ins' =>
    writeToAggLog ("console.hostname: " +:+ xname +:+ " " +:+ text);;
    watch_loop xname ins'
  | TailClosed :: _ => panic "nil pointer dereference"
  end.

(** [watchConsoleLogFile]: [tailed] says whether the tail library could start
    on the console log. *)
Definition watchConsoleLogFile (tailed : bool) (xname : string) (ins : list tail_input) : M bool :=
  if tailed then watch_loop xname ins else mret true.

Section agg.
Context (E : env).

(** One pass of [killTails], the debugging aid: every tail is cancelled but
    stays in the map.  False when the thread returns. *)
Definition killTails_once : M bool :=
  st ← osStat E "/var/log/console/killTails.txt";
  match st with
  | StatOk _ =>
    s ← gets tails;
    l ← goRange E (tailThreads s);
    forEach l (λ kv, cancel kv.2);;
    sleep (10 * second);;
    mret true
  | StatNotExist => sleep (30 * second);; mret true
  | StatErr _ => mret false
  end.

(** [respinAggLog] *)
Definition respinAggLog : M () :=
  s ← gets tails;
  let pos := strLastIndex (conAggLogFile s) "/" in
  if pos <? 0 then mret () else
  conAggLogDir ← deref "slice bounds out of range" (slice (conAggLogFile s) 0 pos);
  r ← ensureDirPresent E conAggLogDir 502;
  match r.2 with
  | Some _ => mret ()
  | None =>
    err ← osTruncate E (conAggLogFile s) 384;
    match err with
    | Some _ => mret ()
    | None =>
      modify (upd_tails (set_conAggLogger (Some (conAggLogFile s))));;
      emit (EvAggLine "Starting aggregation log")
    end
  end.

End agg.

(** ** The invariant of the table *)

(** Every goroutine that was not told to stop tails the log of the node under
    whose name its cancel function is kept; no goroutine belongs to two names;
    one that was told to stop is another one; goroutine numbers are never
    reused. *)
Record tails_ok (s : tailState) : Prop := {
  to_watcher : ∀ id x, watchers s !! id = Some x → tailThreads s !! x = Some id;
  to_inj : ∀ x y id, tailThreads s !! x = Some id → tailThreads s !! y = Some id → x = y;
  to_fresh : ∀ x id, tailThreads s !! x = Some id → (id < nextWatch s)%nat;
  to_lingering : ∀ id x, lingering s !! id = Some x → watchers s !! id = None ∧ (id < nextWatch s)%nat
}.

(** Every entry controls a running goroutine: true as long as none of them
    ended by itself and [killTails] did nothing. *)
Definition tails_live (s : tailState) : Prop :=
  ∀ x id, tailThreads s !! x = Some id → watchers s !! id = Some x.

(** All goroutines that read a log: telling one to stop does not end it. *)
Definition alive (s : tailState) : gmap nat string := watchers s ∪ lingering s.

(** ** Lemmas *)

Lemma alive_cancel id s : alive (cancel_watch id s) = alive s.
Proof.
  unfold cancel_watch, alive. destruct (watchers s !! id) as [x|] eqn:Ei; [|done]. cbn. apply map_eq. intros i.
  rewrite !lookup_union. destruct (decide (i = id)) as [->|Hi].
  - rewrite lookup_delete_eq, lookup_insert_eq, Ei. by destruct (lingering s !! id).
  - by rewrite lookup_delete_ne, lookup_insert_ne by done.
Qed.

Lemma cancel_watch_same id s :
  tailThreads (cancel_watch id s) = tailThreads s ∧ watchers (cancel_watch id s) = delete id (watchers s) ∧
  nextWatch (cancel_watch id s) = nextWatch s ∧ conAggLogFile (cancel_watch id s) = conAggLogFile s ∧
  conAggLogger (cancel_watch id s) = conAggLogger s.
Proof.
  unfold cancel_watch. destruct (watchers s !! id) eqn:Ei; split_and!; try done. by rewrite delete_id.
Qed.

Lemma cancel_watch_lingering id s :
  lingering (cancel_watch id s) = match watchers s !! id with Some x => <[id := x]> (lingering s) | None => lingering s end.
Proof. unfold cancel_watch. by destruct (watchers s !! id). Qed.

Lemma tails_ok_start x s : tails_ok s → tailThreads s !! x = None → tails_ok (start_watch x s).
Proof.
  intros [Hw Hi Hf Hg] Hx. split; cbn.
  - intros id y. rewrite !lookup_insert_Some. intros [[<- <-]|[Hid H]]; [by left|].
    right. apply Hw in H. split; [congruence|done].
  - intros y z id. rewrite !lookup_insert_Some.
    intros [[<- <-]|[Hy H]] [[<- E]|[Hz H']]; [done| | |by eapply Hi]; exfalso.
    + apply Hf in H'. lia.
    + apply Hf in H. lia.
  - intros y id. rewrite lookup_insert_Some. intros [[_ <-]|[_ H]]; [lia|]. apply Hf in H. lia.
  - intros id y [H1 H2]%Hg. rewrite lookup_insert_ne by lia. split; [done|lia].
Qed.

(** A goroutine is told to stop; its entry may stay. *)
Lemma tails_ok_cancel id s : tails_ok s → tails_ok (cancel_watch id s).
Proof.
  intros [Hw Hi Hf Hg]. destruct (cancel_watch_same id s) as (Et&Ew&En&_).
  pose proof (cancel_watch_lingering id s) as El. split; rewrite ?Et, ?Ew, ?En, ?El; [|done|done|].
  - intros id' y [_ H]%lookup_delete_Some. by apply Hw.
  - intros id' y H. assert (Hc : (id' = id ∧ watchers s !! id = Some y) ∨ lingering s !! id' = Some y).
    { destruct (watchers s !! id) as [z|] eqn:Ez; [|by right].
      apply lookup_insert_Some in H as [[-> ->]|[_ H]]; [by left|by right]. }
    rewrite lookup_delete_None. destruct Hc as [[-> Hy]|[H1 H2]%Hg]; [|split; [by right|done]].
    split; [by left|]. by eapply Hf, Hw.
Qed.

(** A goroutine returns; its entry may stay. *)
Lemma tails_ok_drop id s : tails_ok s → tails_ok (drop_watch id s).
Proof.
  intros [Hw Hi Hf Hg]. split; cbn; [|done|done|].
  - intros id' y [_ H]%lookup_delete_Some. by apply Hw.
  - intros id' y [_ [H1 H2]%Hg]%lookup_delete_Some. split; [|done]. apply lookup_delete_None. by right.
Qed.

Lemma tails_ok_stop x id s :
  tails_ok s → tailThreads s !! x = Some id → tails_ok (forget_watch x (cancel_watch id s)).
Proof.
  intros Hok Hx. destruct (tails_ok_cancel id s Hok) as [Hw Hi Hf Hg].
  destruct (cancel_watch_same id s) as (Et&Ew&En&_).
  split; cbn; rewrite ?Et, ?Ew, ?En in *.
  - intros id' y [Hne H]%lookup_delete_Some. apply (to_watcher _ Hok) in H. apply lookup_delete_Some. split; [congruence|done].
  - intros y z id' [_ Hy]%lookup_delete_Some [_ Hz]%lookup_delete_Some. by eapply Hi.
  - intros y id' [_ H]%lookup_delete_Some. by eapply Hf.
  - exact Hg.
Qed.

Lemma tails_live_start x s : tails_ok s → tails_live s → tails_live (start_watch x s).
Proof.
  intros Hok Hl y id. cbn. rewrite !lookup_insert_Some. intros [[<- <-]|[Hy H]]; [by left|].
  right. pose proof (to_fresh _ Hok _ _ H). split; [lia|by apply Hl].
Qed.

Lemma tails_live_stop x id s :
  tails_ok s → tailThreads s !! x = Some id → tails_live s → tails_live (forget_watch x (cancel_watch id s)).
Proof.
  intros Hok Hx Hl y id'. cbn. destruct (cancel_watch_same id s) as (->&->&_).
  intros [Hne H]%lookup_delete_Some. apply lookup_delete_Some.
  split; [|by apply Hl]. intros <-. apply Hne. by eapply (to_inj _ Hok).
Qed.

(** What [aggregateFile] and [stopTailing] do to the table. *)
Definition tail_started (x : string) (s : tailState) : tailState :=
  match tailThreads s !! x with Some _ => s | None => start_watch x s end.

Definition tail_stopped (x : string) (s : tailState) : tailState :=
  match tailThreads s !! x with Some id => forget_watch x (cancel_watch id s) | None => s end.

(** The operations change the table only, with these events. *)
Definition only_tails (f : tailState → tailState) (evs : list event) (w w' : world) : Prop :=
  nodes w' = nodes w ∧ tails w' = f (tails w) ∧ command w' = command w ∧ creds w' = creds w ∧
  rot w' = rot w ∧ pod w' = pod w ∧ fs w' = fs w ∧ trace w' = trace w ++ evs.

Definition start_events (x : string) (s : tailState) : list event :=
  match tailThreads s !! x with Some _ => [] | None => [EvWatchStart (nextWatch s) x] end.

Definition stop_events (x : string) (s : tailState) : list event :=
  match tailThreads s !! x with Some id => [EvCancel id] | None => [] end.

Lemma wp_aggregateFile t x Q w :
  (∀ w', only_tails (tail_started x) (start_events x (tails w)) w w' →
     Q (bool_decide (tailThreads (tails w) !! x = None)) w') →
  wp t (aggregateFile x) Q w.
Proof.
  intros H. unfold aggregateFile. wp_pure. unfold tail_started, start_events in H.
  destruct (tailThreads (tails w) !! x) eqn:Ex; rewrite ?Ex in H; wp_pure;
    apply H; unfold only_tails; rewrite ?Ex, ?app_nil_r; repeat split.
Qed.

Lemma wp_stopTailing t x Q w :
  (∀ w', only_tails (tail_stopped x) (stop_events x (tails w)) w w' → Q () w') →
  wp t (stopTailing x) Q w.
Proof.
  intros H. unfold stopTailing. wp_pure. unfold tail_stopped, stop_events in H.
  destruct (tailThreads (tails w) !! x) eqn:Ex; unfold cancel; wp_pure;
    apply H; unfold only_tails; rewrite ?Ex, ?app_nil_r; repeat split.
Qed.

Lemma tails_ok_started x s : tails_ok s → tails_ok (tail_started x s).
Proof. unfold tail_started. destruct (_ !! _) eqn:E; eauto using tails_ok_start. Qed.

Lemma tails_ok_stopped x s : tails_ok s → tails_ok (tail_stopped x s).
Proof. unfold tail_stopped. destruct (_ !! _) eqn:E; eauto using tails_ok_stop. Qed.

Lemma dom_tail_started x s : dom (tailThreads (tail_started x s)) = {[x]} ∪ dom (tailThreads s).
Proof.
  unfold tail_started. destruct (_ !! _) eqn:E; cbn; [|by rewrite dom_insert_L].
  apply elem_of_dom_2 in E. set_solver.
Qed.

Lemma dom_tail_stopped x s : dom (tailThreads (tail_stopped x s)) = dom (tailThreads s) ∖ {[x]}.
Proof.
  unfold tail_stopped. destruct (_ !! _) as [id|] eqn:E; cbn.
  { destruct (cancel_watch_same id s) as (->&_). by rewrite dom_delete_L. }
  apply not_elem_of_dom in E. set_solver.
Qed.

Lemma watchers_stopped x s : watchers (tail_stopped x s) ⊆ watchers s.
Proof.
  unfold tail_stopped. destruct (_ !! _) as [id|]; [|done]. cbn.
  destruct (cancel_watch_same id s) as (_&->&_). apply delete_subseteq.
Qed.

Lemma watchers_started x s : tails_ok s →
  watchers s ⊆ watchers (tail_started x s) ∧
  (x ∉ dom (tailThreads s) → ∃ id, watchers (tail_started x s) !! id = Some x).
Proof.
  intros Hok. unfold tail_started. destruct (tailThreads s !! x) eqn:Ex.
  - split; [done|]. intros []. by apply elem_of_dom_2 in Ex.
  - split.
    + apply insert_subseteq. destruct (watchers s !! nextWatch s) as [y|] eqn:E; [|done].
      apply (to_watcher _ Hok), (to_fresh _ Hok) in E. lia.
    + intros _. exists (nextWatch s). apply lookup_insert_eq.
Qed.

(** Without entries no goroutine is left that was not told to stop. *)
Lemma no_entries_no_watchers s : tails_ok s → tailThreads s = ∅ → watchers s = ∅.
Proof.
  intros Hok He. apply map_eq. intros i. rewrite lookup_empty. destruct (watchers s !! i) as [x|] eqn:Ex; [|done].
  apply (to_watcher _ Hok) in Ex. by rewrite He, lookup_empty in Ex.
Qed.

Lemma tail_stopped_file x s : conAggLogFile (tail_stopped x s) = conAggLogFile s.
Proof. unfold tail_stopped. destruct (_ !! _) as [id|]; [|done]. apply (cancel_watch_same id s). Qed.

Lemma tail_stopped_logger x s : conAggLogger (tail_stopped x s) = conAggLogger s.
Proof. unfold tail_stopped. destruct (_ !! _) as [id|]; [|done]. apply (cancel_watch_same id s). Qed.

Lemma tail_started_file x s : conAggLogFile (tail_started x s) = conAggLogFile s.
Proof. unfold tail_started. by destruct (_ !! _). Qed.

Lemma tail_started_keeps x s :
  tailThreads s ⊆ tailThreads (tail_started x s) ∧ lingering (tail_started x s) = lingering s ∧
  (nextWatch s ≤ nextWatch (tail_started x s))%nat.
Proof.
  unfold tail_started. destruct (tailThreads s !! x) eqn:Ex; [done|]. cbn.
  split; [by apply insert_subseteq|]. split; [done|lia].
Qed.

Lemma tails_live_started x s : tails_ok s → tails_live s → tails_live (tail_started x s).
Proof. unfold tail_started. destruct (_ !! _); eauto using tails_live_start. Qed.

Lemma tails_live_stopped x s : tails_ok s → tails_live s → tails_live (tail_stopped x s).
Proof. unfold tail_stopped. destruct (_ !! _) eqn:E; eauto using tails_live_stop. Qed.

Lemma alive_stopped x s : alive (tail_stopped x s) = alive s.
Proof. unfold tail_stopped. destruct (_ !! _) as [id|]; [|done]. exact (alive_cancel id s). Qed.

#[export] Hint Resolve tails_ok_started tails_ok_stopped tails_live_started tails_live_stopped : go.

(** ** The debugging aid *)

Lemma cancel_all_watchers (l : list (string * nat)) w Q :
  (∀ w', tailThreads (tails w') = tailThreads (tails w) →
     (∀ id, watchers (tails w') !! id = if decide (id ∈ l.*2) then None else watchers (tails w) !! id) → Q () w') →
  wp true (forEach l (λ kv, cancel kv.2)) Q w.
Proof.
  revert w. induction l as [|[x i] l IH]; intros w H; cbn [forEach].
  - apply wp_ret, H; [done|]. intros id. rewrite decide_False; [done|]. cbn. by intros ?%elem_of_nil.
  - rewrite wp_bind. unfold cancel. wp_pure. destruct (cancel_watch_same i (tails w)) as (E1&E2&_).
    apply IH. intros w' Ht Hw. cbn in Ht, Hw. rewrite E1 in Ht. apply H; [exact Ht|].
    intros id. rewrite Hw, E2. cbn. destruct (decide (id ∈ l.*2)) as [Hl|Hl].
    + by rewrite decide_True by by right.
    + destruct (decide (id = i)) as [->|Hi]; [by rewrite lookup_delete_eq, decide_True by by left|].
      rewrite lookup_delete_ne by done. rewrite decide_False; [done|]. by intros [?|?]%elem_of_cons.
Qed.

(** One pass of [killTails] tells every goroutine to stop and keeps every entry of the
    table, so that [aggregateFile] restarts none of them, now or at the next
    configuration. *)
Lemma killTails_not_recreated (E : env) w :
  tails_ok (tails w) → is_Some (fs w !! "/var/log/console/killTails.txt"%string) → (∀ n p, fs_fault E n OpStat p = None) →
  ∃ w', killTails_once E w = Done true w' ∧ watchers (tails w') = ∅ ∧
    tailThreads (tails w') = tailThreads (tails w) ∧
    ∀ x, x ∈ dom (tailThreads (tails w)) → aggregateFile x w' = Done false w'.
Proof.
  intros Hok [f Hf] Hs.
  assert (H : wp true (killTails_once E) (λ b w', b = true ∧ watchers (tails w') = ∅ ∧
    tailThreads (tails w') = tailThreads (tails w)) w).
  { unfold killTails_once, osStat, fault. wp_pure. rewrite Hs. cbn [fs next_tick]. rewrite Hf. wp_pure.
    apply wp_goRange. intros l _ Hl. rewrite wp_bind. apply cancel_all_watchers. intros w' Ht Hw. wp_pure. split; [done|]. split; [|exact Ht].
    apply map_eq. intros id. rewrite lookup_empty. change (watchers (tails w') !! id = None). rewrite Hw.
    destruct (decide (id ∈ _)) as [Hi|Hi]; [done|]. cbn in *.
    destruct (watchers (tails w) !! id) as [x|] eqn:Ex; [|done]. exfalso. apply Hi.
    apply (to_watcher _ Hok) in Ex. apply list_elem_of_fmap. exists (x, id). split; [done|].
    rewrite Hl. by apply elem_of_map_to_list. }
  apply wp_total_done in H as (b&w'&H&->&Hw&Ht). exists w'. split; [done|]. split; [done|]. split; [done|].
  intros x [id Hid]%elem_of_dom. unfold aggregateFile, mbind, M_bind, gets. by rewrite Ht, Hid.
Qed.
