(* ===== verification/DataService.v ===== *)
(** * The console-data client: src/src/console_node/data.go

    The three requests the node-management thread makes to console-data:
    counting the active pods, acquiring nodes, releasing nodes; and the JSON
    forms of the nodes they carry.  The heartbeat is in Heartbeat.v. *)

From S2P Require Import Prelude GoStrings Json World HttpUtils Operator.
From Stdlib Require Import ZArith.
From stdpp Require Import base numbers strings gmap sets list.

Local Open Scope Z_scope.

Definition dataAddrBase : string := "http://cray-console-data/v1".

Definition JInt (n : Z) : json := JNum (Itoa n).

(** ** JSON forms *)

Definition node_zero : nodeConsoleInfo := NodeCI EmptyString EmptyString EmptyString EmptyString 0 EmptyString.

(** [nodeConsoleInfo] has no struct tags: the members have the fields' names. *)
Definition node_json (n : nodeConsoleInfo) : json :=
  JObj [("NodeName", JStr (NodeName n)); ("BmcName", JStr (BmcName n)); ("BmcFqdn", JStr (BmcFqdn n));
        ("Class", JStr (nodeClass n)); ("NID", JInt (NID n)); ("Role", JStr (Role n))].

Definition node_fields : list (string * decoder nodeConsoleInfo) :=
  [("NodeName", dec_field NodeName (λ x n, NodeCI x (BmcName n) (BmcFqdn n) (nodeClass n) (NID n) (Role n)) dec_string);
   ("BmcName", dec_field BmcName (λ x n, NodeCI (NodeName n) x (BmcFqdn n) (nodeClass n) (NID n) (Role n)) dec_string);
   ("BmcFqdn", dec_field BmcFqdn (λ x n, NodeCI (NodeName n) (BmcName n) x (nodeClass n) (NID n) (Role n)) dec_string);
   ("Class", dec_field nodeClass (λ x n, NodeCI (NodeName n) (BmcName n) (BmcFqdn n) x (NID n) (Role n)) dec_string);
   ("NID", dec_field NID (λ x n, NodeCI (NodeName n) (BmcName n) (BmcFqdn n) (nodeClass n) x (Role n)) dec_int);
   ("Role", dec_field Role (λ x n, NodeCI (NodeName n) (BmcName n) (BmcFqdn n) (nodeClass n) (NID n) x) dec_string)].

(** A slice of nodes; a nil slice is null. *)
Definition nodes_json (l : list nodeConsoleInfo) : json :=
  match l with [] => JNull | _ => JArr (map node_json l) end.

(** [json.Unmarshal(rb, &newNodes)] into a nil slice. *)
Definition unmarshal_nodes (body : string) : list nodeConsoleInfo * bool :=
  Unmarshal [] (dec_slice (dec_struct node_fields) node_zero) body.

(** [type NodePodInfo struct] *)
Definition podinfo_fields : list (string * decoder Z) :=
  [("numactivepods", dec_int)].

(** [ReqData], the body of an acquire request. *)
Definition acquire_json (numMtn numRvr : Z) (loc : PodLocationDataResponse) : json :=
  JObj [("nummtn", JInt numMtn); ("numrvr", JInt numRvr);
        ("alias", JStr (pl_Alias loc)); ("xname", JStr (pl_Xname loc))].

(** The address of an operation on this pod. *)
Definition pod_url (w : world) (op : string) : string :=
  dataAddrBase +:+ "/consolepod/" +:+ podID (pod w) +:+ "/" +:+ op.

Section data.
Context (E : env).

(** [getNumActiveNodePods] *)
Definition getNumActiveNodePods : M (Z * option string) :=
  r ← getURL E (dataAddrBase +:+ "/activepods") None;
  mret match r with
       | (_, _, Some err) => (1, Some err)
       | (None, _, None) => (1, None)
       | (Some rb, _, None) =>
         match Unmarshal 0 (λ j, dec_struct podinfo_fields j 0) rb with
         | (_, true) => (1, Some "unmarshal")
         | (n, false) => (n, None)
         end
       end.

(** [acquireNewNodes]: errors are only logged, and what could be decoded of
    the answer is returned. *)
Definition acquireNewNodes (numMtn numRvr : Z) (podLocation : option PodLocationDataResponse)
    : M (list nodeConsoleInfo) :=
  loc ← deref "nil pointer dereference" podLocation;
  url ← gets (λ w, pod_url w "acquire");
  r ← postURL E url (json_print (acquire_json numMtn numRvr loc)) None;
  mret match r.1.1 with
       | Some rb => (unmarshal_nodes rb).1
       | None => []
       end.

(** [releaseNodes] *)
Definition releaseNodes (ns : list nodeConsoleInfo) : M () :=
  url ← gets (λ w, pod_url w "release");
  _ ← postURL E url (json_print (nodes_json ns)) None;
  mret ().

(** ** Requests and answers *)

(** The requests these operations send from a state. *)
Definition release_request (w : world) (ns : list nodeConsoleInfo) : http_request :=
  post_request (pod_url w "release") (json_print (nodes_json ns)).
Definition acquire_request (w : world) (numMtn numRvr : Z) (loc : PodLocationDataResponse) : http_request :=
  post_request (pod_url w "acquire") (json_print (acquire_json numMtn numRvr loc)).

(** The nodes in the answer to an acquire request. *)
Definition acquired_from (o : http_outcome) : list nodeConsoleInfo :=
  match o with Response _ rb => (unmarshal_nodes rb).1 | _ => [] end.

(** ** Lemmas *)

Lemma wp_getNumActiveNodePods_http t Q w :
  (t = true → requests_return E) →
  (∀ r w' evs, io evs w w' → only_http evs → (r.2 ≠ None → r.1 = 1) → Q r w') →
  wp t getNumActiveNodePods Q w.
Proof.
  intros Ht H. unfold getNumActiveNodePods. rewrite wp_bind.
  apply wp_getURL; [done|]. intros o w' _ Hio _. rewrite wp_ret. eapply H; [done|apply sent_only_http|].
  destruct (http_result o) as [[[rb|] sc] [err|]]; try done.
  by destruct (Unmarshal _ _ _) as [n []].
Qed.

Lemma wp_acquireNewNodes t numMtn numRvr loc Q w :
  (t = true → requests_return E) →
  (∀ o w', http_do E (tick w) (acquire_request w numMtn numRvr loc) = Some o →
     io (sent o (acquire_request w numMtn numRvr loc)) w w' → Q (acquired_from o) w') →
  wp t (acquireNewNodes numMtn numRvr (Some loc)) Q w.
Proof.
  intros Ht H. unfold acquireNewNodes, deref. wp_pure.
  apply wp_postURL; [done|]. intros o w' Eo Hio _. rewrite wp_ret.
  specialize (H o w' Eo Hio). by destruct o.
Qed.

Lemma wp_releaseNodes t ns Q w :
  (t = true → requests_return E) →
  (∀ o w', http_do E (tick w) (release_request w ns) = Some o → io (sent o (release_request w ns)) w w' → Q () w') →
  wp t (releaseNodes ns) Q w.
Proof.
  intros Ht H. unfold releaseNodes. wp_pure.
  apply wp_postURL; [done|]. intros o w' Eo Hio _. rewrite wp_ret. by eapply H.
Qed.

End data.
