(* ===== verification/ConmanProc.v ===== *)
(** * The conmand process: src/src/console_node/conman.go

    The global [command], signalling it, and running one instance of it. *)

From S2P Require Import Prelude GoStrings World.
From Stdlib Require Import ZArith.
From stdpp Require Import base numbers strings gmap sets list.

Local Open Scope Z_scope.

Definition confFile : string := "/etc/conman.conf".

(** [command.Process.Signal(sig)] when [command] is not nil: before [Start]
    the process pointer is nil, after the end the signal is not delivered. *)
Definition signal_process (sig : signal) : M () :=
  c ← gets command;
  match c with
  | CmdNil | CmdCreated => panic "nil pointer dereference"
  | CmdRunning => emit (EvSignal sig)
  | CmdExited => mret ()
  end.

(** [signalConmanTERM] *)
Definition signalConmanTERM : M () :=
  c ← gets command;
  if decide (c = CmdNil) then mret () else signal_process SIGTERM.

Section proc.
Context (E : env).

(** With no process, debug mode recreates the fake log files. *)
Definition respin_fakes : M () :=
  w ← gets id;
  if debugOnly (pod w) then
    lr ← goRange E (rvr w);
    forEach lr (λ kv, emit (EvFakeLog kv.1));;
    lm ← goRange E (mtn w);
    forEach lm (λ kv, emit (EvFakeLog kv.1))
  else mret ().

(** [signalConmanHUP] *)
Definition signalConmanHUP : M () :=
  c ← gets command;
  if decide (c = CmdNil) then respin_fakes else signal_process SIGHUP.

(** ** The phases of [executeConman] *)

(** [command = exec.Command(...)] *)
Definition create_command : M () := modify (upd_command (λ _, CmdCreated)).

(** [command.Start()], after the two pipes are connected. *)
Definition start_command : M () :=
  emit (EvExec ["conmand"; "-F"; "-v"; "-c"; confFile]);;
  modify (upd_command (λ _, CmdRunning)).

(** The process ends: [Wait] returns. *)
Definition exit_command : M () := modify (upd_command (λ _, CmdExited)).

(** [command = nil] *)
Definition reset_command : M () := modify (upd_command (λ _, CmdNil)).

(** One run of the process, as this thread sees it: [pipe_ok] and [start_ok]
    say whether the operating system lets it start, [wait_err] whether it ends
    with an error, which costs a pause before the next try. *)
Definition executeConman (pipe_ok start_ok wait_err : bool) : M () :=
  create_command;;
  if negb pipe_ok then panic "Unable to connect to conmand pipe" else
  if negb start_ok then panic "Unable to start the command" else
  start_command;;
  exit_command;;
  (if wait_err then sleep (15 * second) else mret ());;
  reset_command.

(** [logPipeOutput]: the lines a pipe delivers before it ends; an unfinished
    last line is not logged. *)
Definition logPipeOutput (data : string) : M () :=
  forEach (read_lines data) (λ l, emit (EvLog l)).

End proc.

(** ** Lemmas *)

(** The signal is sent exactly when a process is running. *)
Definition term_event (c : cmdState) : list event :=
  match c with CmdRunning => [EvSignal SIGTERM] | _ => [] end.

Lemma wp_signalConmanTERM t Q w :
  (command w = CmdCreated → t = false) →
  (∀ w', io (term_event (command w)) w w' → Q () w') →
  wp t signalConmanTERM Q w.
Proof.
  intros Ht H. unfold signalConmanTERM, signal_process. wp_pure.
  destruct (decide (command w = CmdNil)) as [E|E]; wp_pure.
  - apply H. rewrite E. apply io_refl.
  - destruct (command w) eqn:Ec; wp_pure; [done|by rewrite (Ht eq_refl)|apply H, io_event|apply H, io_refl].
Qed.
