(* ===== verification/LogRotateConf.v ===== *)
(** * The log rotation configuration: src/src/console_node/logRotation.go

    [updateLogRotateConf] and [writeConfigEntry]: the file given to logrotate,
    one entry for the aggregation log and one for each console log. *)

From S2P Require Import Prelude GoStrings World Files.
From Stdlib Require Import ZArith Ascii String.
From stdpp Require Import base numbers strings gmap sets list.

Local Open Scope Z_scope.

Definition logRotDir : string := "/var/log/conman.old".
Definition logRotConfFile : string := "/app/logrotate.conman".
Definition logRotStateFile : string := "/tmp/rot_conman.state".

(** The console log of a node. *)
Definition consoleLog (xname : string) : string := "/var/log/conman/console." +:+ xname.

Definition line (s : string) : string := s +:+ String nl EmptyString.

(** The lines of one entry, in the order they are written. *)
Definition entry_lines (fileName oldDir : string) (numRotate : Z) (fileSize : string) : list string :=
  [line (fileName +:+ " { "); line "  nocompress"; line "  missingok"; line "  nocopytruncate";
   line "  nocreate"; line "  nodelaycompress"; line "  nomail"; line "  notifempty";
   line ("  olddir " +:+ oldDir); line ("  rotate " +:+ Itoa numRotate);
   line ("  size=" +:+ fileSize); line "}"].

Definition unlines (l : list string) : string := foldr String.append EmptyString l.

Definition entry_text (fileName oldDir : string) (numRotate : Z) (fileSize : string) : string :=
  unlines (entry_lines fileName oldDir numRotate fileSize).

Section conf.
Context (E : env).

(** [fmt.Fprint...] to the file, whose error is not looked at; a nil file
    takes nothing. *)
Definition fprint (is_open : bool) (path str : string) : M () :=
  if is_open then _ ← osAppend E path str; mret () else mret ().

(** [writeConfigEntry] *)
Definition writeConfigEntry (lrf : bool) (fileName oldDir : string) (numRotate : Z) (fileSize : string) : M () :=
  forEach (entry_lines fileName oldDir numRotate fileSize) (fprint lrf logRotConfFile).

(** The entries of one group of nodes. *)
Definition write_group (lrf : bool) (m : gmap string nodeConsoleInfo) : M () :=
  l ← goRange E m;
  r ← gets rot;
  forEach l (λ kv, writeConfigEntry lrf (consoleLog kv.1) "/var/log/conman.old"
    (logRotConNumRotate r) (logRotConFileSize r)).

(** [updateLogRotateConf] *)
Definition updateLogRotateConf : M () :=
  err ← osTruncate E logRotConfFile 438;
  let lrf := match err with None => true | Some _ => false end in
  fprint lrf logRotConfFile (line "# Auto-generated conman log rotation configuration file.");;
  w ← gets id;
  let agg := conAggLogFile (tails w) in
  (if decide (agg = EmptyString) then mret () else
   let dir := pathDir agg in
   if 0 <? slen dir then
     writeConfigEntry lrf agg dir (logRotAggNumRotate (rot w)) (logRotAggFileSize (rot w))
   else mret ());;
  write_group lrf (rvr w);;
  write_group lrf (pds w);;
  write_group lrf (mtn w);;
  fprint lrf logRotConfFile (line EmptyString).

(** [doInitialConfFileUpdate]: the same under the lock on the nodes. *)
Definition doInitialConfFileUpdate : M () := updateLogRotateConf.

(** ** What the file should hold *)

(** The entry of the aggregation log. *)
Definition agg_text (w : world) : string :=
  let agg := conAggLogFile (tails w) in
  if decide (agg = EmptyString) then EmptyString
  else entry_text agg (pathDir agg) (logRotAggNumRotate (rot w)) (logRotAggFileSize (rot w)).

(** The entries of the console logs of the nodes [xs]. *)
Definition console_text (w : world) (xs : list string) : string :=
  unlines (map (λ x, entry_text (consoleLog x) "/var/log/conman.old"
    (logRotConNumRotate (rot w)) (logRotConFileSize (rot w))) xs).

Definition conf_text (w : world) (xs : list string) : string :=
  line "# Auto-generated conman log rotation configuration file." +:+
  agg_text w +:+ console_text w xs +:+ line EmptyString.

(** ** Lemmas *)

Lemma unlines_app k l : unlines (k ++ l) = unlines k +:+ unlines l.
Proof.
  unfold unlines. induction k as [|a k IH]; [done|].
  cbn [foldr app]. by rewrite append_assoc, <- IH.
Qed.

(** Only this file changes. *)
Definition touches (path : string) (w w' : world) : Prop :=
  only_fs w w' ∧ trace w' = trace w ∧ ∀ p, p ≠ path → fs w' !! p = fs w !! p.

#[export] Instance touches_preorder path : PreOrder (touches path).
Proof.
  split; [by repeat split|].
  intros w1 w2 w3 (H1&T1&F1) (H2&T2&F2). split; [by etrans|]. split; [congruence|].
  intros p Hp. rewrite F2, F1; done.
Qed.

(** [str] was added at the end of the file. *)
Definition appended (path str : string) (w w' : world) : Prop :=
  touches path w w' ∧
  ∀ f, fs w !! path = Some f → fs w' !! path = Some (File (content f +:+ str) (mode f)).

Lemma appended_nil path w : appended path EmptyString w w.
Proof. split; [done|]. intros [c m] H. by rewrite H, append_nil_r. Qed.

Lemma appended_trans path s1 s2 w w1 w2 :
  appended path s1 w w1 → appended path s2 w1 w2 → appended path (s1 +:+ s2) w w2.
Proof.
  intros [H1 F1] [H2 F2]. split; [by etrans|].
  intros f Hf. apply F1, F2 in Hf. cbn in Hf. by rewrite append_assoc in Hf.
Qed.

(** Writes either succeed or change nothing; [ok] says they succeed. *)
Definition writes_ok (ok : Prop) (path : string) : Prop := ok → ∀ n, fs_fault E n OpWrite path = None.

Lemma wp_fprint (ok : Prop) t is_open path str Q w :
  writes_ok ok path →
  (∀ w', touches path w w' → (ok → is_open = true → appended path str w w') → Q () w') →
  wp t (fprint is_open path str) Q w.
Proof.
  intros Hok H. unfold fprint, osAppend, fault. destruct is_open; [|by apply H].
  wp_pure. destruct (fs_fault E (tick w) OpWrite path) eqn:Ef; wp_pure.
  - apply H; [by repeat split|]. intros Ho. by rewrite (Hok Ho) in Ef.
  - assert (Ht : touches path w (upd_fs (alter (λ f, File (content f +:+ str) (mode f)) path) (next_tick w))).
    { repeat split. intros p Hp. cbn. by rewrite lookup_alter_ne by done. }
    apply H; [done|]. intros _ _. split; [done|]. intros f Hf. cbn.
    by rewrite lookup_alter_eq, Hf.
Qed.

Lemma wp_fprint_all {A} (ok : Prop) t is_open path (f : A → string) (l : list A) (body : A → M ()) Q w :
  (∀ x w' Q', (∀ w'', touches path w' w'' → (ok → is_open = true → appended path (f x) w' w'') → Q' () w'') →
     wp t (body x) Q' w') →
  (∀ w', touches path w w' → (ok → is_open = true → appended path (unlines (map f l)) w w') → Q () w') →
  wp t (forEach l body) Q w.
Proof.
  intros Hb. revert w. induction l as [|x l IH]; intros w H; cbn [forEach map unlines foldr].
  { apply wp_ret, H; [done|]. intros. apply appended_nil. }
  rewrite wp_bind. apply Hb. intros w1 H1 A1. apply IH. intros w2 H2 A2.
  apply H; [by etrans|]. intros Ho Hl. eapply appended_trans; eauto.
Qed.

Lemma wp_writeConfigEntry (ok : Prop) t lrf fileName oldDir n sz Q w :
  writes_ok ok logRotConfFile →
  (∀ w', touches logRotConfFile w w' →
     (ok → lrf = true → appended logRotConfFile (entry_text fileName oldDir n sz) w w') → Q () w') →
  wp t (writeConfigEntry lrf fileName oldDir n sz) Q w.
Proof.
  intros Hok H. unfold writeConfigEntry. apply (wp_fprint_all ok t lrf logRotConfFile (λ x, x)).
  - intros x w' Q' HQ. by apply (wp_fprint ok).
  - intros w' Ht Ha. apply H; [done|]. by rewrite map_id in Ha.
Qed.

Lemma wp_write_group (ok : Prop) t lrf m Q w :
  writes_ok ok logRotConfFile →
  (∀ w' l, l ≡ₚ map_to_list m → touches logRotConfFile w w' →
     (ok → lrf = true → appended logRotConfFile (console_text w l.*1) w w') → Q () w') →
  wp t (write_group lrf m) Q w.
Proof.
  intros Hok H. unfold write_group. rewrite wp_bind. apply wp_goRange. intros l _ Hl. wp_pure.
  apply (wp_fprint_all ok t lrf logRotConfFile (λ kv, entry_text (consoleLog kv.1) "/var/log/conman.old"
    (logRotConNumRotate (rot w)) (logRotConFileSize (rot w)))).
  - intros x w' Q' HQ. by apply (wp_writeConfigEntry ok).
  - intros w' Ht Ha. apply (H w' l Hl).
    + by transitivity (next_tick w).
    + intros Ho Hlr. specialize (Ha Ho Hlr). unfold console_text.
      change (l.*1) with (map fst l). by rewrite map_map.
Qed.

Lemma console_text_app w xs ys :
  console_text w (xs ++ ys) = console_text w xs +:+ console_text w ys.
Proof.
  unfold console_text. by rewrite map_app, unlines_app.
Qed.

(** The names of the nodes in three maps, in some order. *)
Definition node_names (w : world) (xs : list string) : Prop :=
  ∃ lr lp lm, lr ≡ₚ map_to_list (rvr w) ∧ lp ≡ₚ map_to_list (pds w) ∧ lm ≡ₚ map_to_list (mtn w) ∧
    xs = lr.*1 ++ lp.*1 ++ lm.*1.

(** The file can be created and written. *)
Definition conf_writable : Prop :=
  ∀ n, fs_fault E n OpCreate logRotConfFile = None ∧ fs_fault E n OpWrite logRotConfFile = None.

Lemma wp_agg_entry t lrf (w w1 : world) Q :
  only_fs w w1 →
  (∀ w', touches logRotConfFile w1 w' →
     (conf_writable → lrf = true → appended logRotConfFile (agg_text w) w1 w') → Q () w') →
  wp t (if decide (conAggLogFile (tails w1) = EmptyString) then mret () else
    if 0 <? slen (pathDir (conAggLogFile (tails w1))) then
      writeConfigEntry lrf (conAggLogFile (tails w1)) (pathDir (conAggLogFile (tails w1)))
        (logRotAggNumRotate (rot w1)) (logRotAggFileSize (rot w1))
    else mret ()) Q w1.
Proof.
  intros (_&Ht&_&_&Hr&_) H. rewrite Ht, Hr in *. unfold agg_text in H.
  destruct (decide (conAggLogFile (tails w) = EmptyString)).
  { apply wp_ret, H; [done|]. intros. apply appended_nil. }
  assert (Hd : (0 <? slen (pathDir (conAggLogFile (tails w)))) = true).
  { unfold pathDir, pathClean. generalize (take_s (Z.to_nat (strLastIndex (conAggLogFile (tails w)) "/" + 1))
      (conAggLogFile (tails w))). intros d.
    destruct (String.prefix "/" d); [done|]. case_decide as Hb; [done|].
    destruct (String.concat _ _); [done|]. done. }
  rewrite Hd. apply (wp_writeConfigEntry conf_writable); [|done].
  intros Hw k. apply Hw.
Qed.

(** Everything [updateLogRotateConf] does: it writes this one file, and when
    nothing fails the file is the expected text. *)
Lemma wp_updateLogRotateConf t Q w :
  (∀ w', touches logRotConfFile w w' →
     (conf_writable → ∃ xs md, node_names w xs ∧
        fs w' !! logRotConfFile = Some (File (conf_text w xs) md)) → Q () w') →
  wp t updateLogRotateConf Q w.
Proof.
  intros H. unfold updateLogRotateConf, osTruncate, fault.
  assert (Hok : writes_ok conf_writable logRotConfFile) by (intros Hw n; apply Hw).
  set (md := match fs w !! logRotConfFile with Some f => mode f | None => Z.ldiff 438 (umask E) end).
  rewrite wp_bind. apply (wp_mono _ _ (λ err w0,
    touches logRotConfFile w w0 ∧
    (conf_writable → err = None ∧ fs w0 !! logRotConfFile = Some (File EmptyString md)))).
  { wp_pure. destruct (fs_fault E (tick w) OpCreate logRotConfFile) eqn:Ef; wp_pure.
    - split; [by repeat split|]. intros Hw. by rewrite (proj1 (Hw _)) in Ef.
    - split; [|intros _; cbn; by rewrite lookup_insert_eq].
      repeat split. intros p Hp. cbn. by rewrite lookup_insert_ne by done. }
  intros err w0 [T0 C0]. cbv zeta.
  set (lrf := match err with None => true | Some _ => false end).
  assert (Hlrf : conf_writable → lrf = true) by (intros Hw; by destruct (C0 Hw) as [-> _]).
  rewrite wp_bind. apply (wp_fprint conf_writable); [done|]. intros w1 T1 A1.
  rewrite wp_bind, wp_gets. cbv beta delta [id]. rewrite wp_bind.
  assert (T01 : touches logRotConfFile w w1) by by etrans.
  assert (E1 : only_fs w w1) by apply T01.
  apply (wp_agg_entry t lrf w w1 _ E1). intros w2 T2 A2. rewrite wp_bind.
  assert (T02 : touches logRotConfFile w w2) by by etrans.
  apply (wp_write_group conf_writable); [done|]. intros w3 lr Hlr T3 A3. rewrite wp_bind.
  assert (T03 : touches logRotConfFile w w3) by by etrans.
  apply (wp_write_group conf_writable); [done|]. intros w4 lp Hlp T4 A4. rewrite wp_bind.
  assert (T04 : touches logRotConfFile w w4) by by etrans.
  apply (wp_write_group conf_writable); [done|]. intros w5 lm Hlm T5 A5.
  apply (wp_fprint conf_writable); [done|]. intros w6 T6 A6.
  apply H; [by do 2 (etrans; [|done])|]. intros Hw.
  exists (lr.*1 ++ lp.*1 ++ lm.*1), md. split.
  { exists lr, lp, lm. destruct E1 as (En&_). unfold rvr, pds, mtn in *. by rewrite En in *. }
  assert (Er : rot w2 = rot w) by apply T02. assert (Er3 : rot w3 = rot w) by apply T03.
  assert (Er4 : rot w4 = rot w) by apply T04.
  specialize (Hlrf Hw). destruct (C0 Hw) as [_ F0].
  specialize (A1 Hw Hlrf). specialize (A2 Hw Hlrf). specialize (A3 Hw Hlrf).
  specialize (A4 Hw Hlrf). specialize (A5 Hw Hlrf). specialize (A6 Hw Hlrf).
  assert (A : appended logRotConfFile (conf_text w (lr.*1 ++ lp.*1 ++ lm.*1)) w0 w6); [|by apply A in F0].
  unfold conf_text. rewrite !console_text_app, !append_assoc.
  assert (CT : ∀ w', rot w' = rot w → ∀ xs, console_text w' xs = console_text w xs).
  { intros w' Hr xs. unfold console_text. by rewrite Hr. }
  rewrite (CT _ Er) in A3. rewrite (CT _ Er3) in A4. rewrite (CT _ Er4) in A5.
  repeat (eapply appended_trans; [eassumption|]). done.
Qed.

End conf.
