(* ===== verification/Nodes.v ===== *)
(** * Node management: src/src/console_node/nodes.go

    The three groups of nodes this pod watches, and the thread that adjusts
    them: reading the targets, computing how many nodes to acquire or give
    back, acquiring, releasing, and triggering reconfiguration. *)

From S2P Require Import Prelude Float64 GoStrings World HttpUtils Operator Files LogAggregation.
From S2P Require Import DataService ConmanProc LogRotateConf.
From Stdlib Require Import ZArith.
From stdpp Require Import base numbers strings gmap sets list.

Local Open Scope Z_scope.
Local Open Scope go_scope.

(** ** Classes and groups *)

(** [isMountain], [isRiver], [isParadise] *)
Definition isMountain (n : nodeConsoleInfo) : bool :=
  bool_decide (nodeClass n = "Mountain"%string) || bool_decide (nodeClass n = "Hill"%string).
Definition isRiver (n : nodeConsoleInfo) : bool := bool_decide (nodeClass n = "River"%string).
Definition isParadise (n : nodeConsoleInfo) : bool := bool_decide (nodeClass n = "Paradise"%string).

(** [func (node nodeConsoleInfo) String()] *)
Definition node_String (n : nodeConsoleInfo) : string :=
  "NodeName:" +:+ NodeName n +:+ ", BmcName:" +:+ BmcName n +:+ ", BmcFqdn:" +:+ BmcFqdn n +:+
  ", Class:" +:+ nodeClass n +:+ ", NID:" +:+ Itoa (NID n) +:+ ", Role:" +:+ Role n.

(** The three maps, as values: [&currentPdsNodes] is [Pds]. *)
Inductive pool := Rvr | Pds | Mtn.

#[export] Instance pool_eq_dec : EqDecision pool.
Proof. solve_decision. Defined.

Definition get_pool (p : pool) (w : world) : gmap string nodeConsoleInfo :=
  match p with Rvr => rvr w | Pds => pds w | Mtn => mtn w end.

Definition upd_pool (p : pool) (f : gmap string nodeConsoleInfo → gmap string nodeConsoleInfo)
    (s : nodesState) : nodesState :=
  match p with
  | Rvr => set_currentRvrNodes (f (currentRvrNodes s)) s
  | Pds => set_currentPdsNodes (f (currentPdsNodes s)) s
  | Mtn => set_currentMtnNodes (f (currentMtnNodes s)) s
  end.

(** The map a new node goes to; other classes are ignored. *)
Definition class_pool (n : nodeConsoleInfo) : option pool :=
  if isRiver n then Some Rvr else if isMountain n then Some Mtn else if isParadise n then Some Pds else None.

(** [currentXxxNodes[node.NodeName] = &newNodes[i]] *)
Definition store_node (n : nodeConsoleInfo) (s : nodesState) : nodesState :=
  match class_pool n with
  | Some p => upd_pool p <[NodeName n := n]> s
  | None => s
  end.

(** ** Small helpers *)

(** [pinNumNodes] *)
Definition pinNumNodes (numAsk numMax : Z) : Z :=
  if numAsk <? 0 then 0 else if numMax <? numAsk then numMax else numAsk.

(** [locMax] *)
Definition locMax (a b : Z) : Z := if b <? a then a else b.

Definition targetNodeFile : string := "/var/log/console/TargetNodes.txt".

(** The number after the label [txt] on a line, if the label is there: what
    [Atoi] returns, even with an error. *)
Definition target_on_line (txt ln : string) (old : Z) : M Z :=
  let pos := strIndex ln txt in
  if 0 <=? pos then
    numStr ← deref "slice bounds out of range" (slice ln (pos + slen txt) (slen ln - 1));
    mret (Atoi numStr).1
  else mret old.

Fixpoint read_targets (lines : list string) (newRvr newMtn : Z) : M (Z * Z) :=
  match lines with
  | [] => mret (newRvr, newMtn)
  | ln :: lines' =>
    newRvr' ← target_on_line "River:" ln newRvr;
    newMtn' ← target_on_line "Mountain:" ln newMtn;
    read_targets lines' newRvr' newMtn'
  end.

(** One side of the balancing rule: match the ideal when under it or more than
    ten percent over it. *)
Definition balance_delta (curr ideal : Z) : Z :=
  if (curr <? ideal) || overTenPercent curr ideal then ideal -i curr else 0.

(** [(total / safeNumPods) + 1] *)
Definition ideal_share (total numPods : Z) : Z := Z.quot total (locMax numPods 1) +i 1.

Section nodes.
Context (E : env) {Op : OperatorService}.

(** [getCurrNodeXnames] *)
Definition getCurrNodeXnames : M (list string) :=
  w ← gets id;
  lm ← goRange E (mtn w);
  lr ← goRange E (rvr w);
  lp ← goRange E (pds w);
  mret (lm.*1 ++ lr.*1 ++ lp.*1).

(** [updateNodesPerPod] *)
Definition updateNodesPerPod : M () :=
  sf ← osRead E targetNodeFile;
  match sf with
  | None => mret ()
  | Some (data, _) =>
    t ← read_targets (read_lines data) (-1) (-1);
    modify (upd_nodes (λ s, set_targets
      (if 0 <=? t.1 then t.1 else targetRvrNodes s) (if 0 <=? t.2 then t.2 else targetMtnNodes s) s))
  end.

(** [calcChangeInNodes]: the changes for the Mountain and the River count. *)
Definition calcChangeInNodes : M (Z * Z) :=
  updateNodesPerPod;;
  w ← gets id;
  let currNumRvr := zlen (rvr w) in
  let currNumMtn := zlen (mtn w) in
  pods ← getNumActiveNodePods E;
  let numPods := match pods.2 with Some _ => 1 | None => pods.1 end in
  ct ← getCurrentTargets;
  match ct.2, pods.2 with
  | None, None =>
    currTargets ← deref "nil pointer dereference" ct.1;
    let deltaRvr := balance_delta currNumRvr (ideal_share (TotalRvrNodes currTargets) numPods) in
    let deltaMtn := balance_delta currNumMtn (ideal_share (TotalMtnNodes currTargets) numPods) in
    mret (deltaMtn, deltaRvr)
  | _, _ =>
    let deltaRvr := pinNumNodes (targetRvrNodes (nodes w) -i currNumRvr) (maxAcquireRvr (nodes w)) in
    let deltaMtn := pinNumNodes (targetMtnNodes (nodes w) -i currNumMtn) (maxAcquireMtn (nodes w)) in
    mret (deltaMtn, deltaRvr)
  end.

(** [delete(pool, key)] and [stopTailing(key)] *)
Definition drop_entry (p : pool) (key : string) : M () :=
  modify (upd_nodes (upd_pool p (delete key)));;
  stopTailing key.

(** The loop that releases River nodes, over the entries [l] that the range
    statement still has to visit. *)
Fixpoint release_rvr (endNumRvr : Z) (l : list (string * nodeConsoleInfo)) (rn : list nodeConsoleInfo)
    : M (list nodeConsoleInfo) :=
  match l with
  | [] => mret rn
  | (key, ni) :: l' =>
    m ← gets rvr;
    if endNumRvr <? zlen m then
      drop_entry Rvr key;;
      release_rvr endNumRvr l' (rn ++ [ni])
    else mret rn
  end.

(** The pool to take the next node from. *)
Definition targetPool (w : world) : pool :=
  if zlen (pds w) <? zlen (mtn w) then Mtn else Pds.

(** The loop that releases Mountain and Paradise nodes.  Each turn but the
    last removes a node, so one more turn than there are nodes is enough. *)
Fixpoint release_mtn (fuel : nat) (endNumMtn : Z) (rn : list nodeConsoleInfo) : M (list nodeConsoleInfo) :=
  match fuel with
  | O => stuck
  | S f =>
    w ← gets id;
    if endNumMtn <? zlen (mtn w) + zlen (pds w) then
      let p := targetPool w in
      if zlen (get_pool p w) =? 0 then mret rn else
      l ← goRange E (get_pool p w);
      match l with
      | [] => release_mtn f endNumMtn rn
      | (key, ni) :: _ =>
        drop_entry p key;;
        release_mtn f endNumMtn (rn ++ [ni])
      end
    else mret rn
  end.

Definition mtn_fuel (w : world) : nat := S (size (mtn w) + size (pds w)).

(** [rebalanceNodes] *)
Definition rebalanceNodes (deltaRvr deltaMtn : Z) : M bool :=
  rn1 ← (if deltaRvr <? 0 then
           m ← gets rvr;
           l ← goRange E m;
           release_rvr (zlen m +i deltaRvr) l []
         else mret []);
  rn ← (if deltaMtn <? 0 then
          w ← gets id;
          release_mtn (mtn_fuel w) (zlen (mtn w) + zlen (pds w) +i deltaMtn) rn1
        else mret rn1);
  match rn with
  | [] => mret false
  | _ => releaseNodes E rn;; mret true
  end.

(** [releaseNode]: from the first map that has it. *)
Definition releaseNode (xname : string) : M bool :=
  w ← gets id;
  found ← (if decide (is_Some (rvr w !! xname)) then
             modify (upd_nodes (upd_pool Rvr (delete xname)));; mret true
           else if decide (is_Some (mtn w !! xname)) then
             modify (upd_nodes (upd_pool Mtn (delete xname)));; mret true
           else if decide (is_Some (pds w !! xname)) then
             modify (upd_nodes (upd_pool Pds (delete xname)));; mret true
           else mret false);
  stopTailing xname;;
  mret found.

(** Acquiring: ask when there is something to ask for, and store the answer;
    true when a node was stored. *)
Definition acquire_nodes (numAcqRvr numAcqMtn : Z) : M bool :=
  if (0 <? numAcqRvr) || (0 <? numAcqMtn) then
    loc ← gets (podLocData ∘ pod);
    newNodes ← acquireNewNodes E numAcqMtn numAcqRvr loc;
    forEach newNodes (λ n, modify (upd_nodes (store_node n)));;
    mret (existsb (λ n, bool_decide (is_Some (class_pool n))) newNodes)
  else mret false.

(** [doGetNewNodes] under the lock: first the nodes are changed; true when
    there was a change. *)
Definition change_nodes : M bool :=
  delta ← calcChangeInNodes;
  let deltaMtn := delta.1 in
  let deltaRvr := if delta.2 =? 0 then 1 else delta.2 in
  s ← gets nodes;
  changed1 ← acquire_nodes (pinNumNodes deltaRvr (maxAcquireRvr s)) (pinNumNodes deltaMtn (maxAcquireMtn s));
  changed2 ← rebalanceNodes deltaRvr deltaMtn;
  mret (changed1 || changed2).

(** Then, after a change, conmand is told and the rotation file written. *)
Definition doGetNewNodes_locked : M () :=
  changed ← change_nodes;
  if changed : bool then
    signalConmanTERM;;
    updateLogRotateConf E
  else mret ().

(** [doGetNewNodes] *)
Definition doGetNewNodes : M () :=
  p ← gets pod;
  if inShutdown p then mret () else doGetNewNodes_locked.

(** One turn of [watchForNodes] *)
Definition watchForNodes_turn : M () :=
  doGetNewNodes;;
  s ← gets nodes;
  sleep (i64 (newNodeLookupSec s * second)).

End nodes.

(** ** What the pod watches, abstractly *)

(** The watched nodes, all groups together. *)
Definition all_entries (w : world) : list (string * nodeConsoleInfo) :=
  map_to_list (rvr w) ++ map_to_list (pds w) ++ map_to_list (mtn w).

Definition all_names (w : world) : gset string := dom (rvr w) ∪ dom (pds w) ∪ dom (mtn w).

(** Every node is stored under its own name in the map of its class. *)
Definition nodes_ok (w : world) : Prop :=
  ∀ p k n, get_pool p w !! k = Some n → NodeName n = k ∧ class_pool n = Some p.

(** No node is in two maps. *)
Definition pools_disjoint (w : world) : Prop :=
  ∀ p q k, is_Some (get_pool p w !! k) → is_Some (get_pool q w !! k) → p = q.

(** The invariant of the pod: nodes stored where they belong, the table of
    tails in order, and only the logs of watched nodes tailed. *)
Record pod_inv (w : world) : Prop := {
  pi_nodes : nodes_ok w;
  pi_tails : tails_ok (tails w);
  pi_sub : dom (tailThreads (tails w)) ⊆ all_names w
}.

(** Everything but the three maps, the table of tails, the trace and the
    interaction counter. *)
Definition rest (w : world) :=
  (targetRvrNodes (nodes w), targetMtnNodes (nodes w), maxAcquireRvr (nodes w), maxAcquireMtn (nodes w),
   newNodeLookupSec (nodes w), command w, creds w, rot w, pod w, fs w, conAggLogFile (tails w),
   conAggLogger (tails w)).
