(* ===== verification/NodesFacts.v ===== *)
(** * Lemmas about node management

    How each step of Nodes.v changes the three maps, the table of tails and
    the trace; the invariant [pod_inv]; the exact effect of the two release
    loops.  The properties themselves are in NodesProps.v. *)

From S2P Require Import Prelude Float64 GoStrings World HttpUtils Operator Files LogAggregation.
From S2P Require Import DataService ConmanProc LogRotateConf Nodes.
From Stdlib Require Import ZArith Lia Ascii.
From stdpp Require Import base numbers strings gmap sets list.

Local Open Scope Z_scope.
Local Open Scope go_scope.

(** ** The maps by name *)

Lemma get_upd_pool p q f w :
  get_pool q (upd_nodes (upd_pool p f) w) = if decide (q = p) then f (get_pool p w) else get_pool q w.
Proof. by destruct p, q. Qed.

Lemma get_upd_pool_eq p f w : get_pool p (upd_nodes (upd_pool p f) w) = f (get_pool p w).
Proof. by destruct p. Qed.

Lemma rest_upd_pool p f w : rest (upd_nodes (upd_pool p f) w) = rest w.
Proof. by destruct p. Qed.

Lemma get_pool_core p w w' : same_core w w' → get_pool p w = get_pool p w'.
Proof. intros H. destruct p; [by apply rvr_proper|by apply pds_proper|by apply mtn_proper]. Qed.

Lemma all_entries_core w w' : same_core w w' → all_entries w = all_entries w'.
Proof.
  intros H. unfold all_entries.
  by rewrite (rvr_proper _ _ H), (pds_proper _ _ H), (mtn_proper _ _ H).
Qed.

Lemma rest_core w w' : same_core w w' → rest w = rest w'.
Proof.
  intros H. unfold rest.
  by rewrite (nodes_proper _ _ H), (tails_proper _ _ H), (command_proper _ _ H), (creds_proper _ _ H),
    (rot_proper _ _ H), (pod_proper _ _ H), (fs_proper _ _ H).
Qed.

(** Equal maps. *)
Definition same_pools (w w' : world) : Prop := ∀ p, get_pool p w' = get_pool p w.

Lemma same_pools_entries w w' : same_pools w w' → all_entries w' = all_entries w.
Proof.
  intros H. unfold all_entries.
  by rewrite (H Rvr : rvr w' = rvr w), (H Pds : pds w' = pds w), (H Mtn : mtn w' = mtn w).
Qed.

Lemma all_entries_delete p k n w :
  get_pool p w !! k = Some n →
  all_entries w ≡ₚ (k, n) :: all_entries (upd_nodes (upd_pool p (delete k)) w).
Proof.
  intros H. unfold all_entries.
  assert (E : map_to_list (get_pool p w) ≡ₚ (k, n) :: map_to_list (delete k (get_pool p w))).
  { by rewrite (map_to_list_delete (get_pool p w) k n H). }
  destruct p; cbn in *; rewrite E; solve_Permutation.
Qed.

Lemma all_entries_insert p k n w :
  get_pool p w !! k = None →
  all_entries (upd_nodes (upd_pool p <[k := n]>) w) ≡ₚ (k, n) :: all_entries w.
Proof.
  intros H. unfold all_entries.
  assert (E : map_to_list (<[k := n]> (get_pool p w)) ≡ₚ (k, n) :: map_to_list (get_pool p w)).
  { by apply map_to_list_insert. }
  destruct p; cbn in *; unfold rvr, pds, mtn in *; cbn; rewrite E; solve_Permutation.
Qed.

Lemma elem_of_all_names w k : k ∈ all_names w ↔ ∃ p, is_Some (get_pool p w !! k).
Proof.
  unfold all_names. rewrite !elem_of_union, !elem_of_dom. split.
  - intros [[H|H]|H]; [by exists Rvr|by exists Pds|by exists Mtn].
  - intros [[] H]; auto.
Qed.

Lemma all_names_entries w : all_names w = list_to_set (all_entries w).*1.
Proof.
  unfold all_names, all_entries. rewrite !fmap_app, !list_to_set_app_L.
  rewrite !(range_fst_dom _ _ (Permutation_refl _)). set_solver.
Qed.

(** ** Releasing: what a sequence of removals leaves *)

Definition is_cancel (ev : event) : Prop := ∃ id, ev = EvCancel id.

(** The entries [rel] were removed from the maps and their tails stopped; the
    rest of the pod is as it was. *)
Record dropped (rel : list (string * nodeConsoleInfo)) (w w' : world) : Prop := {
  dr_entries : all_entries w ≡ₚ rel ++ all_entries w';
  dr_sub : ∀ p, get_pool p w' ⊆ get_pool p w;
  dr_tails : tails_ok (tails w) → tails_ok (tails w');
  dr_dom : dom (tailThreads (tails w')) = dom (tailThreads (tails w)) ∖ list_to_set rel.*1;
  dr_watchers : watchers (tails w') ⊆ watchers (tails w);
  dr_stop : tails w' = foldl (λ s x, tail_stopped x s) (tails w) rel.*1;
  dr_rest : rest w' = rest w;
  dr_trace : ∃ evs, trace w' = trace w ++ evs ∧ Forall is_cancel evs
}.

Lemma dropped_core w w' : same_core w w' → trace w' = trace w → dropped [] w w'.
Proof.
  intros H Ht. split.
  - by rewrite (all_entries_core _ _ H).
  - intros p. by rewrite (get_pool_core p _ _ H).
  - by rewrite (tails_proper _ _ H).
  - rewrite (tails_proper _ _ H). cbn. set_solver.
  - by rewrite (tails_proper _ _ H).
  - by rewrite (tails_proper _ _ H).
  - by rewrite (rest_core _ _ H).
  - exists []. by rewrite app_nil_r.
Qed.

Lemma dropped_refl w : dropped [] w w.
Proof. by apply dropped_core. Qed.

Lemma dropped_trans r1 r2 w w1 w2 : dropped r1 w w1 → dropped r2 w1 w2 → dropped (r1 ++ r2) w w2.
Proof.
  intros [E1 S1 T1 D1 W1 X1 R1 (e1&C1&F1)] [E2 S2 T2 D2 W2 X2 R2 (e2&C2&F2)]. split.
  - by rewrite <- app_assoc, <- E2.
  - intros p. etrans; [apply S2|apply S1].
  - auto.
  - rewrite D2, D1, fmap_app, list_to_set_app_L. set_solver.
  - by etrans.
  - by rewrite fmap_app, foldl_app, X2, X1.
  - congruence.
  - exists (e1 ++ e2). rewrite C2, C1, app_assoc. split; [done|by apply Forall_app].
Qed.

Lemma dropped_names rel w w' : dropped rel w w' → all_names w ⊆ list_to_set rel.*1 ∪ all_names w'.
Proof.
  intros H. rewrite !all_names_entries. intros k. rewrite elem_of_union, !elem_of_list_to_set.
  rewrite (dr_entries _ _ _ H), fmap_app, elem_of_app. done.
Qed.

Lemma dropped_inv rel w w' : dropped rel w w' → pod_inv w → pod_inv w'.
Proof.
  intros H [Hn Ht Hs]. split.
  - intros p k n Hk. apply (Hn p). by eapply lookup_weaken, dr_sub.
  - by eapply dr_tails.
  - rewrite (dr_dom _ _ _ H). pose proof (dropped_names _ _ _ H). set_solver.
Qed.

Lemma dropped_disjoint rel w w' : dropped rel w w' → pools_disjoint w → pools_disjoint w'.
Proof.
  intros H Hd p q k [n Hp] [m Hq].
  apply (Hd p q k); [exists n|exists m]; by eapply lookup_weaken, dr_sub.
Qed.

Lemma wp_drop_entry t p k n Q w :
  get_pool p w !! k = Some n →
  (∀ w', dropped [(k, n)] w w' →
     (∀ q, get_pool q w' = if decide (q = p) then delete k (get_pool p w) else get_pool q w) →
     Q () w') →
  wp t (drop_entry p k) Q w.
Proof.
  intros Hk H. unfold drop_entry. wp_pure. apply wp_stopTailing.
  intros w' (En&Et&Ec&Ecr&Er&Ep&Ef&Etr). cbn [tails upd_nodes] in Et.
  set (w1 := upd_nodes (upd_pool p (delete k)) w) in *.
  assert (Epool : ∀ q, get_pool q w' = get_pool q w1).
  { intros q. destruct q; cbn; unfold rvr, pds, mtn; by rewrite En. }
  apply H.
  - split.
    + rewrite (same_pools_entries w1 w' Epool). by apply all_entries_delete.
    + intros q. rewrite Epool. unfold w1. rewrite get_upd_pool.
      case_decide as E; [subst; apply delete_subseteq|done].
    + rewrite Et. auto with go.
    + rewrite Et, dom_tail_stopped. set_solver.
    + rewrite Et. apply watchers_stopped.
    + by rewrite Et.
    + unfold rest. rewrite Et, Ec, Ecr, Er, Ep, Ef, tail_stopped_file, tail_stopped_logger, En.
      unfold w1. by destruct p.
    + exists (stop_events k (tails w1)). split; [done|]. unfold stop_events.
      destruct (tailThreads (tails w1) !! k); [constructor; [by eexists|constructor]|constructor].
  - intros q. rewrite Epool. apply get_upd_pool.
Qed.

(** *** The River loop *)

Lemma wp_release_rvr t endNum l rn Q w :
  l ≡ₚ map_to_list (rvr w) →
  (∀ w' rel, dropped rel w w' → mtn w' = mtn w → pds w' = pds w →
     zlen (rvr w') = Z.min (zlen (rvr w)) (Z.max 0 endNum) → Q (rn ++ rel.*2) w') →
  wp t (release_rvr endNum l rn) Q w.
Proof.
  revert rn w. induction l as [|[k n] l IH]; intros rn w Hl H; cbn [release_rvr].
  - apply wp_ret. rewrite <- (app_nil_r rn). apply (H w []); try done; [apply dropped_refl|].
    rewrite (range_nil _ Hl), zlen_empty. lia.
  - rewrite wp_bind, wp_gets. destruct (Z.ltb_spec endNum (zlen (rvr w))) as [Hlt|Hge].
    + apply range_cons in Hl as Hc. destruct Hc as [Hk Hl'].
      rewrite wp_bind. apply (wp_drop_entry t Rvr k n); [done|]. intros w1 D1 P1.
      apply IH; [by rewrite (P1 Rvr : rvr w1 = delete k (rvr w))|].
      intros w2 rel D2 Em Ep Ez. rewrite <- app_assoc. apply (H w2 ((k, n) :: rel)).
      * by apply (dropped_trans [(k, n)]) with w1.
      * rewrite Em. apply (P1 Mtn).
      * rewrite Ep. apply (P1 Pds).
      * rewrite Ez, (P1 Rvr : rvr w1 = delete k (rvr w)), (zlen_delete _ k n) by done.
        pose proof (zlen_nonneg (delete k (rvr w))). rewrite (zlen_delete _ k n) in * by done. lia.
    + apply wp_ret. rewrite <- (app_nil_r rn). apply (H w []); try done; [apply dropped_refl|].
      pose proof (zlen_nonneg (rvr w)). lia.
Qed.

(** *** The Mountain and Paradise loop *)

(** The sizes a run of the loop may leave: nodes are taken from the larger
    pool, Paradise when they are equal. *)
Definition fair_sizes (w w' : world) : Prop :=
  zlen (mtn w') ≤ zlen (mtn w) ∧ zlen (pds w') ≤ zlen (pds w) ∧
  (zlen (mtn w') < zlen (mtn w) → zlen (pds w') ≤ zlen (mtn w')) ∧
  (zlen (pds w') < zlen (pds w) → zlen (mtn w') ≤ zlen (pds w') + 1).

Lemma wp_release_mtn E t fuel endNum rn Q w :
  (size (mtn w) + size (pds w) < fuel)%nat →
  (∀ w' rel, dropped rel w w' → rvr w' = rvr w → fair_sizes w w' →
     zlen (mtn w') + zlen (pds w') = Z.min (zlen (mtn w) + zlen (pds w)) (Z.max 0 endNum) →
     Q (rn ++ rel.*2) w') →
  wp t (release_mtn E fuel endNum rn) Q w.
Proof.
  revert rn w. induction fuel as [|f IH]; intros rn w Hf H; cbn [release_mtn]; [lia|].
  assert (Stop : Z.min (zlen (mtn w) + zlen (pds w)) (Z.max 0 endNum) = zlen (mtn w) + zlen (pds w) → Q rn w).
  { intros Es. rewrite <- (app_nil_r rn). apply (H w []); try done; [apply dropped_refl|].
    unfold fair_sizes. lia. }
  pose proof (zlen_nonneg (mtn w)) as Pm. pose proof (zlen_nonneg (pds w)) as Pp.
  rewrite wp_bind, wp_gets. cbv beta delta [id].
  destruct (Z.ltb_spec endNum (zlen (mtn w) + zlen (pds w))) as [Hlt|]; [|apply Stop; lia].
  destruct (Z.eqb_spec (zlen (get_pool (targetPool w) w)) 0) as [Hz|Hz].
  { apply Stop. unfold targetPool in Hz.
    destruct (Z.ltb_spec (zlen (pds w)) (zlen (mtn w))); cbn in Hz; lia. }
  rewrite wp_bind. apply wp_goRange. intros l _ Hl.
  destruct l as [|[k n] l].
  { exfalso. apply Hz. apply range_nil in Hl. rewrite Hl. apply zlen_empty. }
  apply range_cons in Hl as [Hk _].
  rewrite wp_bind. apply (wp_drop_entry t _ k n); [done|].
  intros w1 D1 P1.
  assert (P1' : ∀ q, get_pool q w1 = if decide (q = targetPool w) then delete k (get_pool (targetPool w) w) else get_pool q w).
  { intros q. rewrite P1. by destruct q. }
  clear P1. assert (D : dropped [(k, n)] w w1).
  { change [(k, n)] with ([] ++ [(k, n)]). eapply dropped_trans; [|done]. by apply dropped_core. }
  assert (Em : zlen (mtn w1) = if decide (targetPool w = Mtn) then zlen (mtn w) - 1 else zlen (mtn w)).
  { change (mtn w1) with (get_pool Mtn w1). rewrite P1'.
    destruct (targetPool w); repeat case_decide; try done. by apply (zlen_delete _ k n). }
  assert (Ep : zlen (pds w1) = if decide (targetPool w = Pds) then zlen (pds w) - 1 else zlen (pds w)).
  { change (pds w1) with (get_pool Pds w1). rewrite P1'.
    destruct (targetPool w); repeat case_decide; try done. by apply (zlen_delete _ k n). }
  assert (Er : rvr w1 = rvr w).
  { change (rvr w1) with (get_pool Rvr w1). rewrite P1'. unfold targetPool. destruct (_ <? _); by case_decide. }
  assert (Hp : targetPool w = if zlen (pds w) <? zlen (mtn w) then Mtn else Pds) by done.
  assert (Sz : zlen (mtn w1) + zlen (pds w1) = zlen (mtn w) + zlen (pds w) - 1 ∧
    (zlen (mtn w1) < zlen (mtn w) → zlen (pds w1) ≤ zlen (mtn w1)) ∧
    (zlen (pds w1) < zlen (pds w) → zlen (mtn w1) ≤ zlen (pds w1) + 1) ∧
    zlen (mtn w1) ≤ zlen (mtn w) ∧ zlen (pds w1) ≤ zlen (pds w)).
  { rewrite Em, Ep, Hp. destruct (Z.ltb_spec (zlen (pds w)) (zlen (mtn w)));
      repeat case_decide; try congruence; lia. }
  clear Em Ep Hp. apply IH.
  { unfold zlen in Sz. lia. }
  intros w2 rel D2 Er2 Hfair Ez. rewrite <- app_assoc. apply (H w2 ((k, n) :: rel)).
  - by apply (dropped_trans [(k, n)]) with w1.
  - congruence.
  - unfold fair_sizes in *. lia.
  - pose proof (zlen_nonneg (mtn w1)). pose proof (zlen_nonneg (pds w1)). lia.
Qed.

(** ** Storing acquired nodes *)

Definition store_all (ns : list nodeConsoleInfo) (w : world) : world :=
  upd_nodes (λ s, foldl (λ s n, store_node n s) s ns) w.

(** The entries that acquired nodes become; nodes of unknown classes are
    dropped. *)
Definition stored_entries (ns : list nodeConsoleInfo) : list (string * nodeConsoleInfo) :=
  omap (λ n, match class_pool n with Some _ => Some (NodeName n, n) | None => None end) ns.

Lemma store_all_cons n ns w : store_all (n :: ns) w = store_all ns (upd_nodes (store_node n) w).
Proof. done. Qed.

Lemma forEach_store ns w : forEach ns (λ n, modify (upd_nodes (store_node n))) w = Done () (store_all ns w).
Proof.
  revert w. induction ns as [|n ns IH]; intros w; [by destruct w|].
  cbn [forEach]. unfold mbind, M_bind, modify. apply IH.
Qed.

Lemma store_node_pool n w p :
  get_pool p (upd_nodes (store_node n) w) =
  if decide (class_pool n = Some p) then <[NodeName n := n]> (get_pool p w) else get_pool p w.
Proof.
  unfold store_node. destruct (class_pool n) as [q|].
  - rewrite get_upd_pool. repeat case_decide; congruence.
  - case_decide; [done|]. by destruct w, p.
Qed.

Lemma store_node_rest n w : rest (upd_nodes (store_node n) w) = rest w ∧ tails (upd_nodes (store_node n) w) = tails w.
Proof. unfold store_node. destruct (class_pool n) as [[]|]; done. Qed.

Lemma store_all_rest ns w : rest (store_all ns w) = rest w ∧ tails (store_all ns w) = tails w.
Proof.
  revert w. induction ns as [|n ns IH]; intros w; [done|].
  rewrite store_all_cons. destruct (IH (upd_nodes (store_node n) w)) as [-> ->]. apply store_node_rest.
Qed.

(** The maps after storing depend on the maps before only. *)
Lemma store_all_pools ns w w' : same_pools w w' → same_pools (store_all ns w) (store_all ns w').
Proof.
  revert w w'. induction ns as [|n ns IH]; intros w w' H; [intros p; destruct w, w'; apply H|].
  rewrite !store_all_cons. apply IH. intros p. rewrite !store_node_pool. by rewrite H.
Qed.

Lemma store_node_inv n w : pod_inv w → pod_inv (upd_nodes (store_node n) w).
Proof.
  intros [Hn Ht Hs]. split.
  - intros p k m. rewrite store_node_pool. case_decide as Hc; [|apply Hn].
    rewrite lookup_insert_Some. intros [[<- <-]|[_ H]]; [done|by apply Hn].
  - by rewrite (proj2 (store_node_rest n w)).
  - rewrite (proj2 (store_node_rest n w)). intros k Hk.
    apply Hs, elem_of_all_names in Hk as [p Hp]. apply elem_of_all_names. exists p.
    rewrite store_node_pool. case_decide; [|done]. rewrite lookup_insert_is_Some'. by right.
Qed.

Lemma store_all_inv ns w : pod_inv w → pod_inv (store_all ns w).
Proof.
  revert w. induction ns as [|n ns IH]; intros w H; [by destruct w|].
  rewrite store_all_cons. by apply IH, store_node_inv.
Qed.

(** Fresh nodes: distinct names that no group holds. *)
Definition fresh_nodes (ns : list nodeConsoleInfo) (w : world) : Prop :=
  NoDup (NodeName <$> ns) ∧ Forall (λ n, NodeName n ∉ all_names w) ns.

Lemma store_node_names n w :
  all_names w ⊆ all_names (upd_nodes (store_node n) w) ⊆ {[NodeName n]} ∪ all_names w.
Proof.
  split; intros k; rewrite ?elem_of_union, !elem_of_all_names; intros [p Hp]; revert Hp;
    rewrite ?store_node_pool.
  - intros Hp. exists p. rewrite store_node_pool. case_decide; [|done]. rewrite lookup_insert_is_Some'. by right.
  - case_decide.
    + rewrite lookup_insert_is_Some'. intros [<-|Hp]; [left; set_solver|right; by exists p].
    + intros Hp. right. by exists p.
Qed.

Lemma fresh_nodes_cons n ns w :
  fresh_nodes (n :: ns) w →
  NodeName n ∉ all_names w ∧ fresh_nodes ns (upd_nodes (store_node n) w).
Proof.
  intros [Hnd Hf]. rewrite fmap_cons in Hnd. apply NoDup_cons in Hnd as [Hni Hnd].
  apply Forall_cons in Hf as [Hn Hf]. split; [done|]. split; [done|].
  apply Forall_forall. intros m Hm Hin. apply (store_node_names n w) in Hin.
  apply elem_of_union in Hin as [Heq%elem_of_singleton|Hin].
  - apply Hni. rewrite <- Heq. apply list_elem_of_fmap. eauto.
  - rewrite Forall_forall in Hf. by apply (Hf m).
Qed.

Lemma store_node_entries n w :
  NodeName n ∉ all_names w →
  all_entries (upd_nodes (store_node n) w) ≡ₚ stored_entries [n] ++ all_entries w.
Proof.
  intros Hn. unfold stored_entries, store_node. cbn. destruct (class_pool n) as [p|]; cbn.
  - apply all_entries_insert. apply eq_None_not_Some. intros H. apply Hn, elem_of_all_names. eauto.
  - by destruct w.
Qed.

(** Storing fresh nodes adds exactly their entries. *)
Lemma store_all_entries ns w :
  fresh_nodes ns w → all_entries (store_all ns w) ≡ₚ stored_entries ns ++ all_entries w.
Proof.
  revert w. induction ns as [|n ns IH]; intros w Hf; [by destruct w|].
  apply fresh_nodes_cons in Hf as [Hn Hf]. rewrite store_all_cons, IH by done.
  rewrite store_node_entries by done.
  replace (stored_entries (n :: ns)) with (stored_entries [n] ++ stored_entries ns); [solve_Permutation|].
  unfold stored_entries. cbn. by destruct (class_pool n).
Qed.

Lemma store_all_disjoint ns w : fresh_nodes ns w → pools_disjoint w → pools_disjoint (store_all ns w).
Proof.
  revert w. induction ns as [|n ns IH]; intros w Hf Hd; [by destruct w|].
  apply fresh_nodes_cons in Hf as [Hn Hf]. rewrite store_all_cons. apply IH; [done|].
  intros p q k. rewrite !store_node_pool.
  assert (Hno : ∀ r, is_Some (get_pool r w !! NodeName n) → False).
  { intros r Hr. apply Hn, elem_of_all_names. eauto. }
  repeat case_decide; rewrite ?lookup_insert_is_Some'; intros H1 H2; try congruence;
    destruct_or?; subst; try (exfalso; eauto; done); eauto.
Qed.

(** ** Reading the target file *)

Lemma target_on_line_total t txt c ln old Q w :
  last_char txt = Some c → c ≠ nl → (∃ s, ln = s +:+ String nl EmptyString) →
  (∀ z, z = old ∨ in_i64 z → Q z w) → wp t (target_on_line txt ln old) Q w.
Proof.
  intros Hl Hc [s ->] H. unfold target_on_line.
  destruct (Z.leb_spec 0 (strIndex (s +:+ String nl EmptyString) txt)) as [Hp|]; [|apply wp_ret, H; auto].
  rewrite wp_bind. pose proof (strIndex_before_newline s txt c Hl Hc Hp) as Hb.
  pose proof (slen_nonneg txt). rewrite slen_append. change (slen (String nl EmptyString)) with 1.
  unfold deref, slice. rewrite slen_append. change (slen (String nl EmptyString)) with 1.
  destruct (Z.leb_spec 0 (strIndex (s +:+ String nl EmptyString) txt + slen txt)); [|lia].
  destruct (Z.leb_spec (strIndex (s +:+ String nl EmptyString) txt + slen txt) (slen s + 1 - 1)); [|lia].
  destruct (Z.leb_spec (slen s + 1 - 1) (slen s + 1)); [|lia].
  cbn [andb]. wp_pure. apply H. right. apply Atoi_range.
Qed.

Lemma read_targets_total t lines a b Q w :
  Forall (λ ln, ∃ s, ln = s +:+ String nl EmptyString) lines → in_i64 a → in_i64 b →
  (∀ a' b', in_i64 a' → in_i64 b' → Q (a', b') w) → wp t (read_targets lines a b) Q w.
Proof.
  revert a b. induction lines as [|ln lines IH]; intros a b Hl Ha Hb H; cbn [read_targets].
  { apply wp_ret. auto. }
  apply Forall_cons in Hl as [Hn Hl].
  rewrite wp_bind. apply (target_on_line_total _ _ ":"%char); [done..|]. intros a' Ha'.
  rewrite wp_bind. apply (target_on_line_total _ _ ":"%char); [done..|]. intros b' Hb'.
  apply IH; [done|naive_solver|naive_solver|done].
Qed.

(** Only the targets changed. *)
Record retargeted (w w' : world) : Prop := {
  rt_pools : same_pools w w';
  rt_maxR : maxAcquireRvr (nodes w') = maxAcquireRvr (nodes w);
  rt_maxM : maxAcquireMtn (nodes w') = maxAcquireMtn (nodes w);
  rt_sec : newNodeLookupSec (nodes w') = newNodeLookupSec (nodes w);
  rt_tails : tails w' = tails w;
  rt_command : command w' = command w;
  rt_creds : creds w' = creds w;
  rt_rot : rot w' = rot w;
  rt_pod : pod w' = pod w;
  rt_fs : fs w' = fs w
}.

Lemma retargeted_core w w' : same_core w w' → retargeted w w'.
Proof.
  intros H. split; try (intros p; symmetry; by apply get_pool_core);
    rewrite ?(nodes_proper _ _ H), ?(tails_proper _ _ H), ?(command_proper _ _ H), ?(creds_proper _ _ H),
      ?(rot_proper _ _ H), ?(pod_proper _ _ H), ?(fs_proper _ _ H); done.
Qed.

#[export] Instance retargeted_preorder : PreOrder retargeted.
Proof.
  split; [intros w; by apply retargeted_core|].
  intros w1 w2 w3 [] []. split; congruence.
Qed.

Lemma same_pools_names w w' : same_pools w w' → all_names w' = all_names w.
Proof. intros H. by rewrite !all_names_entries, (same_pools_entries w w' H). Qed.

(** What the invariant depends on. *)
Lemma pod_inv_same w w' : same_pools w w' → tails w' = tails w → pod_inv w → pod_inv w'.
Proof.
  intros Hp Ht [Hn Hok Hs]. split.
  - intros p k n. rewrite Hp. apply Hn.
  - by rewrite Ht.
  - by rewrite Ht, (same_pools_names w w').
Qed.

Lemma retargeted_inv w w' : retargeted w w' → pod_inv w → pod_inv w'.
Proof. intros []. by apply pod_inv_same. Qed.

Lemma wp_updateNodesPerPod E t Q w :
  (∀ w', retargeted w w' → trace w' = trace w → Q () w') → wp t (updateNodesPerPod E) Q w.
Proof.
  intros H. unfold updateNodesPerPod, osRead, fault. wp_pure. cbn [fs next_tick tick].
  set (w1 := next_tick (next_tick w)).
  assert (R1 : retargeted w w1) by by apply retargeted_core.
  assert (Hl : ∀ s, Forall (λ ln, ∃ u, ln = u +:+ String nl EmptyString) (read_lines s)).
  { intros s. apply Forall_forall. intros l. apply lines_go_newline. }
  assert (Hgo : ∀ data, wp t (read_targets (read_lines data) (-1) (-1) ≫= λ t0 : Z * Z,
      modify (upd_nodes (λ s, set_targets (if 0 <=? t0.1 then t0.1 else targetRvrNodes s)
        (if 0 <=? t0.2 then t0.2 else targetMtnNodes s) s))) Q w1).
  { intros data. rewrite wp_bind. apply read_targets_total; [done|done|done|]. intros a b _ _.
    wp_pure. apply H; [|done]. etrans; [exact R1|]. by split. }
  destruct (fs_fault E (tick w) OpOpen targetNodeFile); [wp_pure; by apply H|].
  destruct (fs w !! targetNodeFile) as [f|]; [|wp_pure; by apply H].
  destruct (read_limit _ _ _); apply Hgo.
Qed.

(** ** The computed changes *)

(** The two ways [calcChangeInNodes] gets its answer, from the counts and the
    targets of the state it ends in; [P] is what is known of the totals that
    console-operator reports. *)
Definition calc_result (P : CurrentTargets → Prop) (w : world) (d : Z * Z) : Prop :=
  (∃ ct numPods, P ct ∧ d =
     (balance_delta (zlen (mtn w)) (ideal_share (TotalMtnNodes ct) numPods),
      balance_delta (zlen (rvr w)) (ideal_share (TotalRvrNodes ct) numPods))) ∨
  d = (pinNumNodes (targetMtnNodes (nodes w) -i zlen (mtn w)) (maxAcquireMtn (nodes w)),
       pinNumNodes (targetRvrNodes (nodes w) -i zlen (rvr w)) (maxAcquireRvr (nodes w))).

Lemma io_only_http o rq w w' : io (sent o rq) w w' → ∃ evs, trace w' = trace w ++ evs ∧ only_http evs.
Proof. intros [_ Ht]. eexists. split; [done|]. apply sent_only_http. Qed.

Section with_operator.
Context (E : env) {Op : OperatorService} {OpS : OperatorServiceSpec Op}.

(** The service answers, and never without an error and without a result: the
    only ways in which [calcChangeInNodes] can fail. *)
Definition no_nil_targets : Prop :=
  ∀ w, wp true getCurrentTargets (λ r _, r.2 = None → r.1 ≠ None) w.

(** What is known of the totals reported. *)
Definition targets_satisfy (P : CurrentTargets → Prop) : Prop :=
  ∀ w, wp false getCurrentTargets (λ r _, ∀ ct, r = (Some ct, None) → P ct) w.

Lemma targets_satisfy_trivial : targets_satisfy (λ _, True).
Proof. intros w. apply getCurrentTargets_io. done. Qed.

Lemma wp_calcChangeInNodes P t Q w :
  targets_satisfy P →
  (t = true → requests_return E ∧ no_nil_targets) →
  (∀ d w' evs, retargeted w w' → trace w' = trace w ++ evs → only_http evs → calc_result P w' d → Q d w') →
  wp t (calcChangeInNodes E) Q w.
Proof.
  intros HP Hnil H. unfold calcChangeInNodes. rewrite wp_bind.
  apply wp_updateNodesPerPod. intros w1 R1 T1. rewrite wp_bind, wp_gets. cbv beta zeta delta [id].
  rewrite wp_bind. apply wp_getNumActiveNodePods_http; [intros ->; by apply Hnil|]. intros pods w2 evs2 [C2 T2] O2 _.
  rewrite wp_bind.
  assert (Hspec : wp t getCurrentTargets (λ r w3, (∃ evs3, io evs3 w2 w3 ∧ only_http evs3) ∧
     (∀ ct, r = (Some ct, None) → P ct) ∧ (t = true → r.2 = None → r.1 ≠ None)) w2).
  { assert (Hp : wp false getCurrentTargets (λ r w3, (∃ evs3, io evs3 w2 w3 ∧ only_http evs3) ∧
      (∀ ct, r = (Some ct, None) → P ct)) w2).
    { apply wp_and; [|apply HP]. apply getCurrentTargets_io. eauto. }
    destruct t; [|eapply wp_mono; [exact Hp|naive_solver]].
    eapply wp_mono; [apply (wp_join _ _ _ _ (proj2 (Hnil eq_refl) w2) Hp)|naive_solver]. }
  eapply wp_mono; [apply Hspec|]. clear Hspec.
  intros r w3 ((evs3 & [C3 T3] & O3) & HP3 & Hn3).
  assert (C13 : same_core w1 w3) by by etrans.
  assert (R3 : retargeted w w3) by (etrans; [exact R1|by apply retargeted_core]).
  assert (T : trace w3 = trace w ++ (evs2 ++ evs3)) by by rewrite T3, T2, T1, app_assoc.
  assert (O : only_http (evs2 ++ evs3)) by by apply Forall_app.
  rewrite (rvr_proper _ _ C13), (mtn_proper _ _ C13), (nodes_proper _ _ C13).
  destruct r as [ct [err|]]; cbn [fst snd].
  { apply wp_ret. eapply H; [done..|by right]. }
  destruct (pods.2); [apply wp_ret; eapply H; [done..|by right]|].
  destruct ct as [ct|].
  - rewrite wp_bind. unfold deref. rewrite wp_ret. apply wp_ret.
    eapply H; [done..|]. left. exists ct, (pods.1). split; [by apply HP3|done].
  - rewrite wp_bind. apply wp_deref. destruct t; [|done]. by destruct (Hn3 eq_refl eq_refl).
Qed.

End with_operator.

(** ** Rebalancing *)

(** The sizes after rebalancing by [dR] and [dM]. *)
Record rebalanced (dR dM : Z) (w w' : world) : Prop := {
  rb_rvr : zlen (rvr w') = if dR <? 0 then Z.min (zlen (rvr w)) (Z.max 0 (zlen (rvr w) +i dR)) else zlen (rvr w);
  rb_mtn : zlen (mtn w') + zlen (pds w') =
    if dM <? 0 then Z.min (zlen (mtn w) + zlen (pds w)) (Z.max 0 (zlen (mtn w) + zlen (pds w) +i dM))
    else zlen (mtn w) + zlen (pds w);
  rb_fair : fair_sizes w w'
}.

Lemma fair_sizes_refl w : fair_sizes w w.
Proof. unfold fair_sizes. lia. Qed.

Lemma wp_release_rvr_phase E t dR Q w :
  (∀ w' rel, dropped rel w w' → mtn w' = mtn w → pds w' = pds w →
     zlen (rvr w') = (if dR <? 0 then Z.min (zlen (rvr w)) (Z.max 0 (zlen (rvr w) +i dR)) else zlen (rvr w)) →
     Q rel.*2 w') →
  wp t (if dR <? 0 then m ← gets rvr; l ← goRange E m; release_rvr (zlen m +i dR) l [] else mret []) Q w.
Proof.
  intros H. destruct (dR <? 0).
  - rewrite wp_bind, wp_gets, wp_bind. apply wp_goRange. intros l _ Hl.
    apply wp_release_rvr; [done|]. intros w' rel D Em Ep Ez.
    apply (H w' rel); [|exact Em|exact Ep|exact Ez].
    apply (dropped_trans [] rel _ (next_tick w)); [by apply dropped_core|exact D].
  - apply wp_ret. apply (H w []); try done. apply dropped_refl.
Qed.

Lemma wp_release_mtn_phase E t dM rn Q w :
  (∀ w' rel, dropped rel w w' → rvr w' = rvr w → fair_sizes w w' →
     zlen (mtn w') + zlen (pds w') =
       (if dM <? 0 then Z.min (zlen (mtn w) + zlen (pds w)) (Z.max 0 (zlen (mtn w) + zlen (pds w) +i dM))
        else zlen (mtn w) + zlen (pds w)) →
     Q (rn ++ rel.*2) w') →
  wp t (if dM <? 0 then w ← gets id; release_mtn E (mtn_fuel w) (zlen (mtn w) + zlen (pds w) +i dM) rn else mret rn) Q w.
Proof.
  intros H. destruct (dM <? 0).
  - rewrite wp_bind, wp_gets. cbv beta delta [id]. apply wp_release_mtn; [unfold mtn_fuel; lia|done].
  - apply wp_ret. rewrite <- (app_nil_r rn). apply (H w []); try done; [apply dropped_refl|apply fair_sizes_refl].
Qed.

Definition is_release (rel : list (string * nodeConsoleInfo)) : bool :=
  match rel with [] => false | _ => true end.

(** The release request: one, when there is something to release. *)
Definition release_events (E : env) (w : world) (ns : list nodeConsoleInfo) (evs : list event) : Prop :=
  match ns with
  | [] => evs = []
  | _ => ∃ n o, http_do E n (release_request w ns) = Some o ∧ evs = sent o (release_request w ns)
  end.

Lemma rest_pod w w' : rest w' = rest w → pod w' = pod w.
Proof. unfold rest. congruence. Qed.

Lemma rest_command w w' : rest w' = rest w → command w' = command w.
Proof. unfold rest. congruence. Qed.

Lemma wp_rebalanceNodes E t dR dM Q w :
  (t = true → requests_return E) →
  (∀ b w1 w' rel evs, dropped rel w w1 → rebalanced dR dM w w1 → io evs w1 w' →
     release_events E w rel.*2 evs → b = is_release rel → Q b w') →
  wp t (rebalanceNodes E dR dM) Q w.
Proof.
  intros Ht H. unfold rebalanceNodes. rewrite wp_bind.
  apply wp_release_rvr_phase. intros w1 relR DR Em1 Ep1 Z1. rewrite wp_bind.
  apply wp_release_mtn_phase. intros w2 relM DM Er2 F2 Z2.
  assert (D : dropped (relR ++ relM) w w2) by by eapply dropped_trans.
  assert (R : rebalanced dR dM w w2).
  { unfold fair_sizes in F2. rewrite Em1, Ep1 in F2, Z2. split; [by rewrite Er2, Z1|done|exact F2]. }
  rewrite <- fmap_app. revert D. destruct (relR ++ relM) as [|e rel]; intros D; cbn [fmap list_fmap].
  - apply wp_ret. eapply H; [done|done|apply io_refl|done|done].
  - rewrite wp_bind. apply wp_releaseNodes; [done|]. intros o w3 Eo Hio. apply wp_ret.
    eapply H; [exact D|exact R|exact Hio| |done].
    assert (Er : release_request w2 (e.2 :: rel.*2) = release_request w (e.2 :: rel.*2)).
    { unfold release_request, pod_url. by rewrite (rest_pod _ _ (dr_rest _ _ _ D)). }
    rewrite Er in *. by exists (tick w2), o.
Qed.

(** ** Acquiring *)

(** What was asked of console-data and what came back. *)
Inductive acquired (E : env) (w : world) (numR numM : Z) : list nodeConsoleInfo → list event → Prop :=
| acq_none : (0 <? numR) || (0 <? numM) = false → acquired E w numR numM [] []
| acq_some loc n o : (0 <? numR) || (0 <? numM) = true → podLocData (pod w) = Some loc →
    http_do E n (acquire_request w numM numR loc) = Some o →
    acquired E w numR numM (acquired_from o) (sent o (acquire_request w numM numR loc)).

Definition some_stored (ns : list nodeConsoleInfo) : bool :=
  existsb (λ n, bool_decide (is_Some (class_pool n))) ns.

Lemma wp_acquire_nodes E t numR numM Q w :
  (t = true → requests_return E ∧ podLocData (pod w) ≠ None) →
  (∀ ns w1 evs, acquired E w numR numM ns evs → io evs w w1 → Q (some_stored ns) (store_all ns w1)) →
  wp t (acquire_nodes E numR numM) Q w.
Proof.
  intros Ht H. unfold acquire_nodes. destruct (_ || _) eqn:Ea.
  - rewrite wp_bind, wp_gets, wp_bind. unfold compose.
    destruct (podLocData (pod w)) as [loc|] eqn:El.
    + apply wp_acquireNewNodes; [intros ->; by apply Ht|]. intros o w1 Eo Hio. rewrite wp_bind. unfold wp at 1. rewrite forEach_store.
      rewrite wp_ret. apply (H (acquired_from o) w1 (sent o (acquire_request w numM numR loc))); [|done].
      by apply (acq_some E w numR numM loc (tick w)).
    + unfold acquireNewNodes, deref. rewrite wp_bind. destruct t; [by destruct (Ht eq_refl)|done].
  - apply wp_ret. replace w with (store_all [] w) at 1 by by destruct w.
    apply (H [] w []); [by constructor|apply io_refl].
Qed.

(** ** One pass of the node thread *)

Definition cycle_changed (ns : list nodeConsoleInfo) (rel : list (string * nodeConsoleInfo)) : bool :=
  some_stored ns || is_release rel.

(** Everything a completed pass does: [ns] is what console-data handed over,
    [rel] what was given back, [dR] and [dM] the computed changes. *)
Record node_cycle (E : env) (P : CurrentTargets → Prop) (w w' : world) (ns : list nodeConsoleInfo) (rel : list (string * nodeConsoleInfo))
    (dR dM : Z) : Prop := {
  nc_delta : ∃ w1 d, retargeted w w1 ∧ calc_result P w1 d ∧ dM = d.1 ∧ dR = (if d.2 =? 0 then 1 else d.2);
  nc_maps : ∃ w2 w3, same_pools (store_all ns w) w2 ∧ tails w2 = tails w ∧ dropped rel w2 w3 ∧
    rebalanced dR dM w2 w3 ∧ same_pools w3 w' ∧ tails w' = tails w3;
  nc_trace : ∃ evs1 evsA evsC evsR,
    trace w' = trace w ++ evs1 ++ evsA ++ evsC ++ evsR ++
      (if cycle_changed ns rel then term_event (command w) else []) ∧
    only_http evs1 ∧
    acquired E w (pinNumNodes dR (maxAcquireRvr (nodes w))) (pinNumNodes dM (maxAcquireMtn (nodes w))) ns evsA ∧
    Forall is_cancel evsC ∧ release_events E w rel.*2 evsR;
  nc_frame : command w' = command w ∧ creds w' = creds w ∧ rot w' = rot w ∧ pod w' = pod w ∧
    conAggLogFile (tails w') = conAggLogFile (tails w) ∧
    ∀ p, p ≠ logRotConfFile → fs w' !! p = fs w !! p;
  nc_conf : if cycle_changed ns rel
    then conf_writable E → ∃ xs md, node_names w' xs ∧ fs w' !! logRotConfFile = Some (File (conf_text w' xs) md)
    else fs w' = fs w
}.

Lemma cancels_only_rel rel w w' : dropped rel w w' → ∃ evs, trace w' = trace w ++ evs ∧ Forall is_cancel evs.
Proof. by intros []. Qed.

Lemma rest_fs w w' : rest w' = rest w →
  command w' = command w ∧ creds w' = creds w ∧ rot w' = rot w ∧ pod w' = pod w ∧ fs w' = fs w ∧
  conAggLogFile (tails w') = conAggLogFile (tails w).
Proof. unfold rest. intros H. repeat split; congruence. Qed.

(** The parts of the state that decide the text of the rotation file. *)
Lemma conf_same w w' xs :
  same_pools w w' → rot w' = rot w → conAggLogFile (tails w') = conAggLogFile (tails w) →
  node_names w xs → node_names w' xs ∧ conf_text w' xs = conf_text w xs.
Proof.
  intros Hp Hr Ht (lr&lp&lm&H1&H2&H3&->). split.
  - exists lr, lp, lm. by rewrite (Hp Rvr : rvr w' = rvr w), (Hp Pds : pds w' = pds w), (Hp Mtn : mtn w' = mtn w).
  - unfold conf_text, agg_text, console_text. by rewrite Hr, Ht.
Qed.

Lemma touches_same path w w' : touches path w w' → same_pools w w'.
Proof. intros ((En&_)&_) []; cbn; unfold rvr, pds, mtn; by rewrite En. Qed.

Lemma core_same w w' : same_core w w' → same_pools w w'.
Proof. intros H p. symmetry. by apply get_pool_core. Qed.

(** The end of a pass: when something changed, conmand is told to terminate
    and the rotation file is written again. *)
Lemma wp_finish E t (changed : bool) Q w :
  (t = true → command w ≠ CmdCreated) →
  (∀ w', same_pools w w' → tails w' = tails w → command w' = command w → creds w' = creds w →
     rot w' = rot w → pod w' = pod w →
     trace w' = trace w ++ (if changed then term_event (command w) else []) →
     (∀ p, p ≠ logRotConfFile → fs w' !! p = fs w !! p) →
     (if changed then conf_writable E → ∃ xs md, node_names w' xs ∧
        fs w' !! logRotConfFile = Some (File (conf_text w' xs) md) else fs w' = fs w) →
     Q () w') →
  wp t (if changed then signalConmanTERM;; updateLogRotateConf E else mret ()) Q w.
Proof.
  intros Hc H. destruct changed.
  - rewrite wp_bind. apply wp_signalConmanTERM.
    { intros Ec. destruct t; [|done]. by destruct (Hc eq_refl). }
    intros w1 [C1 T1]. apply wp_updateLogRotateConf. intros w2 Tw Conf.
    pose proof (core_same _ _ C1) as P1. pose proof (touches_same _ _ _ Tw) as P2.
    destruct Tw as ((_&Et&Ec&Ecr&Er&Ep)&Tr&Fs).
    assert (Ht2 : tails w2 = tails w) by by rewrite Et, (tails_proper _ _ C1).
    assert (Hr2 : rot w2 = rot w) by by rewrite Er, (rot_proper _ _ C1).
    apply H; try done.
    + intros p. by rewrite P2, P1.
    + by rewrite Ec, (command_proper _ _ C1).
    + by rewrite Ecr, (creds_proper _ _ C1).
    + by rewrite Ep, (pod_proper _ _ C1).
    + by rewrite Tr, T1.
    + intros p Hp. by rewrite Fs, (fs_proper _ _ C1).
    + intros Hw. destruct (Conf Hw) as (xs&md&Hn&Hf). exists xs, md.
      destruct (conf_same w1 w2 xs P2 Er) as [Hn' ->]; [by rewrite Et|done|done].
  - apply wp_ret, H; try done. by rewrite app_nil_r.
Qed.

(** What a pass does before it tells anybody: [ns] is what console-data handed
    over, [rel] what was given back, [dR] and [dM] the computed changes. *)
Record nodes_changed (E : env) (P : CurrentTargets → Prop) (w w' : world) (ns : list nodeConsoleInfo)
    (rel : list (string * nodeConsoleInfo)) (dR dM : Z) : Prop := {
  ng_delta : ∃ w1 d, retargeted w w1 ∧ calc_result P w1 d ∧ dM = d.1 ∧ dR = (if d.2 =? 0 then 1 else d.2);
  ng_maps : ∃ w2 w3, same_pools (store_all ns w) w2 ∧ tails w2 = tails w ∧ dropped rel w2 w3 ∧
    rebalanced dR dM w2 w3 ∧ same_pools w3 w' ∧ tails w' = tails w3;
  ng_trace : ∃ evs1 evsA evsC evsR,
    trace w' = trace w ++ evs1 ++ evsA ++ evsC ++ evsR ∧ only_http evs1 ∧
    acquired E w (pinNumNodes dR (maxAcquireRvr (nodes w))) (pinNumNodes dM (maxAcquireMtn (nodes w))) ns evsA ∧
    Forall is_cancel evsC ∧ release_events E w rel.*2 evsR;
  ng_frame : command w' = command w ∧ creds w' = creds w ∧ rot w' = rot w ∧ pod w' = pod w ∧
    conAggLogFile (tails w') = conAggLogFile (tails w) ∧ fs w' = fs w
}.

Section pass.
Context (E : env) {Op : OperatorService} {OpS : OperatorServiceSpec Op}.

Lemma wp_change_nodes P t Q w :
  targets_satisfy P →
  (t = true → requests_return E ∧ no_nil_targets ∧ podLocData (pod w) ≠ None) →
  (∀ w' ns rel dR dM, nodes_changed E P w w' ns rel dR dM → Q (cycle_changed ns rel) w') →
  wp t (change_nodes E) Q w.
Proof.
  intros HP Ht H. unfold change_nodes. rewrite wp_bind.
  apply (wp_calcChangeInNodes E P); [done|intros ->; by destruct (Ht eq_refl) as (?&?&?)|]. intros [dM0 dR0] w1 evs1 R1 T1 O1 Cr1.
  cbn [fst snd] in *. set (dR := if dR0 =? 0 then 1 else dR0) in *.
  rewrite wp_bind, wp_gets, wp_bind.
  assert (Ep1 : pod w1 = pod w) by apply R1. assert (Ec1 : command w1 = command w) by apply R1.
  apply wp_acquire_nodes; [intros ->; rewrite Ep1; by destruct (Ht eq_refl) as (?&?&?)|].
  intros ns w1' evsA Acq [CA TA]. rewrite wp_bind.
  set (w2 := store_all ns w1').
  assert (Es2 : same_pools (store_all ns w) w2 ∧ rest w2 = rest w1 ∧ tails w2 = tails w).
  { destruct (store_all_rest ns w1') as [Er Et]. unfold w2.
    split; [|split; [by rewrite Er, (rest_core _ _ CA)|by rewrite Et, <- (tails_proper _ _ CA); apply R1]].
    apply store_all_pools. intros p. rewrite <- (get_pool_core p _ _ CA). apply R1. }
  destruct Es2 as (P2 & Rest2 & Tl2).
  assert (TA2 : trace w2 = trace w ++ evs1 ++ evsA) by by unfold w2; cbn; rewrite TA, T1, app_assoc.
  apply wp_rebalanceNodes; [intros ->; by destruct (Ht eq_refl) as (?&?&?)|]. intros b w3 w4 rel evsR D3 Rb3 [CR TR] Rel ->.
  destruct (cancels_only_rel _ _ _ D3) as (evsC & T3 & FC).
  destruct (rest_fs _ _ Rest2) as (Ec2&Ecr2&Er2&Ep2&Ef2&Ea2).
  destruct (rest_fs _ _ (dr_rest _ _ _ D3)) as (Ec3&Ecr3&Er3&Ep3&Ef3&Ea3).
  apply wp_ret. fold (cycle_changed ns rel). apply (H w4 ns rel dR dM0). split.
  - by exists w1, (dM0, dR0).
  - exists w2, w3. split; [done|]. split; [done|]. split; [done|]. split; [done|].
    split; [|by rewrite (tails_proper _ _ CR)].
    intros p. by rewrite (get_pool_core p _ _ CR).
  - exists evs1, evsA, evsC, evsR. rewrite TR, T3, TA2, !app_assoc. split; [done|]. split; [done|].
    split; [|split; [done|]].
    + destruct R1. destruct Acq as [Ha|loc n o Ha Hl Eo]; rewrite ?rt_maxR0, ?rt_maxM0 in *; [by constructor|].
      replace (acquire_request w1 _ _ loc) with (acquire_request w (pinNumNodes dM0 (maxAcquireMtn (nodes w))) (pinNumNodes dR (maxAcquireRvr (nodes w))) loc)
        by (unfold acquire_request, pod_url; by rewrite Ep1).
      apply (acq_some _ _ _ _ loc n); [done|by rewrite <- Ep1|].
      unfold acquire_request, pod_url in *. by rewrite <- Ep1.
    + assert (Epw : pod w2 = pod w) by congruence. unfold release_events in *. destruct (rel.*2); [done|].
      destruct Rel as (k&o&Eo&->).
      exists k, o. unfold release_request, pod_url in *. by rewrite Epw in *.
  - repeat split.
    + rewrite <- (command_proper _ _ CR). congruence.
    + rewrite <- (creds_proper _ _ CR), Ecr3, Ecr2. apply R1.
    + rewrite <- (rot_proper _ _ CR), Er3, Er2. apply R1.
    + rewrite <- (pod_proper _ _ CR), Ep3, Ep2. apply R1.
    + rewrite <- (tails_proper _ _ CR), Ea3, Ea2. by rewrite (rt_tails _ _ R1).
    + rewrite <- (fs_proper _ _ CR), Ef3, Ef2. apply R1.
Qed.

Lemma wp_doGetNewNodes_locked P t Q w :
  targets_satisfy P →
  (t = true → requests_return E ∧ no_nil_targets ∧ podLocData (pod w) ≠ None ∧ command w ≠ CmdCreated) →
  (∀ w' ns rel dR dM, node_cycle E P w w' ns rel dR dM → Q () w') →
  wp t (doGetNewNodes_locked E) Q w.
Proof.
  intros HP Ht H. unfold doGetNewNodes_locked. rewrite wp_bind.
  apply (wp_change_nodes P); [done|naive_solver|].
  intros w4 ns rel dR dM [Hdelta (w2&w3&P2&Tl2&D3&Rb&P4&Et4) (evs1&evsA&evsC&evsR&T4&O1&Acq&FC&Rel) Fr].
  destruct Fr as (Ec4&Ecr4&Er4&Ep4&Ea4&Ef4).
  apply wp_finish; [intros ->; rewrite Ec4; naive_solver|].
  intros w5 P5 Et5 Ec5 Ecr5 Er5 Ep5 T5 Fs5 Conf5. rewrite Ec4 in T5.
  apply (H w5 ns rel dR dM). split.
  - done.
  - exists w2, w3. split_and!; try done; [|by rewrite Et5]. intros p. by rewrite P5, P4.
  - exists evs1, evsA, evsC, evsR. rewrite T5, T4, <- !app_assoc. by split_and!.
  - split_and!; try congruence. intros p Hp. by rewrite Fs5, Ef4.
  - destruct (cycle_changed ns rel); [done|congruence].
Qed.

End pass.

(** ** Releasing single nodes *)

(** The names [xs] were taken out of all groups and their tails stopped; the
    rest of the pod is as it was. *)
Record removed (xs : list string) (w w' : world) : Prop := {
  rm_pools : ∀ p, get_pool p w' = filter (λ kv, kv.1 ∉ xs) (get_pool p w);
  rm_tails : tails w' = foldl (λ s x, tail_stopped x s) (tails w) xs;
  rm_rest : rest w' = rest w;
  rm_trace : ∃ evs, trace w' = trace w ++ evs ∧ Forall is_cancel evs
}.

Lemma removed_lookup xs w w' p k :
  removed xs w w' → get_pool p w' !! k = if decide (k ∈ xs) then None else get_pool p w !! k.
Proof.
  intros R. rewrite (rm_pools _ _ _ R). case_decide as H.
  - apply map_lookup_filter_None. right. naive_solver.
  - destruct (get_pool p w !! k) eqn:E; [by apply map_lookup_filter_Some|].
    apply map_lookup_filter_None. by left.
Qed.

Lemma removed_names xs w w' : removed xs w w' → all_names w' = all_names w ∖ list_to_set xs.
Proof.
  intros R. apply set_eq. intros k. rewrite elem_of_difference, elem_of_list_to_set, !elem_of_all_names.
  setoid_rewrite (removed_lookup xs w w' _ _ R). case_decide; [|naive_solver].
  split; [|naive_solver]. intros [p [n Hn]]. done.
Qed.

Lemma removed_refl w : removed [] w w.
Proof.
  split; [|done|done|exists []; by rewrite app_nil_r].
  intros p. symmetry. apply map_filter_id. intros i x _. apply not_elem_of_nil.
Qed.

Lemma removed_trans xs ys w w1 w2 : removed xs w w1 → removed ys w1 w2 → removed (xs ++ ys) w w2.
Proof.
  intros R1 R2. split.
  - intros p. apply map_eq. intros k. rewrite (removed_lookup _ _ _ _ _ R2), (removed_lookup _ _ _ _ _ R1).
    destruct (decide (k ∈ ys)), (decide (k ∈ xs)); symmetry;
      try (apply map_lookup_filter_None; right; intros; rewrite elem_of_app; tauto).
    destruct (get_pool p w !! k) eqn:E; [|by apply map_lookup_filter_None; left].
    apply map_lookup_filter_Some. split; [done|]. cbn. rewrite elem_of_app. tauto.
  - rewrite foldl_app, (rm_tails _ _ _ R2). by rewrite (rm_tails _ _ _ R1).
  - by rewrite (rm_rest _ _ _ R2), (rm_rest _ _ _ R1).
  - destruct (rm_trace _ _ _ R1) as (e1&T1&F1), (rm_trace _ _ _ R2) as (e2&T2&F2).
    exists (e1 ++ e2). rewrite T2, T1, app_assoc. split; [done|by apply Forall_app].
Qed.

Lemma removed_disjoint xs w w' : removed xs w w' → pools_disjoint w → pools_disjoint w'.
Proof.
  intros R Hd p q k. rewrite !(removed_lookup _ _ _ _ _ R). case_decide; [by intros [? ?]|]. apply Hd.
Qed.

Lemma stopped_all xs s :
  tails_ok s → tails_ok (foldl (λ s x, tail_stopped x s) s xs) ∧
  dom (tailThreads (foldl (λ s x, tail_stopped x s) s xs)) = dom (tailThreads s) ∖ list_to_set xs.
Proof.
  revert s. induction xs as [|x xs IH]; intros s Hs; cbn; [split; [done|set_solver]|].
  destruct (IH (tail_stopped x s)) as [H ->]; [by apply tails_ok_stopped|].
  rewrite dom_tail_stopped. split; [done|set_solver].
Qed.

Lemma stopped_watchers xs s : watchers (foldl (λ s x, tail_stopped x s) s xs) ⊆ watchers s.
Proof.
  revert s. induction xs as [|x xs IH]; intros s; [done|]. etrans; [apply (IH (tail_stopped x s))|apply watchers_stopped].
Qed.

Lemma alive_stopped_all xs s : alive (foldl (λ s x, tail_stopped x s) s xs) = alive s.
Proof. revert s. induction xs as [|x xs IH]; intros s; cbn; [done|]. by rewrite IH, alive_stopped. Qed.

Lemma removed_inv xs w w' : removed xs w w' → pod_inv w → pod_inv w'.
Proof.
  intros R [Hn Ht Hs]. destruct (stopped_all xs (tails w) Ht) as [Ht' Hd]. split.
  - intros p k n. rewrite (removed_lookup _ _ _ _ _ R). case_decide; [done|]. apply Hn.
  - by rewrite (rm_tails _ _ _ R).
  - rewrite (rm_tails _ _ _ R), Hd, (removed_names _ _ _ R). set_solver.
Qed.

(** The group a single release takes a node from. *)
Definition first_pool (x : string) (w : world) : option pool :=
  if decide (is_Some (rvr w !! x)) then Some Rvr else if decide (is_Some (mtn w !! x)) then Some Mtn
  else if decide (is_Some (pds w !! x)) then Some Pds else None.

Lemma first_pool_spec x w :
  match first_pool x w with
  | Some p => is_Some (get_pool p w !! x)
  | None => x ∉ all_names w
  end.
Proof.
  unfold first_pool. do 3 (case_decide; [done|]). rewrite elem_of_all_names. by intros [[] ?].
Qed.

Lemma first_pool_removes x w p :
  pools_disjoint w → get_pool p (upd_nodes (match first_pool x w with
    | Some q => upd_pool q (delete x) | None => id end) w) = filter (λ kv, kv.1 ∉ [x]) (get_pool p w).
Proof.
  intros Hd. pose proof (first_pool_spec x w) as Hf.
  assert (Hdel : filter (λ kv, kv.1 ∉ [x]) (get_pool p w) = delete x (get_pool p w)).
  { apply map_eq. intros k. destruct (decide (k = x)) as [->|Hk].
    - rewrite lookup_delete_eq. apply map_lookup_filter_None. right. intros v _ H. apply H. by left.
    - rewrite lookup_delete_ne by done. destruct (get_pool p w !! k) eqn:E.
      + apply map_lookup_filter_Some. split; [done|]. cbn. by rewrite list_elem_of_singleton.
      + apply map_lookup_filter_None. by left. }
  rewrite Hdel. destruct (first_pool x w) as [q|].
  - rewrite get_upd_pool. destruct (decide (p = q)) as [->|Hq]; [done|]. symmetry.
    apply delete_id, eq_None_not_Some. intros Hp. by apply Hq, (Hd p q x).
  - transitivity (get_pool p w); [by destruct p, w|]. symmetry. apply delete_id, eq_None_not_Some.
    intros Hp. apply Hf, elem_of_all_names. eauto.
Qed.

Lemma wp_releaseNode_any t x Q w :
  (∀ w', only_tails (tail_stopped x) (stop_events x (tails w))
      (upd_nodes (match first_pool x w with Some q => upd_pool q (delete x) | None => id end) w) w' →
    Q (bool_decide (is_Some (first_pool x w))) w') →
  wp t (releaseNode x) Q w.
Proof.
  intros H. unfold releaseNode. rewrite wp_bind, wp_gets. cbv beta delta [id]. rewrite wp_bind.
  assert (Hgo : wp t (stopTailing x;; mret (bool_decide (is_Some (first_pool x w)))) Q
    (upd_nodes (match first_pool x w with Some q => upd_pool q (delete x) | None => id end) w)).
  { rewrite wp_bind. apply wp_stopTailing. intros w1 Hw1. apply wp_ret, H. exact Hw1. }
  unfold first_pool in Hgo. do 3 (case_decide; [exact Hgo|]). by destruct w.
Qed.

(** With disjoint groups a release removes the node wherever it is. *)
Lemma wp_releaseNode t x Q w :
  pools_disjoint w →
  (∀ b w', b = bool_decide (x ∈ all_names w) → removed [x] w w' → Q b w') →
  wp t (releaseNode x) Q w.
Proof.
  intros Hd H. apply wp_releaseNode_any. intros w' (En&Et&Ec&Ecr&Er&Ep&Ef&Etr). apply H.
  - pose proof (first_pool_spec x w) as Hf. apply bool_decide_ext. destruct (first_pool x w) as [p|].
    + rewrite elem_of_all_names. split; [eauto|by eexists].
    + split; [by intros [? ?]|done].
  - split.
    + intros p. rewrite <- (first_pool_removes x w p Hd).
      destruct p; unfold get_pool, rvr, pds, mtn; by rewrite En.
    + by rewrite Et.
    + unfold rest. rewrite En, Et, Ec, Ecr, Er, Ep, Ef. cbn [upd_nodes tails nodes command creds rot pod fs].
      rewrite tail_stopped_file, tail_stopped_logger. by destruct (first_pool x w) as [[]|].
    + exists (stop_events x (tails w)). split; [done|]. unfold stop_events.
      destruct (_ !! _); repeat constructor; by eexists.
Qed.

Lemma wp_release_all t xs Q w :
  pools_disjoint w → (∀ w', removed xs w w' → Q () w') →
  wp t (forEach xs (λ x, _ ← releaseNode x; mret ())) Q w.
Proof.
  revert w. induction xs as [|x xs IH]; intros w Hd H; cbn [forEach].
  { apply wp_ret, H, removed_refl. }
  rewrite wp_bind, wp_bind. apply wp_releaseNode; [done|]. intros _ w1 _ R1. apply wp_ret.
  apply IH; [by eapply removed_disjoint|]. intros w2 R2. apply H. by apply (removed_trans [x] xs _ w1).
Qed.
