(* ===== verification/Demo.v ===== *)
(** * A concrete pod for the witnesses

    An environment in which nothing fails that does not have to, with the
    answers of the other services as a parameter, and a small pod state. *)

From S2P Require Import Prelude GoStrings Json World HttpUtils Operator DataService.
From Stdlib Require Import ZArith.
From stdpp Require Import base numbers strings gmap sets list.

Local Open Scope Z_scope.

(** Maps are visited in the order of [map_to_list]; every file operation
    works; every request returns; commands succeed without output. *)
Definition env_http (answer : nat → http_request → http_outcome) : env := {|
  getenv := λ _, EmptyString;
  http_do := λ n rq, Some (answer n rq);
  map_range := λ _ V m, map_to_list m;
  map_range_perm := λ _ V m, Permutation_refl (map_to_list m);
  fs_fault := λ _ _ _, None;
  read_limit := λ _ _, None;
  umask := 18;
  clock := λ _, "2024-01-01 00:00:00 +0000 UTC"%string;
  zone_lookup := λ _, (0, - 2 ^ 62, 2 ^ 62);
  rand_source := λ _, 0;
  vault_adapter := λ _, None;
  vault_creds := λ _ _, inl ∅;
  gjson_get := λ _ _, EmptyString;
  run_cmd := λ _ _, RunOutcome (Some 0) EmptyString ∅
|}.

Lemma env_http_returns answer : requests_return (env_http answer).
Proof. by intros n rq. Qed.

(** No service answers. *)
Definition quiet_env : env := env_http (λ _ _, DoFails).

Definition demo_node (name cls : string) (nid : Z) : nodeConsoleInfo :=
  NodeCI name (name +:+ "b0") (name +:+ "b0.local") cls nid "Compute".

Definition demo_pool (l : list nodeConsoleInfo) : gmap string nodeConsoleInfo :=
  list_to_map (map (λ n, (NodeName n, n)) l).

Definition demo_location : PodLocationDataResponse := PodLoc "cray-console-node-0" "ncn-w001" "x3000c0s1b0n0".

(** A pod watching the given nodes, with a running conmand and no tails. *)
Definition demo_world (m r p : list nodeConsoleInfo) : world := {|
  nodes := NodesState (demo_pool m) (demo_pool r) (demo_pool p) (-1) (-1) 500 200 30;
  tails := TailState ∅ ∅ ∅ 0 "/tmp/consoleAgg/consoleAgg-cray-console-node-0.log" None;
  command := CmdRunning;
  creds := CredState None None;
  rot := RotState true 600 "5M" 2 "20M" 1;
  pod := PodState false "cray-console-node-0" "cray-console-node-0" (Some demo_location) false 30 "None";
  fs := ∅;
  tick := 0;
  trace := []
|}.

Definition demo_operator (E : env) : OperatorService := OperatorManager_service E NewOperatorService.

Definition demo_operator_spec (E : env) : OperatorServiceSpec (demo_operator E) :=
  OperatorManager_spec E NewOperatorService.

(** Services that answer: two pods, ten Mountain and six River nodes in all,
    one new Mountain node for whoever asks. *)
Definition busy_answer (_ : nat) (rq : http_request) : http_outcome :=
  if decide (rq_url rq = dataAddrBase +:+ "/activepods") then Response 200 (qs "{'numactivepods':2}")
  else if decide (rq_url rq = operatorAddrBase NewOperatorService +:+ "/currentTargets") then
    Response 200 (qs "{'totalrvrnodes':6,'totalmtnnodes':10}")
  else if decide (rq_method rq = "POST"%string) then
    Response 200 (qs "[{'NodeName':'x1','BmcName':'x1b0','BmcFqdn':'x1b0','Class':'Mountain','NID':7,'Role':'Compute'}]")
  else DoFails.

Definition busy_env : env := env_http busy_answer.

(** A pod with one node of each group. *)
Definition small_world : world :=
  demo_world [demo_node "x2000" "Mountain" 1] [demo_node "x3000" "River" 2] [demo_node "x4000" "Paradise" 3].

(** The same with many River and Mountain nodes. *)
Definition names (s : string) : list string :=
  map (λ c, s +:+ String c EmptyString) (String.list_ascii_of_string "0123456789abcdefghij").

Definition full_world : world :=
  demo_world (map (λ x, demo_node x "Mountain" 1) (names "x2"))
    (map (λ x, demo_node x "River" 2) (names "x3")) [demo_node "x4000" "Paradise" 3].
