(* ===== verification/NodesProps.v ===== *)
(** * Properties of node management

    What a pass of the node thread ([doGetNewNodes]) and its steps guarantee. *)

From S2P Require Import Prelude Float64 GoStrings Json World HttpUtils Operator Files.
From S2P Require Import LogAggregation DataService ConmanProc LogRotateConf Nodes NodesFacts Demo.
From Stdlib Require Import ZArith Lia Ascii.
From stdpp Require Import base numbers strings gmap sets list.

Local Open Scope Z_scope.
Local Open Scope go_scope.

(** ** Shared lemmas *)

(** A pass of the thread is a completed cycle, or nothing in shutdown. *)
Lemma wp_doGetNewNodes (E : env) {Op : OperatorService} {OpS : OperatorServiceSpec Op} P t Q w :
  targets_satisfy P →
  (t = true → requests_return E ∧ no_nil_targets ∧ podLocData (pod w) ≠ None ∧ command w ≠ CmdCreated) →
  (inShutdown (pod w) = true → Q () w) →
  (∀ w' ns rel dR dM, inShutdown (pod w) = false → node_cycle E P w w' ns rel dR dM → Q () w') →
  wp t (doGetNewNodes E) Q w.
Proof.
  intros HP Ht H1 H2. unfold doGetNewNodes. rewrite wp_bind, wp_gets.
  destruct (inShutdown (pod w)); [by apply H1|].
  apply (wp_doGetNewNodes_locked E P); [done|done|]. intros. by eapply H2.
Qed.

Lemma fresh_nodes_same ns w w' : same_pools w w' → fresh_nodes ns w → fresh_nodes ns w'.
Proof. intros H [Hn Hf]. split; [done|]. by rewrite (same_pools_names w w' H). Qed.


(** A cycle keeps the invariant of the pod. *)
Lemma cycle_inv E P w w' ns rel dR dM : node_cycle E P w w' ns rel dR dM → pod_inv w → pod_inv w'.
Proof.
  intros [_ (w2&w3&P2&T2&D&_&P3&T3) _ _ _] Hi.
  eapply pod_inv_same; [exact P3|exact T3|]. eapply dropped_inv; [exact D|].
  destruct (store_all_rest ns w) as [_ Ht].
  eapply (pod_inv_same (store_all ns w)); [exact P2|by rewrite T2, Ht|by apply store_all_inv].
Qed.



Lemma dropped_nil_pools w w' : dropped [] w w' → same_pools w w'.
Proof.
  intros D p. pose proof (dr_sub _ _ _ D) as Hs.
  assert (Hsz : ∀ q, (size (get_pool q w') ≤ size (get_pool q w))%nat).
  { intros q. by apply map_subseteq_size. }
  pose proof (Permutation_length (dr_entries _ _ _ D)) as Hl. unfold all_entries in Hl. cbn in Hl.
  rewrite !length_app, !length_map_to_list in Hl.
  pose proof (Hsz Rvr) as H1. pose proof (Hsz Pds) as H2. pose proof (Hsz Mtn) as H3. cbn in H1, H2, H3.
  apply map_subseteq_size_eq; [apply Hs|]. destruct p; cbn; lia.
Qed.

Lemma store_none_pools ns w : some_stored ns = false → same_pools w (store_all ns w).
Proof.
  revert w. induction ns as [|n ns IH]; intros w En; [intros p; by destruct w|].
  cbn in En. apply orb_false_iff in En as [E1 E2]. rewrite store_all_cons.
  intros p. rewrite (IH _ E2 p), store_node_pool. case_decide as Hd; [|done].
  rewrite Hd in E1. by apply bool_decide_eq_false in E1; destruct E1.
Qed.

Lemma pinNumNodes_range n m : 0 ≤ m → 0 ≤ pinNumNodes n m ≤ m.
Proof. unfold pinNumNodes. intros H. case_tests; lia. Qed.

(** What a pass says to the other services, in order: it counts the pods and
    asks for the totals; when one of the two numbers is positive it asks for
    nodes, [ns] being what the answer holds; tails are cancelled; and when
    [rel] is not empty one release request with exactly these nodes is made. *)
Definition pass_events (E : env) (w : world) (numR numM : Z) (ns : list nodeConsoleInfo)
    (rel : list (string * nodeConsoleInfo)) (evs : list event) : Prop :=
  ∃ evs1 evsA evsC evsR, evs = evs1 ++ evsA ++ evsC ++ evsR ∧ only_http evs1 ∧
    acquired E w numR numM ns evsA ∧ Forall is_cancel evsC ∧ release_events E w rel.*2 evsR.

(** The numbers of nodes a pass asks for are within the configured maxima. *)
Definition asked_within (w : world) (numR numM : Z) : Prop :=
  (0 ≤ maxAcquireRvr (nodes w) → 0 ≤ numR ≤ maxAcquireRvr (nodes w)) ∧
  (0 ≤ maxAcquireMtn (nodes w) → 0 ≤ numM ≤ maxAcquireMtn (nodes w)).

Lemma cycle_events E P w w' ns rel dR dM : node_cycle E P w w' ns rel dR dM → ∃ numR numM evs,
  trace w' = trace w ++ evs ++ (if cycle_changed ns rel then term_event (command w) else []) ∧
  asked_within w numR numM ∧ pass_events E w numR numM ns rel evs.
Proof.
  intros C. destruct (nc_trace _ _ _ _ _ _ _ _ C) as (evs1&evsA&evsC&evsR&T&O&A&Cc&R).
  do 2 eexists. exists (evs1 ++ evsA ++ evsC ++ evsR). split; [by rewrite T, <- !app_assoc|]. split.
  - by split; apply pinNumNodes_range.
  - exists evs1, evsA, evsC, evsR. by split_and!.
Qed.

(** ** Properties *)

(** The invariant of the pod (every node stored under its own name in the
    map of its class, every running tail goroutine under its name in
    [tailThreads], and only logs of watched nodes tailed) is preserved by
    a pass of the node thread, whatever the other services answer. *)
Theorem doGetNewNodes_inv (E : env) (Op : OperatorService) (OpS : OperatorServiceSpec Op) w :
  pod_inv w → wp false (doGetNewNodes E) (λ _ w', pod_inv w') w.
Proof.
  intros Hi. apply (wp_doGetNewNodes E (λ _, True)); [apply targets_satisfy_trivial|done|done|].
  intros. by eapply cycle_inv.
Qed.


(** C16: a pass of the node thread always completes: it does not panic and
    its loops end, provided that the requests it makes return, the operator
    service never answers a nil result without an error, the pod's location is
    known, and conmand is not between creation and start. *)
Theorem doGetNewNodes_total (E : env) (Op : OperatorService) (OpS : OperatorServiceSpec Op) w :
  requests_return E → no_nil_targets → podLocData (pod w) ≠ None → command w ≠ CmdCreated →
  ∃ w', doGetNewNodes E w = Done () w' ∧ command w' = command w.
Proof.
  intros Hrq Hn Hl Hc.
  assert (H : wp true (doGetNewNodes E) (λ _ w', command w' = command w) w).
  { apply (wp_doGetNewNodes E (λ _, True)); [apply targets_satisfy_trivial|done|done|].
    intros w' ns rel dR dM _ C. apply C. }
  apply wp_total_done in H as ([]&w'&H&Hw). eauto.
Qed.

(** C12: a pass that stored an acquired node or gave one back tells conmand to
    terminate (when it runs) and leaves a log rotation file that covers exactly
    the nodes now watched; a pass that did neither sends no signal and leaves
    the files, the groups of nodes and the tails as they were.  What was
    acquired and given back is what the answer to the acquire request and the
    release request in the trace of the pass carry. *)
Theorem doGetNewNodes_reconfigures (E : env) (Op : OperatorService) (OpS : OperatorServiceSpec Op) w :
  conf_writable E → inShutdown (pod w) = false →
  wp false (doGetNewNodes E) (λ _ w', ∃ ns rel numR numM evs,
    pass_events E w numR numM ns rel evs ∧
    if some_stored ns || is_release rel
    then trace w' = trace w ++ evs ++ term_event (command w) ∧
      ∃ xs md, node_names w' xs ∧ fs w' !! logRotConfFile = Some (File (conf_text w' xs) md)
    else trace w' = trace w ++ evs ∧ fs w' = fs w ∧ same_pools w w' ∧
      tailThreads (tails w') = tailThreads (tails w) ∧ watchers (tails w') = watchers (tails w)) w.
Proof.
  intros Hw Hs. apply (wp_doGetNewNodes E (λ _, True)); [apply targets_satisfy_trivial|done|congruence|].
  intros w' ns rel dR dM _ C. destruct (cycle_events _ _ _ _ _ _ _ _ C) as (numR&numM&evs&T&_&Pe).
  exists ns, rel, numR, numM, evs. split; [done|]. fold (cycle_changed ns rel).
  pose proof (nc_conf _ _ _ _ _ _ _ _ C) as Hc. destruct (cycle_changed ns rel) eqn:Ec; [split; [done|by apply Hc]|].
  rewrite app_nil_r in T. split; [done|]. split; [done|].
  unfold cycle_changed in Ec. apply orb_false_iff in Ec as [En Er].
  destruct rel; [|done]. destruct (nc_maps _ _ _ _ _ _ _ _ C) as (w2&w3&P2&T2&D&_&P3&T3).
  rewrite T3, <- T2. split; [|exact (ltac:(by rewrite (dr_stop _ _ _ D)))].
  intros p. by rewrite (P3 p), (dropped_nil_pools _ _ D p), (P2 p), (store_none_pools _ _ En p).
Qed.

(** What a pass asks console-data for is within the configured maximum per
    query, and nothing is asked when both numbers are zero. *)
Theorem doGetNewNodes_asks_bounded (E : env) (Op : OperatorService) (OpS : OperatorServiceSpec Op) w :
  inShutdown (pod w) = false → 0 ≤ maxAcquireRvr (nodes w) → 0 ≤ maxAcquireMtn (nodes w) →
  wp false (doGetNewNodes E) (λ _ w', ∃ evs1 evsA evs2 ns numR numM,
    trace w' = trace w ++ evs1 ++ evsA ++ evs2 ∧ only_http evs1 ∧
    acquired E w numR numM ns evsA ∧
    0 ≤ numR ≤ maxAcquireRvr (nodes w) ∧ 0 ≤ numM ≤ maxAcquireMtn (nodes w) ∧
    (numR = 0 → numM = 0 → evsA = [] ∧ ns = [])) w.
Proof.
  intros Hs HR HM. apply (wp_doGetNewNodes E (λ _, True)); [apply targets_satisfy_trivial|done|congruence|].
  intros w' ns rel dR dM _ C. pose proof (nc_trace _ _ _ _ _ _ _ _ C) as (evs1&evsA&evsC&evsR&T&O&A&_&R).
  exists evs1, evsA. do 4 eexists. split; [exact T|]. split; [done|]. split; [exact A|].
  split; [by apply pinNumNodes_range|]. split; [by apply pinNumNodes_range|].
  intros E1 E2. destruct A as [|loc n o Ha _ _]; [done|]. by rewrite E1, E2 in Ha.
Qed.

(** C17: the sizes after rebalancing, when the request returns.  Releasing stops exactly at the goal (or
    at zero), River and Mountain/Paradise separately, the loops end, and nodes
    are taken from the larger of the Mountain and Paradise groups so that the
    two differ as little as their starting sizes allow. *)
Theorem rebalanceNodes_sizes (E : env) dR dM w :
  requests_return E →
  wp true (rebalanceNodes E dR dM) (λ b w',
    zlen (rvr w') = (if dR <? 0 then Z.min (zlen (rvr w)) (Z.max 0 (zlen (rvr w) +i dR)) else zlen (rvr w)) ∧
    zlen (mtn w') + zlen (pds w') =
      (if dM <? 0 then Z.min (zlen (mtn w) + zlen (pds w)) (Z.max 0 (zlen (mtn w) + zlen (pds w) +i dM))
       else zlen (mtn w) + zlen (pds w)) ∧
    (zlen (mtn w') < zlen (mtn w) → zlen (pds w') ≤ zlen (mtn w')) ∧
    (zlen (pds w') < zlen (pds w) → zlen (mtn w') ≤ zlen (pds w') + 1) ∧
    (∃ rel, all_entries w ≡ₚ rel ++ all_entries w' ∧ b = is_release rel) ∧
    dom (tailThreads (tails w')) ⊆ dom (tailThreads (tails w))) w.
Proof.
  intros Hrq. apply wp_rebalanceNodes; [done|]. intros b w1 w' rel evs D [Z1 Z2 (_&_&F1&F2)] [C _] _ ->.
  rewrite <- (rvr_proper _ _ C), <- (mtn_proper _ _ C), <- (pds_proper _ _ C), <- (tails_proper _ _ C),
    <- (all_entries_core _ _ C).
  split; [done|]. split; [done|]. split; [done|]. split; [done|]. split.
  - exists rel. split; [apply (dr_entries _ _ _ D)|done].
  - rewrite (dr_dom _ _ _ D). set_solver.
Qed.

(** C32: the floating-point test of the code is the integer rule it means: a
    group is balanced when it holds between its share and eleven tenths of it;
    otherwise the change brings it exactly to its share. *)
Theorem balance_delta_rule curr ideal :
  0 ≤ curr < 2 ^ 53 → 1 ≤ ideal ≤ 2 ^ 40 →
  balance_delta curr ideal =
    (if (curr <? ideal) || (11 * ideal <? 10 * curr) then ideal - curr else 0).
Proof.
  intros Hc Hi. unfold balance_delta. rewrite overTenPercent_exact by lia.
  destruct (_ || _); [|done]. apply i64_small. unfold in_i64, minInt64, maxInt64. lia.
Qed.

(** The share of a pod: with [numPods] pods (at least one is assumed), the
    shares of all pods together cover all nodes, each exceeding the even share
    by at most one. *)
Theorem ideal_share_covers total numPods :
  0 ≤ total < 2 ^ 62 → numPods < 2 ^ 62 →
  let n := locMax numPods 1 in
  total < n * ideal_share total numPods ∧ n * (ideal_share total numPods - 1) ≤ total ∧
  1 ≤ ideal_share total numPods.
Proof.
  intros Ht Hn n. unfold ideal_share. fold n.
  assert (1 ≤ n) by (unfold n, locMax; case_tests; lia).
  pose proof (Z.quot_div_nonneg total n ltac:(lia) ltac:(lia)) as E. rewrite E.
  pose proof (Z.div_mod total n ltac:(lia)). pose proof (Z.mod_pos_bound total n ltac:(lia)).
  pose proof (Z.div_pos total n ltac:(lia) ltac:(lia)).
  assert (total `div` n ≤ total) by (apply Z.div_le_upper_bound; nia).
  rewrite i64_small by (unfold in_i64, minInt64, maxInt64; lia). nia.
Qed.

(** The operator never reports a negative number of Mountain nodes, nor one
    beyond 2^62. *)
Definition sane_total (ct : CurrentTargets) : Prop := 0 ≤ TotalMtnNodes ct < 2 ^ 62.

Lemma calc_result_no_mtn w d :
  calc_result sane_total w d → 0 ≤ maxAcquireMtn (nodes w) → zlen (mtn w) = 0 → 0 ≤ d.1.
Proof.
  intros [(ct&np&[H0 H1]&->)| ->] Hm Hz; cbn; rewrite Hz; [|by apply pinNumNodes_range].
  unfold balance_delta. destruct (_ || _); [|done]. unfold ideal_share.
  set (n := locMax np 1). assert (1 ≤ n) by (unfold n, locMax; case_tests; lia).
  pose proof (Z.quot_div_nonneg (TotalMtnNodes ct) n ltac:(lia) ltac:(lia)) as Eq. rewrite Eq.
  pose proof (Z.div_pos (TotalMtnNodes ct) n ltac:(lia) ltac:(lia)).
  assert (TotalMtnNodes ct `div` n ≤ TotalMtnNodes ct) by (apply Z.div_le_upper_bound; nia).
  rewrite (i64_small (_ + 1)) by (unfold in_i64, minInt64, maxInt64; lia). i64s. lia.
Qed.

(** Paradise nodes are invisible to the balancing rule: a pod that holds
    no Mountain node never gives a Paradise node back, however many it has. *)
Theorem paradise_never_released (E : env) (Op : OperatorService) (OpS : OperatorServiceSpec Op) w :
  targets_satisfy sane_total → 0 ≤ maxAcquireMtn (nodes w) → mtn w = ∅ →
  wp false (doGetNewNodes E) (λ _ w', dom (pds w) ⊆ dom (pds w')) w.
Proof.
  intros HP Hm Hz. apply (wp_doGetNewNodes E sane_total); [done|done|done|].
  intros w' ns rel dR dM _ C.
  destruct (nc_delta _ _ _ _ _ _ _ _ C) as (w1&d&R1&Cr&->&_).
  assert (Hd : 0 ≤ d.1).
  { apply (calc_result_no_mtn w1); [done|by rewrite (rt_maxM _ _ R1)|].
    by rewrite (rt_pools _ _ R1 Mtn : mtn w1 = mtn w), Hz, zlen_empty. }
  destruct (nc_maps _ _ _ _ _ _ _ _ C) as (w2&w3&P2&_&D&[_ Zm _]&P3&_).
  rewrite (proj2 (Z.ltb_ge _ _) Hd) in Zm.
  assert (Eq : pds w3 = pds w2).
  { apply map_subseteq_size_eq; [apply (dr_sub _ _ _ D Pds)|].
    pose proof (map_subseteq_size _ _ (dr_sub _ _ _ D Mtn)). unfold zlen in Zm. cbn in *. lia. }
  rewrite (P3 Pds : pds w' = pds w3), Eq, (P2 Pds : pds w2 = pds (store_all ns w)).
  clear. revert w. induction ns as [|n ns IH]; intros w; [by destruct w|].
  rewrite store_all_cons. etrans; [|apply IH].
  change (pds (upd_nodes (store_node n) w)) with (get_pool Pds (upd_nodes (store_node n) w)).
  rewrite store_node_pool. case_decide; [|done]. cbn. rewrite dom_insert. set_solver.
Qed.

(** An operator that answers 200 with a JSON null crashes the node thread:
    the nil result is dereferenced (when counting the pods did not fail). *)
Theorem calcChangeInNodes_null_panics (E : env) w :
  (∀ n rq, http_do E n rq = Some (Response 200
     (if decide (rq_url rq = dataAddrBase +:+ "/activepods") then qs "{'numactivepods':3}" else "null"))) →
  ∃ w', @calcChangeInNodes E (demo_operator E) w = Panic "nil pointer dereference" w'.
Proof.
  intros H. unfold calcChangeInNodes.
  assert (HU : ∀ v, updateNodesPerPod E v = Done () (match updateNodesPerPod E v with Done _ v' => v' | _ => v end)).
  { intros v. assert (HT : wp true (updateNodesPerPod E) (λ _ _, True) v) by by apply wp_updateNodesPerPod.
    apply wp_total_done in HT as ([]&v'&HT&_). by rewrite HT. }
  unfold mbind, M_bind. rewrite HU. unfold gets, id. cbn [demo_operator OperatorManager_service getCurrentTargets].
  unfold getNumActiveNodePods, om_getCurrentTargets, getURL, do_request, header_list, mbind, M_bind, mret, M_ret,
    next, emit, modify.
  cbv beta iota. rewrite !H. by eexists.
Qed.

(** *** The target file *)

(** A file of two labelled lines. *)
Definition target_file (s t : string) : string := line ("River:" +:+ s) +:+ line ("Mountain:" +:+ t).

Definition keep_target (new old : Z) : Z := if 0 <=? new then new else old.

Lemma target_on_line_found lbl s old w :
  target_on_line lbl (line (lbl +:+ s)) old w = Done (Atoi s).1 w.
Proof.
  unfold target_on_line, strIndex, line. rewrite append_assoc, index_nat_head.
  change (Z.of_nat 0) with 0. cbn [Z.leb Z.compare]. unfold deref. pose proof (slice_mid lbl s (String nl EmptyString)) as Hs.
  rewrite !slen_append. change (slen (String nl EmptyString)) with 1.
  replace (0 + slen lbl) with (slen lbl) by lia.
  replace (slen lbl + (slen s + 1) - 1) with (slen lbl + slen s) by lia. by rewrite Hs.
Qed.

Lemma target_on_line_absent c lbl ln old w :
  no_char c ln → target_on_line (String c lbl) ln old w = Done old w.
Proof. intros H. unfold target_on_line, strIndex. by rewrite index_nat_absent. Qed.

Lemma updateNodesPerPod_lines (E : env) w s t md :
  fs w !! targetNodeFile = Some (File (target_file s t) md) →
  (∀ n, fs_fault E n OpOpen targetNodeFile = None ∧ read_limit E n targetNodeFile = None) →
  no_char nl s → no_char "M"%char s → no_char nl t → no_char "R"%char t →
  ∃ w', updateNodesPerPod E w = Done () w' ∧
    targetRvrNodes (nodes w') = keep_target (Atoi s).1 (targetRvrNodes (nodes w)) ∧
    targetMtnNodes (nodes w') = keep_target (Atoi t).1 (targetMtnNodes (nodes w)).
Proof.
  intros Hf HE Hs1 Hs2 Ht1 Ht2.
  unfold updateNodesPerPod, osRead, fault, next, gets, mbind, M_bind, mret, M_ret. cbn [fs next_tick tick].
  rewrite (proj1 (HE _)), Hf, (proj2 (HE _)). cbn [content]. unfold target_file.
  assert (Hl : read_lines (line ("River:" +:+ s) +:+ line ("Mountain:" +:+ t)) =
    [line ("River:" +:+ s); line ("Mountain:" +:+ t)]).
  { unfold line at 1. rewrite append_snoc, read_lines_first by (apply no_char_app; by split).
    f_equal. unfold line at 1. rewrite read_lines_first by (apply no_char_app; by split). done. }
  rewrite Hl. cbn [read_targets]. unfold mbind, M_bind, mret, M_ret, modify.
  rewrite target_on_line_found.
  rewrite target_on_line_absent by (apply no_char_app; split; [by apply no_char_app; split|done]).
  rewrite target_on_line_absent by (apply no_char_app; split; [by apply no_char_app; split|done]).
  rewrite target_on_line_found. by eexists.
Qed.

(** The target file round trip: the numbers printed after the two labels
    become the targets, a negative one leaving the old target. *)
Theorem updateNodesPerPod_roundtrip (E : env) w r m md :
  in_i64 r → in_i64 m →
  fs w !! targetNodeFile = Some (File (target_file (Itoa r) (Itoa m)) md) →
  (∀ n, fs_fault E n OpOpen targetNodeFile = None ∧ read_limit E n targetNodeFile = None) →
  ∃ w', updateNodesPerPod E w = Done () w' ∧
    targetRvrNodes (nodes w') = keep_target r (targetRvrNodes (nodes w)) ∧
    targetMtnNodes (nodes w') = keep_target m (targetMtnNodes (nodes w)).
Proof.
  intros Hr Hm Hf HE.
  destruct (updateNodesPerPod_lines E w (Itoa r) (Itoa m) md) as (w'&H&E1&E2); [done|done| | | | |];
    [by apply Itoa_no_char..|].
  rewrite !Atoi_Itoa_roundtrip in E1, E2 by done. by exists w'.
Qed.

(** A number that does not parse is not ignored: the target becomes the
    value [Atoi] returns with its error, zero for a syntax error. *)
Theorem updateNodesPerPod_malformed (E : env) w s m md :
  (Atoi s).2 = Some ErrSyntax → no_char nl s → no_char "M"%char s → in_i64 m →
  fs w !! targetNodeFile = Some (File (target_file s (Itoa m)) md) →
  (∀ n, fs_fault E n OpOpen targetNodeFile = None ∧ read_limit E n targetNodeFile = None) →
  ∃ w', updateNodesPerPod E w = Done () w' ∧ targetRvrNodes (nodes w') = 0.
Proof.
  intros He Hs1 Hs2 Hm Hf HE.
  destruct (updateNodesPerPod_lines E w s (Itoa m) md) as (w'&H&E1&_);
    [done|done|done|done|by apply Itoa_no_char..|].
  exists w'. split; [done|]. rewrite E1.
  assert (H0 : (Atoi s).1 = 0); [|by rewrite H0].
  revert He. unfold Atoi, ParseInt. repeat (case_match; simplify_eq/=; try done).
Qed.

(** Reading the target file never panics, whatever its contents, and
    touches the two targets only. *)
Theorem updateNodesPerPod_safe (E : env) w :
  ∃ w', updateNodesPerPod E w = Done () w' ∧ retargeted w w' ∧ trace w' = trace w.
Proof.
  assert (H : wp true (updateNodesPerPod E) (λ _ w', retargeted w w' ∧ trace w' = trace w) w).
  { apply wp_updateNodesPerPod. auto. }
  apply wp_total_done in H as ([]&w'&H&Hw). eauto.
Qed.

(** *** Single nodes *)

Lemma removed_one x w w' : removed [x] w w' → ∀ p, get_pool p w' = delete x (get_pool p w).
Proof.
  intros R p. apply map_eq. intros k. rewrite (removed_lookup _ _ _ _ _ R).
  case_decide as Hk; rewrite list_elem_of_singleton in Hk; [by rewrite Hk, lookup_delete_eq|].
  by rewrite lookup_delete_ne.
Qed.

(** Releasing one node removes it from the first group that has it (River,
    Mountain, Paradise) and from no other, stops its tail in any case, and
    reports whether it was there; the invariant is preserved. *)
Theorem releaseNode_spec xname w :
  pod_inv w → pools_disjoint w →
  ∃ w', releaseNode xname w = Done (bool_decide (xname ∈ all_names w)) w' ∧
    (∀ p, get_pool p w' = delete xname (get_pool p w)) ∧
    tails w' = tail_stopped xname (tails w) ∧ pod_inv w' ∧ pools_disjoint w' ∧ xname ∉ all_names w'.
Proof.
  intros Hi Hd.
  assert (H : wp true (releaseNode xname) (λ b w', b = bool_decide (xname ∈ all_names w) ∧
    (∀ p, get_pool p w' = delete xname (get_pool p w)) ∧ tails w' = tail_stopped xname (tails w) ∧
    pod_inv w' ∧ pools_disjoint w') w).
  { apply wp_releaseNode; [done|]. intros b w' -> R. split; [done|]. split; [by apply removed_one|]. split; [apply R|].
    split; [by eapply removed_inv|by eapply removed_disjoint]. }
  apply wp_total_done in H as (b&w'&H&->&Hp&Ht&Hi'&Hd'). exists w'. rewrite H.
  repeat (split; [done|]). intros [p [n Hk]]%elem_of_all_names. by rewrite Hp, lookup_delete_eq in Hk.
Qed.

(** The list of xnames used by the other threads has every watched node
    exactly once when the groups are disjoint, whatever the map order. *)
Theorem getCurrNodeXnames_spec (E : env) w :
  pools_disjoint w →
  ∃ xs w', getCurrNodeXnames E w = Done xs w' ∧ same_core w w' ∧ NoDup xs ∧
    ∀ x, x ∈ xs ↔ x ∈ all_names w.
Proof.
  intros Hd.
  assert (H : wp true (getCurrNodeXnames E) (λ xs w', same_core w w' ∧ NoDup xs ∧
    ∀ x, x ∈ xs ↔ x ∈ all_names w) w).
  { unfold getCurrNodeXnames. rewrite wp_bind, wp_gets. cbv beta delta [id].
    rewrite wp_bind. apply wp_goRange. intros lm _ Hm. rewrite wp_bind. apply wp_goRange. intros lr _ Hr.
    rewrite wp_bind. apply wp_goRange. intros lp _ Hp. apply wp_ret. split; [done|].
    assert (Em : ∀ x, x ∈ lm.*1 ↔ is_Some (get_pool Mtn w !! x)).
    { intros x. change (get_pool Mtn w) with (mtn w). rewrite <- elem_of_dom, <- (range_fst_dom _ _ Hm), elem_of_list_to_set. done. }
    assert (Er : ∀ x, x ∈ lr.*1 ↔ is_Some (get_pool Rvr w !! x)).
    { intros x. change (get_pool Rvr w) with (rvr w). rewrite <- elem_of_dom, <- (range_fst_dom _ _ Hr), elem_of_list_to_set. done. }
    assert (Ep : ∀ x, x ∈ lp.*1 ↔ is_Some (get_pool Pds w !! x)).
    { intros x. change (get_pool Pds w) with (pds w). rewrite <- elem_of_dom, <- (range_fst_dom _ _ Hp), elem_of_list_to_set. done. }
    split.
    - rewrite !NoDup_app. split; [by eapply range_nodup|]. split; [|split; [by eapply range_nodup|split; [|by eapply range_nodup]]].
      + intros x Hx. rewrite elem_of_app, Er, Ep. apply Em in Hx.
        intros [H|H]; [by assert (Mtn = Rvr) by by eapply Hd|by assert (Mtn = Pds) by by eapply Hd].
      + intros x Hx. rewrite Ep. apply Er in Hx. intros H. by assert (Rvr = Pds) by by eapply Hd.
    - intros x. rewrite !elem_of_app, Em, Er, Ep, elem_of_all_names. split.
      + intros [H|[H|H]]; eauto.
      + intros [[] H]; eauto. }
  apply wp_total_done in H as (xs&w'&H&Hw). eauto.
Qed.

(** ** Witnesses *)

Definition in_class (p : pool) (l : list nodeConsoleInfo) : Prop := Forall (λ n, class_pool n = Some p) l.

Lemma demo_pool_lookup l k n : demo_pool l !! k = Some n → NodeName n = k ∧ n ∈ l.
Proof.
  unfold demo_pool. intros H. apply elem_of_list_to_map_2, list_elem_of_fmap in H as (m&[= -> ->]&Hm). done.
Qed.

Lemma demo_inv m r p : in_class Mtn m → in_class Rvr r → in_class Pds p → pod_inv (demo_world m r p).
Proof.
  unfold in_class. rewrite !Forall_forall. intros Hm Hr Hp. split.
  - intros q k n Hk. destruct q; cbn in Hk; apply demo_pool_lookup in Hk as [<- Hk]; auto.
  - split; cbn; intros *; by rewrite lookup_empty.
  - done.
Qed.

Lemma small_inv : pod_inv small_world.
Proof. apply demo_inv; repeat constructor. Qed.

Lemma full_inv : pod_inv full_world.
Proof. apply demo_inv; cbn; repeat constructor. Qed.

Lemma small_disjoint : pools_disjoint small_world.
Proof.
  intros p q k [n Hp] [m Hq].
  assert (H : ∀ r j x, get_pool r small_world !! j = Some x →
    j = match r with Mtn => "x2000" | Rvr => "x3000" | Pds => "x4000" end%string).
  { intros r j x Hx.
    destruct r; unfold small_world, demo_world, get_pool, rvr, pds, mtn, nodes, currentRvrNodes,
      currentPdsNodes, currentMtnNodes in Hx; apply demo_pool_lookup in Hx as [<- Hx];
      apply list_elem_of_singleton in Hx; by subst. }
  apply H in Hp, Hq. subst. by destruct p, q.
Qed.

Lemma busy_targets n :
  decode_answer targets_fields targets_zero "failed to get current targets"
    (http_result (busy_answer n (get_request (operatorAddrBase NewOperatorService +:+ "/currentTargets")))) =
  (Some (Targets 0 0 6 10 0), None).
Proof. by vm_compute. Qed.

Lemma busy_no_nil : @no_nil_targets (demo_operator busy_env).
Proof.
  intros w. unfold wp. cbn [demo_operator OperatorManager_service getCurrentTargets].
  by rewrite (om_getCurrentTargets_result busy_env _ _ (busy_answer (tick w) _) eq_refl), busy_targets.
Qed.

Lemma busy_sane : @targets_satisfy (demo_operator busy_env) sane_total.
Proof.
  intros w. unfold wp. cbn [demo_operator OperatorManager_service getCurrentTargets].
  rewrite (om_getCurrentTargets_result busy_env _ _ (busy_answer (tick w) _) eq_refl), busy_targets. by intros ct [= <-].
Qed.

Lemma quiet_writable : conf_writable quiet_env.
Proof. by intros n. Qed.

Lemma busy_writable : conf_writable busy_env.
Proof. by intros n. Qed.

Lemma doGetNewNodes_inv_witness :
  wp false (@doGetNewNodes busy_env (demo_operator busy_env)) (λ _ w', pod_inv w') small_world.
Proof. exact (doGetNewNodes_inv _ _ (demo_operator_spec busy_env) _ small_inv). Defined.

(** The same pass, evaluated: one Mountain node is acquired, conmand told to
    restart, and the River node is kept because one more is asked for. *)
Example small_world_pass :
  match @doGetNewNodes busy_env (demo_operator busy_env) small_world with
  | Done _ w' => (bool_decide (dom (mtn w') = {["x1"; "x2000"]}), bool_decide (dom (rvr w') = {["x3000"]}),
                  last (trace w')) = (true, true, Some (EvSignal SIGTERM))
  | _ => False
  end.
Proof. by vm_compute. Qed.


Lemma doGetNewNodes_total_witness :
  ∃ w', @doGetNewNodes busy_env (demo_operator busy_env) full_world = Done () w' ∧ command w' = command full_world.
Proof.
  apply (doGetNewNodes_total busy_env _ (demo_operator_spec busy_env));
    [exact (env_http_returns busy_answer)|exact busy_no_nil|done|done].
Defined.

Lemma doGetNewNodes_reconfigures_witness :
  conf_writable busy_env ∧
  wp false (@doGetNewNodes busy_env (demo_operator busy_env)) (λ _ w', ∃ ns rel numR numM evs,
    pass_events busy_env full_world numR numM ns rel evs ∧
    if some_stored ns || is_release rel
    then trace w' = trace full_world ++ evs ++ term_event (command full_world) ∧
      ∃ xs md, node_names w' xs ∧ fs w' !! logRotConfFile = Some (File (conf_text w' xs) md)
    else trace w' = trace full_world ++ evs ∧ fs w' = fs full_world ∧ same_pools full_world w' ∧
      tailThreads (tails w') = tailThreads (tails full_world) ∧ watchers (tails w') = watchers (tails full_world)) full_world.
Proof.
  split; [exact busy_writable|].
  exact (doGetNewNodes_reconfigures busy_env _ (demo_operator_spec busy_env) full_world busy_writable eq_refl).
Defined.

Lemma rebalanceNodes_sizes_witness :
  requests_return quiet_env ∧
  wp true (rebalanceNodes quiet_env (-15) (-20)) (λ b w',
    zlen (rvr w') = Z.min (zlen (rvr full_world)) (Z.max 0 (zlen (rvr full_world) +i -15)) ∧
    zlen (mtn w') + zlen (pds w') =
      Z.min (zlen (mtn full_world) + zlen (pds full_world)) (Z.max 0 (zlen (mtn full_world) + zlen (pds full_world) +i -20)) ∧
    (zlen (mtn w') < zlen (mtn full_world) → zlen (pds w') ≤ zlen (mtn w')) ∧
    (zlen (pds w') < zlen (pds full_world) → zlen (mtn w') ≤ zlen (pds w') + 1) ∧
    (∃ rel, all_entries full_world ≡ₚ rel ++ all_entries w' ∧ b = is_release rel) ∧
    dom (tailThreads (tails w')) ⊆ dom (tailThreads (tails full_world))) full_world.
Proof.
  split; [by intros n rq|]. exact (rebalanceNodes_sizes quiet_env (-15) (-20) full_world (env_http_returns _)).
Defined.

Lemma doGetNewNodes_asks_bounded_witness :
  wp false (@doGetNewNodes busy_env (demo_operator busy_env)) (λ _ w', ∃ evs1 evsA evs2 ns numR numM,
    trace w' = [] ++ evs1 ++ evsA ++ evs2 ∧ only_http evs1 ∧
    acquired busy_env small_world numR numM ns evsA ∧ 0 ≤ numR ≤ 500 ∧ 0 ≤ numM ≤ 200 ∧
    (numR = 0 → numM = 0 → evsA = [] ∧ ns = [])) small_world.
Proof.
  exact (doGetNewNodes_asks_bounded busy_env _ (demo_operator_spec busy_env) small_world eq_refl
    ltac:(done) ltac:(done)).
Defined.

Lemma balance_delta_rule_witness : (0 ≤ 110 < 2 ^ 53) ∧ balance_delta 110 100 = 0 ∧ balance_delta 111 100 = -11.
Proof.
  split; [done|]. split; [exact (balance_delta_rule 110 100 ltac:(done) ltac:(done))|].
  exact (balance_delta_rule 111 100 ltac:(done) ltac:(done)).
Defined.

Lemma ideal_share_covers_witness :
  let n := locMax 3 1 in 10 < n * ideal_share 10 3 ∧ n * (ideal_share 10 3 - 1) ≤ 10 ∧ 1 ≤ ideal_share 10 3.
Proof. exact (ideal_share_covers 10 3 ltac:(done) ltac:(done)). Defined.

Lemma paradise_never_released_witness :
  wp false (@doGetNewNodes busy_env (demo_operator busy_env))
    (λ _ w', dom (demo_pool (map (λ x, demo_node x "Paradise" 1) (names "x4"))) ⊆ dom (pds w'))
    (demo_world [] [] (map (λ x, demo_node x "Paradise" 1) (names "x4"))).
Proof.
  apply (paradise_never_released busy_env _ (demo_operator_spec busy_env)); [exact busy_sane|done|done].
Defined.

(** An operator that answers null. *)
Definition null_env : env := env_http (λ _ rq, Response 200
  (if decide (rq_url rq = dataAddrBase +:+ "/activepods") then qs "{'numactivepods':3}" else "null")).

Lemma calcChangeInNodes_null_panics_witness :
  ∃ w', @calcChangeInNodes null_env (demo_operator null_env) small_world = Panic "nil pointer dereference" w'.
Proof. apply calcChangeInNodes_null_panics. reflexivity. Defined.

(** A pod whose target file has the given text. *)
Definition target_world (txt : string) : world :=
  upd_fs <[targetNodeFile := File txt 420]> small_world.

Lemma updateNodesPerPod_roundtrip_witness :
  ∃ w', updateNodesPerPod quiet_env (target_world (target_file "120" "-3")) = Done () w' ∧
    targetRvrNodes (nodes w') = 120 ∧ targetMtnNodes (nodes w') = -1.
Proof.
  apply (updateNodesPerPod_roundtrip quiet_env (target_world (target_file "120" "-3")) 120 (-3) 420);
    [done|done|reflexivity|done].
Defined.

Lemma updateNodesPerPod_malformed_witness :
  ∃ w', updateNodesPerPod quiet_env (target_world (target_file " 12" "5")) = Done () w' ∧
    targetRvrNodes (nodes w') = 0.
Proof.
  apply (updateNodesPerPod_malformed quiet_env (target_world (target_file " 12" "5")) " 12" 5 420);
    [reflexivity|cbn; repeat split; discriminate|cbn; repeat split; discriminate|done|reflexivity|done].
Defined.

Lemma releaseNode_spec_witness :
  ∃ w', releaseNode "x4000" small_world = Done true w' ∧
    (∀ p, get_pool p w' = delete "x4000" (get_pool p small_world)) ∧
    tails w' = tail_stopped "x4000" (tails small_world) ∧ pod_inv w' ∧ pools_disjoint w' ∧
    "x4000" ∉ all_names w'.
Proof. exact (releaseNode_spec "x4000" small_world small_inv small_disjoint). Defined.

Lemma getCurrNodeXnames_spec_witness :
  ∃ xs w', getCurrNodeXnames quiet_env small_world = Done xs w' ∧ same_core small_world w' ∧ NoDup xs ∧
    ∀ x, x ∈ xs ↔ x ∈ all_names small_world.
Proof. exact (getCurrNodeXnames_spec quiet_env small_world small_disjoint). Defined.
