(* ===== verification/Heartbeat.v ===== *)
(** * The heartbeat: src/src/console_node/data.go

    [sendSingleHeartbeat] reports every watched node to console-data and gives
    up the nodes that console-data says belong to another pod. *)

From S2P Require Import Prelude GoStrings Json World HttpUtils Operator LogAggregation DataService.
From S2P Require Import ConmanProc Nodes NodesFacts LogRotateConf Demo.
From Stdlib Require Import ZArith.
From stdpp Require Import base numbers strings gmap sets list.

Local Open Scope Z_scope.

(** [type NodeConsoleInfo struct]: the members have the names of the struct
    tags; [NodeConsoleName] is always sent empty. *)
Definition heartbeat_node_json (n : nodeConsoleInfo) : json :=
  JObj [("nodename", JStr (NodeName n)); ("bmcname", JStr (BmcName n)); ("bmcfqdn", JStr (BmcFqdn n));
        ("class", JStr (nodeClass n)); ("nid", JInt (NID n)); ("role", JStr (Role n));
        ("nodeconsolename", JStr EmptyString)].

(** [type nodeConsoleInfoHeartBeat struct]: the slice is made, so it is never
    null. *)
Definition heartbeat_json (ns : list nodeConsoleInfo) (xname : string) : json :=
  JObj [("CurrNodes", JArr (map heartbeat_node_json ns)); ("PodLocation", JStr xname)].

Section heartbeat.
Context (E : env).

(** What is done with the answer: nodes no longer controlled by this pod are
    released; true when there were any. *)
Definition drop_nodes (rb : string) : M bool :=
  match unmarshal_nodes rb with
  | (_, true) => mret false
  | ([], false) => mret false
  | (droppedNodes, false) =>
    forEach (map NodeName droppedNodes) (λ x, _ ← releaseNode x; mret ());;
    mret true
  end.

(** [sendSingleHeartbeat] up to the signal: true when conmand has to restart. *)
Definition exchange_heartbeat : M bool :=
  url ← gets (λ w, pod_url w "heartbeat");
  loc ← gets (podLocData ∘ pod);
  xname ← deref "nil pointer dereference" (pl_Xname <$> loc);
  w ← gets id;
  lr ← goRange E (rvr w);
  lp ← goRange E (pds w);
  lm ← goRange E (mtn w);
  let data := json_print (heartbeat_json (lr.*2 ++ lp.*2 ++ lm.*2) xname) in
  t ← next;
  modify (upd_pod (set_lastHeartbeatTime (clock E t)));;
  r ← postURL E url data None;
  match r.1.1 with
  | Some rb => drop_nodes rb
  | None => mret false
  end.

(** [sendSingleHeartbeat] *)
Definition sendSingleHeartbeat : M () :=
  dropped ← exchange_heartbeat;
  if dropped : bool then signalConmanTERM else mret ().

(** One turn of [doHeartbeat] *)
Definition doHeartbeat_turn : M () :=
  sendSingleHeartbeat;;
  p ← gets pod;
  sleep (i64 (heartbeatIntervalSecs p * second)).

End heartbeat.

(** The request of a heartbeat. *)
Definition heartbeat_request (w : world) (ns : list nodeConsoleInfo) (loc : PodLocationDataResponse) : http_request :=
  post_request (pod_url w "heartbeat") (json_print (heartbeat_json ns (pl_Xname loc))).

(** The names in the answer, when it decodes. *)
Definition dropped_names (o : http_outcome) : list string :=
  match o with
  | Response _ rb => match unmarshal_nodes rb with (ns, false) => map NodeName ns | _ => [] end
  | _ => []
  end.

(** ** Lemmas *)

Definition drop_events (c : cmdState) (xs : list string) : list event :=
  match xs with [] => [] | _ => term_event c end.

(** An answer names nodes to give up. *)
Definition any_dropped (o : http_outcome) : bool := match dropped_names o with [] => false | _ => true end.

Lemma drop_events_any c o : drop_events c (dropped_names o) = if any_dropped o then term_event c else [].
Proof. unfold any_dropped. by destruct (dropped_names o). Qed.

Lemma wp_drop_nodes t rb Q w :
  pools_disjoint w →
  (∀ w1, removed (dropped_names (Response 200 rb)) w w1 → Q (any_dropped (Response 200 rb)) w1) →
  wp t (drop_nodes rb) Q w.
Proof.
  intros Hd H. unfold drop_nodes. unfold any_dropped in H. cbn [dropped_names] in H.
  destruct (unmarshal_nodes rb) as [[|n ns] []]; cbn [map] in *.
  1-3: apply wp_ret; apply (H w); apply removed_refl.
  rewrite wp_bind. apply wp_release_all; [done|]. intros w1 R. by apply wp_ret, H.
Qed.

(** What a heartbeat does up to the signal: the payload [ns], the answer [o]. *)
Record exchange (E : env) (w w' : world) (loc : PodLocationDataResponse) (ns : list nodeConsoleInfo) (o : http_outcome) : Prop := {
  ex_payload : ns ≡ₚ (all_entries w).*2;
  ex_answer : ∃ n, http_do E n (heartbeat_request w ns loc) = Some o;
  ex_removed : ∀ p, get_pool p w' = filter (λ kv, kv.1 ∉ dropped_names o) (get_pool p w);
  ex_tails : tails w' = foldl (λ s x, tail_stopped x s) (tails w) (dropped_names o);
  ex_command : command w' = command w;
  ex_fs : fs w' = fs w;
  ex_trace : ∃ evsC, trace w' = trace w ++ sent o (heartbeat_request w ns loc) ++ evsC ∧ Forall is_cancel evsC;
  ex_pod : ∃ n, pod w' = set_lastHeartbeatTime (clock E n) (pod w)
}.

(** The whole heartbeat: conmand is told when nodes were given up. *)
Record beat (E : env) (w w' : world) (loc : PodLocationDataResponse) (ns : list nodeConsoleInfo) (o : http_outcome) : Prop := {
  bt_exchange : ∃ w1, exchange E w w1 loc ns o ∧ io (drop_events (command w) (dropped_names o)) w1 w'
}.

Lemma dropped_names_status sc rb : dropped_names (Response sc rb) = dropped_names (Response 200 rb).
Proof. done. Qed.

Lemma same_core_pools w w' : same_core w w' → pools_disjoint w → pools_disjoint w'.
Proof. intros C Hd p q k. rewrite <- !(get_pool_core _ _ _ C). apply Hd. Qed.

Lemma wp_exchange_heartbeat E t Q w :
  pools_disjoint w → (t = true → requests_return E ∧ podLocData (pod w) ≠ None) →
  (∀ w' loc ns o, podLocData (pod w) = Some loc → exchange E w w' loc ns o → Q (any_dropped o) w') →
  wp t (exchange_heartbeat E) Q w.
Proof.
  intros Hd Ht H. unfold exchange_heartbeat. rewrite wp_bind, wp_gets, wp_bind, wp_gets, wp_bind.
  unfold compose. destruct (podLocData (pod w)) as [loc|] eqn:El; cbn [fmap option_fmap option_map deref].
  2: { destruct t; [by destruct (Ht eq_refl) as [_ []]|done]. }
  rewrite wp_ret. rewrite wp_bind, wp_gets. cbv beta delta [id].
  rewrite wp_bind. apply wp_goRange. intros lr _ Hr. rewrite wp_bind. apply wp_goRange. intros lp _ Hp.
  rewrite wp_bind. apply wp_goRange. intros lm _ Hm. rewrite wp_bind, wp_next, wp_bind, wp_modify, wp_bind.
  set (w4 := upd_pod _ _). set (ns := lr.*2 ++ lp.*2 ++ lm.*2).
  assert (Hns : ns ≡ₚ (all_entries w).*2).
  { unfold ns, all_entries. by rewrite !fmap_app, Hr, Hp, Hm. }
  assert (P4 : same_pools w w4) by by intros [].
  assert (T4 : trace w4 = trace w) by done.
  apply wp_postURL; [intros ->; by apply Ht|]. intros o w5 Eo [C5 T5] _. change (post_request _ _) with (heartbeat_request w ns loc) in *.
  assert (P5 : ∀ p, get_pool p w5 = get_pool p w) by (intros p; by rewrite <- (get_pool_core p _ _ C5)).
  assert (Ex : ∀ w6, removed (dropped_names o) w5 w6 → exchange E w w6 loc ns o).
  { intros w6 R. destruct (rest_fs _ _ (rm_rest _ _ _ R)) as (Ec&_&_&Epd&Ef&_).
    destruct (rm_trace _ _ _ R) as (evsC&T6&FC). split.
    - done.
    - eauto.
    - intros p. by rewrite (rm_pools _ _ _ R), P5.
    - by rewrite (rm_tails _ _ _ R), <- (tails_proper _ _ C5).
    - by rewrite Ec, <- (command_proper _ _ C5).
    - by rewrite Ef, <- (fs_proper _ _ C5).
    - exists evsC. by rewrite T6, T5, T4, <- !app_assoc.
    - exists (tick (next_tick (next_tick (next_tick w)))). by rewrite Epd, <- (pod_proper _ _ C5). }
  assert (Hnil : dropped_names o = [] → Q (any_dropped o) w5 ∧ any_dropped o = false).
  { intros En. split; [|by unfold any_dropped; rewrite En].
    eapply H; [done|]. apply Ex. rewrite En. apply removed_refl. }
  destruct o as [| |sc|sc rb]; cbn [http_result fst].
  1-3: apply wp_ret; by destruct (Hnil eq_refl).
  apply wp_drop_nodes; [intros p q k; rewrite !P5; apply Hd|].
  intros w6 R. rewrite <- (dropped_names_status sc) in R. eapply (H w6 loc ns (Response sc rb)); [done|by apply Ex].
Qed.

Lemma wp_sendSingleHeartbeat E t Q w :
  pools_disjoint w → (t = true → requests_return E ∧ podLocData (pod w) ≠ None ∧ command w ≠ CmdCreated) →
  (∀ w' loc ns o, podLocData (pod w) = Some loc → beat E w w' loc ns o → Q () w') →
  wp t (sendSingleHeartbeat E) Q w.
Proof.
  intros Hd Ht H. unfold sendSingleHeartbeat. rewrite wp_bind.
  apply wp_exchange_heartbeat; [done|naive_solver|]. intros w1 loc ns o Hl Ex.
  assert (Hb : ∀ w', io (if any_dropped o then term_event (command w) else []) w1 w' → Q () w').
  { intros w' Hio. eapply H; [done|]. split. exists w1. by rewrite drop_events_any. }
  destruct (any_dropped o); [|by apply wp_ret, Hb, io_refl].
  pose proof (ex_command _ _ _ _ _ _ Ex) as Ec.
  apply wp_signalConmanTERM; rewrite Ec; [|done].
  intros Hc. destruct t; [|done]. by destruct (Ht eq_refl) as (_&_&[]).
Qed.

Section beat_facts.
Context {E : env} {w w' : world} {loc : PodLocationDataResponse} {ns : list nodeConsoleInfo} {o : http_outcome}.
Context (B : beat E w w' loc ns o).

Lemma bt_payload : ns ≡ₚ (all_entries w).*2.
Proof. destruct B as [(w1&X&_)]. apply X. Qed.

Lemma bt_answer : ∃ n, http_do E n (heartbeat_request w ns loc) = Some o.
Proof. destruct B as [(w1&X&_)]. apply X. Qed.

Lemma bt_removed p : get_pool p w' = filter (λ kv, kv.1 ∉ dropped_names o) (get_pool p w).
Proof. destruct B as [(w1&X&C&_)]. rewrite <- (get_pool_core p _ _ C). apply X. Qed.

Lemma bt_tails : tails w' = foldl (λ s x, tail_stopped x s) (tails w) (dropped_names o).
Proof. destruct B as [(w1&X&C&_)]. rewrite <- (tails_proper _ _ C). apply X. Qed.

Lemma bt_fs : fs w' = fs w.
Proof. destruct B as [(w1&X&C&_)]. rewrite <- (fs_proper _ _ C). apply X. Qed.

Lemma bt_trace : ∃ evsC, trace w' = trace w ++ sent o (heartbeat_request w ns loc) ++ evsC ++
  drop_events (command w) (dropped_names o) ∧ Forall is_cancel evsC.
Proof.
  destruct B as [(w1&X&_&T)]. destruct (ex_trace _ _ _ _ _ _ X) as (evsC&T1&FC).
  exists evsC. by rewrite T, T1, <- !app_assoc.
Qed.

End beat_facts.

Lemma beat_names E w w' loc ns o : beat E w w' loc ns o → all_names w' = all_names w ∖ list_to_set (dropped_names o).
Proof.
  intros B. apply set_eq. intros k. rewrite elem_of_difference, elem_of_list_to_set, !elem_of_all_names.
  setoid_rewrite (bt_removed B). split.
  - intros [p [n Hn]]. apply map_lookup_filter_Some in Hn as [Hn Hk]. split; [by exists p, n|done].
  - intros [[p [n Hn]] Hk]. exists p, n. by apply map_lookup_filter_Some.
Qed.

(** ** Properties *)

(** C14: a heartbeat reports every watched node exactly once in one request, gives
    up exactly the nodes that the answer to that request names, stops their
    tails, and tells conmand to terminate when there were any (it signals the
    process if there is one); it keeps the invariant.  The request is assumed
    to return. *)
Theorem sendSingleHeartbeat_spec (E : env) w loc :
  requests_return E →
  pod_inv w → pools_disjoint w → podLocData (pod w) = Some loc → command w ≠ CmdCreated →
  ∃ w' ns n o evsC, sendSingleHeartbeat E w = Done () w' ∧
    ns ≡ₚ (all_entries w).*2 ∧ http_do E n (heartbeat_request w ns loc) = Some o ∧
    trace w' = trace w ++ [EvHttp (heartbeat_request w ns loc) (Some o)] ++ evsC ++
      drop_events (command w) (dropped_names o) ∧ Forall is_cancel evsC ∧
    all_names w' = all_names w ∖ list_to_set (dropped_names o) ∧
    tails w' = foldl (λ s x, tail_stopped x s) (tails w) (dropped_names o) ∧ pod_inv w' ∧ pools_disjoint w'.
Proof.
  intros Hrq Hi Hd Hl Hc.
  assert (H : wp true (sendSingleHeartbeat E) (λ _ w', ∃ ns o, beat E w w' loc ns o) w).
  { apply wp_sendSingleHeartbeat; [done|by rewrite Hl|]. intros w' loc' ns o Hl' B.
    rewrite Hl in Hl'. injection Hl' as <-. eauto. }
  apply wp_total_done in H as ([]&w'&H&ns&o&B). destruct (bt_trace B) as (evsC&T&FC), (bt_answer B) as [n Ho].
  exists w', ns, n, o, evsC. split; [done|]. split; [apply (bt_payload B)|]. split; [done|]. split; [done|]. split; [done|].
  split; [by eapply beat_names|]. split; [exact (bt_tails B)|].
  destruct (stopped_all (dropped_names o) (tails w) (pi_tails _ Hi)) as [Ht' Hdm]. split; [split|].
  - intros p k m. rewrite (bt_removed B), map_lookup_filter_Some. intros [Hn _].
    by apply (pi_nodes _ Hi p).
  - by rewrite (bt_tails B).
  - rewrite (bt_tails B), Hdm, (beat_names _ _ _ _ _ _ B).
    pose proof (pi_sub _ Hi). set_solver.
  - intros p q k. rewrite !(bt_removed B). intros [x Hn] [m Hm].
    apply map_lookup_filter_Some in Hn as [Hn _], Hm as [Hm _]. apply (Hd p q k); by eexists.
Qed.

(** A heartbeat never rewrites the log rotation configuration: nodes that it
    drops keep their entries in the file until the next change that the node
    thread makes. *)
Theorem sendSingleHeartbeat_keeps_conf (E : env) w xs md :
  pools_disjoint w → node_names w xs → fs w !! logRotConfFile = Some (File (conf_text w xs) md) →
  wp false (sendSingleHeartbeat E) (λ _ w', ∃ o,
    all_names w' = list_to_set xs ∖ list_to_set (dropped_names o) ∧
    fs w' !! logRotConfFile = Some (File (conf_text w xs) md)) w.
Proof.
  intros Hd (lr&lp&lm&Hr&Hp&Hm&->) Hf.
  apply wp_sendSingleHeartbeat; [done|done|]. intros w' loc ns o _ B. exists o. split.
  - rewrite (beat_names _ _ _ _ _ _ B). f_equal. rewrite all_names_entries.
    apply list_to_set_perm_L. unfold all_entries. by rewrite !fmap_app, Hr, Hp, Hm.
  - by rewrite (bt_fs B).
Qed.

(** ** Witnesses *)

(** console-data takes one node back. *)
Definition dropping_env : env := env_http (λ _ _, Response 200 (qs "[{'NodeName':'x2000'}]")).

(** A pod that watches two nodes, the log of one of them tailed. *)
Definition beating_world : world :=
  upd_tails (start_watch "x2000")
    (demo_world [demo_node "x2000" "Mountain" 1] [demo_node "x3000" "River" 2] []).

Lemma beating_lookup p k n : get_pool p beating_world !! k = Some n →
  match p with
  | Mtn => k = "x2000"%string ∧ n = demo_node "x2000" "Mountain" 1
  | Rvr => k = "x3000"%string ∧ n = demo_node "x3000" "River" 2
  | Pds => False
  end.
Proof.
  destruct p; cbn; rewrite ?lookup_empty; try done;
    intros [[<- <-]|[_ H]]%lookup_insert_Some; try done; by rewrite lookup_empty in H.
Qed.

Lemma beating_inv : pod_inv beating_world.
Proof.
  split.
  - intros p k n Hk. apply beating_lookup in Hk. destruct p; naive_solver.
  - apply tails_ok_start; [|done]. split; cbn; intros *; by rewrite lookup_empty.
  - intros k. cbn. rewrite dom_insert, dom_empty. intros Hk. assert (k = "x2000"%string) as -> by set_solver.
    apply elem_of_all_names. exists Mtn. by eexists.
Qed.

Lemma beating_disjoint : pools_disjoint beating_world.
Proof.
  intros p q k [n Hn] [m Hm]. apply beating_lookup in Hn, Hm. destruct p, q; naive_solver.
Qed.

Lemma sendSingleHeartbeat_spec_witness :
  ∃ w' ns n o evsC, sendSingleHeartbeat dropping_env beating_world = Done () w' ∧
    ns ≡ₚ (all_entries beating_world).*2 ∧ http_do dropping_env n (heartbeat_request beating_world ns demo_location) = Some o ∧
    trace w' = [] ++ [EvHttp (heartbeat_request beating_world ns demo_location) (Some o)] ++ evsC ++
      drop_events CmdRunning (dropped_names o) ∧ Forall is_cancel evsC ∧
    all_names w' = all_names beating_world ∖ list_to_set (dropped_names o) ∧
    tails w' = foldl (λ s x, tail_stopped x s) (tails beating_world) (dropped_names o) ∧ pod_inv w' ∧ pools_disjoint w'.
Proof.
  apply (sendSingleHeartbeat_spec dropping_env beating_world demo_location);
    [exact (env_http_returns _)|exact beating_inv|exact beating_disjoint|done|done].
Defined.

(** The same heartbeat, evaluated. *)
Example beating_result :
  match sendSingleHeartbeat dropping_env beating_world with
  | Done _ w' => (bool_decide (all_names w' = {["x3000"]}), bool_decide (dom (tailThreads (tails w')) = ∅),
                  drop 1 (trace w')) = (true, true, [EvCancel 0; EvSignal SIGTERM])
  | _ => False
  end.
Proof. by vm_compute. Qed.

Lemma sendSingleHeartbeat_keeps_conf_witness :
  let w := upd_fs <[logRotConfFile := File (conf_text beating_world ["x3000"; "x2000"]) 420]> beating_world in
  wp false (sendSingleHeartbeat dropping_env) (λ _ w', ∃ o,
    all_names w' = list_to_set ["x3000"; "x2000"] ∖ list_to_set (dropped_names o) ∧
    fs w' !! logRotConfFile = Some (File (conf_text w ["x3000"; "x2000"]) 420)) w.
Proof.
  intros w. apply (sendSingleHeartbeat_keeps_conf dropping_env w ["x3000"; "x2000"] 420).
  - exact beating_disjoint.
  - by exists (map_to_list (rvr w)), (map_to_list (pds w)), (map_to_list (mtn w)).
  - by vm_compute.
Defined.
