(* ===== verification/Wire.v ===== *)
(** * The nodes on the wire: src/src/console_node/data.go, nodes.go

    A node is sent to console-data in a heartbeat and received from it when
    nodes are acquired; here is what survives the trip. *)

From S2P Require Import Prelude GoStrings Json JsonFacts World DataService Heartbeat Demo.
From Stdlib Require Import ZArith Lia.
From stdpp Require Import base numbers strings gmap sets list.

Local Open Scope Z_scope.

(** A node whose texts are ASCII and whose NID is an int. *)
Definition node_wire (n : nodeConsoleInfo) : Prop :=
  ascii_text (NodeName n) ∧ ascii_text (BmcName n) ∧ ascii_text (BmcFqdn n) ∧ ascii_text (nodeClass n) ∧
  in_i64 (NID n) ∧ ascii_text (Role n).

#[export] Instance in_i64_dec z : Decision (in_i64 z).
Proof. unfold in_i64. apply _. Defined.

#[export] Instance node_wire_dec n : Decision (node_wire n).
Proof. unfold node_wire. apply _. Defined.

(** ** Lemmas *)

#[export] Hint Constructors json_ok : go.

Lemma json_ok_members d ms : d < maxNestingDepth →
  Forall (λ m : string * json, ascii_text m.1 ∧ json_ok (d + 1) m.2) ms → json_ok d (JObj ms).
Proof. by constructor. Qed.

Ltac solve_members := repeat (apply Forall_cons; split; [split; [cbn; repeat split; lia|cbn [snd]; eauto with go]|]);
  apply Forall_nil; done.

Lemma node_json_ok d n : d < maxNestingDepth → node_wire n → json_ok d (node_json n).
Proof. intros Hd (?&?&?&?&?&?). apply json_ok_members; [done|]. unfold JInt. solve_members. Qed.

Lemma heartbeat_node_json_ok d n : d < maxNestingDepth → node_wire n → json_ok d (heartbeat_node_json n).
Proof.
  intros Hd (?&?&?&?&?&?). apply json_ok_members; [done|]. unfold JInt.
  assert (ascii_text EmptyString) by done. solve_members.
Qed.

Lemma dec_int_JInt n cur : in_i64 n → dec_int (JInt n) cur = (n, false).
Proof.
  intros H. unfold dec_int, JInt. change (ParseInt (Itoa n)) with (Atoi (Itoa n)). by rewrite Atoi_Itoa_roundtrip.
Qed.

(** The decoder of each member, in both spellings of its name. *)
Lemma find_declared k d : (k, d) ∈ node_fields → find_field node_fields k = Some d.
Proof.
  intros H. unfold node_fields in H.
  repeat (apply elem_of_cons in H as [[= -> ->]|H]; [reflexivity|]). by apply not_elem_of_nil in H.
Qed.

Definition tags : list (string * string) :=
  [("nodename", "NodeName"); ("bmcname", "BmcName"); ("bmcfqdn", "BmcFqdn"); ("class", "Class");
   ("nid", "NID"); ("role", "Role")]%string.

Lemma find_tag t k : (t, k) ∈ tags → find_field node_fields t = find_field node_fields k.
Proof.
  intros H. unfold tags in H.
  repeat (apply elem_of_cons in H as [[= -> ->]|H]; [reflexivity|]). by apply not_elem_of_nil in H.
Qed.

Ltac in_table := repeat first [apply list_elem_of_here | apply list_elem_of_further].

Lemma dec_node n m : in_i64 (NID n) → dec_struct node_fields (node_json n) m = (n, false).
Proof.
  intros H. cbn [dec_struct node_json dec_members].
  do 6 (erewrite find_declared by in_table; unfold dec_field; cbn [dec_string]; rewrite ?dec_int_JInt by done).
  by destruct n.
Qed.

Lemma dec_heartbeat_node n m : in_i64 (NID n) →
  dec_struct node_fields (heartbeat_node_json n) m = (n, false).
Proof.
  intros H. cbn [dec_struct heartbeat_node_json dec_members].
  do 6 (erewrite find_tag, find_declared by in_table; unfold dec_field; cbn [dec_string]; rewrite ?dec_int_JInt by done).
  change (find_field node_fields "nodeconsolename") with (@None (decoder nodeConsoleInfo)).
  by destruct n.
Qed.

Lemma dec_elems_map {T} (d : decoder T) (enc : T → json) zero l :
  Forall (λ x, ∀ m, d (enc x) m = (x, false)) l → dec_elems d zero (map enc l) = (l, false).
Proof. induction 1 as [|x l Hx _ IH]; [done|]. cbn [map dec_elems]. by rewrite Hx, IH. Qed.

Lemma unmarshal_nodes_list (enc : nodeConsoleInfo → json) l :
  (∀ n m, in_i64 (NID n) → dec_struct node_fields (enc n) m = (n, false)) →
  (∀ d n, d < maxNestingDepth → node_wire n → json_ok d (enc n)) →
  Forall node_wire l → unmarshal_nodes (json_print (JArr (map enc l))) = (l, false).
Proof.
  intros Hd Hk Hl. unfold unmarshal_nodes, Unmarshal.
  rewrite <- (append_nil_r (json_print _)), json_parse_print; [|..|by left].
  - apply dec_elems_map, Forall_forall. intros n Hn m. apply Hd.
    eapply Forall_forall in Hl; [|done]. apply Hl.
  - constructor; [done|]. apply Forall_map, Forall_forall. intros n Hn. apply Hk; [done|].
    by eapply Forall_forall in Hl.
Qed.

(** ** Properties *)

(** C29: nodes survive the wire: the list of nodes written by encoding/json is
    decoded back as it was, whether it is written with the names of the fields
    of [nodeConsoleInfo], as an answer to an acquire request is, or with the
    tags of [NodeConsoleInfo], as the heartbeat sends it and console-data's
    answer repeats it; quotes, backslashes, control and HTML characters in the
    names included. *)
Theorem nodes_roundtrip l :
  Forall node_wire l →
  unmarshal_nodes (json_print (nodes_json l)) = (l, false) ∧
  unmarshal_nodes (json_print (JArr (map heartbeat_node_json l))) = (l, false).
Proof.
  intros Hl. split; [|by apply unmarshal_nodes_list; eauto using dec_heartbeat_node, heartbeat_node_json_ok].
  destruct l as [|n l]; [done|]. unfold nodes_json.
  by apply unmarshal_nodes_list; eauto using dec_node, node_json_ok.
Qed.

(** ** Witness *)

Definition wire_nodes : list nodeConsoleInfo :=
  [demo_node "x3000c0s1b0n0" "River" 17; NodeCI "a<b" (qs "say 'hi'") (String nl "
") "Mountain" (-5) ""].

Lemma nodes_roundtrip_witness :
  unmarshal_nodes (json_print (nodes_json wire_nodes)) = (wire_nodes, false) ∧
  unmarshal_nodes (json_print (JArr (map heartbeat_node_json wire_nodes))) = (wire_nodes, false).
Proof.
  apply (nodes_roundtrip wire_nodes).
  repeat (apply Forall_cons; split); [apply (bool_decide_unpack _); reflexivity..|apply Forall_nil; done].
Defined.
