(* ===== verification/PodSetup.v ===== *)
(** * Pod identity, configuration and release: src/src/console_node/consoleNodeMain.go

    The helpers of [main]: reading bounded settings, naming the pod, asking for
    its location until it is known, and giving all nodes back on shutdown. *)

From S2P Require Import Prelude GoStrings Json World HttpUtils Operator LogAggregation DataService.
From S2P Require Import ConmanProc Nodes NodesFacts Demo Heartbeat.
From Stdlib Require Import ZArith Lia Ascii.
From stdpp Require Import base numbers strings gmap sets list.

Local Open Scope Z_scope.

Definition conAggLogFileBase : string := "/tmp/consoleAgg/consoleAgg-".

(** The value [readSingleEnvVarInt] leaves in the variable that held [old],
    for the value [v] of the environment variable. *)
Definition bounded_setting (v : string) (old minVal maxVal : Z) : Z :=
  if decide (v = EmptyString) then old else
  match Atoi v with
  | (_, Some _) => old
  | (vi, None) =>
    let vi1 := if vi <? minVal then minVal else vi in
    if maxVal <? vi1 then maxVal else vi1
  end.

Definition set_conAggLogFile (f : string) (s : tailState) : tailState :=
  TailState (tailThreads s) (watchers s) (lingering s) (nextWatch s) f (conAggLogger s).

Definition set_podName (n : string) (p : podState) : podState :=
  PodState (debugOnly p) n (podID p) (podLocData p) (inShutdown p) (heartbeatIntervalSecs p) (lastHeartbeatTime p).
Definition set_podID (i : string) (p : podState) : podState :=
  PodState (debugOnly p) (podName p) i (podLocData p) (inShutdown p) (heartbeatIntervalSecs p) (lastHeartbeatTime p).
Definition set_heartbeatIntervalSecs (n : Z) (p : podState) : podState :=
  PodState (debugOnly p) (podName p) (podID p) (podLocData p) (inShutdown p) n (lastHeartbeatTime p).
Definition set_debugOnly (b : bool) (p : podState) : podState :=
  PodState b (podName p) (podID p) (podLocData p) (inShutdown p) (heartbeatIntervalSecs p) (lastHeartbeatTime p).
Definition set_newNodeLookupSec (n : Z) (s : nodesState) : nodesState :=
  NodesState (currentMtnNodes s) (currentRvrNodes s) (currentPdsNodes s) (targetRvrNodes s) (targetMtnNodes s)
    (maxAcquireRvr s) (maxAcquireMtn s) n.
Definition set_maxAcquireMtn (n : Z) (s : nodesState) : nodesState :=
  NodesState (currentMtnNodes s) (currentRvrNodes s) (currentPdsNodes s) (targetRvrNodes s) (targetMtnNodes s)
    (maxAcquireRvr s) n (newNodeLookupSec s).
Definition set_maxAcquireRvr (n : Z) (s : nodesState) : nodesState :=
  NodesState (currentMtnNodes s) (currentRvrNodes s) (currentPdsNodes s) (targetRvrNodes s) (targetMtnNodes s)
    n (maxAcquireMtn s) (newNodeLookupSec s).

(** [rand.Intn(2000) + 1000] of a raw random number. *)
Definition random_id (raw : Z) : Z := raw mod 2000 + 1000.

Section setup.
Context (E : env).

(** [readSingleEnvVarInt], for a variable read by [get] and set by [set]. *)
Definition readSingleEnvVarInt (envVar : string) (get : world → Z) (set : Z → world → world) (minVal maxVal : Z) : M () :=
  modify (λ w, set (bounded_setting (getenv E envVar) (get w) minVal maxVal) w).

(** The four settings [main] reads. *)
Definition read_settings : M () :=
  readSingleEnvVarInt "HEARTBEAT_SEND_FREQ_SEC" (heartbeatIntervalSecs ∘ pod)
    (λ n, upd_pod (set_heartbeatIntervalSecs n)) 5 300;;
  readSingleEnvVarInt "NODE_UPDATE_FREQ_SEC" (newNodeLookupSec ∘ nodes)
    (λ n, upd_nodes (set_newNodeLookupSec n)) 10 600;;
  readSingleEnvVarInt "MAX_ACQUIRE_PER_UPDATE_MTN" (maxAcquireMtn ∘ nodes)
    (λ n, upd_nodes (set_maxAcquireMtn n)) 5 2000;;
  readSingleEnvVarInt "MAX_ACQUIRE_PER_UPDATE_RVR" (maxAcquireRvr ∘ nodes)
    (λ n, upd_nodes (set_maxAcquireRvr n)) 5 4000.

(** [setPodName] *)
Definition setPodName : M () :=
  (if decide (getenv E "MY_POD_NAME" = EmptyString) then
     n ← next;
     modify (upd_pod (set_podName ("cray-console-node-" +:+ Itoa (random_id (rand_source E n)))))
   else modify (upd_pod (set_podName (getenv E "MY_POD_NAME"))));;
  name ← gets (podName ∘ pod);
  (if 0 <? slen name then
     let pos := strLastIndex name "-" in
     if 0 <? pos then
       i ← deref "slice bounds out of range" (slice_from name (pos + 1));
       modify (upd_pod (set_podID i))
     else mret ()
   else mret ());;
  modify (upd_tails (set_conAggLogFile (conAggLogFileBase +:+ name +:+ ".log"))).

(** [setPodLocation]: one unit of fuel for each request. *)
Fixpoint setPodLocation {Op : OperatorService} (fuel : nat) : M () :=
  match fuel with
  | O => stuck
  | S f =>
    name ← gets (podName ∘ pod);
    r ← getPodLocation name;
    match r.2 with
    | Some _ => sleep OperatorRetryInterval;; setPodLocation f
    | None => modify (upd_pod (set_podLocData r.1))
    end
  end.

(** The loop of [releaseAllNodes] over one map. *)
Definition stop_group (m : gmap string nodeConsoleInfo) (rn : list nodeConsoleInfo) : M (list nodeConsoleInfo) :=
  l ← goRange E m;
  forEach l.*1 stopTailing;;
  mret (rn ++ l.*2).

(** [releaseAllNodes] *)
Definition releaseAllNodes : M () :=
  w ← gets id;
  rn1 ← stop_group (rvr w) [];
  rn2 ← stop_group (pds w) rn1;
  rn ← stop_group (mtn w) rn2;
  modify (upd_nodes (λ s, set_currentMtnNodes ∅ (set_currentPdsNodes ∅ (set_currentRvrNodes ∅ s))));;
  releaseNodes E rn.

End setup.

(** ** Lemmas *)

Lemma bounded_setting_range v old lo hi :
  lo ≤ hi → lo ≤ old ≤ hi → lo ≤ bounded_setting v old lo hi ≤ hi.
Proof.
  intros H Ho. unfold bounded_setting. case_decide; [done|].
  destruct (Atoi v) as [vi [e|]]; [done|]. case_tests; lia.
Qed.

(** The last occurrence of a byte. *)
Lemma last_nat_byte c a b :
  no_char c b → last_nat (String c EmptyString) (a +:+ String c b) = Some (String.length a).
Proof.
  assert (Hn : ∀ s, no_char c s → last_nat (String c EmptyString) s = None).
  { intros s. induction s as [|x s IH]; [done|]. intros [Hx Hs]. cbn [last_nat]. rewrite IH by done.
    cbn. by destruct (ascii_dec c x). }
  intros Hb. induction a as [|x a IH].
  - rewrite append_nil_l. cbn [last_nat]. rewrite Hn by done. cbn.
    destruct (ascii_dec c c); [by destruct b|done].
  - rewrite append_cons. cbn [last_nat]. by rewrite IH.
Qed.

Lemma slice_from_last s i : slice_from (s +:+ "-" +:+ i) (slen s + 1) = Some i.
Proof.
  replace (slen s + 1) with (slen (s +:+ "-")) by by rewrite slen_append.
  rewrite <- append_assoc. apply slice_from_app.
Qed.

(** Stopping the tails of a list of nodes. *)
Record stopped (xs : list string) (w w' : world) : Prop := {
  st_nodes : nodes w' = nodes w;
  st_tails : tails w' = foldl (λ s x, tail_stopped x s) (tails w) xs;
  st_command : command w' = command w;
  st_creds : creds w' = creds w;
  st_rot : rot w' = rot w;
  st_pod : pod w' = pod w;
  st_fs : fs w' = fs w;
  st_trace : ∃ evs, trace w' = trace w ++ evs ∧ Forall is_cancel evs
}.

Lemma stopped_refl w w' : same_core w w' → trace w' = trace w → stopped [] w w'.
Proof.
  intros C T. split; cbn; rewrite ?(nodes_proper _ _ C), ?(tails_proper _ _ C), ?(command_proper _ _ C),
    ?(creds_proper _ _ C), ?(rot_proper _ _ C), ?(pod_proper _ _ C), ?(fs_proper _ _ C); try done.
  exists []. by rewrite app_nil_r.
Qed.

Lemma stopped_trans xs ys w w1 w2 : stopped xs w w1 → stopped ys w1 w2 → stopped (xs ++ ys) w w2.
Proof.
  intros [] []. split; try congruence.
  - rewrite foldl_app. congruence.
  - destruct st_trace0 as (e1&T1&F1), st_trace1 as (e2&T2&F2). exists (e1 ++ e2).
    rewrite T2, T1, app_assoc. split; [done|by apply Forall_app].
Qed.

Lemma wp_stop_all t xs Q w :
  (∀ w', stopped xs w w' → Q () w') → wp t (forEach xs stopTailing) Q w.
Proof.
  revert w. induction xs as [|x xs IH]; intros w H; cbn [forEach].
  { by apply wp_ret, H, stopped_refl. }
  rewrite wp_bind. apply wp_stopTailing. intros w1 (En&Et&Ec&Ecr&Er&Ep&Ef&Etr). apply IH.
  intros w2 S2. apply H. apply (stopped_trans [x] xs _ w1); [|done]. split; try done.
  exists (stop_events x (tails w)). split; [done|]. unfold stop_events.
  destruct (_ !! _); repeat constructor; by eexists.
Qed.

Lemma wp_stop_group E t m rn Q w :
  (∀ l w', l ≡ₚ map_to_list m → stopped l.*1 w w' → Q (rn ++ l.*2) w') → wp t (stop_group E m rn) Q w.
Proof.
  intros H. unfold stop_group. rewrite wp_bind. apply wp_goRange. intros l _ Hl.
  rewrite wp_bind. apply wp_stop_all. intros w1 S1. apply wp_ret. apply H; [done|].
  refine (stopped_trans [] l.*1 w (next_tick w) w1 _ S1). by apply stopped_refl.
Qed.

(** What giving all nodes back does: the tails [xs] of the nodes [ns] stop,
    leaving [w1], then one request answered by [o]. *)
Definition released (E : env) (w w' : world) (ns : list nodeConsoleInfo) (o : http_outcome) (w1 : world) (xs : list string) : Prop :=
  ns ≡ₚ (all_entries w).*2 ∧ stopped xs w w1 ∧ xs ≡ₚ (all_entries w).*1 ∧
  (∃ n, http_do E n (release_request w ns) = Some o) ∧ trace w' = trace w1 ++ sent o (release_request w ns) ∧
  all_entries w' = [] ∧ tails w' = tails w1 ∧ command w' = command w ∧ pod w' = pod w.

Lemma wp_releaseAllNodes E t Q w :
  (t = true → requests_return E) →
  (∀ w' ns o w1 xs, released E w w' ns o w1 xs → Q () w') → wp t (releaseAllNodes E) Q w.
Proof.
  intros Hrq H. unfold releaseAllNodes. rewrite wp_bind, wp_gets. cbv beta delta [id].
  rewrite wp_bind. apply wp_stop_group. intros lr w1 Hr S1.
  rewrite wp_bind. apply wp_stop_group. intros lp w2 Hp S2.
  rewrite wp_bind. apply wp_stop_group. intros lm w3 Hm S3.
  rewrite wp_bind, wp_modify. apply wp_releaseNodes; [done|]. intros o w5 Eo [C T].
  assert (S : stopped (lr.*1 ++ lp.*1 ++ lm.*1) w w3).
  { eapply stopped_trans; [exact S1|]. by eapply stopped_trans. }
  apply (H w5 (([] ++ lr.*2) ++ lp.*2 ++ lm.*2) o w3 (lr.*1 ++ lp.*1 ++ lm.*1)).
  rewrite <- app_assoc in *. cbn [app] in *.
  match type of Eo with http_do _ _ ?r1 = _ => assert (Er : r1 = release_request w (lr.*2 ++ lp.*2 ++ lm.*2))
    by (unfold release_request, pod_url; cbn; by rewrite (st_pod _ _ _ S)) end.
  rewrite Er in *.
  split; [|split; [exact S|]]; [|split; [|split; [by eexists|split; [|split; [|split]]]]].
  - unfold all_entries. by rewrite !fmap_app, Hr, Hp, Hm.
  - unfold all_entries. by rewrite !fmap_app, Hr, Hp, Hm.
  - by rewrite T.
  - rewrite <- (all_entries_core _ _ C). unfold all_entries, rvr, pds, mtn. cbn. by rewrite map_to_list_empty.
  - by rewrite <- (tails_proper _ _ C).
  - rewrite <- (command_proper _ _ C), <- (pod_proper _ _ C). cbn. split; apply S.
Qed.

(** ** Properties *)

(** C21: shutdown gives every node back: one release request carries each
    watched node exactly once, no group keeps a node, the table of tails is
    empty and every goroutine that read a log has been told to stop (all those
    that were running are among those that still have to notice); and this
    completes if the request returns. *)
Theorem releaseAllNodes_spec (E : env) w :
  requests_return E → pod_inv w →
  ∃ w' ns n o evsC, releaseAllNodes E w = Done () w' ∧
    ns ≡ₚ (all_entries w).*2 ∧ http_do E n (release_request w ns) = Some o ∧
    trace w' = trace w ++ evsC ++ [EvHttp (release_request w ns) (Some o)] ∧ Forall is_cancel evsC ∧
    all_entries w' = [] ∧ tailThreads (tails w') = ∅ ∧
    watchers (tails w') = ∅ ∧ lingering (tails w') = alive (tails w).
Proof.
  intros Hrq Hi.
  assert (H : wp true (releaseAllNodes E) (λ _ w', ∃ ns o w1 xs, released E w w' ns o w1 xs) w).
  { apply wp_releaseAllNodes; [done|]. intros w' ns o w1 xs R. by exists ns, o, w1, xs. }
  apply wp_total_done in H as ([]&w'&H&ns&o&w1&xs&Hns&S&Hxs&[n Ho]&T&Ha&Ht&_).
  destruct (st_trace _ _ _ S) as (evsC&T1&FC). exists w', ns, n, o, evsC.
  split; [done|]. split; [done|]. split; [done|]. split; [by rewrite T, T1, app_assoc|]. split; [done|]. split; [done|].
  destruct (stopped_all xs (tails w) (pi_tails _ Hi)) as [Hok Hd].
  assert (Al : alive (tails w') = alive (tails w)) by by rewrite Ht, (st_tails _ _ _ S), alive_stopped_all.
  rewrite <- Al. rewrite Ht, (st_tails _ _ _ S).
  assert (He : tailThreads (foldl (λ s x, tail_stopped x s) (tails w) xs) = ∅).
  { apply dom_empty_inv_L. rewrite Hd. pose proof (pi_sub _ Hi) as Hs. rewrite all_names_entries in Hs.
    rewrite (list_to_set_perm_L _ _ Hxs). set_solver. }
  split; [done|]. pose proof (no_entries_no_watchers _ Hok He) as Hw. split; [done|].
  unfold alive. rewrite Hw. by rewrite (left_id_L ∅ (∪)).
Qed.

(** Settings from the environment stay in their bounds, and a value that is
    not a number leaves the default. *)
Theorem read_settings_bounds (E : env) w :
  5 ≤ heartbeatIntervalSecs (pod w) ≤ 300 → 10 ≤ newNodeLookupSec (nodes w) ≤ 600 →
  5 ≤ maxAcquireMtn (nodes w) ≤ 2000 → 5 ≤ maxAcquireRvr (nodes w) ≤ 4000 →
  ∃ w', read_settings E w = Done () w' ∧
    5 ≤ heartbeatIntervalSecs (pod w') ≤ 300 ∧ 10 ≤ newNodeLookupSec (nodes w') ≤ 600 ∧
    5 ≤ maxAcquireMtn (nodes w') ≤ 2000 ∧ 5 ≤ maxAcquireRvr (nodes w') ≤ 4000 ∧
    (∀ n, 5 ≤ n ≤ 300 → getenv E "HEARTBEAT_SEND_FREQ_SEC" = Itoa n → heartbeatIntervalSecs (pod w') = n) ∧
    all_entries w' = all_entries w.
Proof.
  intros H1 H2 H3 H4. eexists. split; [reflexivity|].
  split; [by apply bounded_setting_range|]. split; [by apply bounded_setting_range|].
  split; [by apply bounded_setting_range|]. split; [by apply bounded_setting_range|].
  split; [|done]. intros n Hn He. cbn. unfold bounded_setting. rewrite He.
  rewrite Atoi_Itoa_roundtrip by (unfold in_i64, minInt64, maxInt64; lia).
  case_decide as Hd; [|by rewrite (proj2 (Z.ltb_ge n 5)), (proj2 (Z.ltb_ge 300 n)) by lia].
  pose proof (Atoi_Itoa_roundtrip n ltac:(unfold in_i64, minInt64, maxInt64; lia)) as Hr. by rewrite Hd in Hr.
Qed.

(** The pod id is what follows the last dash of the pod name, for a stateful
    set and for a deployment alike, and the aggregation log is named after the
    pod. *)
Theorem setPodName_id (E : env) w pre i :
  getenv E "MY_POD_NAME" = pre +:+ "-" +:+ i → pre ≠ EmptyString → no_char "-"%char i →
  ∃ w', setPodName E w = Done () w' ∧ podName (pod w') = pre +:+ "-" +:+ i ∧ podID (pod w') = i ∧
    conAggLogFile (tails w') = conAggLogFileBase +:+ (pre +:+ "-" +:+ i) +:+ ".log".
Proof.
  intros He Hp Hi. unfold setPodName, mbind, M_bind, mret, M_ret, modify, gets, compose. rewrite He.
  assert (Hs : 0 < slen pre) by (destruct pre; [done|]; unfold slen; cbn; lia).
  case_decide as Hd.
  { apply (f_equal slen) in Hd. rewrite !slen_append in Hd. pose proof (slen_nonneg i).
    change (slen "-") with 1 in Hd. change (slen EmptyString) with 0 in Hd. lia. }
  cbn [podName pod upd_pod set_podName].
  assert (Hl : (0 <? slen (pre +:+ "-" +:+ i)) = true).
  { apply Z.ltb_lt. rewrite !slen_append. pose proof (slen_nonneg i). change (slen "-") with 1. lia. }
  rewrite Hl. unfold strLastIndex. change ("-" +:+ i) with (String "-"%char i).
  rewrite last_nat_byte by done. fold (slen pre).
  rewrite (proj2 (Z.ltb_lt _ _) Hs). unfold deref.
  change (String "-"%char i) with ("-" +:+ i). rewrite slice_from_last. by eexists.
Qed.

(** One exchange of [setPodLocation]. *)
Definition location_request (om : OperatorManager) (w : world) : http_request :=
  get_request (operatorAddrBase om +:+ "/location/" +:+ podName (pod w)).
Definition location_answer (o : http_outcome) : option PodLocationDataResponse * option string :=
  decode_answer podLocation_fields podLocation_zero "failed to getPodLocation" (http_result o).

(** C39: asking for the pod's location goes on until the operator answers, with
    the retry interval between requests: when the first [k] requests fail and
    the next succeeds, [k + 1] rounds are enough and exactly these exchanges
    and pauses happen. *)
Theorem setPodLocation_retries (E : env) om k ans loc w :
  let rq := location_request om w in
  (∀ j, (j < k)%nat → http_do E (tick w + j) rq = Some (ans j) ∧ (location_answer (ans j)).2 ≠ None) →
  http_do E (tick w + k) rq = Some (ans k) → location_answer (ans k) = (loc, None) →
  ∃ w', @setPodLocation (OperatorManager_service E om) (S k) w = Done () w' ∧
    podLocData (pod w') = loc ∧
    trace w' = trace w ++
      concat (map (λ j, sent (ans j) rq ++ [EvSleep (operatorRetryInterval om)]) (seq 0 k)) ++ sent (ans k) rq.
Proof.
  intros rq Hf Hk Hs. set (Op := OperatorManager_service E om).
  assert (Step : ∀ w0 o Q, podName (pod w0) = podName (pod w) → http_do E (tick w0) rq = Some o →
    (∀ w1, io (sent o rq) w0 w1 → tick w1 = S (tick w0) → Q (location_answer o) w1) →
    wp true (om_getPodLocation E om (podName (pod w0))) Q w0).
  { intros w0 o Q En Eo H. rewrite En. unfold om_getPodLocation. rewrite wp_bind.
    unfold getURL, header_list, do_request. wp_pure. change (HttpRequest _ _ _ _) with rq.
    rewrite Eo. wp_pure. by apply H. }
  assert (Gen : ∀ j w0, (j ≤ k)%nat → podName (pod w0) = podName (pod w) → tick w0 = (tick w + (k - j))%nat →
    wp true (@setPodLocation Op (S j)) (λ _ w', podLocData (pod w') = loc ∧
      trace w' = trace w0 ++
        concat (map (λ i, sent (ans i) rq ++ [EvSleep (operatorRetryInterval om)]) (seq (k - j) j)) ++
        sent (ans k) rq) w0).
  { intros j. induction j as [|j IH]; intros w0 Hj En Et; cbn [setPodLocation]; rewrite wp_bind, wp_gets, wp_bind.
    - rewrite Nat.sub_0_r in Et. apply (Step w0 (ans k)); [done|by rewrite Et|]. intros w1 [C1 T1] _.
      rewrite Hs. cbn [snd fst]. rewrite wp_modify. split; [done|]. cbn [concat map seq app]. by rewrite <- T1.
    - destruct (Hf (k - S j)%nat ltac:(lia)) as [Ho Ha].
      apply (Step w0 (ans (k - S j)%nat)); [done|by rewrite Et|]. intros w1 [C1 T1] E1.
      destruct (location_answer (ans (k - S j)%nat)) as [r [err|]]; [|by destruct Ha]. cbn [snd].
      rewrite wp_bind, wp_sleep. set (w2 := add_event _ w1).
      eapply wp_mono; [apply (IH w2); [lia| |]|].
      + change (podName (pod w1) = podName (pod w)). by rewrite <- (pod_proper _ _ C1).
      + change (tick w1 = (tick w + (k - j))%nat). lia.
      + intros [] w' [Hl T]. split; [done|]. rewrite T. change (trace w2) with (trace w1 ++ [EvSleep (operatorRetryInterval om)]).
        replace (k - j)%nat with (S (k - S j)) by lia. cbn [seq map concat].
        by rewrite T1, <- !app_assoc. }
  pose proof (Gen k w ltac:(lia) eq_refl ltac:(lia)) as H.
  apply wp_total_done in H as ([]&w'&H&Hl&T). rewrite Nat.sub_diag in T. eauto.
Qed.

(** ** Witnesses *)

(** A pod with two nodes, the log of one of them read by a goroutine. *)
Lemma releaseAllNodes_spec_witness :
  ∃ w' ns n o evsC, releaseAllNodes quiet_env beating_world = Done () w' ∧
    ns ≡ₚ (all_entries beating_world).*2 ∧ http_do quiet_env n (release_request beating_world ns) = Some o ∧
    trace w' = [] ++ evsC ++ [EvHttp (release_request beating_world ns) (Some o)] ∧ Forall is_cancel evsC ∧
    all_entries w' = [] ∧ tailThreads (tails w') = ∅ ∧
    watchers (tails w') = ∅ ∧ lingering (tails w') = alive (tails beating_world).
Proof. exact (releaseAllNodes_spec quiet_env beating_world (env_http_returns _) beating_inv). Defined.

(** The goroutine is told to stop and has not noticed yet. *)
Example releaseAllNodes_lingers :
  match releaseAllNodes quiet_env beating_world with
  | Done _ w' => bool_decide (lingering (tails w') = {[0%nat := "x2000"%string]}) = true
  | _ => False
  end.
Proof. by vm_compute. Qed.

(** An operator that is busy at first. *)
Definition settings_answer (n : nat) : http_outcome :=
  if decide (n < 2)%nat then Response 503 "busy"
  else Response 200 (qs "{'podname':'cray-console-node-7','xname':'x3000c0s1b0n0','alias':'ncn-w001'}").

(** An environment with settings. *)
Definition settings_env : env := {|
  getenv := λ v, if decide (v = "HEARTBEAT_SEND_FREQ_SEC"%string) then "60" else
                 if decide (v = "MY_POD_NAME"%string) then "cray-console-node-7" else "10000";
  http_do := λ n rq, Some (settings_answer n);
  map_range := λ _ V m, map_to_list m;
  map_range_perm := λ _ V m, Permutation_refl (map_to_list m);
  fs_fault := λ _ _ _, None; read_limit := λ _ _, None; umask := 18; clock := λ _, EmptyString;
  zone_lookup := λ _, (0, - 2 ^ 62, 2 ^ 62);
  rand_source := λ _, 0; vault_adapter := λ _, None; vault_creds := λ _ _, inl ∅; gjson_get := λ _ _, EmptyString;
  run_cmd := λ _ _, RunOutcome (Some 0) EmptyString ∅
|}.

Lemma read_settings_bounds_witness :
  ∃ w', read_settings settings_env small_world = Done () w' ∧
    5 ≤ heartbeatIntervalSecs (pod w') ≤ 300 ∧ 10 ≤ newNodeLookupSec (nodes w') ≤ 600 ∧
    5 ≤ maxAcquireMtn (nodes w') ≤ 2000 ∧ 5 ≤ maxAcquireRvr (nodes w') ≤ 4000 ∧
    (∀ n, 5 ≤ n ≤ 300 → getenv settings_env "HEARTBEAT_SEND_FREQ_SEC" = Itoa n → heartbeatIntervalSecs (pod w') = n) ∧
    all_entries w' = all_entries small_world.
Proof. apply read_settings_bounds; done. Defined.

Lemma setPodName_id_witness :
  ∃ w', setPodName settings_env small_world = Done () w' ∧ podName (pod w') = "cray-console-node-7" ∧
    podID (pod w') = "7" ∧
    conAggLogFile (tails w') = "/tmp/consoleAgg/consoleAgg-cray-console-node-7.log".
Proof.
  exact (setPodName_id settings_env small_world "cray-console-node" "7" eq_refl ltac:(done)
    ltac:(cbn; repeat split; discriminate)).
Defined.

Lemma setPodLocation_retries_witness :
  let rq := location_request NewOperatorService small_world in
  ∃ w', @setPodLocation (demo_operator settings_env) 3 small_world = Done () w' ∧
    podLocData (pod w') = Some (PodLoc "cray-console-node-7" "ncn-w001" "x3000c0s1b0n0") ∧
    trace w' = [] ++ [EvHttp rq (Some (settings_answer 0)); EvSleep (30 * second);
      EvHttp rq (Some (settings_answer 1)); EvSleep (30 * second)] ++ [EvHttp rq (Some (settings_answer 2))].
Proof.
  apply (setPodLocation_retries settings_env NewOperatorService 2 settings_answer
    (Some (PodLoc "cray-console-node-7" "ncn-w001" "x3000c0s1b0n0")) small_world).
  - intros [|[|j]] Hj; [by vm_compute|by vm_compute|lia].
  - by vm_compute.
  - by vm_compute.
Defined.
