(* ===== verification/Sha256.v ===== *)
(** * SHA-256: package crypto/sha256

    The hash that src/src/console_node/creds.go ([hashString]) compares keys
    by: FIPS 180-4 over 32-bit words, written as functions on Z. *)

From S2P Require Import Prelude GoStrings.
From Stdlib Require Import ZArith Lia Ascii String.
From stdpp Require Import base numbers strings list.

Local Open Scope Z_scope.

Definition w32 (z : Z) : Z := z mod 2 ^ 32.

Definition rotr (n x : Z) : Z := Z.lor (Z.shiftr x n) (w32 (Z.shiftl x (32 - n))).

Definition lxor3 (a b c : Z) : Z := Z.lxor (Z.lxor a b) c.

Definition Sigma0 (x : Z) : Z := lxor3 (rotr 2 x) (rotr 13 x) (rotr 22 x).
Definition Sigma1 (x : Z) : Z := lxor3 (rotr 6 x) (rotr 11 x) (rotr 25 x).
Definition sigma0 (x : Z) : Z := lxor3 (rotr 7 x) (rotr 18 x) (Z.shiftr x 3).
Definition sigma1 (x : Z) : Z := lxor3 (rotr 17 x) (rotr 19 x) (Z.shiftr x 10).
Definition Ch (x y z : Z) : Z := Z.lxor (Z.land x y) (Z.land (Z.lxor x (2 ^ 32 - 1)) z).
Definition Maj (x y z : Z) : Z := lxor3 (Z.land x y) (Z.land x z) (Z.land y z).

(** The constants of FIPS 180-4 by their definition: the first 32 bits of the
    fractional parts of the cube roots, and of the square roots, of the first
    primes. *)
Definition isPrime (n : Z) : bool :=
  forallb (λ d, negb (n mod (Z.of_nat d + 2) =? 0)) (seq 0 (Z.to_nat (Z.sqrt n) - 1)).

Definition primes (k : nat) : list Z := take k (filter isPrime (map (λ n, Z.of_nat n + 2) (seq 0 320))).

(** The largest number with [bits] bits whose cube is at most [n]. *)
Fixpoint cube_root (bits : nat) (n : Z) : Z :=
  match bits with
  | O => 0
  | S b => let r := 2 * cube_root b (n / 8) in if (r + 1) ^ 3 <=? n then r + 1 else r
  end.

Definition sha_K : list Z := Eval vm_compute in map (λ p, w32 (cube_root 40 (p * 2 ^ 96))) (primes 64).

Definition sha_init : list Z := Eval vm_compute in map (λ p, w32 (Z.sqrt (p * 2 ^ 64))) (primes 8).

(** The message as bytes, padded to a multiple of 64. *)
Definition bytes_of (s : string) : list Z := map code (String.list_ascii_of_string s).

Definition be_bytes (n : nat) (z : Z) : list Z :=
  map (λ i, Z.shiftr z (8 * (Z.of_nat n - 1 - Z.of_nat i)) mod 256) (seq 0 n).

Definition pad (m : list Z) : list Z :=
  let len := Z.of_nat (length m) in
  m ++ [128] ++ repeat 0 (Z.to_nat ((55 - len) mod 64)) ++ be_bytes 8 (len * 8).

(** Big-endian words. *)
Fixpoint words (l : list Z) : list Z :=
  match l with
  | a :: b :: c :: d :: l' => (((a * 256 + b) * 256 + c) * 256 + d) :: words l'
  | _ => []
  end.

(** The message schedule, latest word first: 16 words, then [n] more. *)
Fixpoint schedule (n : nat) (rev_w : list Z) : list Z :=
  match n with
  | O => rev_w
  | S n' =>
    let x i := default 0 (rev_w !! i) in
    schedule n' (w32 (sigma1 (x 1%nat) + x 6%nat + sigma0 (x 14%nat) + x 15%nat) :: rev_w)
  end.

Definition sha_round (st : list Z) (kw : Z * Z) : list Z :=
  match st with
  | [a; b; c; d; e; f; g; h] =>
    let t1 := h + Sigma1 e + Ch e f g + kw.1 + kw.2 in
    let t2 := Sigma0 a + Maj a b c in
    [w32 (t1 + t2); a; b; c; w32 (d + t1); e; f; g]
  | _ => st
  end.

Definition sha_block (st : list Z) (block : list Z) : list Z :=
  let w := rev (schedule 48 (rev (words block))) in
  zip_with (λ x y, w32 (x + y)) st (foldl sha_round st (zip sha_K w)).

Fixpoint sha_blocks (fuel : nat) (st m : list Z) : list Z :=
  match fuel, m with
  | S f, _ :: _ => sha_blocks f (sha_block st (take 64 m)) (drop 64 m)
  | _, _ => st
  end.

(** [hashString]: [hasher.Write] never returns an error. *)
Definition hashString (s : string) : list Z :=
  let m := pad (bytes_of s) in
  flat_map (be_bytes 4) (sha_blocks (length m) sha_init m).

(** ** The message is padded to whole blocks *)

Lemma length_be_bytes n z : length (be_bytes n z) = n.
Proof. unfold be_bytes. by rewrite length_map, length_seq. Qed.

Lemma pad_blocks m : exists k, (length (pad m) = 64 * k)%nat /\ (0 < k)%nat.
Proof.
  unfold pad. rewrite !length_app, repeat_length, length_be_bytes. cbn [length].
  pose proof (Z.mod_pos_bound (55 - Z.of_nat (length m)) 64 ltac:(lia)) as Hb.
  pose proof (Z.div_mod (55 - Z.of_nat (length m)) 64 ltac:(lia)) as Hd.
  set (q := (55 - Z.of_nat (length m)) / 64) in *. set (r := (55 - Z.of_nat (length m)) mod 64) in *.
  exists (Z.to_nat (1 - q)). lia.
Qed.

Lemma length_sha_round st kw : length st = 8%nat -> length (sha_round st kw) = 8%nat.
Proof. by do 9 (destruct st as [|? st]; try done). Qed.

Lemma length_sha_block st b : length st = 8%nat -> length (sha_block st b) = 8%nat.
Proof.
  intros H. unfold sha_block. rewrite length_zip_with, H.
  assert (G : forall l s, length s = 8%nat -> length (foldl sha_round s l) = 8%nat).
  { intros l. induction l as [|x l IH]; [done|]. intros s Hs. cbn. by apply IH, length_sha_round. }
  by rewrite G.
Qed.

(** A hash has 32 bytes. *)
Lemma length_hashString s : length (hashString s) = 32%nat.
Proof.
  unfold hashString. set (m := pad _).
  assert (G : forall f st l, length st = 8%nat -> length (sha_blocks f st l) = 8%nat).
  { intros f. induction f as [|f IH]; intros st l H; [done|]. destruct l; [done|].
    cbn [sha_blocks]. by apply IH, length_sha_block. }
  specialize (G (length m) sha_init m eq_refl). revert G. generalize (sha_blocks (length m) sha_init m).
  intros l. do 9 (destruct l as [|? l]; try done).
Qed.

(** The test vectors of FIPS 180-4: one block, and two. *)
Definition hex_of (l : list Z) : string :=
  foldr (λ b s, let h d := ascii_of_N (Z.to_N (if d <? 10 then 48 + d else 87 + d)) in
    String (h (b / 16)) (String (h (b mod 16)) s)) EmptyString l.

Example sha256_abc :
  hex_of (hashString "abc") = "ba7816bf8f01cfea414140de5dae2223b00361a396177a9cb410ff61f20015ad"%string.
Proof. vm_compute. reflexivity. Qed.

Example sha256_empty :
  hex_of (hashString "") = "e3b0c44298fc1c149afbf4c8996fb92427ae41e4649b934ca495991b7852b855"%string.
Proof. vm_compute. reflexivity. Qed.

Example sha256_two_blocks :
  hex_of (hashString "abcdbcdecdefdefgefghfghighijhijkijkljklmklmnlmnomnopnopq") =
  "248d6a61d20638b8e5c026930c3e6039a33ce45964ff2167f6ecedd419db06c1"%string.
Proof. vm_compute. reflexivity. Qed.
