(* ===== verification/GoTime.v ===== *)
(** * Dates: package time, and scanning them with package fmt

    [time.Date] (Go 1.23) in machine arithmetic, and the integer verb of
    [fmt.Sscanf], as src/src/console_node/logRotation.go uses them on the time
    stamps of logrotate's state file. *)

From S2P Require Import Prelude GoStrings World.
From Stdlib Require Import ZArith Lia Ascii.
From stdpp Require Import base numbers strings gmap list.

Local Open Scope Z_scope.
Local Open Scope go_scope.

(** ** [time.Date] *)

Definition u64 (z : Z) : Z := z mod 2 ^ 64.

(** [norm]: [lo] brought into [0, base), the rest carried to [hi]. *)
Definition norm (hi lo base : Z) : Z * Z :=
  let '(hi, lo) :=
    if lo <? 0 then
      let n := i64 (Z.quot (i64 (- lo -i 1)) base + 1) in (hi -i n, lo +i (i64 (n * base)))
    else (hi, lo) in
  if base <=? lo then
    let n := Z.quot lo base in (hi +i n, lo -i (i64 (n * base)))
  else (hi, lo).

Definition isLeap (year : Z) : bool :=
  (Z.rem year 4 =? 0) && (negb (Z.rem year 100 =? 0) || (Z.rem year 400 =? 0)).

Definition absoluteZeroYear : Z := -292277022399.
Definition absoluteToUnix : Z := -9223372028715321600.

(** [daysSinceEpoch] *)
Definition daysSinceEpoch (year : Z) : Z :=
  let y := u64 (year -i absoluteZeroYear) in
  let n400 := y / 400 in let y := y - 400 * n400 in
  let n100 := y / 100 in let y := y - 100 * n100 in
  let n4 := y / 4 in let y := y - 4 * n4 in
  u64 (146097 * n400 + 36524 * n100 + 1461 * n4 + 365 * y).

(** [daysBefore]: days before a month, counted from 0, in a common year. *)
Definition daysBefore (m : Z) : Z :=
  if m =? 0 then 0 else if m =? 1 then 31 else if m =? 2 then 59 else if m =? 3 then 90
  else if m =? 4 then 120 else if m =? 5 then 151 else if m =? 6 then 181 else if m =? 7 then 212
  else if m =? 8 then 243 else if m =? 9 then 273 else if m =? 10 then 304 else 334.

(** The instant, in Unix seconds, of a civil time in a zone described by its
    lookup function. *)
Definition time_Date (lookup : Z → Z * Z * Z) (year month day hour min sec : Z) : Z :=
  let '(year, m) := norm year (month -i 1) 12 in
  let '(min, sec) := norm min sec 60 in
  let '(hour, min) := norm hour min 60 in
  let '(day, hour) := norm day hour 24 in
  let d := u64 (daysSinceEpoch year + daysBefore m) in
  let d := if isLeap year && (2 <=? m) then u64 (d + 1) else d in
  let d := u64 (d + u64 (day -i 1)) in
  let abs := u64 (u64 (d * 86400) + u64 (i64 (i64 (hour * 3600) + i64 (min * 60)) +i sec)) in
  let unix := i64 (i64 abs + absoluteToUnix) in
  let '(offset, start, fin) := lookup unix in
  if offset =? 0 then unix else
  let utc := unix -i offset in
  let offset := if (utc <? start) || (fin <=? utc) then (lookup utc).1.1 else offset in
  unix -i offset.

(** ** [fmt.Sscanf] *)

(** Spaces before a number; a newline there is an error. *)
Fixpoint skip_space (skip : nat) (s : string) : option string :=
  match s with
  | EmptyString => Some EmptyString
  | String a r =>
    match skip with
    | S k => skip_space k r
    | O =>
      if Ascii.eqb a nl then None else
      match space_width s with
      | O => Some s
      | S k => skip_space k r
      end
    end
  end.

(** The digits at the head. *)
Fixpoint scan_digits (s : string) : string * string :=
  match s with
  | String a r =>
    match digit_val a with
    | Some _ => let '(d, r') := scan_digits r in (String a d, r')
    | None => (EmptyString, s)
    end
  | EmptyString => (EmptyString, EmptyString)
  end.

(** The verb %d. *)
Definition scan_int (s : string) : option (Z * string) :=
  s ← skip_space 0 s;
  let '(sg, s1) := match s with
    | String a r => if Ascii.eqb a GoStrings.minus || Ascii.eqb a GoStrings.plus then (String a EmptyString, r) else (EmptyString, s)
    | EmptyString => (EmptyString, EmptyString)
    end in
  match scan_digits s1 with
  | (EmptyString, _) => None
  | (d, r) =>
    match ParseInt (sg +:+ d) with
    | (n, None) => Some (n, r)
    | _ => None
    end
  end.

(** A literal byte of the format. *)
Definition scan_byte (c : ascii) (s : string) : option string :=
  match s with
  | String a r => if Ascii.eqb a c then Some r else None
  | EmptyString => None
  end.

Record civil := Civil { c_year : Z; c_month : Z; c_day : Z; c_hour : Z; c_min : Z; c_sec : Z }.

(** [Sscanf(str, "%d-%d-%d-%d:%d:%d", ...)]: what follows the last number does
    not matter. *)
Definition scan_timestamp (str : string) : option civil :=
  '(year, s) ← scan_int str; s ← scan_byte "-"%char s;
  '(month, s) ← scan_int s; s ← scan_byte "-"%char s;
  '(day, s) ← scan_int s; s ← scan_byte "-"%char s;
  '(hour, s) ← scan_int s; s ← scan_byte ":"%char s;
  '(min, s) ← scan_int s; s ← scan_byte ":"%char s;
  '(sec, _) ← scan_int s;
  Some (Civil year month day hour min sec).

(** How logrotate writes a time stamp. *)
Definition print_timestamp (c : civil) : string :=
  Itoa (c_year c) +:+ "-" +:+ Itoa (c_month c) +:+ "-" +:+ Itoa (c_day c) +:+ "-" +:+ Itoa (c_hour c) +:+ ":" +:+
  Itoa (c_min c) +:+ ":" +:+ Itoa (c_sec c).

Definition civil_date (lookup : Z → Z * Z * Z) (c : civil) : Z :=
  time_Date lookup (c_year c) (c_month c) (c_day c) (c_hour c) (c_min c) (c_sec c).

(** 2024-02-29 12:34:56 UTC, a leap day, and its normalisations. *)
Definition utc : Z → Z * Z * Z := λ _, (0, - 2 ^ 63, 2 ^ 63).
Example date_1 : time_Date utc 2024 2 29 12 34 56 = 1709210096. Proof. by vm_compute. Qed.
Example date_2 : time_Date utc 2023 14 29 12 34 56 = 1709210096. Proof. by vm_compute. Qed.
Example date_3 : time_Date utc 2024 3 0 11 93 116 = 1709210096. Proof. by vm_compute. Qed.
Example date_4 : time_Date utc 1970 1 1 0 0 0 = 0. Proof. by vm_compute. Qed.
Example date_5 : time_Date (λ _, (-21600, - 2 ^ 63, 2 ^ 63)) 2024 2 29 6 34 56 = 1709210096. Proof. by vm_compute. Qed.
Example scan_1 : scan_timestamp (" 2024-2-29-12: 34:+56" +:+ String nl EmptyString) = Some (Civil 2024 2 29 12 34 56).
Proof. by vm_compute. Qed.
Example scan_2 : scan_timestamp "2024-2-29" = None. Proof. by vm_compute. Qed.

(** ** Lemmas *)

(** *** Scanning what was printed *)

Definition not_digit (s : string) : Prop :=
  match s with String a _ => digit_val a = None | EmptyString => True end.

Lemma scan_digits_char d s : 0 <= d < 10 ->
  scan_digits (String (digit_char d) s) = (let '(x, r) := scan_digits s in (String (digit_char d) x, r)).
Proof. intros H. cbn [scan_digits]. by rewrite digit_val_char. Qed.

Lemma scan_digits_none s : not_digit s -> scan_digits s = (EmptyString, s).
Proof. destruct s; [done|]. cbn. by intros ->. Qed.

Lemma scan_digits_utoa fuel n acc s :
  0 <= n -> not_digit s ->
  scan_digits (acc +:+ s) = (acc, s) ->
  scan_digits (utoa fuel n acc +:+ s) = (utoa fuel n acc, s).
Proof.
  intros Hn Hs. revert n acc Hn. induction fuel as [|f IH]; intros n acc Hn Ha; cbn [utoa].
  - rewrite append_cons, scan_digits_char, Ha by (apply Z.mod_pos_bound; lia). done.
  - assert (Hstep : scan_digits (String (digit_char (n mod 10)) acc +:+ s) = (String (digit_char (n mod 10)) acc, s)).
    { rewrite append_cons, scan_digits_char, Ha by (apply Z.mod_pos_bound; lia). done. }
    destruct (n <? 10); [done|]. apply IH; [apply Z.div_pos; lia|done].
Qed.

Lemma space_width_char a s : 33 <= code a < 128 -> space_width (String a s) = O.
Proof.
  intros H. unfold space_width.
  destruct (Z.leb_spec 9 (code a)); [|lia]. destruct (Z.leb_spec (code a) 13); [lia|].
  destruct (Z.eqb_spec (code a) 32); [lia|]. cbn [andb orb].
  destruct (Z.eqb_spec (code a) 194), (Z.eqb_spec (code a) 225), (Z.eqb_spec (code a) 226),
    (Z.eqb_spec (code a) 227); try lia. by destruct s as [|? []].
Qed.

Lemma skip_space_char a s : 33 <= code a < 128 -> skip_space 0 (String a s) = Some (String a s).
Proof.
  intros H. cbn [skip_space]. destruct (Ascii.eqb_spec a nl) as [->|_]; [by change (code nl) with 10 in H; lia|].
  by rewrite space_width_char.
Qed.

Lemma Itoa_head n : in_i64 n -> exists a s, Itoa n = String a s /\ 45 <= code a < 58.
Proof.
  intros H. unfold Itoa. destruct (n <? 0) eqn:E; zbool.
  - do 2 eexists. split; [done|]. change (code GoStrings.minus) with 45. lia.
  - destruct (utoa_cons 20 n EmptyString) as (d&s&->&Hd); [lia|]. exists (digit_char d), s.
    split; [done|]. rewrite code_digit_char by lia. lia.
Qed.

(** The number that was printed is scanned back, up to a byte that is not a
    digit. *)
Lemma scan_int_Itoa n s : in_i64 n -> not_digit s -> scan_int (Itoa n +:+ s) = Some (n, s).
Proof.
  intros Hn Hs. destruct (Itoa_head n Hn) as (a&r&Ha&Hc).
  unfold scan_int. rewrite Ha, append_cons, skip_space_char by lia. cbn [mbind option_bind].
  pose proof (Atoi_Itoa_roundtrip n Hn) as Hr. unfold Atoi in Hr.
  unfold Itoa in *. destruct (n <? 0) eqn:E; zbool.
  - assert (Hb : utoa 20 (- n) EmptyString = r) by congruence.
    assert (a = GoStrings.minus) as -> by congruence. rewrite (Ascii.eqb_refl GoStrings.minus). cbn [orb]. cbv beta iota.
    rewrite <- Hb, scan_digits_utoa; [|lia|done|rewrite append_nil_l; by apply scan_digits_none].
    destruct (utoa_cons 20 (- n) EmptyString) as (d&t&Et&_); [lia|]. rewrite Et in *.
    by rewrite append_cons, append_nil_l, Hr.
  - destruct (utoa_cons 20 n EmptyString) as (d&t&Et&Hd); [lia|].
    assert (Hna : Ascii.eqb a GoStrings.minus || Ascii.eqb a GoStrings.plus = false).
    { rewrite Et in Ha. injection Ha as <- _. pose proof (code_digit_char d Hd) as Hcd.
      apply orb_false_iff. split; apply Ascii.eqb_neq; intros Eq; rewrite Eq in Hcd;
        [change (code GoStrings.minus) with 45 in Hcd|change (code GoStrings.plus) with 43 in Hcd]; lia. }
    rewrite Hna. cbv beta iota. rewrite <- append_cons, <- Ha.
    rewrite scan_digits_utoa; [|lia|done|rewrite append_nil_l; by apply scan_digits_none].
    rewrite Et in *. by rewrite append_nil_l, Hr.
Qed.

Definition civil_in_i64 (c : civil) : Prop :=
  in_i64 (c_year c) /\ in_i64 (c_month c) /\ in_i64 (c_day c) /\ in_i64 (c_hour c) /\ in_i64 (c_min c) /\
  in_i64 (c_sec c).

Lemma scan_byte_eq c s : scan_byte c (String c s) = Some s.
Proof. cbn. by rewrite Ascii.eqb_refl. Qed.

Lemma scan_print_timestamp c s :
  civil_in_i64 c -> not_digit s -> scan_timestamp (print_timestamp c +:+ s) = Some c.
Proof.
  intros (H1&H2&H3&H4&H5&H6) Hs. unfold print_timestamp, scan_timestamp.
  rewrite !append_assoc.
  rewrite scan_int_Itoa by done. cbn [mbind option_bind]. rewrite append_cons, append_nil_l, scan_byte_eq. cbn [mbind option_bind].
  rewrite scan_int_Itoa by done. cbn [mbind option_bind]. rewrite append_cons, append_nil_l, scan_byte_eq. cbn [mbind option_bind].
  rewrite scan_int_Itoa by done. cbn [mbind option_bind]. rewrite append_cons, append_nil_l, scan_byte_eq. cbn [mbind option_bind].
  rewrite scan_int_Itoa by done. cbn [mbind option_bind]. rewrite append_cons, append_nil_l, scan_byte_eq. cbn [mbind option_bind].
  rewrite scan_int_Itoa by done. cbn [mbind option_bind]. rewrite append_cons, append_nil_l, scan_byte_eq. cbn [mbind option_bind].
  rewrite scan_int_Itoa by done. by destruct c.
Qed.

(** The lookup function is only applied. *)
Lemma civil_date_ext l1 l2 c : (forall u, l1 u = l2 u) -> civil_date l1 c = civil_date l2 c.
Proof.
  intros H. unfold civil_date, time_Date.
  destruct (norm (c_year c) _ 12) as [y m]. destruct (norm (c_min c) (c_sec c) 60) as [mi s].
  destruct (norm (c_hour c) mi 60) as [h mi']. destruct (norm (c_day c) h 24) as [d h']. cbv zeta.
  match goal with |- context [l1 ?u] => rewrite (H u); destruct (l2 u) as [[off a] b] end.
  destruct (off =? 0); [done|]. by rewrite H.
Qed.

(** *** Different times of day on real dates are different instants *)

Definition leap_day (y : Z) : Z := if isLeap y then 1 else 0.

Definition month_days (y m : Z) : Z :=
  if m =? 2 then 28 + leap_day y
  else if (m =? 4) || (m =? 6) || (m =? 9) || (m =? 11) then 30 else 31.

(** A date of the calendar and a time of day. *)
Definition valid_civil (c : civil) : Prop :=
  1 <= c_year c <= 9999 /\ 1 <= c_month c <= 12 /\ 1 <= c_day c <= month_days (c_year c) (c_month c) /\
  0 <= c_hour c < 24 /\ 0 <= c_min c < 60 /\ 0 <= c_sec c < 60.

(** Days before a year, from its number: the Gregorian rule. *)
Definition year_days (y : Z) : Z :=
  let y' := y - absoluteZeroYear in 365 * y' + y' / 4 - y' / 100 + y' / 400.

Lemma norm_small hi lo base : 0 <= lo < base -> norm hi lo base = (hi, lo).
Proof.
  intros H. unfold norm. rewrite (proj2 (Z.ltb_ge lo 0)) by lia. by rewrite (proj2 (Z.leb_gt base lo)) by lia.
Qed.

Lemma u64_small z : 0 <= z < 2 ^ 64 -> u64 z = z.
Proof. intros H. by apply Z.mod_small. Qed.

Lemma year_days_bounds y : 1 <= y <= 10000 -> 106751990353932 <= year_days y <= 106751990353932 + 366 * y.
Proof. unfold year_days, absoluteZeroYear. intros H. Z.to_euclidean_division_equations. lia. Qed.

Lemma daysSinceEpoch_eq y : 1 <= y <= 9999 -> daysSinceEpoch y = year_days y.
Proof.
  intros H. pose proof (year_days_bounds y ltac:(lia)) as Hb. unfold daysSinceEpoch.
  rewrite i64_small by (unfold in_i64, minInt64, maxInt64, absoluteZeroYear; lia).
  rewrite (u64_small (y - absoluteZeroYear)) by (unfold absoluteZeroYear; lia).
  cbv zeta. rewrite u64_small; unfold year_days, absoluteZeroYear in *; Z.to_euclidean_division_equations; lia.
Qed.

Lemma isLeap_spec y : 1 <= y -> isLeap y = true <-> y mod 4 = 0 /\ (y mod 100 <> 0 \/ y mod 400 = 0).
Proof.
  intros H. unfold isLeap. rewrite !Z.rem_mod_nonneg by lia.
  rewrite andb_true_iff, orb_true_iff, negb_true_iff, !Z.eqb_eq, Z.eqb_neq. done.
Qed.

Lemma year_days_succ y : 1 <= y <= 9999 -> year_days (y + 1) = year_days y + 365 + leap_day y.
Proof.
  intros H. pose proof (isLeap_spec y ltac:(lia)) as Hl. unfold leap_day.
  destruct (isLeap y); unfold year_days, absoluteZeroYear.
  - destruct (proj1 Hl eq_refl) as [H4 H100]. clear Hl. Z.to_euclidean_division_equations. lia.
  - assert (Hn : y mod 4 <> 0 \/ (y mod 100 = 0 /\ y mod 400 <> 0)).
    { destruct (Z.eq_dec (y mod 4) 0); [|by left]. right.
      destruct (Z.eq_dec (y mod 100) 0), (Z.eq_dec (y mod 400) 0); try done;
        exfalso; assert (false = true) by (apply Hl; auto); done. }
    clear Hl. Z.to_euclidean_division_equations. lia.
Qed.

Definition day_number (y m d : Z) : Z :=
  year_days y + daysBefore (m - 1) + (if 3 <=? m then leap_day y else 0) + (d - 1).

Lemma leap_day_range y : 0 <= leap_day y <= 1.
Proof. unfold leap_day. destruct (isLeap y); lia. Qed.

Lemma daysBefore_range m : 0 <= daysBefore m <= 334.
Proof. unfold daysBefore. repeat case_match; lia. Qed.

(** A zone with one offset, less than a day. *)
Definition fixed_zone (off : Z) : Z -> Z * Z * Z := fun _ => (off, - 2 ^ 63, 2 ^ 63).

Lemma civil_date_eq off c :
  - 86400 < off < 86400 -> valid_civil c ->
  civil_date (fixed_zone off) c =
    86400 * day_number (c_year c) (c_month c) (c_day c) + 3600 * c_hour c + 60 * c_min c + c_sec c
    + absoluteToUnix - off.
Proof.
  intros Ho (Hy&Hm&Hd&Hh&Hmi&Hs). destruct c as [y m d h mi s]. unfold civil_date, time_Date. cbn in *.
  assert (Hmd : month_days y m <= 31).
  { unfold month_days. pose proof (leap_day_range y). repeat case_match; lia. }
  rewrite (i64_small (m - 1)) by (unfold in_i64, minInt64, maxInt64; lia).
  rewrite (norm_small y (m - 1) 12) by lia. cbv beta iota. rewrite (norm_small mi s 60) by lia. cbv beta iota.
  rewrite (norm_small h mi 60) by lia. cbv beta iota. rewrite (norm_small d h 24) by lia. cbv beta iota zeta.
  rewrite daysSinceEpoch_eq by lia.
  pose proof (year_days_bounds y ltac:(lia)) as Hb. pose proof (daysBefore_range (m - 1)) as Hdb.
  pose proof (leap_day_range y) as Hl.
  rewrite (u64_small (year_days y + daysBefore (m - 1))) by lia.
  rewrite (i64_small (d - 1)) by (unfold in_i64, minInt64, maxInt64; lia).
  rewrite (u64_small (d - 1)) by lia.
  assert (Hdn : u64 ((if isLeap y && (2 <=? m - 1) then u64 (year_days y + daysBefore (m - 1) + 1)
      else year_days y + daysBefore (m - 1)) + (d - 1)) = day_number y m d).
  { unfold day_number. unfold leap_day in *.
    replace (3 <=? m) with (2 <=? m - 1) by (destruct (Z.leb_spec 2 (m - 1)), (Z.leb_spec 3 m); lia).
    destruct (isLeap y), (2 <=? m - 1); cbn [andb]; rewrite ?(u64_small (_ + 1)) by lia; rewrite u64_small by lia; lia. }
  rewrite Hdn. assert (Hdr : 106751990353932 <= day_number y m d <= 106751990353932 + 366 * 10001).
  { unfold day_number. destruct (3 <=? m); lia. }
  rewrite (i64_small (h * 3600)), (i64_small (mi * 60)) by (unfold in_i64, minInt64, maxInt64; lia).
  rewrite (i64_small (h * 3600 + mi * 60)) by (unfold in_i64, minInt64, maxInt64; lia).
  rewrite (i64_small (_ + s)) by (unfold in_i64, minInt64, maxInt64; lia).
  rewrite (u64_small (day_number y m d * 86400)) by lia. rewrite (u64_small (h * 3600 + mi * 60 + s)) by lia.
  rewrite u64_small by lia. unfold absoluteToUnix.
  assert (Hi : i64 (i64 (day_number y m d * 86400 + (h * 3600 + mi * 60 + s)) + -9223372028715321600) =
    86400 * day_number y m d + 3600 * h + 60 * mi + s + -9223372028715321600).
  { assert (Hin : in_i64 (86400 * day_number y m d + 3600 * h + 60 * mi + s + -9223372028715321600)).
    { unfold in_i64, minInt64, maxInt64. lia. }
    rewrite i64_add_l, i64_small; [lia|]. unfold in_i64 in *. lia. }
  rewrite Hi. unfold fixed_zone. cbn [fst].
  destruct (Z.eqb_spec off 0) as [->|Hn]; [lia|].
  assert (Hu : in_i64 (86400 * day_number y m d + 3600 * h + 60 * mi + s + -9223372028715321600 - off)).
  { unfold in_i64, minInt64, maxInt64. lia. }
  destruct (_ || _) eqn:E; cbn [fst]; rewrite i64_small by done; lia.
Qed.

Lemma isLeap_days_lt y1 y2 : 1 <= y1 -> y2 <= 9999 -> y1 < y2 -> year_days y1 + 365 + leap_day y1 <= year_days y2.
Proof.
  intros H1 H2 H. rewrite <- year_days_succ by lia. unfold year_days, absoluteZeroYear.
  Z.to_euclidean_division_equations. lia.
Qed.

(** The day of the year. *)
Definition year_day (y m d : Z) : Z := daysBefore (m - 1) + (if 3 <=? m then leap_day y else 0) + (d - 1).

Lemma month_cases m : 1 <= m <= 12 ->
  m = 1 \/ m = 2 \/ m = 3 \/ m = 4 \/ m = 5 \/ m = 6 \/ m = 7 \/ m = 8 \/ m = 9 \/ m = 10 \/ m = 11 \/ m = 12.
Proof. lia. Qed.

Ltac each_month m H :=
  let Hc := fresh in pose proof H as Hc; repeat match type of Hc with _ \/ _ => destruct Hc as [Hc|Hc] end; subst m.

(** Evaluates the tables at known months. *)
Ltac eval_dates :=
  repeat match goal with
  | |- context [daysBefore ?x] => let v := eval vm_compute in (daysBefore x) in change (daysBefore x) with v
  | |- context [3 <=? ?x] => let v := eval vm_compute in (3 <=? x) in change (3 <=? x) with v
  | |- context [?x =? ?y] => let v := eval vm_compute in (x =? y) in change (x =? y) with v
  end; cbn [orb].

(** Each month ends before the next begins, and the last within the year. *)
Lemma month_next y m : 1 <= m <= 12 ->
  daysBefore (m - 1) + (if 3 <=? m then leap_day y else 0) + month_days y m =
  (if m =? 12 then 365 + leap_day y else daysBefore m + (if 3 <=? m + 1 then leap_day y else 0)).
Proof.
  intros H. unfold month_days. pose proof (leap_day_range y).
  each_month m (month_cases m H); eval_dates; lia.
Qed.

Lemma month_start_mono y m1 m2 : 1 <= m1 -> m1 < m2 -> m2 <= 12 ->
  daysBefore (m1 - 1) + (if 3 <=? m1 then leap_day y else 0) + month_days y m1 <=
  daysBefore (m2 - 1) + (if 3 <=? m2 then leap_day y else 0).
Proof.
  intros H1 H H2. rewrite month_next by lia. rewrite (proj2 (Z.eqb_neq m1 12)) by lia.
  pose proof (leap_day_range y) as Hl.
  each_month m1 (month_cases m1 ltac:(lia)); try lia;
    each_month m2 (month_cases m2 ltac:(lia)); try lia; eval_dates; lia.
Qed.

Lemma year_day_range y m d : 1 <= m <= 12 -> 1 <= d <= month_days y m -> 0 <= year_day y m d < 365 + leap_day y.
Proof.
  intros Hm Hd. unfold year_day. pose proof (leap_day_range y). pose proof (daysBefore_range (m - 1)).
  split; [destruct (3 <=? m); lia|].
  destruct (Z.eq_dec m 12) as [->|Hn]; [pose proof (month_next y 12 ltac:(lia)) as E; revert E; eval_dates; lia|].
  pose proof (month_start_mono y m 12 ltac:(lia) ltac:(lia) ltac:(lia)) as E.
  pose proof (month_next y 12 ltac:(lia)) as E12. revert E E12. change (12 =? 12) with true. cbv iota.
  assert (0 <= month_days y 12) by (change (month_days y 12) with 31; lia). lia.
Qed.

Lemma year_day_inj y m1 d1 m2 d2 :
  1 <= m1 <= 12 -> 1 <= m2 <= 12 -> 1 <= d1 <= month_days y m1 -> 1 <= d2 <= month_days y m2 ->
  year_day y m1 d1 = year_day y m2 d2 -> m1 = m2 /\ d1 = d2.
Proof.
  intros Hm1 Hm2 Hd1 Hd2 H. unfold year_day in H.
  destruct (Z.lt_trichotomy m1 m2) as [Hlt|[->|Hlt]]; [|split; lia|].
  - pose proof (month_start_mono y m1 m2 ltac:(lia) Hlt ltac:(lia)). lia.
  - pose proof (month_start_mono y m2 m1 ltac:(lia) Hlt ltac:(lia)). lia.
Qed.

Lemma day_number_inj y1 m1 d1 y2 m2 d2 :
  1 <= y1 <= 9999 -> 1 <= y2 <= 9999 -> 1 <= m1 <= 12 -> 1 <= m2 <= 12 ->
  1 <= d1 <= month_days y1 m1 -> 1 <= d2 <= month_days y2 m2 ->
  day_number y1 m1 d1 = day_number y2 m2 d2 -> y1 = y2 /\ m1 = m2 /\ d1 = d2.
Proof.
  intros Hy1 Hy2 Hm1 Hm2 Hd1 Hd2 H.
  assert (E : forall y m d, day_number y m d = year_days y + year_day y m d).
  { intros. unfold day_number, year_day. lia. }
  rewrite !E in H. pose proof (year_day_range y1 m1 d1 Hm1 Hd1). pose proof (year_day_range y2 m2 d2 Hm2 Hd2).
  destruct (Z.lt_trichotomy y1 y2) as [Hlt|[->|Hlt]].
  - pose proof (isLeap_days_lt y1 y2 ltac:(lia) ltac:(lia) Hlt). lia.
  - split; [done|]. apply (year_day_inj y2); [done..|lia].
  - pose proof (isLeap_days_lt y2 y1 ltac:(lia) ltac:(lia) Hlt). lia.
Qed.

(** In a zone with one offset, two calendar times are the same instant only
    when they are the same. *)
Lemma civil_date_inj off c1 c2 :
  - 86400 < off < 86400 -> valid_civil c1 -> valid_civil c2 ->
  civil_date (fixed_zone off) c1 = civil_date (fixed_zone off) c2 -> c1 = c2.
Proof.
  intros Ho H1 H2 H. rewrite !civil_date_eq in H by done.
  destruct H1 as (Hy1&Hm1&Hd1&Hh1&Hi1&Hs1), H2 as (Hy2&Hm2&Hd2&Hh2&Hi2&Hs2).
  destruct c1 as [y1 m1 d1 h1 i1 s1], c2 as [y2 m2 d2 h2 i2 s2]. cbn in *.
  set (n1 := day_number y1 m1 d1) in *. set (n2 := day_number y2 m2 d2) in *.
  assert (n1 = n2 /\ h1 = h2 /\ i1 = i2 /\ s1 = s2) as (En&->&->&->) by lia.
  destruct (day_number_inj y1 m1 d1 y2 m2 d2) as (->&->&->); done.
Qed.

Lemma valid_civil_i64 c : valid_civil c -> civil_in_i64 c.
Proof.
  intros (H1&H2&H3&H4&H5&H6). assert (month_days (c_year c) (c_month c) <= 31).
  { unfold month_days. pose proof (leap_day_range (c_year c)). repeat case_match; lia. }
  unfold civil_in_i64, in_i64, minInt64, maxInt64. lia.
Qed.
