(* ===== verification/Creds.v ===== *)
(** * Credentials: src/src/console_node/creds.go

    The River passwords, with a bounded number of tries, and the Mountain ssh
    key, which is waited for, compared by hash and written to a file.  Vault
    (two third-party packages and an HTTP service) is the environment. *)

From S2P Require Import Prelude GoStrings Json World HttpUtils Files Sha256 Demo.
From Stdlib Require Import ZArith Lia.
From stdpp Require Import base numbers strings gmap sets list.

Local Open Scope Z_scope.

Definition mountainConsoleKey : string := "/app/conman.key".
Definition svcAcctTokenFile : string := "/var/run/secrets/kubernetes.io/serviceaccount/token".

(** A map of credentials; [None] is a nil map. *)
Definition passwords := option (gmap string CompCredentials).

Definition pw_lookup (pw : passwords) (x : string) : option CompCredentials := default ∅ pw !! x.

(** Every name has an entry. *)
Definition foundAll (names : list string) (pw : passwords) : bool :=
  forallb (λ x, bool_decide (is_Some (pw_lookup pw x))) names.

Definition set_privateKeyHash (h : list Z) (c : credState) : credState := CredState (Some h) (previousPasswords c).
Definition set_previousPasswords (p : passwords) (c : credState) : credState := CredState (previousPrivateKeyHash c) p.

Section creds.
Context (E : env).

(** ** Passwords *)

(** [getPasswords]: nothing in debug mode; a vault that fails is fatal. *)
Definition getPasswords (bmcXNames : list string) : M passwords :=
  p ← gets pod;
  if debugOnly p then mret None else
  n ← next;
  match vault_adapter E n with
  | Some err => panic err
  | None =>
    n' ← next;
    match vault_creds E n' bmcXNames with
    | inr err => panic err
    | inl ccreds => mret (Some ccreds)
    end
  end.

(** The loop of [getPasswordsWithRetries], with the tries left. *)
Fixpoint password_tries (tries : nat) (bmcXNames : list string) (waitSecs : Z) (pw : passwords) : M passwords :=
  match tries with
  | O => mret pw
  | S k =>
    pw' ← getPasswords bmcXNames;
    if foundAll bmcXNames pw' then mret pw' else
    sleep (i64 (waitSecs * second));;
    password_tries k bmcXNames waitSecs pw'
  end.

(** [getPasswordsWithRetries] *)
Definition getPasswordsWithRetries (bmcXNames : list string) (maxTries waitSecs : Z) : M passwords :=
  password_tries (Z.to_nat maxTries) bmcXNames waitSecs None.

(** ** The Mountain key *)

Definition or_default (v d : string) : string := if slen v =? 0 then d else v.

Definition vaultBase : string := or_default (getenv E "VAULT_URL") "http://cray-vault.vault:8200/v1".
Definition vaultBmcKeyName : string := or_default (getenv E "VAULT_BMC_KEY_NAME") "mountain-bmc-console".

(** [vaultExportPrivateKey]: key, response, response code, error. *)
Definition vaultExportPrivateKey (vaultToken : string) : M (string * option string * Z * option string) :=
  r ← getURL E (vaultBase +:+ "/transit/export/signing-key/" +:+ vaultBmcKeyName)
    (Some {["X-Vault-Token" := vaultToken]});
  match r with
  | (response, responseCode, Some err) =>
    mret (EmptyString, response, responseCode, Some "Unable to get the secret from vault")
  | (response, responseCode, None) =>
    if responseCode =? 404 then mret (EmptyString, response, 404, None)
    else if responseCode =? 200 then
      let pvtKey := gjson_get E (default EmptyString response) "data.keys.1" in
      if slen pvtKey =? 0 then
        mret (EmptyString, response, responseCode, Some "Empty or missing element in Vault response")
      else mret (pvtKey, response, 200, None)
    else mret (EmptyString, response, responseCode, Some "Unexpected response from Vault")
  end.

(** The body of the login request: the members of a map, in key order. *)
Definition login_json (jwt : string) : json :=
  JObj [("jwt", JStr jwt); ("role", JStr "ssh-user-certs-compute")].

(** The first waiting loop of [ensureMountainConsoleKeysPresent]. *)
Fixpoint vault_login (fuel : nat) (svcAcctToken : string) : M string :=
  match fuel with
  | O => stuck
  | S f =>
    r ← postURL E (vaultBase +:+ "/auth/kubernetes/login") (json_print (login_json svcAcctToken)) None;
    if r.1.2 =? 200 then mret (gjson_get E (default EmptyString r.1.1) "auth.client_token")
    else sleep (15 * second);; vault_login f svcAcctToken
  end.

(** The second: true when the key is not the one configured before. *)
Fixpoint fetch_key (fuel : nat) (vaultToken : string) (retVal : bool) : M bool :=
  match fuel with
  | O => stuck
  | S f =>
    r ← vaultExportPrivateKey vaultToken;
    let pvtKey := r.1.1.1 in
    if r.1.2 =? 200 then
      let newHash := hashString pvtKey in
      c ← gets creds;
      if decide (previousPrivateKeyHash c = Some newHash) then mret retVal
      else
        modify (upd_creds (set_privateKeyHash newHash));;
        err ← osWriteFile E mountainConsoleKey pvtKey 384;
        match err with
        | Some _ => fetch_key f vaultToken true
        | None => mret true
        end
    else sleep (5 * second);; fetch_key f vaultToken retVal
  end.

(** [ensureMountainConsoleKeysPresent]; [fuel] bounds each waiting loop. *)
Definition ensureMountainConsoleKeysPresent (fuel : nat) : M bool :=
  w ← gets id;
  if debugOnly (pod w) then mret false
  else if zlen (mtn w) =? 0 then mret false
  else
    svcAcctToken ← osRead E svcAcctTokenFile;
    match svcAcctToken with
    | Some (tok, true) =>
      vaultToken ← vault_login fuel tok;
      fetch_key fuel vaultToken false
    | _ => mret false
    end.

(** ** Requests and answers *)

Definition export_request (vaultToken : string) : http_request :=
  HttpRequest "GET" (vaultBase +:+ "/transit/export/signing-key/" +:+ vaultBmcKeyName) None
    [("X-Vault-Token", vaultToken)].

Definition login_request (svcAcctToken : string) : http_request :=
  post_request (vaultBase +:+ "/auth/kubernetes/login") (json_print (login_json svcAcctToken)).

(** Vault answers each export request with this key. *)
Definition key_available (vaultToken key : string) : Prop :=
  slen key ≠ 0 ∧ ∀ n, ∃ body, http_do E n (export_request vaultToken) = Some (Response 200 body) ∧
    gjson_get E body "data.keys.1" = key.

(** Vault accepts the pod's service account and gives it this token. *)
Definition login_accepted (svcAcctToken vaultToken : string) : Prop :=
  ∀ n, ∃ body, http_do E n (login_request svcAcctToken) = Some (Response 200 body) ∧
    gjson_get E body "auth.client_token" = vaultToken.

(** Vault's credential store works. *)
Definition vault_up : Prop :=
  (∀ n, vault_adapter E n = None) ∧ ∀ n xs, ∃ m, vault_creds E n xs = inl m.

(** ** Lemmas *)

(** What asking vault gives when [n] interactions happened before: the pod
    connects first, then asks for the names [xs]; in debug mode it does
    neither. *)
Definition vault_answer (debug : bool) (n : nat) (xs : list string) : passwords :=
  if debug then None else
  match vault_creds E (S n) xs with inl m => Some m | inr _ => None end.

(** The interactions of asking vault [k] times. *)
Definition vault_ticks (debug : bool) (k : nat) : nat := if debug then 0%nat else (2 * k)%nat.

Lemma wp_getPasswords t xs Q w :
  (t = true → debugOnly (pod w) = true ∨ vault_up) →
  (∀ w', same_core w w' → trace w' = trace w → tick w' = (tick w + vault_ticks (debugOnly (pod w)) 1)%nat → ∀ pw,
     pw = vault_answer (debugOnly (pod w)) (tick w) xs →
     (debugOnly (pod w) = false → ∃ n m, vault_creds E n xs = inl m ∧ pw = Some m) → Q pw w') →
  wp t (getPasswords xs) Q w.
Proof.
  intros Ht H. unfold getPasswords. rewrite wp_bind, wp_gets.
  destruct (debugOnly (pod w)) eqn:Ed; [apply wp_ret, H; try done; cbn; lia|].
  rewrite wp_bind, wp_next.
  destruct (vault_adapter E (tick w)) as [err|] eqn:Ea.
  { destruct t; [|done]. destruct (Ht eq_refl) as [|[Hu _]]; [done|]. by rewrite Hu in Ea. }
  rewrite wp_bind, wp_next. destruct (vault_creds E _ xs) as [m|err] eqn:Ev.
  - apply wp_ret, H; [done|done|cbn; lia| |eauto]. unfold vault_answer. cbn in Ev. by rewrite Ev.
  - destruct t; [|done]. destruct (Ht eq_refl) as [|[_ Hu]]; [done|].
    destruct (Hu (tick (next_tick w)) xs) as [m Hm]. congruence.
Qed.

(** The answer to try [j] of the retries that begin after [k] interactions. *)
Definition try_answer (debug : bool) (k : nat) (xs : list string) (j : nat) : passwords :=
  vault_answer debug (k + vault_ticks debug j) xs.

(** What the retries end with, after [n] tries that lacked a name: the answer
    to the next try, which has an entry for every name, or, when all tries
    were used, the answer to the last of them (nil if there was none). *)
Record retried (debug : bool) (k : nat) (xs : list string) (maxTries : Z) (pw : passwords) (n : nat) : Prop := {
  rr_bound : (n ≤ Z.to_nat maxTries)%nat;
  rr_lacking : ∀ j, (j < n)%nat → foundAll xs (try_answer debug k xs j) = false;
  rr_result : if decide (n < Z.to_nat maxTries)%nat
    then pw = try_answer debug k xs n ∧ foundAll xs pw = true
    else pw = match n with O => None | S m => try_answer debug k xs m end
}.

Lemma wp_getPasswordsWithRetries t xs maxTries waitSecs Q w :
  (t = true → debugOnly (pod w) = true ∨ vault_up) →
  (∀ pw n w', retried (debugOnly (pod w)) (tick w) xs maxTries pw n →
     io (repeat (EvSleep (i64 (waitSecs * second))) n) w w' → Q pw w') →
  wp t (getPasswordsWithRetries xs maxTries waitSecs) Q w.
Proof.
  intros Ht H. unfold getPasswordsWithRetries.
  assert (G : ∀ k n0 w0, (n0 + k = Z.to_nat maxTries)%nat →
    io (repeat (EvSleep (i64 (waitSecs * second))) n0) w w0 →
    tick w0 = (tick w + vault_ticks (debugOnly (pod w)) n0)%nat →
    (∀ j, (j < n0)%nat → foundAll xs (try_answer (debugOnly (pod w)) (tick w) xs j) = false) →
    wp t (password_tries k xs waitSecs (match n0 with O => None | S m => try_answer (debugOnly (pod w)) (tick w) xs m end)) Q w0).
  { intros k. induction k as [|k IH]; intros n0 w0 Hn Hio Hk Hl; cbn [password_tries].
    - apply wp_ret, (H _ n0); [|done]. split; [lia|done|]. by rewrite decide_False by lia.
    - assert (Ep : pod w0 = pod w) by by rewrite <- (pod_proper _ _ (proj1 Hio)).
      rewrite wp_bind. apply wp_getPasswords; [by rewrite Ep|].
      intros w1 C1 T1 K1 pw Hpw _. rewrite Ep, Hk in Hpw. rewrite Ep, Hk in K1. fold (try_answer (debugOnly (pod w)) (tick w) xs n0) in Hpw.
      assert (Hio1 : io (repeat (EvSleep (i64 (waitSecs * second))) n0) w w1).
      { rewrite <- (app_nil_r (repeat _ _)). eapply io_trans; [done|]. split; [done|by rewrite app_nil_r]. }
      destruct (foundAll xs pw) eqn:Ef.
      + apply wp_ret, (H _ n0); [|done]. split; [lia|done|]. rewrite decide_True by lia. by split.
      + rewrite wp_bind, wp_sleep. rewrite Hpw. apply (IH (S n0)); [lia| | |].
        * replace (S n0) with (n0 + 1)%nat by lia. rewrite repeat_app.
          eapply io_trans; [exact Hio1|]. apply io_event.
        * cbn. rewrite K1. unfold vault_ticks. destruct (debugOnly _); lia.
        * intros j Hj. destruct (decide (j = n0)) as [->|Hne]; [by rewrite <- Hpw|]. apply Hl. lia. }
  apply (G _ O w); [done|apply io_refl| |lia]. unfold vault_ticks. destruct (debugOnly _); lia.
Qed.

(** The outcome of an export request, as [vaultExportPrivateKey] reports it. *)
Definition export_result (o : http_outcome) : string * Z :=
  match o with
  | NewRequestFails | DoFails => (EmptyString, -1)
  | ReadBodyFails sc => (EmptyString, sc)
  | Response sc body => (if sc =? 200 then gjson_get E body "data.keys.1" else EmptyString, sc)
  end.

Lemma slen_zero s : slen s = 0 → s = EmptyString.
Proof. destruct s; [done|]. unfold slen. cbn. lia. Qed.

Lemma wp_vaultExportPrivateKey t tok Q w :
  (t = true → requests_return E) →
  (∀ o w' n resp err, http_do E n (export_request tok) = Some o → io (sent o (export_request tok)) w w' →
     Q ((export_result o).1, resp, (export_result o).2, err) w') →
  wp t (vaultExportPrivateKey tok) Q w.
Proof.
  intros Ht H. unfold vaultExportPrivateKey. rewrite wp_bind. apply wp_getURL_headers; [done|].
  intros o w' l Hl Eo Hio. rewrite map_to_list_singleton in Hl. apply Permutation_singleton_r in Hl as ->.
  change (HttpRequest _ _ _ _) with (export_request tok) in *.
  destruct o as [| |sc|sc body]; cbn [http_result].
  1-3: apply wp_ret; match type of Eo with _ = Some ?o => by eapply (H o) end.
  destruct (Z.eqb_spec sc 404) as [->|H4].
  { apply wp_ret. by eapply (H (Response 404 body)). }
  destruct (Z.eqb_spec sc 200) as [->|H2]; cbn [default from_option id].
  - destruct (Z.eqb_spec (slen (gjson_get E body "data.keys.1")) 0) as [Hz|Hz].
    + apply wp_ret. apply slen_zero in Hz as Hz'. specialize (H (Response 200 body) w' _ (Some body)
        (Some "Empty or missing element in Vault response") Eo Hio). cbn in H. by rewrite Hz' in H.
    + apply wp_ret. by eapply (H (Response 200 body)).
  - apply wp_ret. specialize (H (Response sc body) w' _ (Some body)
        (Some "Unexpected response from Vault") Eo Hio). cbn in H.
    by rewrite (proj2 (Z.eqb_neq _ _) H2) in H.
Qed.

(** Writing a whole file, without faults. *)
Definition written_mode (w : world) (path : string) (perm : Z) : Z :=
  match fs w !! path with Some f => mode f | None => Z.ldiff perm (umask E) end.

Lemma wp_osWriteFile t path data perm Q w :
  (∀ n, fs_fault E n OpCreate path = None ∧ fs_fault E n OpWrite path = None) →
  (∀ w', only_fs w w' → trace w' = trace w →
     fs w' = <[path := File data (written_mode w path perm)]> (fs w) → Q None w') →
  wp t (osWriteFile E path data perm) Q w.
Proof.
  intros Hf H. unfold osWriteFile, osTruncate, osAppend, fault. wp_pure.
  rewrite (proj1 (Hf _)). wp_pure. rewrite (proj2 (Hf _)). wp_pure.
  apply H; [by repeat split|done|]. cbn. apply map_eq. intros k.
  destruct (decide (k = path)) as [->|Hk].
  - by rewrite lookup_alter_eq, !lookup_insert_eq.
  - by rewrite lookup_alter_ne, !lookup_insert_ne.
Qed.

Definition key_writable : Prop :=
  ∀ n, fs_fault E n OpCreate mountainConsoleKey = None ∧ fs_fault E n OpWrite mountainConsoleKey = None.

(** One round of [fetch_key] when vault has the key and the file can be
    written. *)
Record key_installed (key : string) (w w' : world) (changed : bool) : Prop := {
  ki_changed : changed = negb (bool_decide (previousPrivateKeyHash (creds w) = Some (hashString key)));
  ki_hash : previousPrivateKeyHash (creds w') = Some (hashString key);
  ki_pw : previousPasswords (creds w') = previousPasswords (creds w);
  ki_fs : fs w' = if changed then <[mountainConsoleKey := File key (written_mode w mountainConsoleKey 384)]> (fs w)
                  else fs w;
  ki_rest : nodes w' = nodes w ∧ tails w' = tails w ∧ command w' = command w ∧ rot w' = rot w ∧ pod w' = pod w
}.

Lemma wp_fetch_key t fuel tok key Q w :
  (t = true → requests_return E) →
  key_available tok key → key_writable →
  (∀ b w', key_installed key w w' b → Q b w') →
  wp t (fetch_key (S fuel) tok false) Q w.
Proof.
  intros Ht [Hk Ha] Hw H. cbn [fetch_key]. rewrite wp_bind. apply wp_vaultExportPrivateKey; [done|].
  intros o w1 n resp err Eo [C1 T1]. destruct (Ha n) as (body&Eb&Ek). rewrite Eb in Eo. injection Eo as <-.
  cbn [export_result fst snd]. change (200 =? 200) with true. cbn [fst snd]. rewrite Ek.
  rewrite wp_bind, wp_gets. rewrite <- (creds_proper _ _ C1).
  case_decide as Hd.
  - apply wp_ret, H. split.
    + by rewrite bool_decide_true.
    + by rewrite <- (creds_proper _ _ C1).
    + by rewrite <- (creds_proper _ _ C1).
    + by rewrite <- (fs_proper _ _ C1).
    + by rewrite <- (nodes_proper _ _ C1), <- (tails_proper _ _ C1), <- (command_proper _ _ C1),
        <- (rot_proper _ _ C1), <- (pod_proper _ _ C1).
  - rewrite wp_bind, wp_modify, wp_bind. apply wp_osWriteFile; [done|].
    intros w3 (En&Et&Ec&Ecr&Er&Ep) _ Ef. apply wp_ret, H. split.
    + by rewrite bool_decide_false.
    + by rewrite Ecr.
    + rewrite Ecr. cbn. by rewrite <- (creds_proper _ _ C1).
    + rewrite Ef. unfold written_mode. cbn. by rewrite <- (fs_proper _ _ C1).
    + rewrite En, Et, Ec, Er, Ep. cbn.
      by rewrite <- (nodes_proper _ _ C1), <- (tails_proper _ _ C1), <- (command_proper _ _ C1),
        <- (rot_proper _ _ C1), <- (pod_proper _ _ C1).
Qed.

End creds.

(** ** Properties *)

Section properties.
Context (E : env).

(** The pod's service account token can be read. *)
Definition token_readable (w : world) (tok : string) : Prop :=
  (∃ md, fs w !! svcAcctTokenFile = Some (File tok md)) ∧
  ∀ n, fs_fault E n OpOpen svcAcctTokenFile = None ∧ read_limit E n svcAcctTokenFile = None.

Lemma wp_vault_login t fuel tok vtok Q w :
  (t = true → requests_return E) →
  login_accepted E tok vtok → (∀ w', same_core w w' → Q vtok w') → wp t (vault_login E (S fuel) tok) Q w.
Proof.
  intros Ht Hl H. cbn [vault_login]. rewrite wp_bind. apply wp_postURL; [done|].
  intros o w1 Eo [C1 T1] _. change (post_request _ _) with (login_request E tok) in *.
  destruct (Hl (tick w)) as (body&Eb&Et). rewrite Eb in Eo. injection Eo as <-. cbn [http_result fst snd].
  change (200 =? 200) with true. cbn [default from_option id]. rewrite Et. by apply wp_ret, H.
Qed.

Lemma wp_ensure t fuel tok vtok key Q w :
  (t = true → requests_return E) →
  debugOnly (pod w) = false → mtn w ≠ ∅ → token_readable w tok →
  login_accepted E tok vtok → key_available E vtok key → key_writable E →
  (∀ b w', key_installed E key w w' b → Q b w') →
  wp t (ensureMountainConsoleKeysPresent E (S fuel)) Q w.
Proof.
  intros Hrq Hd Hm [[md Hf] Hr] Hl Hk Hw H. unfold ensureMountainConsoleKeysPresent.
  rewrite wp_bind, wp_gets. cbv beta delta [id]. rewrite Hd.
  rewrite (proj2 (Z.eqb_neq _ _)). 2: { intros Hz. by apply Hm, zlen_zero_empty. }
  unfold osRead, fault. wp_pure. cbn [fs next_tick tick]. rewrite (proj1 (Hr _)), Hf, (proj2 (Hr _)).
  cbn [content]. rewrite wp_bind. apply (wp_vault_login t fuel tok vtok); [done|done|].
  intros w3 C3. apply (wp_fetch_key E t fuel vtok key); [done|done|done|].
  intros b w4 [K1 K2 K3 K4 K5]. assert (C : same_core w w3) by exact C3. apply H. split.
  - by rewrite (creds_proper _ _ C).
  - done.
  - by rewrite K3, (creds_proper _ _ C).
  - unfold written_mode in *. by rewrite (fs_proper _ _ C).
  - by rewrite (nodes_proper _ _ C), (tails_proper _ _ C), (command_proper _ _ C), (rot_proper _ _ C), (pod_proper _ _ C).
Qed.

(** C28: asking vault for the passwords, when vault's store works (it panics
    otherwise) or in debug mode: the tries are numbered from 0; the loop ends
    with the first answer that has an entry for every name, or with the answer
    to try [maxTries - 1], each earlier one lacking a name; after each try that
    lacked one it waits, and nothing but the last answer is returned. *)
Theorem getPasswordsWithRetries_bounded xs maxTries waitSecs w :
  debugOnly (pod w) = true ∨ vault_up E →
  ∃ pw n w', getPasswordsWithRetries E xs maxTries waitSecs w = Done pw w' ∧
    same_core w w' ∧ trace w' = trace w ++ repeat (EvSleep (i64 (waitSecs * second))) n ∧
    (n ≤ Z.to_nat maxTries)%nat ∧
    (∀ j, (j < n)%nat → foundAll xs (try_answer E (debugOnly (pod w)) (tick w) xs j) = false) ∧
    (if decide (n < Z.to_nat maxTries)%nat
     then pw = try_answer E (debugOnly (pod w)) (tick w) xs n ∧ foundAll xs pw = true
     else pw = match n with O => None | S m => try_answer E (debugOnly (pod w)) (tick w) xs m end).
Proof.
  intros Hv.
  assert (H : wp true (getPasswordsWithRetries E xs maxTries waitSecs) (λ pw w', ∃ n,
    retried E (debugOnly (pod w)) (tick w) xs maxTries pw n ∧ io (repeat (EvSleep (i64 (waitSecs * second))) n) w w') w).
  { apply wp_getPasswordsWithRetries; [done|]. eauto. }
  apply wp_total_done in H as (pw&w'&H&n&[]&[C T]). exists pw, n, w'. by split_and!.
Qed.

(** C27: once vault lets the pod in and has the key (requests return, and the
    file can be written), the key is installed: its hash is remembered and the
    result says whether it differs from the one remembered before; if so the
    file now holds exactly the key, with the mode it had or, as a new file,
    readable and writable by the owner only (0600 less the umask), and if not
    no file changes; a second check finds nothing new and writes nothing. *)
Theorem ensureMountainConsoleKeysPresent_installs fuel tok vtok key w :
  requests_return E → debugOnly (pod w) = false → mtn w ≠ ∅ → token_readable w tok →
  login_accepted E tok vtok → key_available E vtok key → key_writable E →
  ∃ b w' w'', ensureMountainConsoleKeysPresent E (S fuel) w = Done b w' ∧
    (b = true ↔ previousPrivateKeyHash (creds w) ≠ Some (hashString key)) ∧
    previousPrivateKeyHash (creds w') = Some (hashString key) ∧
    fs w' = (if b then <[mountainConsoleKey := File key
      match fs w !! mountainConsoleKey with Some f => mode f | None => Z.ldiff 384 (umask E) end]> (fs w) else fs w) ∧
    ensureMountainConsoleKeysPresent E (S fuel) w' = Done false w'' ∧ fs w'' = fs w'.
Proof.
  intros Hrq Hd Hm Hr Hl Hk Hw.
  assert (H : wp true (ensureMountainConsoleKeysPresent E (S fuel)) (λ b w', key_installed E key w w' b) w).
  { by eapply wp_ensure. }
  apply wp_total_done in H as (b&w1&H&K).
  assert (H2 : wp true (ensureMountainConsoleKeysPresent E (S fuel)) (λ b w', key_installed E key w1 w' b) w1).
  { destruct K as [_ _ _ Kf (Kn&_&_&_&Kp)]. eapply wp_ensure; [done|by rewrite Kp| | |done|done|done|done].
    - unfold mtn. by rewrite Kn.
    - destruct Hr as [[md Hf] Hr]. split; [|done]. exists md. rewrite Kf. destruct b; [|done].
      by rewrite lookup_insert_ne. }
  apply wp_total_done in H2 as (b2&w2&H2&K2). destruct K as [K1 Kh _ Kf _].
  assert (b2 = false) as ->.
  { destruct K2 as [-> _ _ _ _]. by rewrite bool_decide_true. }
  exists b, w1, w2. split; [done|]. split.
  { rewrite K1. rewrite negb_true_iff, bool_decide_eq_false. done. }
  split; [done|]. split; [exact Kf|split; [done|by destruct K2]].
Qed.

(** A key whose file could not be written is reported as new and taken for
    installed: the hash is remembered before the write, so the next round finds
    the same hash and returns, and the file never gets the key. *)
Theorem fetch_key_write_failure fuel vtok key w :
  requests_return E → key_available E vtok key → (∀ n, fs_fault E n OpCreate mountainConsoleKey ≠ None) →
  previousPrivateKeyHash (creds w) ≠ Some (hashString key) →
  ∃ w', fetch_key E (S (S fuel)) vtok false w = Done true w' ∧
    previousPrivateKeyHash (creds w') = Some (hashString key) ∧ fs w' = fs w.
Proof.
  intros Hrq [Hk Ha] Hf Hp.
  assert (H : wp true (fetch_key E (S (S fuel)) vtok false) (λ b w', b = true ∧
    previousPrivateKeyHash (creds w') = Some (hashString key) ∧ fs w' = fs w) w).
  { cbn [fetch_key]. rewrite wp_bind. apply wp_vaultExportPrivateKey; [done|].
    intros o w1 n resp err Eo [C1 T1]. destruct (Ha n) as (body&Eb&Ek). rewrite Eb in Eo. injection Eo as <-.
    cbn [export_result fst snd]. change (200 =? 200) with true. cbn [fst snd]. rewrite Ek.
    rewrite wp_bind, wp_gets. rewrite <- (creds_proper _ _ C1). case_decide; [done|].
    rewrite wp_bind, wp_modify, wp_bind. unfold osWriteFile, osTruncate, fault. wp_pure.
    cbn [tick next_tick upd_creds]. destruct (fs_fault E (tick w1) OpCreate mountainConsoleKey) eqn:Ef;
      [|by destruct (Hf (tick w1))].
    wp_pure. set (w2 := next_tick _). apply wp_vaultExportPrivateKey; [done|].
    intros o w3 n' resp' err' Eo' [C3 T3]. destruct (Ha n') as (body'&Eb'&Ek'). rewrite Eb' in Eo'. injection Eo' as <-.
    cbn [export_result fst snd]. change (200 =? 200) with true. cbn [fst snd]. rewrite Ek'.
    rewrite wp_bind, wp_gets. rewrite <- (creds_proper _ _ C3).
    case_decide as Hd; [|done]. apply wp_ret. split; [done|].
    rewrite <- (creds_proper _ _ C3), <- (fs_proper _ _ C3). split; [done|].
    cbn. by rewrite <- (fs_proper _ _ C1). }
  apply wp_total_done in H as (b&w'&H&->&Hh&Hfs). eauto.
Qed.

(** An export answer with status 200 but without the key element is an error
    that nobody looks at: an empty key is written and counts as a new key. *)
Theorem fetch_key_missing_element fuel vtok w :
  requests_return E →
  (∀ n, ∃ body, http_do E n (export_request E vtok) = Some (Response 200 body) ∧
     gjson_get E body "data.keys.1" = EmptyString) →
  key_writable E → previousPrivateKeyHash (creds w) ≠ Some (hashString EmptyString) →
  ∃ w', fetch_key E (S fuel) vtok false w = Done true w' ∧
    content <$> fs w' !! mountainConsoleKey = Some EmptyString.
Proof.
  intros Hrq Ha Hw Hp.
  assert (H : wp true (fetch_key E (S fuel) vtok false) (λ b w', b = true ∧
    content <$> fs w' !! mountainConsoleKey = Some EmptyString) w).
  { cbn [fetch_key]. rewrite wp_bind. apply wp_vaultExportPrivateKey; [done|].
    intros o w1 n resp err Eo [C1 T1]. destruct (Ha n) as (body&Eb&Ek). rewrite Eb in Eo. injection Eo as <-.
    cbn [export_result fst snd]. change (200 =? 200) with true. cbn [fst snd]. rewrite Ek.
    rewrite wp_bind, wp_gets. rewrite <- (creds_proper _ _ C1). case_decide; [done|].
    rewrite wp_bind, wp_modify, wp_bind. apply wp_osWriteFile; [done|].
    intros w3 _ _ Ef. apply wp_ret. split; [done|]. by rewrite Ef, lookup_insert_eq. }
  apply wp_total_done in H as (b&w'&H&->&Hc). eauto.
Qed.

End properties.

(** ** Witnesses *)

(** A vault that accepts everyone and has one key and one password. *)
Definition vault_env (key : string) (fault : fs_op → string → option string) : env := {|
  getenv := λ _, EmptyString;
  http_do := λ _ _, Some (Response 200 "{}");
  map_range := λ _ V m, map_to_list m;
  map_range_perm := λ _ V m, Permutation_refl (map_to_list m);
  fs_fault := λ _, fault;
  read_limit := λ _ _, None;
  umask := 18;
  clock := λ _, EmptyString;
  zone_lookup := λ _, (0, - 2 ^ 62, 2 ^ 62);
  rand_source := λ _, 0;
  vault_adapter := λ _, None;
  vault_creds := λ n _, inl (if decide (n < 6)%nat then ∅ else {["x3000b0" := Creds "root" "pw"]});
  gjson_get := λ _ path, if decide (path = "data.keys.1"%string) then key else "tok";
  run_cmd := λ _ _, RunOutcome (Some 0) EmptyString ∅
|}.

Definition key_world : world := upd_fs <[svcAcctTokenFile := File "jwt" 384]> small_world.

Lemma key_world_mtn : mtn key_world ≠ ∅.
Proof.
  assert (H : zlen (mtn key_world) = 1) by (vm_compute; reflexivity).
  intros Hm. by rewrite Hm, zlen_empty in H.
Qed.

Lemma getPasswordsWithRetries_bounded_witness :
  let E := vault_env "k" (λ _ _, None) in
  ∃ pw n w', getPasswordsWithRetries E ["x3000b0"] 15 10 small_world = Done pw w' ∧
    same_core small_world w' ∧ trace w' = [] ++ repeat (EvSleep (i64 (10 * second))) n ∧
    (n ≤ Z.to_nat 15)%nat ∧
    (∀ j, (j < n)%nat → foundAll ["x3000b0"] (try_answer E false 0 ["x3000b0"] j) = false) ∧
    (if decide (n < Z.to_nat 15)%nat
     then pw = try_answer E false 0 ["x3000b0"] n ∧ foundAll ["x3000b0"] pw = true
     else pw = match n with O => None | S m => try_answer E false 0 ["x3000b0"] m end).
Proof.
  intros E. apply (getPasswordsWithRetries_bounded E ["x3000b0"] 15 10 small_world).
  right. split; [done|]. intros n xs. by eexists.
Defined.

(** Evaluated: three tries without the password, and the fourth has it. *)
Example password_tries_example :
  match getPasswordsWithRetries (vault_env "k" (λ _ _, None)) ["x3000b0"] 15 10 small_world with
  | Done pw w' => pw_lookup pw "x3000b0" = Some (Creds "root" "pw") ∧ length (trace w') = 3%nat
  | _ => False
  end.
Proof. by vm_compute. Qed.

Lemma ensureMountainConsoleKeysPresent_installs_witness :
  ∃ b w' w'', ensureMountainConsoleKeysPresent (vault_env "k" (λ _ _, None)) 1 key_world = Done b w' ∧
    (b = true ↔ previousPrivateKeyHash (creds key_world) ≠ Some (hashString "k")) ∧
    previousPrivateKeyHash (creds w') = Some (hashString "k") ∧
    fs w' = (if b then <[mountainConsoleKey := File "k"
      match fs key_world !! mountainConsoleKey with Some f => mode f | None => Z.ldiff 384 18 end]> (fs key_world)
      else fs key_world) ∧
    ensureMountainConsoleKeysPresent (vault_env "k" (λ _ _, None)) 1 w' = Done false w'' ∧ fs w'' = fs w'.
Proof.
  apply (ensureMountainConsoleKeysPresent_installs (vault_env "k" (λ _ _, None)) 0 "jwt" "tok" "k" key_world).
  - done.
  - done.
  - exact key_world_mtn.
  - split; [by exists 384|done].
  - intros n. by exists "{}"%string.
  - split; [done|]. intros n. by exists "{}"%string.
  - done.
Defined.

Definition broken_disk (op : fs_op) (path : string) : option string :=
  match op with OpCreate => Some "read-only file system" | _ => None end.

Lemma fetch_key_write_failure_witness :
  ∃ w', fetch_key (vault_env "k" broken_disk) 2 "tok" false key_world = Done true w' ∧
    previousPrivateKeyHash (creds w') = Some (hashString "k") ∧ fs w' = fs key_world.
Proof.
  apply (fetch_key_write_failure (vault_env "k" broken_disk) 0 "tok" "k" key_world).
  - done.
  - split; [done|]. intros n. by exists "{}"%string.
  - done.
  - done.
Defined.

Lemma fetch_key_missing_element_witness :
  ∃ w', fetch_key (vault_env "" (λ _ _, None)) 1 "tok" false key_world = Done true w' ∧
    content <$> fs w' !! mountainConsoleKey = Some EmptyString.
Proof.
  apply (fetch_key_missing_element (vault_env "" (λ _ _, None)) 0 "tok" key_world).
  - done.
  - intros n. by exists "{}"%string.
  - done.
  - done.
Defined.
