(* ===== verification/ConmanConfig.v ===== *)
(** * Configuring conmand: src/src/console_node/conman.go

    The configuration file (base file, then one line for each node), the flag
    that suppresses updates, [configConman] and the loop [runConman]. *)

From S2P Require Import Prelude GoStrings World HttpUtils Files LogAggregation ConmanProc Creds.
From S2P Require Import Nodes NodesFacts Demo.
From Stdlib Require Import ZArith Lia Ascii.
From stdpp Require Import base numbers strings gmap sets list.

Local Open Scope Z_scope.

Definition baseConfFile : string := "/app/conman_base.conf".

(** ** The lines of the file *)

(** A River console, through ipmi. *)
Definition rvr_line (n : nodeConsoleInfo) (user pass : string) : string :=
  qs "console name='" +:+ NodeName n +:+ qs "' dev='ipmi:" +:+ BmcFqdn n +:+ qs "' ipmiopts='U:" +:+ user +:+
  ",P:" +:+ pass +:+ qs ",W:solpayloadsize'" +:+ String nl EmptyString.

(** A Paradise console, through ssh with a password. *)
Definition pds_line (n : nodeConsoleInfo) (user pass : string) : string :=
  qs "console name='" +:+ NodeName n +:+ qs "' dev='/usr/bin/ssh-pwd-console " +:+ BmcFqdn n +:+ " " +:+ user +:+
  " " +:+ pass +:+ qs "'" +:+ String nl EmptyString.

(** A Mountain console, through ssh with the key. *)
Definition mtn_line (n : nodeConsoleInfo) : string :=
  qs "console name='" +:+ NodeName n +:+ qs "' dev='/usr/bin/ssh-key-console " +:+ NodeName n +:+ qs "'" +:+
  String nl EmptyString.

(** What is written, and what is logged, for a node of a group. *)
Definition endpoint_line (p : pool) (n : nodeConsoleInfo) (user pass : string) : string :=
  match p with Rvr => rvr_line n user pass | Pds => pds_line n user pass | Mtn => mtn_line n end.

Definition cred_of (pw : passwords) (n : nodeConsoleInfo) : CompCredentials :=
  default (Creds EmptyString EmptyString) (pw_lookup pw (BmcName n)).

(** ** The update flag *)

(** The decision taken from the bytes read; [None] is an index out of range. *)
Definition update_flag (s : string) : option bool :=
  let pos := strIndex s "UPDATE_CONFIG=" in
  if 0 <? pos then
    c ← byte_at s (pos + slen "UPDATE_CONFIG=");
    mret (negb (Ascii.eqb c "F"%char) && negb (Ascii.eqb c "f"%char))
  else Some false.

Section config.
Context (E : env).

(** [willUpdateConfig] on the contents of the base file: the answer, and where
    reading will go on. *)
Definition willUpdateConfig (bf : string) : M (bool * nat) :=
  e ← fault E OpRead baseConfFile;
  let buff := take_s 50 bf in
  match e with
  | Some _ => mret (false, O)
  | None =>
    if slen buff <? 50 then mret (false, O) else
    retVal ← deref "index out of range" (update_flag buff);
    e' ← fault E OpSeek baseConfFile;
    mret (retVal, match e' with None => O | Some _ => 50%nat end)
  end.

(** The log lines and the write for one node; a failed write is fatal. *)
Definition write_endpoint (p : pool) (pw : passwords) (n : nodeConsoleInfo) : M () :=
  let creds := cred_of pw n in
  (if decide (p ≠ Mtn ∧ pw_lookup pw (BmcName n) = None)
   then emit (EvLog ("No creds record returned for " +:+ BmcName n)) else mret ());;
  emit (EvLog (endpoint_line p n (Username creds) "REDACTED"));;
  err ← osAppend E confFile (endpoint_line p n (Username creds) (Password creds));
  match err with Some msg => panic msg | None => mret () end.

Definition write_endpoints (p : pool) (pw : passwords) : M () :=
  w ← gets id;
  l ← goRange E (get_pool p w);
  forEach l.*2 (write_endpoint p pw).

(** [io.Copy(cf, bf)], which may stop early. *)
Definition copy_base (data : string) : M () :=
  n ← next;
  let copied := match read_limit E n baseConfFile with None => data | Some k => take_s k data end in
  modify (upd_fs (alter (λ f, File (content f +:+ copied) (mode f)) confFile)).

(** [updateConfigFile] *)
Definition updateConfigFile (forceUpdate : bool) : M () :=
  o ← osOpen E baseConfFile;
  bf ← deref "Unable to open base config file" o;
  u ← (if forceUpdate then mret (true, O) else willUpdateConfig bf);
  if negb u.1 then mret () else
  err ← osTruncate E confFile 384;
  match err with
  | Some msg => panic msg
  | None =>
    copy_base (drop_s u.2 bf);;
    w ← gets id;
    lr ← goRange E (rvr w);
    lp ← goRange E (pds w);
    pw ← getPasswordsWithRetries E (map BmcName lr.*2 ++ map BmcName lp.*2) 15 10;
    modify (upd_creds (set_previousPasswords pw));;
    write_endpoints Rvr pw;;
    write_endpoints Pds pw;;
    write_endpoints Mtn pw
  end.

(** [aggregateFile] for the nodes of one group. *)
Definition aggregate_group (m : gmap string nodeConsoleInfo) : M () :=
  l ← goRange E m;
  forEach l.*1 (λ x, _ ← aggregateFile x; mret ()).

(** The three groups in the order of the code. *)
Definition aggregate_all : M () :=
  w ← gets id;
  aggregate_group (rvr w);;
  aggregate_group (pds w);;
  aggregate_group (mtn w).

(** [configConman]; [fuel] bounds the wait for the keys. *)
Definition configConman (fuel : nat) (forceConfigUpdate : bool) : M bool :=
  updateConfigFile forceConfigUpdate;;
  aggregate_all;;
  _ ← ensureMountainConsoleKeysPresent E fuel;
  w' ← gets id;
  mret (0 <? zlen (mtn w') + zlen (rvr w') + zlen (pds w')).

(** How the operating system treats one run of conmand. *)
Record run_fate := RunFate { pipe_ok : bool; start_ok : bool; wait_err : bool }.

(** One turn of [runConman] *)
Definition runConman_turn (fuel : nat) (forceConfigUpdate : bool) (r : run_fate) : M () :=
  hasNodes ← configConman fuel forceConfigUpdate;
  p ← gets pod;
  (if debugOnly p then sleep (25 * second)
   else if negb hasNodes then sleep (30 * second)
   else executeConman (pipe_ok r) (start_ok r) (wait_err r));;
  sleep (10 * second).

(** [runConman]: an update is forced on the first turn only. *)
Fixpoint runConman (fuel : nat) (force : bool) (fates : list run_fate) : M () :=
  match fates with
  | [] => mret ()
  | r :: fates' => runConman_turn fuel force r;; runConman fuel false fates'
  end.

(** ** What the file should hold *)

Definition group_text (p : pool) (pw : passwords) (ns : list nodeConsoleInfo) : string :=
  foldr String.append EmptyString
    (map (λ n, endpoint_line p n (Username (cred_of pw n)) (Password (cred_of pw n))) ns).

(** The log lines about a group, from the user names alone. *)
Definition user_of (users : gmap string string) (n : nodeConsoleInfo) : string :=
  default EmptyString (users !! BmcName n).

Definition endpoint_logs (p : pool) (users : gmap string string) (n : nodeConsoleInfo) : list event :=
  (if decide (p ≠ Mtn ∧ users !! BmcName n = None)
   then [EvLog ("No creds record returned for " +:+ BmcName n)] else []) ++
  [EvLog (endpoint_line p n (user_of users n) "REDACTED")].

Definition group_logs (p : pool) (users : gmap string string) (ns : list nodeConsoleInfo) : list event :=
  concat (map (endpoint_logs p users) ns).

Definition users_of (pw : passwords) : gmap string string := Username <$> default ∅ pw.

(** ** Lemmas *)

Lemma users_of_lookup pw n : users_of pw !! BmcName n = Username <$> pw_lookup pw (BmcName n).
Proof. unfold users_of, pw_lookup. by rewrite lookup_fmap. Qed.

Lemma user_of_cred pw n : user_of (users_of pw) n = Username (cred_of pw n).
Proof. unfold user_of, cred_of. rewrite users_of_lookup. by destruct (pw_lookup pw (BmcName n)). Qed.

(** The file grows by [str], the trace by [evs], nothing else changes. *)
Record grown (str : string) (evs : list event) (w w' : world) : Prop := {
  gr_rest : only_fs w w';
  gr_fs : fs w' = alter (λ f, File (content f +:+ str) (mode f)) confFile (fs w);
  gr_trace : trace w' = trace w ++ evs
}.

Lemma alter_same (m : gmap string file) (f : file → file) k : (∀ x, f x = x) → alter f k m = m.
Proof.
  intros H. apply map_eq. intros i. destruct (decide (i = k)) as [->|Hi].
  - rewrite lookup_alter_eq. destruct (m !! k); cbn; by rewrite ?H.
  - by rewrite lookup_alter_ne.
Qed.

Lemma grown_nil w w' : same_core w w' → trace w' = trace w → grown EmptyString [] w w'.
Proof.
  intros C T. split.
  - unfold only_fs. by rewrite <- (nodes_proper _ _ C), <- (tails_proper _ _ C), <- (command_proper _ _ C),
      <- (creds_proper _ _ C), <- (rot_proper _ _ C), <- (pod_proper _ _ C).
  - rewrite alter_same; [by rewrite <- (fs_proper _ _ C)|]. intros []. by rewrite append_nil_r.
  - by rewrite app_nil_r.
Qed.

Lemma grown_trans s1 s2 e1 e2 w w1 w2 :
  grown s1 e1 w w1 → grown s2 e2 w1 w2 → grown (s1 +:+ s2) (e1 ++ e2) w w2.
Proof.
  intros [R1 F1 T1] [R2 F2 T2]. split; [by etrans| |by rewrite T2, T1, app_assoc].
  rewrite F2, F1. apply map_eq. intros i. destruct (decide (i = confFile)) as [->|Hi].
  - rewrite !lookup_alter_eq. destruct (fs w !! confFile) as [[]|]; cbn; [by rewrite append_assoc|done].
  - by rewrite !lookup_alter_ne.
Qed.

(** Nothing stands in the way of writing the file. *)
Definition confFile_writable : Prop :=
  ∀ n, fs_fault E n OpCreate confFile = None ∧ fs_fault E n OpWrite confFile = None.

Lemma wp_write_endpoint t p pw n Q w :
  (t = true → confFile_writable) →
  (∀ w', grown (endpoint_line p n (Username (cred_of pw n)) (Password (cred_of pw n)))
      (endpoint_logs p (users_of pw) n) w w' → Q () w') →
  wp t (write_endpoint p pw n) Q w.
Proof.
  intros Ht H. unfold write_endpoint. rewrite wp_bind.
  assert (Hgo : ∀ w1, same_core w w1 →
    trace w1 ++ [EvLog (endpoint_line p n (Username (cred_of pw n)) "REDACTED")] =
      trace w ++ endpoint_logs p (users_of pw) n →
    wp t (emit (EvLog (endpoint_line p n (Username (cred_of pw n)) "REDACTED"));;
      err ← osAppend E confFile (endpoint_line p n (Username (cred_of pw n)) (Password (cred_of pw n)));
      match err with Some msg => panic msg | None => mret () end) Q w1).
  { intros w1 C T. rewrite wp_bind, wp_emit, wp_bind. unfold osAppend, fault. wp_pure. cbn [tick add_event].
    destruct (fs_fault E (tick w1) OpWrite confFile) eqn:Ef; wp_pure.
    - destruct t; [|done]. by rewrite (proj2 (Ht eq_refl _)) in Ef.
    - apply H. split.
      + unfold only_fs. cbn. by rewrite <- (nodes_proper _ _ C), <- (tails_proper _ _ C),
          <- (command_proper _ _ C), <- (creds_proper _ _ C), <- (rot_proper _ _ C), <- (pod_proper _ _ C).
      + cbn. by rewrite <- (fs_proper _ _ C).
      + exact T. }
  unfold endpoint_logs in *. rewrite user_of_cred, users_of_lookup in *.
  destruct (decide (p ≠ Mtn ∧ pw_lookup pw (BmcName n) = None)) as [[Hp He]|Hn].
  - rewrite wp_emit. apply Hgo; [done|]. rewrite He, decide_True by done. cbn. by rewrite <- app_assoc.
  - apply wp_ret, Hgo; [done|]. rewrite decide_False; [done|].
    intros [Hp He]. apply Hn. split; [done|]. by destruct (pw_lookup pw (BmcName n)).
Qed.

Lemma wp_write_endpoints t p pw Q w :
  (t = true → confFile_writable) →
  (∀ w' l, l ≡ₚ map_to_list (get_pool p w) →
     grown (group_text p pw l.*2) (group_logs p (users_of pw) l.*2) w w' → Q () w') →
  wp t (write_endpoints p pw) Q w.
Proof.
  intros Ht H. unfold write_endpoints. rewrite wp_bind, wp_gets. cbv beta delta [id].
  rewrite wp_bind. apply wp_goRange. intros l _ Hl.
  assert (G : ∀ ns w0, (∀ w', grown (group_text p pw ns) (group_logs p (users_of pw) ns) w0 w' → Q () w') →
    wp t (forEach ns (write_endpoint p pw)) Q w0).
  { intros ns. induction ns as [|n ns IH]; intros w0 H0; cbn [forEach].
    - by apply wp_ret, H0, grown_nil.
    - rewrite wp_bind. apply wp_write_endpoint; [done|]. intros w1 G1. apply IH. intros w2 G2.
      apply H0. by eapply grown_trans. }
  apply G. intros w' Gw. apply (H w' l Hl).
  rewrite <- (append_nil_l (group_text _ _ _)), <- (app_nil_l (group_logs _ _ _)).
  refine (grown_trans _ _ _ _ _ (next_tick w) _ _ Gw). by apply grown_nil.
Qed.

End config.

(** *** The whole file *)

Section facts.
Context (E : env).

Definition base_readable (w : world) (bf : string) : Prop :=
  content <$> fs w !! baseConfFile = Some bf ∧ ∀ n, fs_fault E n OpOpen baseConfFile = None.

(** What a completed update leaves: the file is the part of the base file that
    could be copied (from [off] on), then the lines of the three groups. *)
Record conf_written (off : nat) (bf : string) (w w' : world) : Prop := {
  cw_nodes : nodes w' = nodes w;
  cw_tails : tails w' = tails w;
  cw_command : command w' = command w;
  cw_rot : rot w' = rot w;
  cw_pod : pod w' = pod w;
  cw_result : ∃ pw xs n lr lp lm copied,
    xs ≡ₚ map BmcName (map_to_list (rvr w)).*2 ++ map BmcName (map_to_list (pds w)).*2 ∧
    lr ≡ₚ map_to_list (rvr w) ∧ lp ≡ₚ map_to_list (pds w) ∧ lm ≡ₚ map_to_list (mtn w) ∧
    (∃ k, (tick w ≤ k)%nat ∧ retried E (debugOnly (pod w)) k xs 15 pw n) ∧
    (copied = drop_s off bf ∨ ∃ j k, read_limit E j baseConfFile = Some k ∧ copied = take_s k (drop_s off bf)) ∧
    creds w' = set_previousPasswords pw (creds w) ∧
    fs w' = <[confFile := File (copied +:+ group_text Rvr pw lr.*2 +:+ group_text Pds pw lp.*2 +:+
        group_text Mtn pw lm.*2) (written_mode E w confFile 384)]> (fs w) ∧
    trace w' = trace w ++ repeat (EvSleep (i64 (10 * second))) n ++
      group_logs Rvr (users_of pw) lr.*2 ++ group_logs Pds (users_of pw) lp.*2 ++ group_logs Mtn (users_of pw) lm.*2
}.

(** The part of [updateConfigFile] after the decision to update. *)
Lemma wp_update_body t bf off Q w :
  (t = true → confFile_writable E ∧ (debugOnly (pod w) = true ∨ vault_up E)) →
  (∀ w', conf_written off bf w w' → Q () w') →
  wp t (err ← osTruncate E confFile 384;
    match err with
    | Some msg => panic msg
    | None =>
      copy_base E (drop_s off bf);;
      w ← gets id;
      lr ← goRange E (rvr w);
      lp ← goRange E (pds w);
      pw ← getPasswordsWithRetries E (map BmcName lr.*2 ++ map BmcName lp.*2) 15 10;
      modify (upd_creds (set_previousPasswords pw));;
      write_endpoints E Rvr pw;;
      write_endpoints E Pds pw;;
      write_endpoints E Mtn pw
    end) Q w.
Proof.
  intros Ht H. unfold osTruncate, fault. wp_pure.
  destruct (fs_fault E (tick w) OpCreate confFile) as [err|] eqn:Ef; wp_pure.
  { destruct t; [|done]. destruct (Ht eq_refl) as [Hw _]. by rewrite (proj1 (Hw _)) in Ef. }
  unfold copy_base. wp_pure. set (w1 := upd_fs _ (next_tick w)).
  set (copied := match read_limit E (tick w1) baseConfFile with
    | Some k => take_s k (drop_s off bf) | None => drop_s off bf end).
  set (w2 := upd_fs _ (next_tick w1)). cbv beta delta [id].
  assert (F2 : fs w2 = <[confFile := File copied (written_mode E w confFile 384)]> (fs w)).
  { cbn. apply map_eq. intros i. destruct (decide (i = confFile)) as [->|Hi].
    - by rewrite lookup_alter_eq, !lookup_insert_eq.
    - by rewrite lookup_alter_ne, !lookup_insert_ne. }
  apply wp_goRange. intros lr0 _ Hr0. rewrite wp_bind. apply wp_goRange. intros lp0 _ Hp0.
  rewrite wp_bind. set (w4 := next_tick (next_tick w2)).
  apply wp_getPasswordsWithRetries; [intros Et; by apply Ht|].
  intros pw n w5 Hre [C5 T5]. wp_pure. set (w6 := upd_creds _ w5).
  assert (E6 : nodes w6 = nodes w ∧ tails w6 = tails w ∧ command w6 = command w ∧ rot w6 = rot w ∧ pod w6 = pod w
    ∧ creds w6 = set_previousPasswords pw (creds w) ∧ fs w6 = fs w2).
  { cbn. by rewrite <- (nodes_proper _ _ C5), <- (tails_proper _ _ C5), <- (command_proper _ _ C5),
      <- (rot_proper _ _ C5), <- (pod_proper _ _ C5), <- (creds_proper _ _ C5), <- (fs_proper _ _ C5). }
  destruct E6 as (En&Et&Ec&Er&Ep&Ecr&Ef6).
  assert (Hwr : t = true → confFile_writable E) by (intros Ht'; by apply Ht).
  apply wp_write_endpoints; [done|]. intros w7 lr Hlr G7.
  rewrite wp_bind. apply wp_write_endpoints; [done|]. intros w8 lp Hlp G8.
  apply wp_write_endpoints; [done|]. intros w9 lm Hlm G9.
  assert (N7 : nodes w7 = nodes w) by (destruct (gr_rest _ _ _ _ G7) as [-> _]; done).
  assert (N8 : nodes w8 = nodes w) by (destruct (gr_rest _ _ _ _ G8) as [-> _]; done).
  pose proof (grown_trans _ _ _ _ _ _ _ G7 (grown_trans _ _ _ _ _ _ _ G8 G9)) as [(Rn&Rt&Rc&Rcr&Rr&Rp) Fs Tr].
  apply H. split; try congruence.
  exists pw, (map BmcName lr0.*2 ++ map BmcName lp0.*2), n, lr, lp, lm, copied.
  assert (Hr1 : lr0 ≡ₚ map_to_list (rvr w)) by exact Hr0.
  assert (Hp1 : lp0 ≡ₚ map_to_list (pds w)) by exact Hp0.
  split; [by rewrite Hr1, Hp1|].
  change (get_pool Rvr w6) with (currentRvrNodes (nodes w6)) in Hlr. rewrite En in Hlr.
  change (get_pool Pds w7) with (currentPdsNodes (nodes w7)) in Hlp. rewrite N7 in Hlp.
  change (get_pool Mtn w8) with (currentMtnNodes (nodes w8)) in Hlm. rewrite N8 in Hlm.
  split; [done|]. split; [done|]. split; [done|]. split; [exists (tick w4); split; [cbn; lia|exact Hre]|].
  split; [unfold copied; destruct (read_limit E (tick w1) baseConfFile) eqn:El; eauto|].
  split; [congruence|]. split; [|by rewrite Tr; change (trace w6) with (trace w5); rewrite T5, <- app_assoc].
  rewrite Fs, Ef6, F2. apply map_eq. intros i. destruct (decide (i = confFile)) as [->|Hi].
  - by rewrite lookup_alter_eq, !lookup_insert_eq.
  - by rewrite lookup_alter_ne, !lookup_insert_ne.
Qed.

(** The decision: with a forced update there is none to take. *)
Definition flag_result (bf : string) : option bool :=
  if slen (take_s 50 bf) <? 50 then Some false else update_flag (take_s 50 bf).

Lemma wp_willUpdateConfig t bf Q w :
  (t = true → flag_result bf ≠ None) →
  (∀ b off w', same_core w w' → trace w' = trace w → (tick w ≤ tick w')%nat →
     (b = true → flag_result bf = Some true) →
     ((∀ n, fs_fault E n OpRead baseConfFile = None) → flag_result bf = Some b) →
     ((∀ n, fs_fault E n OpSeek baseConfFile = None) → off = O) → Q (b, off) w') →
  wp t (willUpdateConfig E bf) Q w.
Proof.
  intros Ht H. unfold willUpdateConfig, fault. wp_pure. unfold flag_result in *.
  destruct (fs_fault E (tick w) OpRead baseConfFile) eqn:Er.
  { apply wp_ret, H; [done|done|cbn; lia|done| |done]. intros Hr. by rewrite Hr in Er. }
  destruct (slen (take_s 50 bf) <? 50) eqn:El; [apply wp_ret, H; try done; cbn; lia|].
  rewrite wp_bind. apply wp_deref. destruct (update_flag (take_s 50 bf)) as [b|] eqn:Ef.
  - wp_pure. apply H; try done; [cbn; lia|by intros ->|]. intros Hs. by rewrite Hs.
  - destruct t; [by destruct (Ht eq_refl)|done].
Qed.

Lemma wp_updateConfigFile t force bf Q w :
  content <$> fs w !! baseConfFile = Some bf →
  (t = true → base_readable w bf ∧ (force = false → flag_result bf ≠ None) ∧
     confFile_writable E ∧ (debugOnly (pod w) = true ∨ vault_up E)) →
  (∀ w' off, (force = true ∨ flag_result bf = Some true) →
     (force = true ∨ (∀ n, fs_fault E n OpSeek baseConfFile = None) → off = O) →
     conf_written off bf w w' → Q () w') →
  (∀ w', force = false → ((∀ n, fs_fault E n OpRead baseConfFile = None) → flag_result bf = Some false) →
     same_core w w' → trace w' = trace w → Q () w') →
  wp t (updateConfigFile E force) Q w.
Proof.
  intros Hbf Ht H1 H2. unfold updateConfigFile, osOpen, fault. wp_pure. cbn [tick fs next_tick].
  destruct (fs_fault E (tick w) OpOpen baseConfFile) eqn:Eo.
  { destruct t; [|done]. destruct (Ht eq_refl) as [[_ Hr] _]. by rewrite Hr in Eo. }
  rewrite Hbf. unfold deref. wp_pure.
  assert (Body : ∀ off w1, same_core w w1 → trace w1 = trace w → (tick w ≤ tick w1)%nat → (force = true ∨ flag_result bf = Some true) →
    (force = true ∨ (∀ n, fs_fault E n OpSeek baseConfFile = None) → off = O) →
    wp t (err ← osTruncate E confFile 384;
    match err with
    | Some msg => panic msg
    | None =>
      copy_base E (drop_s off bf);;
      w ← gets id;
      lr ← goRange E (rvr w);
      lp ← goRange E (pds w);
      pw ← getPasswordsWithRetries E (map BmcName lr.*2 ++ map BmcName lp.*2) 15 10;
      modify (upd_creds (set_previousPasswords pw));;
      write_endpoints E Rvr pw;;
      write_endpoints E Pds pw;;
      write_endpoints E Mtn pw
    end) Q w1).
  { intros off w1 C1 T1 K Hu Hoff. apply wp_update_body.
    - intros Et. destruct (Ht Et) as (_&_&Hw&Hv). by rewrite <- (pod_proper _ _ C1).
    - intros w' [K1 K2 K3 K4 K5 (pw&xs&n&lr&lp&lm&cp&KK)]. apply (H1 w' off); [done|done|].
      rewrite <- (rvr_proper _ _ C1), <- (pds_proper _ _ C1), <- (mtn_proper _ _ C1), T1,
        <- (creds_proper _ _ C1), <- (fs_proper _ _ C1) in KK. unfold written_mode in KK.
      rewrite <- (fs_proper _ _ C1) in KK.
      split; rewrite ?K1, ?K2, ?K3, ?K4, ?K5; try (symmetry; first [by apply nodes_proper|by apply tails_proper|
        by apply command_proper|by apply rot_proper|by apply pod_proper]).
      destruct KK as (?&?&?&?&(k&Hk&Hre)&KK). rewrite <- (pod_proper _ _ C1) in Hre.
      exists pw, xs, n, lr, lp, lm, cp. split_and!; try done; try apply KK. exists k. split; [lia|done]. }
  destruct force.
  - rewrite wp_ret. cbn [fst snd negb]. apply Body; try done; [cbn; lia|by left].
  - apply wp_willUpdateConfig; [intros Et; by apply Ht|].
    intros b off w1 C1 T1 K1 Hb Hf Hoff. destruct b; cbn [fst snd negb].
    + apply Body; [done|done|cbn in K1; lia|right; by apply Hb|]. intros [?|Hs]; [done|by apply Hoff].
    + apply wp_ret, H2; done.
Qed.

End facts.

(** *** The position of the flag *)

Definition flag : string := "UPDATE_CONFIG=".

(** The flag of a base file whose first 50 bytes hold it with its value. *)
Lemma flag_result_at pre c rest :
  pre ≠ EmptyString → no_char "U"%char pre → (String.length pre < 36)%nat →
  50 ≤ slen (pre +:+ flag +:+ String c rest) →
  flag_result (pre +:+ flag +:+ String c rest) = Some (negb (Ascii.eqb c "F"%char) && negb (Ascii.eqb c "f"%char)).
Proof.
  intros Hp Hu Hl H50. unfold flag_result. rewrite slen_take.
  destruct (Z.ltb_spec (Z.min (Z.of_nat 50) (slen (pre +:+ flag +:+ String c rest))) 50); [lia|].
  rewrite take_s_append by lia. rewrite (take_s_append _ flag) by (cbn; lia).
  replace (50 - String.length pre - String.length flag)%nat with (S (35 - String.length pre)) by (cbn; lia).
  cbn [take_s]. unfold update_flag, strIndex. rewrite index_nat_after by done.
  change "UPDATE_CONFIG="%string with flag. rewrite index_nat_head. cbn [fmap option_fmap option_map].
  rewrite Nat.add_0_r. fold (slen pre).
  assert (0 < slen pre) by (destruct pre; [done|]; unfold slen; cbn; lia).
  rewrite (proj2 (Z.ltb_lt _ _)) by lia. unfold byte_at. rewrite !slen_append.
  change (slen flag) with 14. rewrite slen_cons. pose proof (slen_nonneg (take_s (35 - String.length pre) rest)).
  destruct (Z.leb_spec 0 (slen pre + 14)); [|lia].
  match goal with |- context [slen pre + 14 <? ?b] => destruct (Z.ltb_spec (slen pre + 14) b) end; [|lia].
  cbn [andb]. rewrite <- append_assoc.
  replace (Z.to_nat (slen pre + 14)) with (String.length (pre +:+ flag))
    by (rewrite length_append; change (String.length flag) with 14%nat; unfold slen; lia).
  by rewrite get_append.
Qed.

(** With the flag ending exactly at the fiftieth byte its value is not among
    the bytes read. *)
Lemma flag_result_edge pre rest :
  no_char "U"%char pre → String.length pre = 36%nat → flag_result (pre +:+ flag +:+ rest) = None.
Proof.
  intros Hu Hl. unfold flag_result. rewrite slen_take, !slen_append. unfold slen at 1 2. rewrite Hl.
  pose proof (slen_nonneg rest). change (Z.of_nat (String.length flag)) with 14.
  destruct (Z.ltb_spec (Z.min (Z.of_nat 50) (Z.of_nat 36 + (14 + slen rest))) 50); [lia|].
  rewrite take_s_append, Hl by lia. rewrite (take_s_append _ flag) by (cbn; lia).
  change (50 - 36 - String.length flag)%nat with 0%nat. cbn [take_s].
  unfold update_flag, strIndex. rewrite index_nat_after by done.
  change "UPDATE_CONFIG="%string with flag. rewrite index_nat_head. cbn [fmap option_fmap option_map].
  rewrite Hl. change (0 <? Z.of_nat (36 + 0)) with true. unfold byte_at. rewrite !slen_append.
  unfold slen. rewrite Hl. done.
Qed.

(** *** Waiting for the keys changes files and the remembered hash only *)

(** Nothing that starts or signals a process, starts or stops a tail. *)
Definition waiting_event (ev : event) : Prop :=
  match ev with EvHttp _ _ | EvSleep _ | EvLog _ => True | _ => False end.

Definition key_frame (w w' : world) : Prop :=
  nodes w' = nodes w ∧ tails w' = tails w ∧ command w' = command w ∧ rot w' = rot w ∧ pod w' = pod w ∧
  previousPasswords (creds w') = previousPasswords (creds w) ∧
  (∀ p, p ≠ mountainConsoleKey → fs w' !! p = fs w !! p) ∧
  ∃ evs, trace w' = trace w ++ evs ∧ Forall waiting_event evs.

#[export] Instance key_frame_preorder : PreOrder key_frame.
Proof.
  split; [intros w; repeat split; exists []; by rewrite app_nil_r|].
  intros w1 w2 w3 (?&?&?&?&?&?&F1&e1&T1&W1) (?&?&?&?&?&?&F2&e2&T2&W2). repeat split; try congruence.
  - intros p Hp. by rewrite F2, F1.
  - exists (e1 ++ e2). rewrite T2, T1, app_assoc. split; [done|by apply Forall_app].
Qed.

Lemma key_frame_io evs w w' : io evs w w' → Forall waiting_event evs → key_frame w w'.
Proof.
  intros [C T] Hw. unfold key_frame. rewrite <- (nodes_proper _ _ C), <- (tails_proper _ _ C), <- (command_proper _ _ C),
    <- (rot_proper _ _ C), <- (pod_proper _ _ C), <- (creds_proper _ _ C), <- (fs_proper _ _ C). repeat split. by exists evs.
Qed.

Lemma key_frame_http o rq w w' : io (sent o rq) w w' → key_frame w w'.
Proof. intros H. apply (key_frame_io _ _ _ H). by repeat constructor. Qed.

Section conf_facts.
Context (E : env).

Lemma wp_osWriteFile_frame path data perm Q w :
  (∀ e w', only_fs w w' → trace w' = trace w → (∀ p, p ≠ path → fs w' !! p = fs w !! p) → Q e w') →
  wp false (osWriteFile E path data perm) Q w.
Proof.
  intros H. unfold osWriteFile, osTruncate, osAppend, fault. wp_pure.
  destruct (fs_fault E _ OpCreate path); wp_pure; [by apply H|].
  destruct (fs_fault E _ OpWrite path); wp_pure; (apply H; [by repeat split|done|]); intros p Hp; cbn;
    rewrite ?lookup_alter_ne, ?lookup_insert_ne by done; done.
Qed.

Lemma wp_fetch_key_frame fuel tok b Q w :
  (∀ b' w', key_frame w w' → Q b' w') → wp false (fetch_key E fuel tok b) Q w.
Proof.
  revert b w. induction fuel as [|f IH]; intros b w H; cbn [fetch_key]; [done|].
  rewrite wp_bind. apply wp_vaultExportPrivateKey; [done|]. intros o w1 n resp err _ Hio.
  pose proof (key_frame_http _ _ _ _ Hio) as F1. cbn [fst snd].
  destruct (_ =? 200).
  - rewrite wp_bind, wp_gets. case_decide; [by apply wp_ret, H|].
    rewrite wp_bind, wp_modify, wp_bind. apply wp_osWriteFile_frame. intros e w3 (En&Et&Ec&Ecr&Er&Ep) T3 Fs.
    assert (F3 : key_frame w w3).
    { etrans; [exact F1|]. unfold key_frame. rewrite En, Et, Ec, Ecr, Er, Ep, T3. repeat split; [exact Fs|].
      exists []. cbn. by rewrite app_nil_r. }
    destruct e; [|by apply wp_ret, H]. apply IH. intros b' w' F. apply H. by etrans.
  - rewrite wp_bind, wp_sleep. apply IH. intros b' w' F. apply H.
    etrans; [exact F1|]. etrans; [|exact F]. apply (key_frame_io _ _ _ (io_event _ _)). by repeat constructor.
Qed.

Lemma wp_vault_login_frame fuel tok Q w :
  (∀ v w', key_frame w w' → Q v w') → wp false (vault_login E fuel tok) Q w.
Proof.
  revert w. induction fuel as [|f IH]; intros w H; cbn [vault_login]; [done|].
  rewrite wp_bind. apply wp_postURL; [done|]. intros o w1 _ Hio _. pose proof (key_frame_http _ _ _ _ Hio) as F1.
  destruct (_ =? 200).
  - by apply wp_ret, H.
  - rewrite wp_bind, wp_sleep. apply IH. intros v w' F. apply H. etrans; [exact F1|]. etrans; [|exact F].
    apply (key_frame_io _ _ _ (io_event _ _)). by repeat constructor.
Qed.

Lemma wp_ensure_frame fuel Q w :
  (∀ b w', key_frame w w' → Q b w') → wp false (ensureMountainConsoleKeysPresent E fuel) Q w.
Proof.
  intros H. unfold ensureMountainConsoleKeysPresent. rewrite wp_bind, wp_gets. cbv beta delta [id].
  destruct (debugOnly (pod w)); [by apply wp_ret, H|]. destruct (zlen (mtn w) =? 0); [by apply wp_ret, H|].
  unfold osRead, fault. wp_pure. set (w1 := next_tick (next_tick w)).
  assert (F1 : key_frame w w1) by (etrans; apply (key_frame_io [] _ _ (io_next _)); constructor).
  match goal with |- context [match ?x with _ => _ end] => destruct x as [[tok []]|] end;
    try by apply wp_ret, H.
  rewrite wp_bind. apply wp_vault_login_frame. intros v w2 F2. apply wp_fetch_key_frame. intros b w3 F3.
  apply H. etrans; [exact F1|]. by etrans.
Qed.

(** Tailing the logs of a list of nodes. *)
Fixpoint started_events (xs : list string) (s : tailState) : list event :=
  match xs with
  | [] => []
  | x :: xs' => start_events x s ++ started_events xs' (tail_started x s)
  end.

Record started (xs : list string) (w w' : world) : Prop := {
  sd_rest : nodes w' = nodes w ∧ command w' = command w ∧ creds w' = creds w ∧ rot w' = rot w ∧
    pod w' = pod w ∧ fs w' = fs w;
  sd_tails : tails w' = foldl (λ s x, tail_started x s) (tails w) xs;
  sd_trace : trace w' = trace w ++ started_events xs (tails w)
}.

Lemma started_events_app xs ys s :
  started_events (xs ++ ys) s = started_events xs s ++ started_events ys (foldl (λ s x, tail_started x s) s xs).
Proof. revert s. induction xs as [|x xs IH]; intros s; cbn; [done|]. by rewrite IH, app_assoc. Qed.

(** The entries and the goroutines there are stay as they are. *)
Lemma started_keeps xs s : tails_ok s →
  tailThreads s ⊆ tailThreads (foldl (λ s x, tail_started x s) s xs) ∧
  lingering (foldl (λ s x, tail_started x s) s xs) = lingering s ∧
  (nextWatch s ≤ nextWatch (foldl (λ s x, tail_started x s) s xs))%nat.
Proof.
  revert s. induction xs as [|x xs IH]; intros s Hs; cbn; [done|].
  destruct (IH (tail_started x s)) as (H1&H2&H3); [by apply tails_ok_started|].
  destruct (tail_started_keeps x s) as (K1&K2&K3). split; [by etrans|]. split; [by rewrite H2|lia].
Qed.

Lemma started_events_start xs s : Forall (λ ev, ∃ id x, ev = EvWatchStart id x) (started_events xs s).
Proof.
  revert s. induction xs as [|x xs IH]; intros s; cbn; [constructor|]. apply Forall_app. split; [|apply IH].
  unfold start_events. destruct (_ !! _); repeat constructor; by do 2 eexists.
Qed.

Lemma started_all xs s :
  tails_ok s → tails_ok (foldl (λ s x, tail_started x s) s xs) ∧
  dom (tailThreads (foldl (λ s x, tail_started x s) s xs)) = list_to_set xs ∪ dom (tailThreads s) ∧
  conAggLogFile (foldl (λ s x, tail_started x s) s xs) = conAggLogFile s.
Proof.
  revert s. induction xs as [|x xs IH]; intros s Hs; cbn; [split; [done|split; [set_solver|done]]|].
  destruct (IH (tail_started x s)) as (H&Hd&Ha); [by apply tails_ok_started|].
  rewrite Hd, Ha, dom_tail_started, tail_started_file. split; [done|]. split; [set_solver|done].
Qed.

Lemma started_live xs s : tails_ok s → tails_live s → tails_live (foldl (λ s x, tail_started x s) s xs).
Proof.
  revert s. induction xs as [|x xs IH]; intros s Hs Hl; cbn; [done|].
  apply IH; [by apply tails_ok_started|by apply tails_live_started].
Qed.

Lemma started_watchers xs s : tails_ok s →
  watchers s ⊆ watchers (foldl (λ s x, tail_started x s) s xs) ∧
  ∀ x, x ∈ xs → x ∉ dom (tailThreads s) → ∃ id, watchers (foldl (λ s x, tail_started x s) s xs) !! id = Some x.
Proof.
  revert s. induction xs as [|y xs IH]; intros s Hs; cbn; [split; [done|]; by intros x ?%elem_of_nil|].
  destruct (watchers_started y s Hs) as [H1 H2]. destruct (IH (tail_started y s)) as [H3 H4]; [by apply tails_ok_started|].
  split; [by etrans|]. intros x Hx Hd. destruct (decide (x = y)) as [->|Hne].
  - destruct (H2 Hd) as [id Hid]. exists id. by eapply lookup_weaken.
  - apply H4; [by apply elem_of_cons in Hx as [?|?]|]. rewrite dom_tail_started. set_solver.
Qed.

(** A name that had no entry gets a goroutine of its own, with a number that was
    never used, and its start is recorded. *)
Lemma started_new xs s x : tails_ok s → x ∈ xs → tailThreads s !! x = None → ∃ id,
  (nextWatch s ≤ id)%nat ∧ tailThreads (foldl (λ s x, tail_started x s) s xs) !! x = Some id ∧
  watchers (foldl (λ s x, tail_started x s) s xs) !! id = Some x ∧ EvWatchStart id x ∈ started_events xs s.
Proof.
  revert s. induction xs as [|y xs IH]; intros s Hs Hx Hn; [by apply elem_of_nil in Hx|]. cbn.
  assert (Hs' : tails_ok (tail_started y s)) by by apply tails_ok_started.
  destruct (tail_started_keeps y s) as (_&_&K3). destruct (decide (x = y)) as [->|Hne].
  - exists (nextWatch s). unfold tail_started, start_events in *. rewrite Hn in *.
    destruct (started_keeps xs _ Hs') as (L1&_&_), (started_watchers xs _ Hs') as [L2 _].
    split; [done|]. split; [eapply lookup_weaken; [|exact L1]; apply lookup_insert_eq|].
    split; [eapply lookup_weaken; [|exact L2]; apply lookup_insert_eq|]. by left.
  - apply elem_of_cons in Hx as [|Hx]; [done|]. destruct (IH (tail_started y s)) as (id&H1&H2&H3&H4); [done|done| |].
    { unfold tail_started. destruct (tailThreads s !! y); [done|]. cbn. by rewrite lookup_insert_ne. }
    exists id. split; [lia|]. split; [done|]. split; [done|]. apply elem_of_app. by right.
Qed.

Lemma wp_aggregate_group t m Q w :
  (∀ l w', l ≡ₚ map_to_list m → started l.*1 w w' → Q () w') → wp t (aggregate_group E m) Q w.
Proof.
  intros H. unfold aggregate_group. rewrite wp_bind. apply wp_goRange. intros l _ Hl.
  assert (G : ∀ xs w0, (∀ w', started xs w0 w' → Q () w') →
    wp t (forEach xs (λ x, _ ← aggregateFile x; mret ())) Q w0).
  { intros xs. induction xs as [|x xs IH]; intros w0 H0; cbn [forEach].
    - apply wp_ret, H0. split; [done|done|]. by rewrite app_nil_r.
    - rewrite wp_bind, wp_bind. apply wp_aggregateFile. intros w1 (En&Et&Ec&Ecr&Er&Ep&Ef&Etr). apply wp_ret.
      apply IH. intros w2 [(?&?&?&?&?&?) T2 V2]. apply H0. split; [repeat split; congruence| |].
      + by rewrite T2, Et.
      + by rewrite V2, Etr, Et, <- app_assoc. }
  apply G. intros w' [R T V]. apply (H l w' Hl). by split.
Qed.

Lemma started_trans xs ys w w1 w2 : started xs w w1 → started ys w1 w2 → started (xs ++ ys) w w2.
Proof.
  intros [(?&?&?&?&?&?) T1 V1] [(?&?&?&?&?&?) T2 V2]. split; [repeat split; congruence|by rewrite foldl_app, T2, T1|].
  by rewrite V2, V1, T1, started_events_app, app_assoc.
Qed.

(** Every watched node is tailed. *)
Lemma wp_aggregate_all t Q w :
  (∀ xs w', list_to_set xs = all_names w → started xs w w' → Q () w') → wp t (aggregate_all E) Q w.
Proof.
  intros H. unfold aggregate_all. rewrite wp_bind, wp_gets. cbv beta delta [id].
  rewrite wp_bind. apply wp_aggregate_group. intros lr w2 Hr S2.
  rewrite wp_bind. apply wp_aggregate_group. intros lp w3 Hp S3.
  apply wp_aggregate_group. intros lm w4 Hm S4.
  apply (H (lr.*1 ++ lp.*1 ++ lm.*1)); [|eapply started_trans; [exact S2|by eapply started_trans]].
  rewrite !list_to_set_app_L, (range_fst_dom _ _ Hr), (range_fst_dom _ _ Hp), (range_fst_dom _ _ Hm).
  unfold all_names. set_solver.
Qed.

End conf_facts.
