(* ===== verification/ConmanProps.v ===== *)
(** * Properties of the conmand configuration

    The configuration file, the update flag, [configConman] and the turns of
    [runConman]. *)

From S2P Require Import Prelude GoStrings World HttpUtils Files LogAggregation ConmanProc Creds.
From S2P Require Import Nodes NodesFacts Demo ConmanConfig.
From Stdlib Require Import ZArith Lia Ascii.
From stdpp Require Import base numbers strings gmap sets list.

Local Open Scope Z_scope.

(** ** The file *)

(** C4: an update that nothing disturbs asks vault, after it began and until
    every name has an entry or fifteen tries are used, for exactly the BMCs of
    the watched River and Paradise nodes, remembers the answer, and writes the
    base file followed by one line for each River, each Paradise and each
    Mountain node, with the credentials of that answer for its BMC; it keeps
    everything else. *)
Theorem updateConfigFile_contents (E : env) force bf w :
  base_readable E w bf → (force = true ∨ flag_result bf = Some true) →
  (∀ n, fs_fault E n OpRead baseConfFile = None ∧ fs_fault E n OpSeek baseConfFile = None ∧
     read_limit E n baseConfFile = None) →
  confFile_writable E → (debugOnly (pod w) = true ∨ vault_up E) →
  ∃ w' xs k pw n lr lp lm, updateConfigFile E force w = Done () w' ∧
    xs ≡ₚ map BmcName (map_to_list (rvr w)).*2 ++ map BmcName (map_to_list (pds w)).*2 ∧
    (tick w ≤ k)%nat ∧ retried E (debugOnly (pod w)) k xs 15 pw n ∧
    lr ≡ₚ map_to_list (rvr w) ∧ lp ≡ₚ map_to_list (pds w) ∧ lm ≡ₚ map_to_list (mtn w) ∧
    fs w' = <[confFile := File (bf +:+ group_text Rvr pw lr.*2 +:+ group_text Pds pw lp.*2 +:+ group_text Mtn pw lm.*2)
      (written_mode E w confFile 384)]> (fs w) ∧
    creds w' = set_previousPasswords pw (creds w) ∧
    nodes w' = nodes w ∧ tails w' = tails w ∧ command w' = command w ∧ pod w' = pod w ∧ rot w' = rot w.
Proof.
  intros Hb Hu Hf Hw Hv.
  assert (H : wp true (updateConfigFile E force) (λ _ w', conf_written E 0 bf w w') w).
  { apply (wp_updateConfigFile E true force bf).
    - apply Hb.
    - intros _. split; [done|]. split; [|done]. intros ->. destruct Hu as [|Hu]; [done|]. by rewrite Hu.
    - intros w' off _ Ho K. rewrite Ho in K; [done|]. destruct Hu as [->|]; [by left|]. right. apply Hf.
    - intros w' -> Hno _ _. destruct Hu as [|Hu]; [done|]. rewrite Hu in Hno. discriminate Hno. intros n. apply Hf. }
  apply wp_total_done in H
    as ([]&w'&H&[K1 K2 K3 K4 K5 (pw&xs&n&lr&lp&lm&cp&Hxs&Hr&Hp&Hm&(k&Hk&Hre)&Hc&Hcr&Hfs&_)]).
  exists w', xs, k, pw, n, lr, lp, lm. split_and!; try done.
  rewrite Hfs. destruct Hc as [->|(j&i&Hl&_)]; [by cbn [drop_s]|]. destruct (Hf j) as (_&_&Hn). congruence.
Qed.

(** C20: the log never shows a password: everything an update logs is, for each
    watched node once, the line with the word REDACTED in place of the
    password (and, without credentials, one that says so), computed from the
    node and the user names alone; and it waits at most fifteen times ten
    seconds for the credentials. *)
Theorem updateConfigFile_redacts (E : env) force bf w :
  content <$> fs w !! baseConfFile = Some bf →
  wp false (updateConfigFile E force) (λ _ w', ∃ users n ns1 ns2 ns3 evs,
    users = users_of (previousPasswords (creds w')) ∧ (n ≤ 15)%nat ∧
    ns1 ≡ₚ (map_to_list (rvr w)).*2 ∧ ns2 ≡ₚ (map_to_list (pds w)).*2 ∧ ns3 ≡ₚ (map_to_list (mtn w)).*2 ∧
    trace w' = trace w ++ evs ∧
    (evs = [] ∨ evs = repeat (EvSleep (10 * second)) n ++
      group_logs Rvr users ns1 ++ group_logs Pds users ns2 ++ group_logs Mtn users ns3)) w.
Proof.
  intros Hb. apply (wp_updateConfigFile E false force bf); [done|done| |].
  - intros w' off _ _ [_ _ _ _ _ (pw&xs&n&lr&lp&lm&cp&_&Hr&Hp&Hm&(k&_&Hre)&_&Hcr&_&T)].
    exists (users_of (previousPasswords (creds w'))), n, lr.*2, lp.*2, lm.*2. eexists. rewrite Hcr.
    split; [done|]. split; [apply (rr_bound _ _ _ _ _ _ _ Hre)|].
    split; [by rewrite Hr|]. split; [by rewrite Hp|]. split; [by rewrite Hm|].
    split; [exact T|]. right. change (i64 (10 * second)) with (10 * second). done.
  - intros w' _ _ C T. exists (users_of (previousPasswords (creds w'))), O.
    exists (map_to_list (rvr w)).*2, (map_to_list (pds w)).*2, (map_to_list (mtn w)).*2, [].
    split; [done|]. split; [lia|]. do 3 (split; [done|]). split; [by rewrite T, app_nil_r|by left].
Qed.

(** The two sides of the redaction: credentials with the same user names
    give the same log lines, whatever the passwords. *)
Theorem group_logs_noninterference p (pw1 pw2 : gmap string CompCredentials) ns :
  (∀ x, Username <$> pw1 !! x = Username <$> pw2 !! x) →
  group_logs p (users_of (Some pw1)) ns = group_logs p (users_of (Some pw2)) ns.
Proof.
  intros H. assert (Hu : users_of (Some pw1) = users_of (Some pw2)); [|by rewrite Hu].
  apply map_eq. intros x. unfold users_of. cbn. by rewrite !lookup_fmap, H.
Qed.

(** UPDATE_CONFIG=F (or f) after at least one byte in the head of the base
    file keeps the configuration as it is, except for a forced update. *)
Theorem updateConfigFile_skips (E : env) pre c rest w :
  pre ≠ EmptyString → no_char "U"%char pre → (String.length pre < 36)%nat →
  50 ≤ slen (pre +:+ flag +:+ String c rest) → (c = "F"%char ∨ c = "f"%char) →
  base_readable E w (pre +:+ flag +:+ String c rest) →
  ∃ w', updateConfigFile E false w = Done () w' ∧ same_core w w' ∧ trace w' = trace w.
Proof.
  intros Hp Hu Hl H50 Hc Hb. pose proof (flag_result_at pre c rest Hp Hu Hl H50) as Hf.
  assert (Hf' : flag_result (pre +:+ flag +:+ String c rest) = Some false) by (rewrite Hf; by destruct Hc as [-> | ->]).
  unfold updateConfigFile, osOpen, fault, mbind, M_bind, next, gets, mret, M_ret, deref. cbn [fs next_tick tick].
  rewrite (proj2 Hb), (proj1 Hb).
  assert (H : wp true (willUpdateConfig E (pre +:+ flag +:+ String c rest)) (λ u w', u.1 = false ∧ same_core w w' ∧
    trace w' = trace w) (next_tick w)).
  { apply wp_willUpdateConfig; [by rewrite Hf'|]. intros b off w' C T _ Hbt _ _.
    split; [|by split]. destruct b; [|done]. rewrite Hf' in Hbt. by specialize (Hbt eq_refl). }
  apply wp_total_done in H as ([b off]&w'&H&Hb1&C&T). cbn in Hb1. subst b. unfold mret, M_ret. cbv beta iota. rewrite H. cbn [fst negb]. eauto.
Qed.

(** A flag that ends exactly at the fiftieth byte crashes the configuration
    thread: its value is looked for behind the bytes that were read. *)
Theorem updateConfigFile_flag_at_edge (E : env) pre rest w :
  no_char "U"%char pre → String.length pre = 36%nat → base_readable E w (pre +:+ flag +:+ rest) →
  (∀ n, fs_fault E n OpRead baseConfFile = None) →
  ∃ w', updateConfigFile E false w = Panic "index out of range" w'.
Proof.
  intros Hu Hl Hb Hr. pose proof (flag_result_edge pre rest Hu Hl) as Hf.
  unfold updateConfigFile, osOpen, fault, mbind, M_bind, next, gets, mret, M_ret, deref. cbn [fs next_tick tick].
  rewrite (proj2 Hb), (proj1 Hb).
  unfold willUpdateConfig, fault, mbind, M_bind, next, mret, M_ret.
  cbv beta iota. rewrite Hr.
  unfold flag_result in Hf. destruct (slen (take_s 50 _) <? 50); [done|]. rewrite Hf. by eexists.
Qed.

(** ** Configuring and running *)

Lemma same_pools_nodes w w' : nodes w' = nodes w → same_pools w w'.
Proof. intros H p. destruct p; cbn; unfold rvr, pds, mtn; by rewrite H. Qed.

Lemma group_sizes w :
  (0 <? zlen (mtn w) + zlen (rvr w) + zlen (pds w)) = negb (bool_decide (all_names w = ∅)).
Proof.
  pose proof (zlen_nonneg (mtn w)). pose proof (zlen_nonneg (rvr w)). pose proof (zlen_nonneg (pds w)).
  destruct (Z.ltb_spec 0 (zlen (mtn w) + zlen (rvr w) + zlen (pds w))) as [Hl|Hl]; symmetry.
  - apply negb_true_iff, bool_decide_eq_false. intros He. unfold all_names in He.
    assert (Hd : dom (mtn w) = ∅ ∧ dom (rvr w) = ∅ ∧ dom (pds w) = ∅) by set_solver.
    destruct Hd as (Hm%dom_empty_inv_L&Hr%dom_empty_inv_L&Hp%dom_empty_inv_L).
    revert Hl. unfold zlen. rewrite Hm, Hr, Hp, !map_size_empty. lia.
  - apply negb_false_iff, bool_decide_eq_true. unfold all_names.
    assert (Hm : mtn w = ∅) by (apply zlen_zero_empty; lia).
    assert (Hr : rvr w = ∅) by (apply zlen_zero_empty; lia).
    assert (Hp : pds w = ∅) by (apply zlen_zero_empty; lia).
    rewrite Hm, Hr, Hp, !dom_empty_L. set_solver.
Qed.

(** What a configuration leaves of the pod, and what it does meanwhile: it asks,
    waits and logs, then tails, then asks and waits for the keys. *)
Record configured (w w' : world) : Prop := {
  cf_pools : nodes w' = nodes w;
  cf_command : command w' = command w;
  cf_pod : pod w' = pod w;
  cf_tails : ∃ xs, list_to_set xs = all_names w ∧ tails w' = foldl (λ s x, tail_started x s) (tails w) xs ∧
    ∃ evs1 evs2, trace w' = trace w ++ evs1 ++ started_events xs (tails w) ++ evs2 ∧
      Forall waiting_event evs1 ∧ Forall waiting_event evs2
}.

Lemma group_logs_waiting p users ns : Forall waiting_event (group_logs p users ns).
Proof.
  unfold group_logs. induction ns as [|n ns IH]; cbn; [constructor|]. apply Forall_app. split; [|done].
  unfold endpoint_logs. destruct (decide _); by repeat constructor.
Qed.

Lemma sleeps_waiting d n : Forall waiting_event (repeat (EvSleep d) n).
Proof. induction n; by repeat constructor. Qed.

Lemma wp_configConman E fuel force Q w :
  (∀ w', configured w w' → Q (negb (bool_decide (all_names w = ∅))) w') →
  wp false (configConman E fuel force) Q w.
Proof.
  intros H. unfold configConman. rewrite wp_bind.
  assert (Go : ∀ w1 evs1, nodes w1 = nodes w → tails w1 = tails w → command w1 = command w → pod w1 = pod w →
    trace w1 = trace w ++ evs1 → Forall waiting_event evs1 →
    wp false (aggregate_all E;;
      _ ← ensureMountainConsoleKeysPresent E fuel; w' ← gets id;
      mret (0 <? zlen (mtn w') + zlen (rvr w') + zlen (pds w'))) Q w1).
  { intros w1 evs1 En Et Ec Ep T1 W1. rewrite wp_bind. apply wp_aggregate_all. intros xs w4 Hxs [(N4&C4&_&_&P4&_) T4 V4].
    rewrite wp_bind. apply wp_ensure_frame. intros b w5 (N5&T5&C5&_&P5&_&_&evs2&V5&W2).
    rewrite wp_bind, wp_gets. cbv beta delta [id]. apply wp_ret. rewrite group_sizes.
    assert (Nn : nodes w5 = nodes w) by congruence.
    rewrite (same_pools_names w w5) by by apply same_pools_nodes.
    apply H. split; [done|congruence|congruence|].
    exists xs. split; [|split; [by rewrite T5, T4, Et|]].
    - rewrite Hxs. apply same_pools_names. by apply same_pools_nodes.
    - exists evs1, evs2. split; [|done]. by rewrite V5, V4, T1, Et, <- !app_assoc. }
  destruct (fs w !! baseConfFile) as [f|] eqn:Ef.
  - apply (wp_updateConfigFile E false force (content f)); [by rewrite Ef|done| |].
    + intros w1 off _ _ [En Et Ec _ Ep (pw&xs&n&lr&lp&lm&cp&_&_&_&_&_&_&_&_&T)]. eapply Go; try done.
      rewrite !Forall_app. split_and!; auto using group_logs_waiting, sleeps_waiting.
    + intros w1 _ _ C T. apply (Go w1 []); try (symmetry; first [by apply nodes_proper|by apply tails_proper|
        by apply command_proper|by apply pod_proper]); [by rewrite T, app_nil_r|constructor].
  - unfold updateConfigFile, osOpen, fault. wp_pure. cbn [tick fs next_tick]. rewrite Ef.
    by destruct (fs_fault E (tick w) OpOpen baseConfFile).
Qed.

Lemma configured_inv w w' : configured w w' → pod_inv w → pod_inv w' ∧ dom (tailThreads (tails w')) = all_names w'.
Proof.
  intros [En _ _ (xs&Hx&Ht&_)] [Hn Hok Hs].
  destruct (started_all xs (tails w) Hok) as (Ok'&Hd&_). pose proof (same_pools_nodes _ _ En) as Hp.
  assert (Hd' : dom (tailThreads (tails w')) = all_names w').
  { rewrite Ht, Hd, Hx, (same_pools_names _ _ Hp). set_solver. }
  split; [|done]. split; [|by rewrite Ht|by rewrite Hd'].
  intros p k n. rewrite Hp. apply Hn.
Qed.

(** A goroutine of its own for a name that had none: with a number never used
    before, entered in the table, running. *)
Definition tails_new (s s' : tailState) (x : string) (id : nat) : Prop :=
  (nextWatch s ≤ id)%nat ∧ tailThreads s' !! x = Some id ∧ watchers s' !! id = Some x.

(** C18: a configuration tails exactly the watched nodes: a node that was in
    the table keeps its entry, a goroutine that runs goes on (none is told to
    stop), and a watched node that was not in the table gets a goroutine of its
    own with a new number; the answer says whether there is any node; the
    groups are untouched and the invariant is kept. *)
Theorem configConman_spec (E : env) fuel force w :
  pod_inv w →
  wp false (configConman E fuel force) (λ hasNodes w',
    hasNodes = negb (bool_decide (all_names w = ∅)) ∧ nodes w' = nodes w ∧
    dom (tailThreads (tails w')) = all_names w ∧ tailThreads (tails w) ⊆ tailThreads (tails w') ∧
    watchers (tails w) ⊆ watchers (tails w') ∧ lingering (tails w') = lingering (tails w) ∧
    (∀ x, x ∈ all_names w → tailThreads (tails w) !! x = None → ∃ id, tails_new (tails w) (tails w') x id) ∧
    pod_inv w') w.
Proof.
  intros Hi. apply wp_configConman. intros w' C. destruct (configured_inv _ _ C Hi) as [Hi' Hd].
  split; [done|]. split; [apply C|]. split; [by rewrite Hd, (same_pools_names _ _ (same_pools_nodes _ _ (cf_pools _ _ C)))|].
  destruct (cf_tails _ _ C) as (xs&Hxs&Et&_). pose proof (pi_tails _ Hi) as Hok. rewrite Et.
  destruct (started_keeps xs _ Hok) as (K1&K2&_), (started_watchers xs _ Hok) as [K3 _].
  do 3 (split; [done|]). split; [|done]. intros x Hx Hn. rewrite <- Hxs in Hx. apply elem_of_list_to_set in Hx.
  destruct (started_new xs _ x Hok Hx Hn) as (id&?&?&?&_). by exists id.
Qed.

(** What a turn does after the configuration. *)
Definition turn_events (debug hasNodes wait_err : bool) : list event :=
  (if debug then [EvSleep (25 * second)]
   else if negb hasNodes then [EvSleep (30 * second)]
   else EvExec ["conmand"; "-F"; "-v"; "-c"; confFile] :: if wait_err then [EvSleep (15 * second)] else []) ++
  [EvSleep (10 * second)].

(** C13: a turn of the conmand thread first configures (it asks, waits, logs and
    starts a goroutine for each watched node that had none, and neither starts
    nor signals a process), and then starts conmand exactly when it is not in
    debug mode and there is a node to watch, and waits otherwise; the process
    is gone and forgotten when the turn ends. *)
Theorem runConman_turn_spec (E : env) fuel force r w :
  pod_inv w → command w = CmdNil →
  wp false (runConman_turn E fuel force r) (λ _ w', ∃ evsC,
    trace w' = trace w ++ evsC ++ turn_events (debugOnly (pod w)) (negb (bool_decide (all_names w = ∅))) (wait_err r) ∧
    Forall (λ ev, waiting_event ev ∨ ∃ id x, ev = EvWatchStart id x) evsC ∧
    (∀ x, x ∈ all_names w → tailThreads (tails w) !! x = None → ∃ id,
       tails_new (tails w) (tails w') x id ∧ EvWatchStart id x ∈ evsC) ∧
    pod_inv w' ∧ dom (tailThreads (tails w')) = all_names w ∧ nodes w' = nodes w ∧ command w' = CmdNil) w.
Proof.
  intros Hi Hc. unfold runConman_turn. rewrite wp_bind. apply wp_configConman. intros w1 C.
  destruct (configured_inv _ _ C Hi) as [Hi1 Hd1].
  rewrite (same_pools_names _ _ (same_pools_nodes _ _ (cf_pools _ _ C))) in Hd1.
  pose proof (cf_command _ _ C) as Ec. rewrite wp_bind, wp_gets, wp_bind. rewrite (cf_pod _ _ C).
  set (tev := turn_events (debugOnly (pod w)) (negb (bool_decide (all_names w = ∅))) (wait_err r)).
  assert (Fin : ∀ w2, tails w2 = tails w1 → nodes w2 = nodes w1 → command w2 = CmdNil → trace w2 = trace w1 ++ tev →
    ∃ evsC, trace w2 = trace w ++ evsC ++ tev ∧
      Forall (λ ev, waiting_event ev ∨ ∃ id x, ev = EvWatchStart id x) evsC ∧
      (∀ x, x ∈ all_names w → tailThreads (tails w) !! x = None → ∃ id,
         tails_new (tails w) (tails w2) x id ∧ EvWatchStart id x ∈ evsC) ∧
      pod_inv w2 ∧ dom (tailThreads (tails w2)) = all_names w ∧ nodes w2 = nodes w ∧ command w2 = CmdNil).
  { intros w2 Et En Ec2 T. destruct (cf_tails _ _ C) as (xs&Hxs&Et1&evs1&evs2&T1&W1&W2).
    exists (evs1 ++ started_events xs (tails w) ++ evs2). split; [by rewrite T, T1, <- !app_assoc|]. split.
    { rewrite !Forall_app. split_and!; (eapply Forall_impl; [eassumption||apply started_events_start|]); auto. }
    split; [|split; [|by rewrite Et, En, (cf_pools _ _ C)]].
    - intros x Hx Hn. rewrite <- Hxs in Hx. apply elem_of_list_to_set in Hx.
      destruct (started_new xs _ x (pi_tails _ Hi) Hx Hn) as (id&H1&H2&H3&H4). exists id. rewrite Et, Et1.
      split; [done|]. rewrite !elem_of_app. auto.
    - apply (pod_inv_same w1); [by apply same_pools_nodes|done|done]. }
  unfold tev, turn_events in *. clear tev. destruct (debugOnly (pod w)).
  { wp_pure. apply Fin; try done; [by cbn; rewrite Ec|cbn; by rewrite <- app_assoc]. }
  rewrite negb_involutive in *. case_bool_decide as Hn.
  { wp_pure. apply Fin; try done; [by cbn; rewrite Ec|cbn; by rewrite <- app_assoc]. }
  unfold executeConman, create_command, start_command, exit_command, reset_command.
  destruct (pipe_ok r); cbn [negb]; [|done]. destruct (start_ok r); cbn [negb]; [|done].
  wp_pure. destruct (wait_err r); wp_pure; (apply Fin; try done; cbn; by rewrite <- !app_assoc).
Qed.

(** ** Witnesses *)

Definition base_text : string :=
  "# conman base file" +:+ String nl "UPDATE_CONFIG=TRUE and some more text to fill the head" +:+ String nl EmptyString.
Definition base_skip : string :=
  "# conman base file" +:+ String nl "UPDATE_CONFIG=FALSE and some more text to fill the head" +:+ String nl EmptyString.
Definition base_edge : string :=
  "# a comment line that is 36 bytes lo" +:+ flag +:+ "TRUE" +:+ String nl EmptyString.

Definition conf_env : env := vault_env "key" (λ _ _, None).

Definition conf_world (base : string) : world := upd_fs <[baseConfFile := File base 420]> small_world.

Lemma conf_inv base : pod_inv (conf_world base).
Proof.
  eapply (pod_inv_same small_world); [by intros []|done|]. split.
  - intros p k n Hk. destruct p; cbn in Hk; rewrite lookup_insert_Some, lookup_empty in Hk;
      destruct Hk as [[<- <-]|[_ Hk]]; try done.
  - split; cbn; intros *; by rewrite lookup_empty.
  - done.
Qed.

Lemma updateConfigFile_contents_witness :
  flag_result base_text = Some true ∧
  ∃ w' xs k pw n lr lp lm, updateConfigFile conf_env false (conf_world base_text) = Done () w' ∧
    xs ≡ₚ map BmcName (map_to_list (rvr (conf_world base_text))).*2 ++ map BmcName (map_to_list (pds (conf_world base_text))).*2 ∧
    (0 ≤ k)%nat ∧ retried conf_env false k xs 15 pw n ∧
    lr ≡ₚ map_to_list (rvr (conf_world base_text)) ∧ lp ≡ₚ map_to_list (pds (conf_world base_text)) ∧
    lm ≡ₚ map_to_list (mtn (conf_world base_text)) ∧
    fs w' = <[confFile := File (base_text +:+ group_text Rvr pw lr.*2 +:+ group_text Pds pw lp.*2 +:+ group_text Mtn pw lm.*2)
      (written_mode conf_env (conf_world base_text) confFile 384)]> (fs (conf_world base_text)) ∧
    creds w' = set_previousPasswords pw (creds (conf_world base_text)) ∧ nodes w' = nodes (conf_world base_text) ∧
    tails w' = tails (conf_world base_text) ∧ command w' = command (conf_world base_text) ∧
    pod w' = pod (conf_world base_text) ∧ rot w' = rot (conf_world base_text).
Proof.
  split; [by vm_compute|].
  apply (updateConfigFile_contents conf_env false base_text (conf_world base_text)).
  - split; [reflexivity|done].
  - right. by vm_compute.
  - done.
  - done.
  - right. split; [done|]. intros n xs. by eexists.
Defined.

Lemma updateConfigFile_redacts_witness :
  wp false (updateConfigFile conf_env true) (λ _ w', ∃ users n ns1 ns2 ns3 evs,
    users = users_of (previousPasswords (creds w')) ∧ (n ≤ 15)%nat ∧
    ns1 ≡ₚ (map_to_list (rvr (conf_world base_text))).*2 ∧ ns2 ≡ₚ (map_to_list (pds (conf_world base_text))).*2 ∧
    ns3 ≡ₚ (map_to_list (mtn (conf_world base_text))).*2 ∧
    trace w' = [] ++ evs ∧
    (evs = [] ∨ evs = repeat (EvSleep (10 * second)) n ++
      group_logs Rvr users ns1 ++ group_logs Pds users ns2 ++ group_logs Mtn users ns3)) (conf_world base_text).
Proof. apply (updateConfigFile_redacts conf_env true base_text (conf_world base_text)). reflexivity. Defined.

(** A password changes the file and not the log. *)
Lemma group_logs_noninterference_witness :
  group_logs Rvr (users_of (Some {["x3000b0" := Creds "root" "secret"]})) [demo_node "x3000" "River" 2] =
  group_logs Rvr (users_of (Some {["x3000b0" := Creds "root" "other"]})) [demo_node "x3000" "River" 2].
Proof.
  apply group_logs_noninterference. intros x. destruct (decide (x = "x3000b0"%string)) as [->|Hx].
  - by rewrite !lookup_singleton_eq.
  - by rewrite !lookup_singleton_ne.
Defined.

Lemma updateConfigFile_skips_witness :
  ∃ w', updateConfigFile conf_env false (conf_world base_skip) = Done () w' ∧
    same_core (conf_world base_skip) w' ∧ trace w' = trace (conf_world base_skip).
Proof.
  apply (updateConfigFile_skips conf_env ("# conman base file" +:+ String nl EmptyString) "F"%char
    ("ALSE and some more text to fill the head" +:+ String nl EmptyString)).
  - done.
  - cbn. repeat split; discriminate.
  - apply Nat.ltb_lt; by vm_compute.
  - by vm_compute.
  - by left.
  - split; [reflexivity|done].
Defined.

Lemma updateConfigFile_flag_at_edge_witness :
  ∃ w', updateConfigFile conf_env false (conf_world base_edge) = Panic "index out of range" w'.
Proof.
  apply (updateConfigFile_flag_at_edge conf_env "# a comment line that is 36 bytes lo" ("TRUE" +:+ String nl EmptyString)).
  - cbn. repeat split; discriminate.
  - done.
  - split; [reflexivity|done].
  - done.
Defined.

(** A pod in which one of the nodes is tailed already. *)
Definition tailed_world : world := upd_tails (start_watch "x3000") (upd_command (λ _, CmdNil) (conf_world base_text)).

Lemma tailed_inv : pod_inv tailed_world.
Proof.
  destruct (conf_inv base_text) as [Hn Ht Hs]. split.
  - intros p k n. apply (Hn p).
  - by apply tails_ok_start.
  - change (dom (<["x3000"%string := 0%nat]> (∅ : gmap string nat)) ⊆ all_names (conf_world base_text)).
    rewrite dom_insert_L, dom_empty_L. intros x Hx. assert (x = "x3000"%string) as -> by set_solver.
    apply elem_of_all_names. exists Rvr. by eexists.
Qed.

Lemma configConman_spec_witness :
  wp false (configConman conf_env 1 true) (λ hasNodes w',
    hasNodes = negb (bool_decide (all_names tailed_world = ∅)) ∧ nodes w' = nodes tailed_world ∧
    dom (tailThreads (tails w')) = all_names tailed_world ∧ tailThreads (tails tailed_world) ⊆ tailThreads (tails w') ∧
    watchers (tails tailed_world) ⊆ watchers (tails w') ∧ lingering (tails w') = lingering (tails tailed_world) ∧
    (∀ x, x ∈ all_names tailed_world → tailThreads (tails tailed_world) !! x = None →
       ∃ id, tails_new (tails tailed_world) (tails w') x id) ∧
    pod_inv w') tailed_world.
Proof. exact (configConman_spec conf_env 1 true tailed_world tailed_inv). Defined.

Lemma runConman_turn_spec_witness :
  wp false (runConman_turn conf_env 1 true (RunFate true true true)) (λ _ w', ∃ evsC,
    trace w' = trace tailed_world ++ evsC ++
      turn_events (debugOnly (pod tailed_world)) (negb (bool_decide (all_names tailed_world = ∅))) true ∧
    Forall (λ ev, waiting_event ev ∨ ∃ id x, ev = EvWatchStart id x) evsC ∧
    (∀ x, x ∈ all_names tailed_world → tailThreads (tails tailed_world) !! x = None → ∃ id,
       tails_new (tails tailed_world) (tails w') x id ∧ EvWatchStart id x ∈ evsC) ∧
    pod_inv w' ∧ dom (tailThreads (tails w')) = all_names tailed_world ∧ nodes w' = nodes tailed_world ∧
    command w' = CmdNil) tailed_world.
Proof. exact (runConman_turn_spec conf_env 1 true (RunFate true true true) tailed_world tailed_inv eq_refl). Defined.

(** The same turn, evaluated: the conman file of a pod with one node of each
    group, and what the thread did. *)
Example run_turn_result :
  match runConman_turn (env_http (λ _ _, Response 200 "{}")) 1 true (RunFate true true false)
    (upd_pod (set_podLocData None) (upd_command (λ _, CmdNil) (conf_world base_skip))) with
  | Done _ w' => bool_decide (dom (tailThreads (tails w')) = {["x2000"; "x3000"; "x4000"]}) = true
  | _ => False
  end.
Proof. by vm_compute. Qed.
