(* ===== verification/LogRotation.v ===== *)
(** * Log rotation: src/src/console_node/logRotation.go

    Running logrotate and reading its state file to learn which logs were
    rotated.  (The configuration it is given is in LogRotateConf.v.) *)

From S2P Require Import Prelude GoStrings GoTime World Files LogAggregation LogRotateConf.
From S2P Require Import ConmanProc Nodes NodesFacts PodSetup Demo.
From Stdlib Require Import ZArith Lia Ascii.
From stdpp Require Import base numbers strings gmap sets list.

Local Open Scope Z_scope.

Definition filePrefix : string := "/var/log/conman/console.".

(** [strings.ToLower]: only ASCII letters matter below, since no other
    character has a lower case among the letters of true. *)
Definition lower (a : ascii) : ascii :=
  if (65 <=? code a) && (code a <=? 90) then ascii_of_N (Z.to_N (code a + 32)) else a.

Fixpoint ToLower (s : string) : string :=
  match s with EmptyString => EmptyString | String a r => String (lower a) (ToLower r) end.

(** [isTrue] *)
Definition isTrue (str : string) : bool :=
  let lStr := ToLower str in
  ((slen lStr =? 1) && match lStr with
     | String a _ => Ascii.eqb a "t"%char || Ascii.eqb a "1"%char
     | EmptyString => false
     end)
  || ((1 <? slen lStr) && bool_decide (lStr = "true"%string)).

Definition set_logRotEnabled (b : bool) (r : rotState) : rotState :=
  RotState b (logRotCheckFreqSec r) (logRotConFileSize r) (logRotConNumRotate r) (logRotAggFileSize r) (logRotAggNumRotate r).
Definition set_logRotConFileSize (s : string) (r : rotState) : rotState :=
  RotState (logRotEnabled r) (logRotCheckFreqSec r) s (logRotConNumRotate r) (logRotAggFileSize r) (logRotAggNumRotate r).
Definition set_logRotCheckFreqSec (n : Z) (r : rotState) : rotState :=
  RotState (logRotEnabled r) n (logRotConFileSize r) (logRotConNumRotate r) (logRotAggFileSize r) (logRotAggNumRotate r).
Definition set_logRotConNumRotate (n : Z) (r : rotState) : rotState :=
  RotState (logRotEnabled r) (logRotCheckFreqSec r) (logRotConFileSize r) n (logRotAggFileSize r) (logRotAggNumRotate r).

(** The initial values of the package's variables. *)
Definition initial_rot : rotState := RotState true 600 "5M" 2 "20M" 1.

(** Time stamps by log name; instants in Unix seconds. *)
Notation stamps := (gmap string Z).

Section rotation.
Context (E : env).

(** The settings [logRotate] takes from the environment. *)
Definition rot_settings (r : rotState) : rotState :=
  let r := match getenv E "LOG_ROTATE_ENABLE" with EmptyString => r | v => set_logRotEnabled (isTrue v) r end in
  let r := match getenv E "LOG_ROTATE_FILE_SIZE" with EmptyString => r | v => set_logRotConFileSize v r end in
  let r := match getenv E "LOG_ROTATE_SEC_FREQ" with
           | EmptyString => r
           | v => match Atoi v with (n, None) => set_logRotCheckFreqSec n r | _ => r end
           end in
  match getenv E "LOG_ROTATE_NUM_KEEP" with
  | EmptyString => r
  | v => match Atoi v with (n, None) => set_logRotConNumRotate n r | _ => r end
  end.

(** [logRotate], which then starts the thread [doLogRotate]. *)
Definition logRotate : M () :=
  _ ← ensureDirPresent E logRotDir 493;
  modify (upd_rot rot_settings);;
  doInitialConfFileUpdate E.

(** [parseTimestamp]: the name of the log, its time stamp, and whether the line
    is about a console log or about the aggregation log. *)
Definition parseTimestamp (ln : string) : M (string * option Z * bool * bool) :=
  conAgg ← gets (conAggLogFile ∘ tails);
  let finish (nodeName timeStampStr : string) (isCon isAgg : bool) : M (string * option Z * bool * bool) :=
    mret match scan_timestamp timeStampStr with
         | None => (nodeName, None, false, false)
         | Some c => (nodeName, Some (civil_date (zone_lookup E) c), isCon, isAgg)
         end in
  let pos := strIndex ln filePrefix in
  if negb (pos =? -1) then
    let nodeStPos := pos + slen filePrefix in
    tl ← deref "slice bounds out of range" (slice_from ln nodeStPos);
    let posQ2 := strIndex tl (qs "'") in
    if posQ2 =? -1 then mret (EmptyString, None, false, false) else
    let posQ2 := posQ2 + nodeStPos in
    nodeName ← deref "slice bounds out of range" (slice ln nodeStPos posQ2);
    timeStampStr ← deref "slice bounds out of range" (slice_from ln (posQ2 + 2));
    finish nodeName timeStampStr true false
  else
    let pos := strIndex ln conAgg in
    if pos =? -1 then mret (EmptyString, None, false, false) else
    timeStampStr ← deref "slice bounds out of range" (slice_from ln (slen conAgg + pos + 2));
    finish "consoleAgg.log" timeStampStr false true.

(** The loop of [readLogRotTimestamps] over the lines read. *)
Fixpoint read_stamps (lines : list string) (fileStamp : stamps) (conChanged aggChanged : bool)
    : M (stamps * bool * bool) :=
  match lines with
  | [] => mret (fileStamp, conChanged, aggChanged)
  | ln :: lines' =>
    p ← parseTimestamp ln;
    match p with
    | (fileName, Some fd, isCon, isAgg) =>
      if isCon || isAgg then
        if decide (fileStamp !! fileName = Some fd) then read_stamps lines' fileStamp conChanged aggChanged
        else read_stamps lines' (<[fileName := fd]> fileStamp)
          (if isCon then true else conChanged) (if isCon then aggChanged else true)
      else read_stamps lines' fileStamp conChanged aggChanged
    | _ => read_stamps lines' fileStamp conChanged aggChanged
    end
  end.

(** [readLogRotTimestamps] *)
Definition readLogRotTimestamps (fileStamp : stamps) : M (stamps * bool * bool) :=
  sf ← osRead E logRotStateFile;
  match sf with
  | None => mret (fileStamp, false, false)
  | Some (data, _) => read_stamps (read_lines data) fileStamp false false
  end.

Definition logrotate_argv : list string := ["logrotate"; "-s"; logRotStateFile; logRotConfFile].

(** [rotateLogsOnce]; the exit code is only logged. *)
Definition rotateLogsOnce (fileStamp : stamps) : M stamps :=
  _ ← run_external E logrotate_argv;
  r ← readLogRotTimestamps fileStamp;
  let '(fileStamp, conChanged, aggChanged) := r in
  (if conChanged || aggChanged then
     sleep (5 * second);;
     (if conChanged then signalConmanHUP E else mret ());;
     (if aggChanged then respinAggLog E else mret ())
   else mret ());;
  mret fileStamp.

(** [doLogRotate]: what happens before its loop, and one turn of it. *)
Definition rotate_pause (r : rotState) : Z :=
  if 0 <? logRotCheckFreqSec r then i64 (logRotCheckFreqSec r * second) else 300 * second.

Definition doLogRotate_start : M (stamps * Z) :=
  sleep (120 * second);;
  r ← gets rot;
  s ← readLogRotTimestamps ∅;
  mret (s.1.1, rotate_pause r).

Definition doLogRotate_turn (fileStamp : stamps) (sleepSecs : Z) : M stamps :=
  r ← gets rot;
  fileStamp' ← (if logRotEnabled r then rotateLogsOnce fileStamp else mret fileStamp);
  sleep sleepSecs;;
  mret fileStamp'.

End rotation.

(** ** What the state file says *)

(** The entry of one log in the state file. *)
Definition state_line (path : string) (c : civil) : string :=
  qs "'" +:+ path +:+ qs "' " +:+ print_timestamp c +:+ String nl EmptyString.

(** The log a line is about, as a key of the time stamps. *)
Inductive log_id := ConsoleLog (x : string) | AggLog.

#[export] Instance log_id_eq_dec : EqDecision log_id.
Proof. solve_decision. Defined.

Definition log_key (i : log_id) : string := match i with ConsoleLog x => x | AggLog => "consoleAgg.log" end.
Definition log_path (agg : string) (i : log_id) : string :=
  match i with ConsoleLog x => consoleLog x | AggLog => agg end.

(** A state file of such lines. *)
Definition state_file (agg : string) (entries : list (log_id * civil)) : string :=
  unlines (map (λ e, state_line (log_path agg e.1) e.2) entries).

(** What reading the entries does to the time stamps. *)
Fixpoint note_entries (lookup : Z → Z * Z * Z) (entries : list (log_id * civil)) (r : stamps * bool * bool)
    : stamps * bool * bool :=
  match entries with
  | [] => r
  | (i, c) :: es =>
    let '(m, con, agg) := r in
    let fd := civil_date lookup c in
    note_entries lookup es
      (if decide (m !! log_key i = Some fd) then (m, con, agg)
       else (<[log_key i := fd]> m,
             match i with ConsoleLog _ => true | AggLog => con end,
             match i with ConsoleLog _ => agg | AggLog => true end))
  end.

(** ** Lemmas *)

Definition quote_char : ascii := ascii_of_N 34.

Lemma qs_quote : qs "'" = String quote_char EmptyString.
Proof. reflexivity. Qed.

Lemma qs_quote_space : qs "' " = String quote_char (String " "%char EmptyString).
Proof. reflexivity. Qed.

Lemma print_timestamp_no_char a c :
  is_num_char a = false → ":"%char ≠ a → no_char a (print_timestamp c).
Proof.
  intros H Hc. assert (Hi : ∀ n, no_char a (Itoa n)) by (intros n; by apply Itoa_no_char).
  assert ("-"%char ≠ a) by (by intros <-).
  unfold print_timestamp. rewrite !no_char_app. cbn [no_char]. auto 20.
Qed.

Lemma scan_line_timestamp c : civil_in_i64 c →
  scan_timestamp (print_timestamp c +:+ String nl EmptyString) = Some c.
Proof. intros H. by apply scan_print_timestamp. Qed.

Lemma strIndex_neg1 n : (Z.of_nat n =? -1) = false.
Proof. apply Z.eqb_neq. lia. Qed.

(** A line of the state file about a console log. *)
Lemma parse_console E x c w :
  no_char quote_char x → civil_in_i64 c →
  parseTimestamp E (state_line (consoleLog x) c) w =
    Done (x, Some (civil_date (zone_lookup E) c), true, false) w.
Proof.
  intros Hx Hc. unfold parseTimestamp, mbind, M_bind, gets, mret, M_ret. cbv zeta.
  set (T := print_timestamp c +:+ String nl EmptyString).
  assert (Hl : state_line (consoleLog x) c = String quote_char filePrefix +:+ x +:+ qs "' " +:+ T).
  { unfold state_line, consoleLog. rewrite qs_quote. change "/var/log/conman/console."%string with filePrefix.
    rewrite !append_cons, append_nil_l, !append_assoc. done. }
  assert (Hpos : strIndex (state_line (consoleLog x) c) filePrefix = 1).
  { rewrite Hl, append_cons. unfold strIndex, filePrefix. rewrite index_nat_skip by done.
    change "/var/log/conman/console."%string with filePrefix at 2. 
    change (String "/"%char "var/log/conman/console."%string) with filePrefix. by rewrite index_nat_head. }
  rewrite Hpos. change (negb (1 =? -1)) with true. cbv iota.
  replace (1 + slen filePrefix) with (slen (String quote_char filePrefix)) by done.
  rewrite Hl, slice_from_app. unfold deref at 1. unfold mret, M_ret. cbv beta iota.
  assert (Hq : strIndex (x +:+ qs "' " +:+ T) (qs "'") = slen x).
  { unfold strIndex. rewrite qs_quote, qs_quote_space, index_nat_after by done.
    rewrite !append_cons, append_nil_l.
    change (String quote_char (String " " T)) with (String quote_char EmptyString +:+ String " " T).
    rewrite index_nat_head. cbn [fmap option_fmap option_map]. unfold slen. f_equal. lia. }
  rewrite Hq. assert (Hneg : (slen x =? -1) = false) by (apply Z.eqb_neq; pose proof (slen_nonneg x); lia).
  rewrite Hneg. replace (slen x + slen (String quote_char filePrefix)) with (slen (String quote_char filePrefix) + slen x) by lia.
  rewrite slice_mid. unfold deref at 1. unfold mret, M_ret. cbv beta iota.
  replace (slen (String quote_char filePrefix) + slen x + 2) with (slen (String quote_char filePrefix +:+ x +:+ qs "' "))
    by (rewrite !slen_append; change (slen (qs "' ")) with 2; lia).
  rewrite <- (append_assoc x), <- append_assoc, slice_from_app. unfold deref, mret, M_ret. cbv beta iota.
  unfold T. by rewrite scan_line_timestamp.
Qed.

(** The aggregation log of a pod. *)
Definition agg_file (pod : string) : string := conAggLogFileBase +:+ pod +:+ ".log".

(** Text that begins with the base of the aggregation log's name holds no
    console log name before the end of that base. *)
Lemma prefix_not_in_agg s :
  no_char "/"%char s → index_nat filePrefix (conAggLogFileBase +:+ s) = None.
Proof.
  intros Hs. unfold conAggLogFileBase. rewrite !append_cons, append_nil_l.
  assert (H : index_nat filePrefix s = None) by by apply index_nat_absent.
  unfold filePrefix in *. cbn [index_nat String.prefix]. cbn. rewrite H. done.
Qed.

(** A line of the state file about the pod's aggregation log. *)
Lemma parse_agg E pod c w :
  conAggLogFile (tails w) = agg_file pod → no_char "/"%char pod → civil_in_i64 c →
  parseTimestamp E (state_line (agg_file pod) c) w =
    Done ("consoleAgg.log"%string, Some (civil_date (zone_lookup E) c), false, true) w.
Proof.
  intros Hw Hp Hc. unfold parseTimestamp, mbind, M_bind, gets, mret, M_ret, compose. cbv zeta. rewrite Hw.
  set (T := print_timestamp c +:+ String nl EmptyString).
  assert (Hl : state_line (agg_file pod) c = String quote_char (agg_file pod) +:+ qs "' " +:+ T).
  { unfold state_line. rewrite qs_quote, !append_cons, append_nil_l. done. }
  assert (HT : no_char "/"%char T) by (apply no_char_app; split; [by apply print_timestamp_no_char|done]).
  assert (Hno : (strIndex (state_line (agg_file pod) c) filePrefix =? -1) = true).
  { rewrite Hl, append_cons. unfold strIndex, filePrefix. rewrite index_nat_skip by done.
    change (String "/"%char "var/log/conman/console."%string) with filePrefix.
    unfold agg_file. rewrite !append_assoc, prefix_not_in_agg; [done|].
    rewrite !no_char_app. auto 10 using I. repeat split; try done. }
  rewrite Hno. cbn [negb].
  assert (Hpos : strIndex (state_line (agg_file pod) c) (agg_file pod) = 1).
  { rewrite Hl, append_cons. unfold strIndex.
    assert (Hs : ∀ t, index_nat (agg_file pod) (String quote_char t) = S <$> index_nat (agg_file pod) t) by done.
    by rewrite Hs, index_nat_head. }
  rewrite Hpos. change (1 =? -1) with false. cbv iota.
  replace (slen (agg_file pod) + 1 + 2) with (slen (String quote_char (agg_file pod) +:+ qs "' "))
    by (rewrite slen_append, slen_cons; change (slen (qs "' ")) with 2; lia).
  rewrite Hl, <- append_assoc, slice_from_app. unfold deref, mret, M_ret. cbv beta iota.
  unfold T. by rewrite scan_line_timestamp.
Qed.

(** *** Reading a whole state file *)

Definition entry_ok (e : log_id * civil) : Prop :=
  valid_civil e.2 ∧ match e.1 with
    | ConsoleLog x => no_char quote_char x ∧ no_char nl x ∧ x ≠ "consoleAgg.log"%string
    | AggLog => True
    end.

Definition pod_ok (pod : string) : Prop := no_char "/"%char pod ∧ no_char nl pod.

Lemma state_line_lines pod e rest :
  pod_ok pod → entry_ok e →
  read_lines (state_line (log_path (agg_file pod) e.1) e.2 +:+ rest) =
    state_line (log_path (agg_file pod) e.1) e.2 :: read_lines rest.
Proof.
  intros [_ Hp] [Hc He]. set (path := log_path (agg_file pod) e.1).
  assert (Hn : no_char nl path).
  { unfold path. destruct (e.1) as [x|]; cbn.
    - unfold consoleLog. apply no_char_app. split; [cbn; repeat split; discriminate|apply He].
    - unfold agg_file. rewrite !no_char_app. split; [cbn; repeat split; discriminate|].
      split; [done|cbn; repeat split; discriminate]. }
  assert (Hs : state_line path e.2 = (qs "'" +:+ path +:+ qs "' " +:+ print_timestamp e.2) +:+ String nl EmptyString).
  { unfold state_line. by rewrite !append_assoc. }
  rewrite Hs, append_snoc. apply read_lines_first.
  rewrite !no_char_app. split; [cbn; repeat split; discriminate|]. split; [done|].
  split; [cbn; repeat split; discriminate|by apply print_timestamp_no_char].
Qed.

Lemma read_state_file pod entries :
  pod_ok pod → Forall entry_ok entries →
  read_lines (state_file (agg_file pod) entries) =
    map (λ e, state_line (log_path (agg_file pod) e.1) e.2) entries.
Proof.
  intros Hp. induction 1 as [|e es He _ IH]; [done|].
  unfold state_file in *. cbn [map unlines foldr]. fold (unlines (map (λ e, state_line (log_path (agg_file pod) e.1) e.2) es)).
  by rewrite state_line_lines, IH.
Qed.

Lemma read_stamps_entries E pod entries m con agg w :
  conAggLogFile (tails w) = agg_file pod → pod_ok pod → Forall entry_ok entries →
  read_stamps E (map (λ e, state_line (log_path (agg_file pod) e.1) e.2) entries) m con agg w =
    Done (note_entries (zone_lookup E) entries (m, con, agg)) w.
Proof.
  intros Hw Hp Hes. revert m con agg. induction Hes as [|[i c] es [Hc Hi] _ IH]; intros m con agg; [done|].
  cbn [map read_stamps note_entries fst snd]. unfold mbind, M_bind.
  assert (Hparse : parseTimestamp E (state_line (log_path (agg_file pod) i) c) w =
    Done (log_key i, Some (civil_date (zone_lookup E) c), match i with ConsoleLog _ => true | AggLog => false end,
      match i with ConsoleLog _ => false | AggLog => true end) w).
  { apply valid_civil_i64 in Hc. destruct i as [x|]; cbn [log_path log_key].
    - apply parse_console; [apply Hi|done].
    - apply parse_agg; [done|apply Hp|done]. }
  rewrite Hparse. destruct i as [x|]; cbn [orb log_key]; case_decide; apply IH.
Qed.

(** *** Which entries count as changed *)

Definition is_console (i : log_id) : bool := match i with ConsoleLog _ => true | AggLog => false end.

Definition stamp_new (lookup : Z → Z * Z * Z) (m : stamps) (e : log_id * civil) : bool :=
  negb (bool_decide (m !! log_key e.1 = Some (civil_date lookup e.2))).

Definition keys (es : list (log_id * civil)) : list string := map (λ e, log_key e.1) es.

(** With one entry for each log, the flags tell which entries are new, and the
    map has all of them afterwards. *)
Lemma note_entries_spec lookup es m con agg :
  NoDup (keys es) →
  let r := note_entries lookup es (m, con, agg) in
  r.1.2 = con || existsb (λ e, is_console e.1 && stamp_new lookup m e) es ∧
  r.2 = agg || existsb (λ e, negb (is_console e.1) && stamp_new lookup m e) es ∧
  (∀ e, e ∈ es → r.1.1 !! log_key e.1 = Some (civil_date lookup e.2)) ∧
  (∀ k, k ∉ keys es → r.1.1 !! k = m !! k).
Proof.
  revert m con agg. induction es as [|[i c] es IH]; intros m con agg Hnd; cbn zeta.
  { cbn. rewrite !orb_false_r. split; [done|]. split; [done|]. split; [by intros e He%elem_of_nil|done]. }
  unfold keys in Hnd. cbn [map fst] in Hnd. apply NoDup_cons in Hnd as [Hni Hnd].
  cbn [note_entries existsb fst snd]. set (fd := civil_date lookup c).
  set (r1 := if decide (m !! log_key i = Some fd) then _ else _).
  assert (Hr : ∃ m1 con1 agg1, r1 = (m1, con1, agg1) ∧ m1 !! log_key i = Some fd ∧
    (∀ k, k ≠ log_key i → m1 !! k = m !! k) ∧
    con1 = con || (is_console i && stamp_new lookup m (i, c)) ∧
    agg1 = agg || (negb (is_console i) && stamp_new lookup m (i, c))).
  { unfold r1, stamp_new. cbn [fst snd]. fold fd. case_decide as Hd.
    - exists m, con, agg. rewrite bool_decide_true by done. cbn [negb]. rewrite !andb_false_r, !orb_false_r. done.
    - exists (<[log_key i := fd]> m). do 2 eexists. split; [done|]. rewrite bool_decide_false by done.
      split; [by rewrite lookup_insert_eq|]. split; [intros k Hk; by rewrite lookup_insert_ne|].
      destruct i; cbn; by rewrite ?orb_true_r, ?orb_false_r. }
  destruct Hr as (m1&con1&agg1&->&Hm1&Hm&->&->).
  destruct (IH m1 (con || (is_console i && stamp_new lookup m (i, c)))
    (agg || (negb (is_console i) && stamp_new lookup m (i, c))) Hnd) as (Hc&Ha&He&Hk). cbn zeta in *.
  assert (Hsame : ∀ f, existsb (λ e, f e.1 && stamp_new lookup m1 e) es = existsb (λ e, f e.1 && stamp_new lookup m e) es).
  { intros f. clear -Hni Hm. induction es as [|e es IH]; [done|]. cbn [existsb].
    cbn [map] in Hni. apply not_elem_of_cons in Hni as [Hne Hni]. rewrite IH by done. f_equal. f_equal.
    unfold stamp_new. by rewrite Hm. }
  rewrite Hc, Ha, (Hsame is_console), (Hsame (λ i, negb (is_console i))), !orb_assoc.
  split; [done|]. split; [done|]. split.
  - intros e [->|Hin]%elem_of_cons; [|by apply He]. cbn [fst snd]. rewrite Hk; [done|]. exact Hni.
  - intros k Hkk. unfold keys in Hkk. cbn [map fst] in Hkk. apply not_elem_of_cons in Hkk as [Hne Hkk].
    rewrite Hk by done. by apply Hm.
Qed.

Lemma log_key_inj e1 e2 : entry_ok e1 → entry_ok e2 → log_key e1.1 = log_key e2.1 → e1.1 = e2.1.
Proof.
  intros [_ H1] [_ H2]. destruct (e1.1), (e2.1); cbn; intros Hk; try done; [by subst| |];
    exfalso; naive_solver.
Qed.

(** After one pass over [es1], an entry of a second file is new exactly when
    the first did not have it. *)
Lemma stamp_new_after off es1 e con agg :
  - 86400 < off < 86400 → NoDup (keys es1) → Forall entry_ok es1 → entry_ok e →
  stamp_new (fixed_zone off) (note_entries (fixed_zone off) es1 (∅, con, agg)).1.1 e = true ↔ e ∉ es1.
Proof.
  intros Ho Hnd Hok He0. pose proof (proj1 He0) as Hv. destruct (note_entries_spec (fixed_zone off) es1 ∅ con agg Hnd) as (_&_&He&Hk).
  unfold stamp_new. rewrite negb_true_iff, bool_decide_eq_false. split.
  - intros Hn Hin. apply Hn. by apply He.
  - intros Hni Hl. destruct (decide (log_key e.1 ∈ keys es1)) as [Hin|Hin].
    + unfold keys in Hin. apply list_elem_of_In, in_map_iff in Hin as (e1&Eq&Hin%list_elem_of_In).
      rewrite <- Eq, (He e1 Hin) in Hl. injection Hl as Hl.
      rewrite Forall_forall in Hok. pose proof (Hok e1 Hin) as He1. pose proof (proj1 He1) as Hv1.
      apply civil_date_inj in Hl; [|done|done|done].
      apply Hni. pose proof (log_key_inj e1 e He1 He0 Eq) as Ei. destruct e1 as [i1 c1], e as [i c]. cbn in *. by subst.
    + rewrite (Hk _ Hin), lookup_empty in Hl. done.
Qed.

Lemma last_nat_range sub s n : last_nat sub s = Some n → (n ≤ String.length s)%nat.
Proof.
  revert n. induction s as [|a s IH]; intros n; cbn [last_nat].
  - destruct (String.prefix sub EmptyString); [|done]. intros [= <-]. done.
  - destruct (last_nat sub s) as [m|]; [intros [= <-]; specialize (IH m eq_refl); cbn; lia|].
    destruct (String.prefix sub (String a s)); [|done]. intros [= <-]. cbn. lia.
Qed.

(** Restarting the aggregation log never fails for good. *)
Definition agg_event (ev : event) : Prop := (∃ d p, ev = EvMkdir d p) ∨ ∃ l, ev = EvAggLine l.

(** The aggregation log was restarted: it is empty, the logger writes to it, and
    its first line says so. *)
Definition agg_restarted (w w' : world) (evs : list event) : Prop :=
  (∃ evs0, evs = evs0 ++ [EvAggLine "Starting aggregation log"] ∧ (evs0 = [] ∨ ∃ d p, evs0 = [EvMkdir d p])) ∧
  content <$> fs w' !! conAggLogFile (tails w) = Some EmptyString ∧
  conAggLogger (tails w') = Some (conAggLogFile (tails w)).

(** No file operation fails. *)
Definition no_faults (E : env) : Prop := ∀ n op p, fs_fault E n op p = None.

Lemma agg_file_slash pod : no_char "/"%char pod → 0 <= strLastIndex (agg_file pod) "/".
Proof.
  intros Hp. unfold agg_file, conAggLogFileBase, strLastIndex.
  change ("/tmp/consoleAgg/consoleAgg-" +:+ pod +:+ ".log") with
    ("/tmp/consoleAgg" +:+ String "/"%char ("consoleAgg-" +:+ pod +:+ ".log")).
  rewrite last_nat_byte; [lia|]. rewrite !no_char_app. repeat split; try done; cbn; repeat split; discriminate.
Qed.

Lemma wp_respinAggLog E t Q w :
  (∀ w' evs, nodes w' = nodes w → command w' = command w → pod w' = pod w → rot w' = rot w → creds w' = creds w →
     tailThreads (tails w') = tailThreads (tails w) → watchers (tails w') = watchers (tails w) →
     conAggLogFile (tails w') = conAggLogFile (tails w) → nextWatch (tails w') = nextWatch (tails w) →
     lingering (tails w') = lingering (tails w) →
     trace w' = trace w ++ evs → Forall agg_event evs →
     (no_faults E → 0 <= strLastIndex (conAggLogFile (tails w)) "/" → agg_restarted w w' evs) → Q () w') →
  wp t (respinAggLog E) Q w.
Proof.
  intros H. unfold respinAggLog. rewrite wp_bind, wp_gets.
  destruct (Z.ltb_spec (strLastIndex (conAggLogFile (tails w)) "/") 0) as [Hn|Hp].
  { apply wp_ret. eapply (H w []); try done; [by rewrite app_nil_r|lia]. }
  rewrite wp_bind. unfold deref, slice.
  assert (Hr : strLastIndex (conAggLogFile (tails w)) "/" <= slen (conAggLogFile (tails w))).
  { unfold strLastIndex in *. destruct (last_nat _ _) eqn:El; [|pose proof (slen_nonneg (conAggLogFile (tails w))); lia].
    apply last_nat_range in El. unfold slen. lia. }
  rewrite (proj2 (Z.leb_le _ _)) by lia. rewrite (proj2 (Z.leb_le _ _) Hp), (proj2 (Z.leb_le _ _) Hr).
  cbn [andb]. rewrite wp_ret, wp_bind.
  unfold ensureDirPresent, osStat, osMkdirAll, osTruncate, fault. wp_pure. cbn [tick fs next_tick].
  set (dir := take_s _ _).
  assert (Fin : ∀ w1 evs, nodes w1 = nodes w → command w1 = command w → pod w1 = pod w → rot w1 = rot w →
    creds w1 = creds w → tails w1 = tails w → trace w1 = trace w ++ evs → Forall agg_event evs →
    (evs = [] ∨ ∃ d p, evs = [EvMkdir d p]) →
    wp t (err ← (e ← (n ← next; mret (fs_fault E n OpCreate (conAggLogFile (tails w))));
        match e with
        | Some err => mret (Some err)
        | None => modify (upd_fs (λ m, <[conAggLogFile (tails w) := File EmptyString
            (match m !! conAggLogFile (tails w) with Some f => mode f | None => Z.ldiff 384 (umask E) end)]> m));;
          mret None
        end);
      match err with
      | Some _ => mret ()
      | None => modify (upd_tails (set_conAggLogger (Some (conAggLogFile (tails w)))));;
          emit (EvAggLine "Starting aggregation log")
      end) Q w1).
  { intros w1 evs E1 E2 E3 E4 E5 E6 T F K. wp_pure.
    destruct (fs_fault E (tick w1) OpCreate _) eqn:Ec; wp_pure.
    - apply (H _ evs); cbn; rewrite ?E6; try done. intros Hf. by rewrite Hf in Ec.
    - apply (H _ (evs ++ [EvAggLine "Starting aggregation log"])); cbn; rewrite ?E6, ?T; try done.
      + by rewrite app_assoc.
      + apply Forall_app. split; [done|]. constructor; [right; by eexists|constructor].
      + intros _ _. split; [by exists evs|]. cbn. by rewrite lookup_insert_eq. }
  destruct (fs_fault E (tick w) OpStat dir); wp_pure.
  { apply (Fin _ []); try done; [by rewrite ?app_nil_r|by left]. }
  destruct (fs w !! dir); wp_pure.
  { apply (Fin _ []); try done; [by rewrite ?app_nil_r|by left]. }
  destruct (fs_fault E _ OpMkdir dir) eqn:Em; wp_pure.
  { apply (H _ []); try done; [by rewrite app_nil_r|]. intros Hf. by rewrite Hf in Em. }
  apply (Fin _ [EvMkdir dir 502]); try done; [constructor; [left; by do 2 eexists|constructor]|]. right. by do 2 eexists.
Qed.
