(* ===== verification/LogRotationProps.v ===== *)
(** * Properties of log rotation

    Reading logrotate's state file back, detecting exactly the rotated logs,
    and what follows a rotation. *)

From S2P Require Import Prelude GoStrings GoTime World Files LogAggregation LogRotateConf.
From S2P Require Import ConmanProc Nodes NodesFacts PodSetup Demo LogRotation.
From Stdlib Require Import ZArith Lia Ascii.
From stdpp Require Import base numbers strings gmap sets list.

Local Open Scope Z_scope.

(** The pod [pod] can read a state file with these entries. *)
Definition state_file_is (E : env) (pod : string) (entries : list (log_id * civil)) (w : world) : Prop :=
  pod_ok pod ∧ conAggLogFile (tails w) = agg_file pod ∧ Forall entry_ok entries ∧
  content <$> fs w !! logRotStateFile = Some (state_file (agg_file pod) entries) ∧
  ∀ n, fs_fault E n OpOpen logRotStateFile = None ∧ read_limit E n logRotStateFile = None.

Lemma read_state E pod entries m w :
  state_file_is E pod entries w →
  ∃ w', readLogRotTimestamps E m w = Done (note_entries (zone_lookup E) entries (m, false, false)) w' ∧
    same_core w w' ∧ trace w' = trace w.
Proof.
  intros (Hp&Ha&Hes&Hf&Hr). unfold readLogRotTimestamps, osRead, fault, mbind, M_bind, next, gets, mret, M_ret.
  cbn [fs next_tick tick]. rewrite (proj1 (Hr _)).
  destruct (fs w !! logRotStateFile) as [f|] eqn:Ef; [|done]. cbn in Hf. injection Hf as Hf.
  rewrite (proj2 (Hr _)), Hf, read_state_file by done.
  rewrite (read_stamps_entries E pod) by done. by eexists.
Qed.

Lemma wp_of_done {A} t (m : M A) Q w a w' : m w = Done a w' → Q a w' → wp t m Q w.
Proof. unfold wp. by intros ->. Qed.

Lemma signalConmanHUP_running E w :
  command w = CmdRunning → signalConmanHUP E w = Done () (add_event (EvSignal SIGHUP) w).
Proof.
  intros H. unfold signalConmanHUP, signal_process, mbind, M_bind, gets, mret, M_ret. rewrite H. cbv beta iota. rewrite decide_False by done. by rewrite H.
Qed.

(** C35: a line that logrotate writes is read back: the node name and the instant
    of the time stamp, for console logs and for the pod's aggregation log. *)
Theorem parseTimestamp_roundtrip (E : env) pod i c w :
  pod_ok pod → conAggLogFile (tails w) = agg_file pod → entry_ok (i, c) →
  parseTimestamp E (state_line (log_path (agg_file pod) i) c) w =
    Done (log_key i, Some (civil_date (zone_lookup E) c), is_console i, negb (is_console i)) w.
Proof.
  intros [Hp _] Hw [Hc Hi]. apply valid_civil_i64 in Hc. destruct i as [x|]; cbn [log_path log_key is_console negb].
  - apply parse_console; [apply Hi|done].
  - by apply parse_agg.
Qed.

(** C15: rotation is detected exactly: when two state files with one entry for
    each log are read one after the other (in a zone with one offset), the flags
    of the second reading tell whether a console log, or the aggregation
    log, has an entry that the first file did not have. *)
Theorem rotation_detected (E : env) pod off es1 es2 w1 w2 :
  (∀ u, zone_lookup E u = fixed_zone off u) → - 86400 < off < 86400 →
  NoDup (keys es1) → NoDup (keys es2) → state_file_is E pod es1 w1 → state_file_is E pod es2 w2 →
  ∃ m1 c1 a1 w1' m2 c2 a2 w2',
    readLogRotTimestamps E ∅ w1 = Done (m1, c1, a1) w1' ∧
    readLogRotTimestamps E m1 w2 = Done (m2, c2, a2) w2' ∧
    (c2 = true ↔ ∃ x c, (ConsoleLog x, c) ∈ es2 ∧ (ConsoleLog x, c) ∉ es1) ∧
    (a2 = true ↔ ∃ c, (AggLog, c) ∈ es2 ∧ (AggLog, c) ∉ es1).
Proof.
  intros Hz Ho Hn1 Hn2 H1 H2.
  destruct (read_state E pod es1 ∅ w1 H1) as (w1'&R1&_).
  destruct (note_entries (zone_lookup E) es1 (∅, false, false)) as [[m1 c1] a1] eqn:N1.
  destruct (read_state E pod es2 m1 w2 H2) as (w2'&R2&_).
  destruct (note_entries (zone_lookup E) es2 (m1, false, false)) as [[m2 c2] a2] eqn:N2.
  exists m1, c1, a1, w1', m2, c2, a2, w2'. split; [done|]. split; [done|].
  destruct (note_entries_spec (zone_lookup E) es2 m1 false false Hn2) as (Hc&Ha&_&_).
  rewrite N2 in Hc, Ha. cbn in Hc, Ha.
  destruct H1 as (_&_&Ok1&_), H2 as (_&_&Ok2&_).
  assert (Hnew : ∀ e, e ∈ es2 → stamp_new (zone_lookup E) m1 e = true ↔ e ∉ es1).
  { intros e He. rewrite Forall_forall in Ok2.
    pose proof (stamp_new_after off es1 e false false Ho Hn1 Ok1 (Ok2 e He)) as Hs.
    assert (Hl : ∀ es r, note_entries (zone_lookup E) es r = note_entries (fixed_zone off) es r).
    { intros es. induction es as [|[j d] es IH]; intros [[m b1] b2]; [done|]. cbn [note_entries].
      by rewrite IH, (civil_date_ext _ _ d Hz). }
    rewrite <- Hl, N1 in Hs. cbn [fst] in Hs. unfold stamp_new in *. by rewrite (civil_date_ext _ _ e.2 Hz). }
  rewrite Hc, Ha, !existsb_exists. split; split.
  - intros ([i c]&Hin&Hb). apply list_elem_of_In in Hin. apply andb_true_iff in Hb as [Hi Hs].
    destruct i as [x|]; [|done]. exists x, c. split; [done|]. by apply Hnew.
  - intros (x&c&Hin&Hni). exists (ConsoleLog x, c). split; [by apply list_elem_of_In|]. cbn. by apply Hnew.
  - intros ([i c]&Hin&Hb). apply list_elem_of_In in Hin. apply andb_true_iff in Hb as [Hi Hs].
    destruct i as [x|]; [done|]. exists c. split; [done|]. by apply Hnew.
  - intros (c&Hin&Hni). exists (AggLog, c). split; [by apply list_elem_of_In|]. cbn. by apply Hnew.
Qed.

(** C19: after logrotate ran, conmand is told to reopen its logs exactly when a
    console log was rotated, after a pause; and the aggregation log is left
    alone when it was not rotated and, when it was and file operations
    succeed, restarted: emptied, with a logger that writes to it and a first
    line that says so.  This completes and leaves the nodes and the tails
    alone. *)
Theorem rotateLogsOnce_reacts (E : env) pod es m w :
  command w = CmdRunning →
  state_file_is E pod es (upd_fs (λ m, run_files (run_cmd E (tick w) logrotate_argv) ∪ m) w) →
  let r := note_entries (zone_lookup E) es (m, false, false) in
  ∃ w' evs, rotateLogsOnce E m w = Done r.1.1 w' ∧
    trace w' = trace w ++ [EvExec logrotate_argv] ++
      (if r.1.2 || r.2 then [EvSleep (5 * second)] else []) ++
      (if r.1.2 then [EvSignal SIGHUP] else []) ++ evs ∧
    Forall agg_event evs ∧ (if r.2 then no_faults E → agg_restarted w w' evs else evs = []) ∧
    nodes w' = nodes w ∧ tailThreads (tails w') = tailThreads (tails w) ∧ command w' = CmdRunning.
Proof.
  intros Hc Hs r. assert (Hslash : 0 <= strLastIndex (conAggLogFile (tails w)) "/").
  { destruct Hs as ([Hp _]&Ha&_). cbn in Ha. rewrite Ha. by apply agg_file_slash. }
  assert (H : wp true (rotateLogsOnce E m) (λ m' w', m' = r.1.1 ∧ ∃ evs,
    trace w' = trace w ++ [EvExec logrotate_argv] ++
      (if r.1.2 || r.2 then [EvSleep (5 * second)] else []) ++
      (if r.1.2 then [EvSignal SIGHUP] else []) ++ evs ∧
    Forall agg_event evs ∧ (if r.2 then no_faults E → agg_restarted w w' evs else evs = []) ∧
    nodes w' = nodes w ∧ tailThreads (tails w') = tailThreads (tails w) ∧ command w' = CmdRunning) w).
  { unfold rotateLogsOnce, run_external. wp_pure. set (w1 := upd_fs _ _).
    assert (Hs1 : state_file_is E pod es w1) by exact Hs.
    destruct (read_state E pod es m w1 Hs1) as (w2&R2&C2&T2).
    apply (wp_of_done _ _ _ _ _ _ R2). fold r. destruct r as [[m' con] agg]. cbn [fst snd].
    assert (T2' : trace w2 = trace w ++ [EvExec logrotate_argv]) by by rewrite T2.
    assert (N2 : nodes w2 = nodes w) by (symmetry; exact (nodes_proper _ _ C2)).
    assert (Tl2 : tails w2 = tails w) by (symmetry; exact (tails_proper _ _ C2)).
    assert (Cm2 : command w2 = CmdRunning) by (rewrite <- Hc; symmetry; exact (command_proper _ _ C2)).
    destruct con, agg; cbn [orb]; wp_pure.
    - apply (wp_of_done _ _ _ _ _ _ (signalConmanHUP_running E (add_event (EvSleep (5 * second)) w2) Cm2)). wp_pure.
      apply wp_respinAggLog. intros w4 evs E1 E2 E3 E4 E5 E6 E7 E8 E9 EL T F R. wp_pure. split; [done|].
      exists evs. rewrite T, E1, E2, E6. unfold agg_restarted in *. cbn [trace add_event nodes tails command] in *. rewrite Tl2 in *.
      rewrite T2', <- !app_assoc. auto 10.
    - apply (wp_of_done _ _ _ _ _ _ (signalConmanHUP_running E (add_event (EvSleep (5 * second)) w2) Cm2)). wp_pure.
      split; [done|]. exists []. cbn [trace add_event nodes tails command]. rewrite T2', <- !app_assoc, Tl2. done.
    - apply wp_respinAggLog. intros w4 evs E1 E2 E3 E4 E5 E6 E7 E8 E9 EL T F R. wp_pure. split; [done|].
      exists evs. rewrite T, E1, E2, E6. unfold agg_restarted in *. cbn [trace add_event nodes tails command] in *. rewrite Tl2 in *.
      rewrite T2', <- !app_assoc. auto 10.
    - split; [done|]. exists []. rewrite T2', Tl2. done. }
  apply wp_total_done in H as (m'&w'&H&->&evs&Hw). eauto.
Qed.

(** The name of the aggregation log without quotes at the end of a line of
    the state file crashes the rotation thread. *)
Theorem parseTimestamp_unquoted_panics (E : env) pod w :
  pod_ok pod → conAggLogFile (tails w) = agg_file pod →
  parseTimestamp E (line (agg_file pod)) w = Panic "slice bounds out of range" w.
Proof.
  intros [Hp Hn] Hw. unfold parseTimestamp, mbind, M_bind, gets, mret, M_ret, compose. cbv zeta. rewrite Hw.
  assert (Hno : (strIndex (line (agg_file pod)) filePrefix =? -1) = true).
  { unfold strIndex, line, agg_file. rewrite !append_assoc, prefix_not_in_agg; [done|].
    rewrite !no_char_app. split; [done|]. repeat split; try done. }
  rewrite Hno. cbn [negb].
  assert (Hpos : strIndex (line (agg_file pod)) (agg_file pod) = 0).
  { unfold strIndex, line. by rewrite index_nat_head. }
  rewrite Hpos. change (0 =? -1) with false. cbv iota.
  unfold slice_from, slice, line. rewrite slen_append. change (slen (String nl EmptyString)) with 1.
  rewrite (proj2 (Z.leb_gt (slen (agg_file pod) + 0 + 2) (slen (agg_file pod) + 1))) by lia.
  by rewrite andb_false_r.
Qed.

(** The strings taken for true are t and 1 alone and true, in any mix of
    cases, and no others. *)
Theorem isTrue_spec s :
  isTrue s = true ↔ ToLower s = "t"%string ∨ ToLower s = "1"%string ∨ ToLower s = "true"%string.
Proof.
  unfold isTrue. split.
  - rewrite orb_true_iff, !andb_true_iff, bool_decide_eq_true. intros [[Hl Ha]|[_ ?]]; [|by auto].
    destruct (ToLower s) as [|a [|b r]]; [done| |].
    + apply orb_true_iff in Ha as [->%Ascii.eqb_eq | ->%Ascii.eqb_eq]; auto.
    + rewrite !slen_cons in Hl. pose proof (slen_nonneg r). zbool. lia.
  - intros [-> | [-> | ->]]; done.
Qed.

(** ** Witnesses *)

Definition stamp (mi : Z) : civil := Civil 2024 2 29 12 mi 56.

Definition old_entries : list (log_id * civil) :=
  [(ConsoleLog "x2000", stamp 30); (AggLog, stamp 31); (ConsoleLog "x3000", stamp 32)].
Definition new_entries : list (log_id * civil) :=
  [(ConsoleLog "x2000", stamp 30); (AggLog, stamp 31); (ConsoleLog "x3000", stamp 42)].

Definition rot_world (es : list (log_id * civil)) : world :=
  upd_tails (set_conAggLogFile (agg_file "node-7"))
    (upd_fs <[logRotStateFile := File (state_file (agg_file "node-7") es) 420]> small_world).

Lemma node7_ok : pod_ok "node-7".
Proof. split; cbn; repeat split; discriminate. Qed.

Lemma stamp_ok i mi : 0 <= mi < 60 →
  match i with ConsoleLog x => x = "x2000"%string ∨ x = "x3000"%string | AggLog => True end → entry_ok (i, stamp mi).
Proof.
  intros Hm Hi. split; [repeat split; cbn; try lia; done|].
  destruct i; [|done]. destruct Hi as [-> | ->]; cbn; repeat split; discriminate.
Qed.

Lemma entries_ok : Forall entry_ok old_entries ∧ Forall entry_ok new_entries.
Proof.
  split; do 3 (apply Forall_cons; split; [apply stamp_ok; [lia|auto]|]); by apply Forall_nil.
Qed.

Lemma rot_state es : Forall entry_ok es → state_file_is quiet_env "node-7" es (rot_world es).
Proof.
  intros H. split; [exact node7_ok|]. split; [done|]. split; [done|]. split; [|done].
  unfold rot_world. cbn [fs upd_tails upd_fs]. by rewrite lookup_insert_eq.
Qed.

Lemma parseTimestamp_roundtrip_witness :
  parseTimestamp quiet_env (state_line (log_path (agg_file "node-7") (ConsoleLog "x2000")) (stamp 30)) (rot_world []) =
    Done ("x2000"%string, Some (civil_date (zone_lookup quiet_env) (stamp 30)), true, false) (rot_world []).
Proof.
  exact (parseTimestamp_roundtrip quiet_env "node-7" (ConsoleLog "x2000") (stamp 30) (rot_world []) node7_ok eq_refl
    (stamp_ok (ConsoleLog "x2000") 30 ltac:(lia) (or_introl eq_refl))).
Defined.

(** A zone that is one offset for as long as can be counted. *)
Definition utc_env : env := {|
  getenv := λ _, EmptyString; http_do := λ _ _, Some DoFails;
  map_range := λ _ V m, map_to_list m; map_range_perm := λ _ V m, Permutation_refl (map_to_list m);
  fs_fault := λ _ _ _, None; read_limit := λ _ _, None; umask := 18; clock := λ _, EmptyString;
  zone_lookup := fixed_zone 0; rand_source := λ _, 0; vault_adapter := λ _, None; vault_creds := λ _ _, inl ∅;
  gjson_get := λ _ _, EmptyString; run_cmd := λ _ _, RunOutcome (Some 0) EmptyString ∅
|}.

Lemma rotation_detected_witness :
  ∃ m1 c1 a1 w1' m2 c2 a2 w2',
    readLogRotTimestamps utc_env ∅ (rot_world old_entries) = Done (m1, c1, a1) w1' ∧
    readLogRotTimestamps utc_env m1 (rot_world new_entries) = Done (m2, c2, a2) w2' ∧
    (c2 = true ↔ ∃ x c, (ConsoleLog x, c) ∈ new_entries ∧ (ConsoleLog x, c) ∉ old_entries) ∧
    (a2 = true ↔ ∃ c, (AggLog, c) ∈ new_entries ∧ (AggLog, c) ∉ old_entries).
Proof.
  apply (rotation_detected utc_env "node-7" 0 old_entries new_entries).
  - done.
  - lia.
  - by apply (bool_decide_unpack _); vm_compute.
  - by apply (bool_decide_unpack _); vm_compute.
  - destruct entries_ok as [Ho _]. exact (rot_state old_entries Ho).
  - destruct entries_ok as [_ Hn]. exact (rot_state new_entries Hn).
Defined.

Lemma rotateLogsOnce_reacts_witness :
  let r := note_entries (zone_lookup quiet_env) new_entries (∅, false, false) in
  ∃ w' evs, rotateLogsOnce quiet_env ∅ (rot_world new_entries) = Done r.1.1 w' ∧
    trace w' = trace (rot_world new_entries) ++ [EvExec logrotate_argv] ++
      (if r.1.2 || r.2 then [EvSleep (5 * second)] else []) ++
      (if r.1.2 then [EvSignal SIGHUP] else []) ++ evs ∧
    Forall agg_event evs ∧ (if r.2 then no_faults quiet_env → agg_restarted (rot_world new_entries) w' evs else evs = []) ∧
    nodes w' = nodes (rot_world new_entries) ∧
    tailThreads (tails w') = tailThreads (tails (rot_world new_entries)) ∧ command w' = CmdRunning.
Proof.
  apply (rotateLogsOnce_reacts quiet_env "node-7" new_entries ∅ (rot_world new_entries)); [done|].
  destruct entries_ok as [_ Hn]. destruct (rot_state new_entries Hn) as (H1&H2&H3&H4&H5).
  split; [done|]. split; [done|]. split; [done|]. split; [|done].
  cbn [upd_fs fs run_files run_cmd quiet_env env_http]. by rewrite (left_id_L ∅ (∪)).
Defined.

Lemma parseTimestamp_unquoted_panics_witness :
  parseTimestamp quiet_env (line (agg_file "node-7")) (rot_world []) =
    Panic "slice bounds out of range" (rot_world []).
Proof. exact (parseTimestamp_unquoted_panics quiet_env "node-7" (rot_world []) node7_ok eq_refl). Defined.
