(* ===== verification/Monitor.v ===== *)
(** * The monitor: src/src/console_node/monitor.go

    Looking for changed credentials and for log files that lost their
    permissions. *)

From S2P Require Import Prelude GoStrings World HttpUtils Files LogRotateConf ConmanProc Creds.
From S2P Require Import Nodes NodesFacts ConmanConfig Demo.
From Stdlib Require Import ZArith Lia.
From stdpp Require Import base numbers strings gmap sets list.

Local Open Scope Z_scope.

Definition monitorIntervalSecs : Z := 300.

Section monitor.
Context (E : env).

(** [checkItemPermissions] *)
Definition checkItemPermissions (itemName : string) (md : Z) : M () :=
  st ← osStat E itemName;
  match st with
  | StatOk f =>
    if negb (Z.land (mode f) md =? md) then _ ← osChmod E itemName (Z.lor (mode f) md); mret () else mret ()
  | _ => mret ()
  end.

(** The checks of [checkLogFiles]: 0777 for the directories, 0666 for the logs
    of the nodes [ns]. *)
Definition check_permissions (ns : list string) : M () :=
  checkItemPermissions "/var/log/conman" 511;;
  checkItemPermissions "/var/log/conman.old" 511;;
  checkItemPermissions "/var/log/console" 511;;
  forEach ns (λ nn, checkItemPermissions (consoleLog nn) 438).

(** [checkLogFiles]: the lock is held for the names only. *)
Definition checkLogFiles : M () :=
  ns ← getCurrNodeXnames E;
  check_permissions ns.

(** The loop of [checkIfRiverPasswordsChanged]: a name without current
    credentials is skipped, one without previous credentials compares with
    empty ones. *)
Fixpoint any_changed (current : passwords) (previous : gmap string CompCredentials) (xnames : list string) : bool :=
  match xnames with
  | [] => false
  | xname :: xs =>
    match pw_lookup current xname with
    | None => any_changed current previous xs
    | Some cc =>
      let pc := default (Creds EmptyString EmptyString) (previous !! xname) in
      if bool_decide (Username cc ≠ Username pc) || bool_decide (Password cc ≠ Password pc) then true
      else any_changed current previous xs
    end
  end.

(** [checkIfRiverPasswordsChanged] *)
Definition checkIfRiverPasswordsChanged : M bool :=
  c ← gets creds;
  match previousPasswords c with
  | None => mret false
  | Some previous =>
    w ← gets id;
    lr ← goRange E (rvr w);
    lp ← goRange E (pds w);
    let xnames := map BmcName lr.*2 ++ map BmcName lp.*2 in
    currentPasswords ← getPasswords E xnames;
    mret (any_changed currentPasswords previous xnames)
  end.

(** [checkIfMountainConsoleKeysChanged] *)
Definition checkIfMountainConsoleKeysChanged (fuel : nat) : M bool := ensureMountainConsoleKeysPresent E fuel.

(** [checkForChanges] *)
Definition checkForChanges (fuel : nat) : M () :=
  k ← checkIfMountainConsoleKeysChanged fuel;
  r ← checkIfRiverPasswordsChanged;
  checkLogFiles;;
  if k || r then signalConmanTERM else mret ().

(** One turn of [doMonitor] *)
Definition doMonitor_turn (fuel : nat) : M () :=
  checkForChanges fuel;;
  sleep (i64 (monitorIntervalSecs * second)).

End monitor.

(** ** Lemmas *)

(** Every bit of [a] is one of [b]. *)
Definition bits_in (a b : Z) : Prop := ∀ i, Z.testbit a i = true → Z.testbit b i = true.

Lemma bits_in_land a b : Z.land b a = a ↔ bits_in a b.
Proof.
  split.
  - intros H i Hi. rewrite <- H, Z.land_spec in Hi. by apply andb_true_iff in Hi as [? _].
  - intros H. apply Z.bits_inj. intros i. rewrite Z.land_spec. specialize (H i).
    destruct (Z.testbit a i); [by rewrite H|by rewrite andb_false_r].
Qed.

Lemma bits_in_lor_l a b : bits_in a (Z.lor a b).
Proof. intros i H. by rewrite Z.lor_spec, H. Qed.

Lemma bits_in_lor_r a b : bits_in b (Z.lor a b).
Proof. intros i H. by rewrite Z.lor_spec, H, orb_true_r. Qed.

(** No bit was taken from any file and no contents changed. *)
Record modes_grow (w w' : world) : Prop := {
  mg_rest : nodes w' = nodes w ∧ tails w' = tails w ∧ command w' = command w ∧ creds w' = creds w ∧
    rot w' = rot w ∧ pod w' = pod w;
  mg_trace : trace w' = trace w;
  mg_files : ∀ p, match fs w !! p, fs w' !! p with
    | Some f, Some f' => content f' = content f ∧ bits_in (mode f) (mode f')
    | None, None => True
    | _, _ => False
    end
}.

Lemma modes_grow_core w w' : same_core w w' → trace w' = trace w → modes_grow w w'.
Proof.
  intros C T. split; [|done|].
  - by rewrite (nodes_proper _ _ C), (tails_proper _ _ C), (command_proper _ _ C), (creds_proper _ _ C),
      (rot_proper _ _ C), (pod_proper _ _ C).
  - intros p. rewrite (fs_proper _ _ C). destruct (fs w' !! p); [|done]. split; [done|]. by intros i.
Qed.

#[export] Instance modes_grow_preorder : PreOrder modes_grow.
Proof.
  split; [intros w; by apply modes_grow_core|].
  intros w1 w2 w3 [(?&?&?&?&?&?) T1 F1] [(?&?&?&?&?&?) T2 F2]. split; [repeat split; congruence|congruence|].
  intros p. specialize (F1 p). specialize (F2 p).
  destruct (fs w1 !! p) as [f1|], (fs w2 !! p) as [f2|], (fs w3 !! p) as [f3|]; try done.
  destruct F1 as [C1 M1], F2 as [C2 M2]. split; [congruence|]. intros i Hi. by apply M2, M1.
Qed.

(** The file, if it exists, has these permissions. *)
Definition has_mode (w : world) (path : string) (md : Z) : Prop :=
  ∀ f, fs w !! path = Some f → bits_in md (mode f).

Lemma has_mode_grow w w' path md : modes_grow w w' → has_mode w path md → has_mode w' path md.
Proof.
  intros [_ _ F] H f Hf. specialize (F path). rewrite Hf in F. destruct (fs w !! path) as [f0|] eqn:E0; [|done].
  intros i Hi. apply F, (H f0); done.
Qed.

(** Looking at files and changing their permissions works. *)
Definition chmod_ok (E : env) : Prop := ∀ n p, fs_fault E n OpStat p = None ∧ fs_fault E n OpChmod p = None.

Section facts.
Context (E : env).

Lemma wp_checkItemPermissions t path md Q w :
  (∀ w', modes_grow w w' → (∀ p, p ≠ path → fs w' !! p = fs w !! p) → (chmod_ok E → has_mode w' path md) → Q () w') →
  wp t (checkItemPermissions E path md) Q w.
Proof.
  intros H. unfold checkItemPermissions, osStat, osChmod, fault. wp_pure. cbn [fs next_tick tick].
  assert (Same : ∀ w', same_core w w' → trace w' = trace w → (chmod_ok E → has_mode w' path md) → Q () w').
  { intros w' C T Hm. apply H; [by apply modes_grow_core| |done]. intros p _. by rewrite <- (fs_proper _ _ C). }
  destruct (fs_fault E (tick w) OpStat path) eqn:Es; wp_pure.
  { apply Same; [done|done|]. intros Hok. by rewrite (proj1 (Hok _ _)) in Es. }
  destruct (fs w !! path) as [f|] eqn:Ef; wp_pure.
  2: { apply Same; [done|done|]. intros _ g Hg. cbn in Hg. by rewrite Ef in Hg. }
  destruct (Z.eqb_spec (Z.land (mode f) md) md) as [Hm|Hm]; cbn [negb]; wp_pure.
  { apply Same; [done|done|]. intros _ g Hg. cbn in Hg. rewrite Ef in Hg. injection Hg as <-. by apply bits_in_land. }
  destruct (fs_fault E _ OpChmod path) eqn:Ec; wp_pure.
  { apply Same; [done|done|]. intros Hok. by rewrite (proj2 (Hok _ _)) in Ec. }
  apply H.
  - split; [done|done|]. intros p. cbn. destruct (decide (p = path)) as [->|Hp].
    + rewrite lookup_alter_eq, Ef. cbn. split; [done|apply bits_in_lor_l].
    + rewrite lookup_alter_ne by done. destruct (fs w !! p); [|done]. split; [done|]. by intros i.
  - intros p Hp. cbn. by rewrite lookup_alter_ne.
  - intros _ g Hg. cbn in Hg. rewrite lookup_alter_eq, Ef in Hg. injection Hg as <-. apply bits_in_lor_r.
Qed.

(** What [checkLogFiles] restores. *)
Definition watched_modes (w : world) : list (string * Z) :=
  [("/var/log/conman", 511); ("/var/log/conman.old", 511); ("/var/log/console", 511)]%string.

Lemma wp_check_all t xs Q w :
  (∀ w', modes_grow w w' → (chmod_ok E → ∀ x, x ∈ xs → has_mode w' (consoleLog x) 438) → Q () w') →
  wp t (forEach xs (λ nn, checkItemPermissions E (consoleLog nn) 438)) Q w.
Proof.
  revert w. induction xs as [|x xs IH]; intros w H; cbn [forEach].
  { apply wp_ret, H; [reflexivity|]. intros _ x Hx. by apply elem_of_nil in Hx. }
  rewrite wp_bind. apply wp_checkItemPermissions. intros w1 M1 _ H1. apply IH. intros w2 M2 H2.
  apply H; [by etrans|]. intros Hok y [->|Hy]%elem_of_cons; [|by apply H2].
  eapply has_mode_grow; [exact M2|by apply H1].
Qed.

Lemma wp_getCurrNodeXnames t Q w :
  (∀ xs w', same_core w w' → trace w' = trace w → (∀ x, x ∈ all_names w → x ∈ xs) → Q xs w') →
  wp t (getCurrNodeXnames E) Q w.
Proof.
  intros H. unfold getCurrNodeXnames. rewrite wp_bind, wp_gets. cbv beta delta [id].
  rewrite wp_bind. apply wp_goRange. intros lm _ Hm. rewrite wp_bind. apply wp_goRange. intros lr _ Hr.
  rewrite wp_bind. apply wp_goRange. intros lp _ Hp. apply wp_ret, H; [done|done|].
  intros x. rewrite all_names_entries, elem_of_list_to_set. unfold all_entries.
  rewrite !fmap_app, !elem_of_app, <- Hr, <- Hp, <- Hm. tauto.
Qed.

(** The log directories are open and so are the logs of [xs]. *)
Definition logs_open (xs : string → Prop) (w : world) : Prop :=
  has_mode w "/var/log/conman" 511 ∧ has_mode w "/var/log/conman.old" 511 ∧ has_mode w "/var/log/console" 511 ∧
  ∀ x, xs x → has_mode w (consoleLog x) 438.

Lemma wp_check_permissions t xs Q w :
  (∀ w', modes_grow w w' → (chmod_ok E → logs_open (.∈ xs) w') → Q () w') →
  wp t (check_permissions E xs) Q w.
Proof.
  intros H. unfold check_permissions.
  rewrite wp_bind. apply wp_checkItemPermissions. intros w2 M2 _ H2.
  rewrite wp_bind. apply wp_checkItemPermissions. intros w3 M3 _ H3.
  rewrite wp_bind. apply wp_checkItemPermissions. intros w4 M4 _ H4.
  apply wp_check_all. intros w5 M5 H5. apply H.
  - do 3 (etrans; [done|]). done.
  - intros Hok. split; [|split; [|split]].
    + eapply has_mode_grow; [|by apply H2]. do 2 (etrans; [done|]). done.
    + eapply has_mode_grow; [|by apply H3]. etrans; done.
    + eapply has_mode_grow; [|by apply H4]. done.
    + intros x Hin. by apply H5.
Qed.

Lemma wp_checkLogFiles t Q w :
  (∀ w', modes_grow w w' → (chmod_ok E → logs_open (.∈ all_names w) w') → Q () w') →
  wp t (checkLogFiles E) Q w.
Proof.
  intros H. unfold checkLogFiles. rewrite wp_bind. apply wp_getCurrNodeXnames. intros xs w1 C1 T1 Hx.
  apply wp_check_permissions. intros w2 M2 H2. apply H.
  - etrans; [by apply modes_grow_core|done].
  - intros Hok. destruct (H2 Hok) as (?&?&?&Hxs). repeat split; auto.
Qed.

Lemma any_changed_spec cur prev xs :
  any_changed cur prev xs = true ↔
  ∃ x cc, x ∈ xs ∧ pw_lookup cur x = Some cc ∧ cc ≠ default (Creds EmptyString EmptyString) (prev !! x).
Proof.
  induction xs as [|x xs IH]; cbn [any_changed].
  { split; [done|]. intros (x&cc&Hx&_). by apply elem_of_nil in Hx. }
  destruct (pw_lookup cur x) as [cc|] eqn:Ex.
  - set (pc := default _ (prev !! x)). destruct (decide (cc = pc)) as [Eq|Hne].
    + rewrite Eq, !bool_decide_false by (intros Hn; by apply Hn). cbn [orb]. rewrite IH. split.
      * intros (y&c&Hy&H1&H2). exists y, c. split; [by right|done].
      * intros (y&c&[->|Hy]%elem_of_cons&H1&H2); [|by exists y, c]. rewrite Ex in H1. naive_solver.
    + assert (Hd : bool_decide (Username cc ≠ Username pc) || bool_decide (Password cc ≠ Password pc) = true).
      { apply orb_true_iff. rewrite !bool_decide_eq_true. destruct cc as [u1 p1], pc as [u2 p2]. cbn.
        destruct (decide (u1 = u2)) as [->|]; [right; congruence|by left]. }
      rewrite Hd. split; [|done]. intros _. exists x, cc. split; [by left|done].
  - rewrite IH. split.
    + intros (y&c&Hy&H1&H2). exists y, c. split; [by right|done].
    + intros (y&c&[->|Hy]%elem_of_cons&H1&H2); [congruence|by exists y, c].
Qed.

(** ** Properties *)

(** C33: a change of passwords is reported exactly when vault now has, for the
    BMC of a watched River or Paradise node, credentials other than the ones
    conmand was configured with; missing credentials are no change. *)
Theorem checkIfRiverPasswordsChanged_spec previous w :
  previousPasswords (creds w) = Some previous → debugOnly (pod w) = false → vault_up E →
  ∃ b w' xs m, checkIfRiverPasswordsChanged E w = Done b w' ∧ same_core w w' ∧ trace w' = trace w ∧
    (∃ n, vault_creds E n xs = inl m) ∧
    (∀ x, x ∈ xs ↔ ∃ k n, (rvr w !! k = Some n ∨ pds w !! k = Some n) ∧ BmcName n = x) ∧
    (b = true ↔ ∃ x cc, x ∈ xs ∧ m !! x = Some cc ∧
       cc ≠ default (Creds EmptyString EmptyString) (previous !! x)).
Proof.
  intros Hp Hd Hv.
  assert (H : wp true (checkIfRiverPasswordsChanged E) (λ b w', ∃ xs m, same_core w w' ∧ trace w' = trace w ∧
    (∃ n, vault_creds E n xs = inl m) ∧
    (∀ x, x ∈ xs ↔ ∃ k n, (rvr w !! k = Some n ∨ pds w !! k = Some n) ∧ BmcName n = x) ∧
    b = any_changed (Some m) previous xs) w).
  { unfold checkIfRiverPasswordsChanged. rewrite wp_bind, wp_gets, Hp, wp_bind, wp_gets. cbv beta delta [id].
    rewrite wp_bind. apply wp_goRange. intros lr _ Hr. rewrite wp_bind. apply wp_goRange. intros lp _ Hl.
    rewrite wp_bind. apply wp_getPasswords; [by right|]. intros w3 C3 T3 _ pw _ Hpw.
    destruct (Hpw Hd) as (n&m&Hm&->). apply wp_ret. do 2 eexists. split; [exact C3|]. split; [exact T3|].
    split; [eauto|]. split; [|done].
    assert (Hg : ∀ (g : gmap string nodeConsoleInfo) l, l ≡ₚ map_to_list g →
      ∀ x, x ∈ map BmcName l.*2 ↔ ∃ k n, g !! k = Some n ∧ BmcName n = x).
    { intros g l Hgl x. rewrite list_elem_of_In, in_map_iff. split.
      - intros (n0&<-&Hn). apply list_elem_of_In, list_elem_of_fmap in Hn as ([k n1]&->&Hk).
        exists k, n1. split; [|done]. by apply (range_elem g l _ _ Hgl).
      - intros (k&n0&Hk&<-). exists n0. split; [done|]. apply list_elem_of_In, list_elem_of_fmap.
        exists (k, n0). split; [done|]. by apply (range_elem g l _ _ Hgl). }
    intros x. rewrite elem_of_app, (Hg _ _ Hr), (Hg _ _ Hl). naive_solver. }
  apply wp_total_done in H as (b&w'&H&xs&m&C&T&Hm&Hxs&->). exists (any_changed (Some m) previous xs), w', xs, m.
  split; [done|]. split; [done|]. split; [done|]. split; [done|]. split; [done|]. apply any_changed_spec.
Qed.

(** C34: after checking the log files the three log directories have all
    permissions and the log of every watched node is readable and writable for
    all, as far as they exist; no permission is ever taken away and no contents
    change. *)
Theorem checkLogFiles_restores w :
  chmod_ok E →
  ∃ w', checkLogFiles E w = Done () w' ∧ modes_grow w w' ∧
    has_mode w' "/var/log/conman" 511 ∧ has_mode w' "/var/log/conman.old" 511 ∧ has_mode w' "/var/log/console" 511 ∧
    ∀ x, x ∈ all_names w → has_mode w' (consoleLog x) 438.
Proof.
  intros Hok.
  assert (H : wp true (checkLogFiles E) (λ _ w', modes_grow w w' ∧
    has_mode w' "/var/log/conman" 511 ∧ has_mode w' "/var/log/conman.old" 511 ∧ has_mode w' "/var/log/console" 511 ∧
    ∀ x, x ∈ all_names w → has_mode w' (consoleLog x) 438) w).
  { apply wp_checkLogFiles. intros w' M Hm. split; [done|by apply Hm]. }
  apply wp_total_done in H as ([]&w'&H&Hw). eauto.
Qed.

(** A check that finds nothing changed leaves conmand alone; conmand is told
    to terminate at most once, as the last thing, and the pod's nodes and tails
    stay as they are. *)
Theorem checkForChanges_signals fuel w :
  wp false (checkForChanges E fuel) (λ _ w', ∃ w1 k r,
    key_frame w w1 ∧ trace w' = trace w1 ++ (if k || r : bool then term_event (command w) else []) ∧
    ((∃ v, checkIfMountainConsoleKeysChanged E fuel w = Done k v) ∧
     (previousPasswords (creds w) = None → r = false)) ∧
    nodes w' = nodes w ∧ tails w' = tails w ∧ command w' = command w) w.
Proof.
  unfold checkForChanges. rewrite wp_bind.
  assert (Hk : wp false (checkIfMountainConsoleKeysChanged E fuel) (λ k w1, key_frame w w1 ∧
    ∃ v, checkIfMountainConsoleKeysChanged E fuel w = Done k v) w).
  { apply wp_and; [by apply wp_ensure_frame|]. unfold wp. destruct (checkIfMountainConsoleKeysChanged E fuel w); eauto. }
  eapply wp_mono; [exact Hk|]. intros k w1 [F1 Hv]. rewrite wp_bind.
  assert (Hr : wp false (checkIfRiverPasswordsChanged E) (λ r w2, same_core w1 w2 ∧ trace w2 = trace w1 ∧
    (previousPasswords (creds w1) = None → r = false)) w1).
  { unfold checkIfRiverPasswordsChanged. rewrite wp_bind, wp_gets.
    destruct (previousPasswords (creds w1)) as [prev|]; [|by apply wp_ret].
    rewrite wp_bind, wp_gets. cbv beta delta [id].
    rewrite wp_bind. apply wp_goRange. intros lr _ _. rewrite wp_bind. apply wp_goRange. intros lp _ _.
    rewrite wp_bind. apply wp_getPasswords; [done|]. intros w2 C2 T2 _ pw _ _. apply wp_ret. done. }
  eapply wp_mono; [exact Hr|]. intros r w2 (C2&T2&Hp). rewrite wp_bind. apply wp_checkLogFiles.
  intros w3 [(En&Et&Ec&_&_&_) T3 _] _.
  destruct F1 as (Fn&Ft&Fc&Frot&Fp&Fpw&Ff).
  assert (C3 : nodes w3 = nodes w ∧ tails w3 = tails w ∧ command w3 = command w).
  { rewrite En, Et, Ec, <- (nodes_proper _ _ C2), <- (tails_proper _ _ C2), <- (command_proper _ _ C2). done. }
  destruct C3 as (Cn&Ct&Cc).
  assert (Fin : ∀ w', io (if k || r then term_event (command w3) else []) w3 w' →
    ∃ w1 k0 r0, key_frame w w1 ∧ trace w' = trace w1 ++ (if k0 || r0 : bool then term_event (command w) else []) ∧
    ((∃ v, checkIfMountainConsoleKeysChanged E fuel w = Done k0 v) ∧
     (previousPasswords (creds w) = None → r0 = false)) ∧
    nodes w' = nodes w ∧ tails w' = tails w ∧ command w' = command w).
  { intros w' [C T]. exists w1, k, r. split; [done|]. split; [by rewrite T, T3, T2, Cc|].
    split; [split; [done|]; intros Hno; apply Hp; congruence|].
    by rewrite <- (nodes_proper _ _ C), <- (tails_proper _ _ C), <- (command_proper _ _ C). }
  destruct (k || r) eqn:Ekr.
  - apply wp_signalConmanTERM; [done|]. intros w' Hio. apply Fin. done.
  - apply wp_ret, Fin, io_refl.
Qed.

End facts.

(** ** Witnesses *)

(** A pod whose passwords were changed behind its back. *)
Definition changed_world : world :=
  upd_creds (set_previousPasswords (Some {["x3000b0" := Creds "root" "old"]})) small_world.

Lemma checkIfRiverPasswordsChanged_spec_witness :
  let E := vault_env "k" (λ _ _, None) in
  ∃ b w' xs m, checkIfRiverPasswordsChanged E changed_world = Done b w' ∧ same_core changed_world w' ∧
    trace w' = trace changed_world ∧ (∃ n, vault_creds E n xs = inl m) ∧
    (∀ x, x ∈ xs ↔ ∃ k n, (rvr changed_world !! k = Some n ∨ pds changed_world !! k = Some n) ∧ BmcName n = x) ∧
    (b = true ↔ ∃ x cc, x ∈ xs ∧ m !! x = Some cc ∧
       cc ≠ default (Creds EmptyString EmptyString) ((({["x3000b0" := Creds "root" "old"]} : gmap string CompCredentials)) !! x)).
Proof.
  intros E. apply (checkIfRiverPasswordsChanged_spec E {["x3000b0" := Creds "root" "old"]} changed_world);
    [done|done|]. split; [done|]. intros n xs. by eexists.
Defined.

(** Log files that only their owner may read. *)
Definition locked_world : world :=
  upd_fs (λ m, <[consoleLog "x2000" := File "log" 256]> (<["/var/log/conman"%string := File EmptyString 154]> m)) small_world.

Lemma checkLogFiles_restores_witness :
  ∃ w', checkLogFiles quiet_env locked_world = Done () w' ∧ modes_grow locked_world w' ∧
    has_mode w' "/var/log/conman" 511 ∧ has_mode w' "/var/log/conman.old" 511 ∧ has_mode w' "/var/log/console" 511 ∧
    ∀ x, x ∈ all_names locked_world → has_mode w' (consoleLog x) 438.
Proof. apply (checkLogFiles_restores quiet_env locked_world). by intros n p. Defined.

(** The same check, evaluated: 0400 becomes 0666 and 0232 becomes 0777. *)
Example locked_result :
  match checkLogFiles quiet_env locked_world with
  | Done _ w' => mode <$> fs w' !! consoleLog "x2000" = Some 438 ∧ mode <$> fs w' !! "/var/log/conman"%string = Some 511
  | _ => False
  end.
Proof. by vm_compute. Qed.
