(* ===== verification/Zombies.v ===== *)
(** * Zombies: src/src/console_node/zombies.go

    Finding the processes that wait to be reaped in the output of ps, and
    waiting for them. *)

From S2P Require Import Prelude GoStrings GoTime World Files Demo.
From Stdlib Require Import ZArith Lia Ascii.
From stdpp Require Import base numbers strings gmap sets list.

Local Open Scope Z_scope.

(** The process a line of the output is about, if it is a zombie. *)
Definition zombie_of_line (readLine : string) : option Z :=
  match Fields readLine with
  | c0 :: c1 :: _ =>
    if decide (c1 = "Z"%string) then
      match Atoi c0 with (zPid, None) => Some zPid | _ => None end
    else None
  | _ => None
  end.

Section zombies.
Context (E : env).

Definition ps_argv : list string := ["ps"; "-eo"; "pid,stat"].

(** [findZombies]: a failed command is only logged, and its output read. *)
Definition findZombies : M (list Z) :=
  o ← run_external E ps_argv;
  mret (omap zombie_of_line (read_lines (run_output o))).

(** [killZombie]: finding a process never fails here, and the outcome of the
    wait is only logged. *)
Definition killZombie (pid : Z) : M () := emit (EvWait pid).

(** [go killZombie(zombie)]: a goroutine is started, which runs later. *)
Definition go_killZombie (zombie : Z) : M () := emit (EvReap zombie).

(** One turn of [watchForZombies] *)
Definition watchForZombies_turn : M () :=
  zombies ← findZombies;
  forEach zombies go_killZombie;;
  sleep (30 * second).

End zombies.

(** The goroutines that were started and have not waited yet, by the process
    they will wait for. *)
Fixpoint remove_one (x : Z) (l : list Z) : list Z :=
  match l with
  | [] => []
  | y :: l' => if decide (x = y) then l' else y :: remove_one x l'
  end.

Definition note_reap (l : list Z) (ev : event) : list Z :=
  match ev with EvReap pid => l ++ [pid] | EvWait pid => remove_one pid l | _ => l end.

Definition pending_reaps (tr : list event) : list Z := foldl note_reap [] tr.

(** One of them runs. *)
Inductive reap_step : world → world → Prop :=
| reap_one pid w w' : pid ∈ pending_reaps (trace w) → killZombie pid w = Done () w' → reap_step w w'.

(** ** What ps prints *)

(** A row of the table: [k] spaces, the process, its state. *)
Definition ps_row (r : nat * Z * string) : string :=
  let '(k, pid, stat) := r in
  String.concat EmptyString (repeat " "%string k) +:+ Itoa pid +:+ " " +:+ stat +:+ String nl EmptyString.

Definition ps_output (rows : list (nat * Z * string)) : string :=
  "    PID STAT" +:+ String nl (foldr String.append EmptyString (map ps_row rows)).

Definition zombie_rows (rows : list (nat * Z * string)) : list Z :=
  omap (λ r : nat * Z * string, if decide (r.2 = "Z"%string) then Some r.1.2 else None) rows.

(** ** Lemmas *)

(** Printing characters only. *)
Fixpoint visible (s : string) : Prop :=
  match s with
  | EmptyString => True
  | String a r => 33 <= code a < 128 ∧ visible r
  end.

Lemma visible_digit d : 0 <= d < 10 → 33 <= code (digit_char d) < 128.
Proof. intros H. rewrite code_digit_char by lia. lia. Qed.

Lemma visible_utoa fuel n acc : 0 <= n → visible acc → visible (utoa fuel n acc).
Proof.
  revert n acc. induction fuel as [|f IH]; intros n acc Hn Ha; cbn [utoa].
  - split; [apply visible_digit, Z.mod_pos_bound; lia|done].
  - destruct (n <? 10); [|apply IH; [apply Z.div_pos; lia|]];
      (split; [apply visible_digit, Z.mod_pos_bound; lia|done]).
Qed.

Lemma visible_Itoa n : visible (Itoa n).
Proof.
  unfold Itoa. destruct (n <? 0) eqn:E; zbool.
  - cbn [visible]. split; [done|]. apply visible_utoa; [lia|done].
  - by apply visible_utoa.
Qed.

Lemma visible_no_nl s : visible s → no_char nl s.
Proof.
  induction s as [|a s IH]; [done|]. intros [Ha Hs]. split; [|auto]. intros ->.
  change (code nl) with 10 in Ha. lia.
Qed.

Lemma fields_word a cur s : visible a → fields_go 0 cur (a +:+ s) = fields_go 0 (cur +:+ a) s.
Proof.
  revert cur. induction a as [|x a IH]; intros cur Ha.
  - by rewrite append_nil_l, append_nil_r.
  - destruct Ha as [Hx Ha]. rewrite append_cons. cbn [fields_go].
    rewrite space_width_char by done. by rewrite IH, append_snoc by done.
Qed.

Lemma fields_space cur s : fields_go 0 cur (String " "%char s) = flush cur ++ fields_go 0 EmptyString s.
Proof. done. Qed.

Lemma fields_nl cur s : fields_go 0 cur (String nl s) = flush cur ++ fields_go 0 EmptyString s.
Proof. done. Qed.

Lemma flush_some s : s ≠ EmptyString → flush s = [s].
Proof. by destruct s. Qed.

(** The two fields of a row. *)
Lemma fields_row k a b :
  visible a → visible b → a ≠ EmptyString → b ≠ EmptyString →
  Fields (String.concat EmptyString (repeat " "%string k) +:+ a +:+ " " +:+ b +:+ String nl EmptyString) = [a; b].
Proof.
  intros Ha Hb Na Nb. unfold Fields.
  assert (Hw : fields_go 0 EmptyString (a +:+ " " +:+ b +:+ String nl EmptyString) = [a; b]).
  { rewrite fields_word, append_nil_l by done. rewrite append_cons, append_nil_l, fields_space.
    rewrite fields_word, append_nil_l, fields_nl by done. by rewrite !flush_some. }
  induction k as [|k IH]; [cbn [repeat String.concat]; by rewrite append_nil_l|].
  cbn [repeat String.concat]. destruct k as [|k].
  - cbn [repeat]. rewrite append_cons, append_nil_l, fields_space. cbn [flush app]. exact Hw.
  - cbn [repeat] in *. rewrite append_assoc, append_cons, append_nil_l, append_nil_l, fields_space. exact IH.
Qed.

Lemma zombie_row r :
  in_i64 r.1.2 → visible r.2 → r.2 ≠ EmptyString →
  zombie_of_line (ps_row r) = if decide (r.2 = "Z"%string) then Some r.1.2 else None.
Proof.
  destruct r as [[k pid] stat]. cbn [fst snd]. intros Hp Hv Hn. unfold zombie_of_line, ps_row.
  rewrite fields_row; [|apply visible_Itoa|done| |done].
  - by rewrite Atoi_Itoa_roundtrip.
  - destruct (Itoa_head pid Hp) as (a&s&->&_). done.
Qed.

Definition row_ok (r : nat * Z * string) : Prop := in_i64 r.1.2 ∧ visible r.2 ∧ r.2 ≠ EmptyString.

Lemma spaces_no_nl k : no_char nl (String.concat EmptyString (repeat " "%string k)).
Proof.
  induction k as [|[|k] IH]; [done|by cbn; split|].
  change (no_char nl (" " +:+ EmptyString +:+ String.concat EmptyString (repeat " "%string (S k)))).
  rewrite !no_char_app. split; [by split|]. by split.
Qed.

Lemma read_ps_rows rows : Forall row_ok rows →
  read_lines (foldr String.append EmptyString (map ps_row rows)) = map ps_row rows.
Proof.
  induction 1 as [|[[k pid] stat] rows (_&Hv&_) _ IH]; [done|]. cbn [map foldr].
  assert (Hr : ps_row (k, pid, stat) =
    (String.concat EmptyString (repeat " "%string k) +:+ Itoa pid +:+ " " +:+ stat) +:+ String nl EmptyString).
  { unfold ps_row. by rewrite !append_assoc. }
  rewrite Hr, append_snoc, read_lines_first, IH; [done|].
  rewrite !no_char_app. split; [apply spaces_no_nl|]. split; [apply visible_no_nl, visible_Itoa|].
  split; [by split|by apply visible_no_nl].
Qed.

Lemma zombie_of_rows rows : Forall row_ok rows →
  omap zombie_of_line (map ps_row rows) = zombie_rows rows.
Proof.
  unfold zombie_rows. induction 1 as [|r rows (H1&H2&H3) _ IH]; [done|].
  cbn [map omap list_omap]. rewrite (zombie_row r) by done. cbn [omap] in IH. rewrite IH. by case_decide.
Qed.

Lemma remove_one_perm x l : x ∈ l → l ≡ₚ x :: remove_one x l.
Proof.
  induction l as [|y l IH]; [by intros ?%elem_of_nil|]. intros Hx. cbn.
  case_decide as Hd; [by subst|]. apply elem_of_cons in Hx as [|Hx]; [done|]. rewrite (IH Hx) at 1. constructor.
Qed.

Lemma pending_app tr1 tr2 : pending_reaps (tr1 ++ tr2) = foldl note_reap (pending_reaps tr1) tr2.
Proof. apply foldl_app. Qed.

Lemma pending_started l zs : foldl note_reap l (map EvReap zs) = l ++ zs.
Proof.
  revert l. induction zs as [|z zs IH]; intros l; cbn; [by rewrite app_nil_r|]. by rewrite IH, <- app_assoc.
Qed.

Lemma pending_turn tr zs :
  pending_reaps (((tr ++ [EvExec ps_argv]) ++ map EvReap zs) ++ [EvSleep (30 * second)]) = pending_reaps tr ++ zs.
Proof. by rewrite !pending_app, pending_started. Qed.

Lemma reap_waits w w' : reap_step w w' → ∃ pid, trace w' = trace w ++ [EvWait pid] ∧
  pending_reaps (trace w) ≡ₚ pid :: pending_reaps (trace w').
Proof.
  destruct 1 as [pid w w' Hin [= <-]]. exists pid. split; [done|]. cbn. rewrite pending_app. by apply remove_one_perm.
Qed.

Lemma reaps_all w w' : rtc reap_step w w' → ∃ waited, trace w' = trace w ++ map EvWait waited ∧
  waited ++ pending_reaps (trace w') ≡ₚ pending_reaps (trace w).
Proof.
  induction 1 as [w|w1 w2 w3 H12 _ (waited&T&P)]; [exists []; by rewrite app_nil_r|].
  destruct (reap_waits _ _ H12) as (pid&T1&P1). exists (pid :: waited).
  split; [by rewrite T, T1, <- app_assoc|]. by rewrite P1, <- P.
Qed.

Lemma reaps_end w : ∃ w', rtc reap_step w w' ∧ pending_reaps (trace w') = [].
Proof.
  remember (length (pending_reaps (trace w))) as n eqn:En. revert w En.
  induction n as [|n IH]; intros w En; [exists w; split; [apply rtc_refl|by apply nil_length_inv]|].
  destruct (pending_reaps (trace w)) as [|pid l] eqn:Ep; [done|].
  assert (Hs : reap_step w (add_event (EvWait pid) w)) by (apply (reap_one pid); [rewrite Ep; by left|done]).
  destruct (reap_waits _ _ Hs) as (pid'&_&P). rewrite Ep in P. apply Permutation_length in P.
  destruct (IH (add_event (EvWait pid) w)) as (w'&Hr&He); [cbn in *; lia|]. exists w'. split; [by eapply rtc_l|done].
Qed.

(** ** Properties *)

(** C36: in one turn a goroutine is started for exactly the processes whose state
    ps prints as Z, one for each row and however the table is padded, and then
    there is a pause.  The goroutines run when they run: in whatever order, each
    waits for its process exactly once, and it always can. *)
Theorem watchForZombies_reaps (E : env) rows w :
  Forall row_ok rows → run_output (run_cmd E (tick w) ps_argv) = ps_output rows →
  ∃ w', watchForZombies_turn E w = Done () w' ∧
    trace w' = trace w ++ [EvExec ps_argv] ++ map EvReap (zombie_rows rows) ++ [EvSleep (30 * second)] ∧
    (∀ w'', rtc reap_step w' w'' → ∃ waited, trace w'' = trace w' ++ map EvWait waited ∧
       waited ++ pending_reaps (trace w'') ≡ₚ pending_reaps (trace w) ++ zombie_rows rows) ∧
    (∃ w'', rtc reap_step w' w'' ∧ pending_reaps (trace w'') = []).
Proof.
  intros Hr Ho.
  assert (Hf : omap zombie_of_line (read_lines (ps_output rows)) = zombie_rows rows).
  { unfold ps_output. rewrite read_lines_first by (cbn; repeat split; discriminate).
    rewrite read_ps_rows by done. cbn [omap list_omap].
    assert (Hh : zombie_of_line ("    PID STAT" +:+ String nl EmptyString) = None) by by vm_compute.
    rewrite Hh. by apply zombie_of_rows. }
  assert (Hk : ∀ zs v, forEach zs go_killZombie v =
    Done () (World (nodes v) (tails v) (command v) (creds v) (rot v) (pod v) (fs v) (tick v) (trace v ++ map EvReap zs))).
  { intros zs. induction zs as [|z zs IH]; intros v; cbn [forEach map].
    - rewrite app_nil_r. by destruct v.
    - unfold mbind, M_bind, go_killZombie, emit, modify. rewrite IH. cbn. by rewrite <- app_assoc. }
  unfold watchForZombies_turn, findZombies, run_external, mbind, M_bind, next, emit, modify, sleep, mret, M_ret.
  rewrite Ho, Hf, Hk. eexists. split; [reflexivity|]. split; [cbn; by rewrite <- !app_assoc|]. split.
  - intros w'' Hs. destruct (reaps_all _ _ Hs) as (waited&T&P). exists waited. split; [done|]. rewrite P, <- pending_turn.
    done.
  - apply reaps_end.
Qed.

(** ** Witness *)

Definition demo_rows : list (nat * Z * string) :=
  [(6%nat, 1, "Ss"%string); (5%nat, 42, "Z"%string); (4%nat, 777, "S+"%string); (3%nat, 4242, "Z"%string)].

Definition ps_env : env := {|
  getenv := λ _, EmptyString; http_do := λ _ _, Some DoFails;
  map_range := λ _ V m, map_to_list m; map_range_perm := λ _ V m, Permutation_refl (map_to_list m);
  fs_fault := λ _ _ _, None; read_limit := λ _ _, None; umask := 18; clock := λ _, EmptyString;
  zone_lookup := fixed_zone 0; rand_source := λ _, 0; vault_adapter := λ _, None; vault_creds := λ _ _, inl ∅;
  gjson_get := λ _ _, EmptyString; run_cmd := λ _ _, RunOutcome (Some 0) (ps_output demo_rows) ∅
|}.

Lemma watchForZombies_reaps_witness :
  ∃ w', watchForZombies_turn ps_env small_world = Done () w' ∧
    trace w' = [] ++ [EvExec ps_argv] ++ map EvReap [42; 4242] ++ [EvSleep (30 * second)] ∧
    (∀ w'', rtc reap_step w' w'' → ∃ waited, trace w'' = trace w' ++ map EvWait waited ∧
       waited ++ pending_reaps (trace w'') ≡ₚ [] ++ [42; 4242]) ∧
    (∃ w'', rtc reap_step w' w'' ∧ pending_reaps (trace w'') = []).
Proof.
  apply (watchForZombies_reaps ps_env demo_rows small_world); [|reflexivity].
  repeat (apply Forall_cons; split); try apply Forall_nil; unfold row_ok, in_i64, minInt64, maxInt64; cbn;
    repeat split; try lia; done.
Defined.
