(* ===== verification/Health.v ===== *)
(** * Health endpoints: src/src/console_node/health.go, httpUtils.go

    The three handlers the API server registers, over a model of the
    [http.ResponseWriter] they write to and of what net/http sends of it. *)

From S2P Require Import Prelude GoStrings Json JsonFacts World DataService Wire Demo.
From Stdlib Require Import ZArith Lia Ascii.
From stdpp Require Import base numbers strings gmap sets list.

Local Open Scope Z_scope.

(** ** http.ResponseWriter *)

(** [rw_header] is the map [Header()] returns; [rw_sent] is the status line
    with the header as they were when the status was written; [rw_body] is
    the data that was written. *)
Record ResponseWriter := RW {
  rw_header : gmap string string;
  rw_sent : option (Z * gmap string string);
  rw_body : string
}.

Definition rw_new : ResponseWriter := RW ∅ None EmptyString.

(** [w.Header().Set(key, value)]; the keys used are in canonical form. *)
Definition Header_Set (key value : string) (rw : ResponseWriter) : ResponseWriter :=
  RW (<[key := value]> (rw_header rw)) (rw_sent rw) (rw_body rw).

(** [w.WriteHeader(code)]: a second call is ignored. *)
Definition WriteHeader (sc : Z) (rw : ResponseWriter) : ResponseWriter :=
  match rw_sent rw with
  | Some _ => rw
  | None => RW (rw_header rw) (Some (sc, rw_header rw)) (rw_body rw)
  end.

(** [w.Write(data)]: writes status 200 first when there is none, and rejects
    the data when the status allows no body. *)
Definition Write (data : string) (rw : ResponseWriter) : ResponseWriter :=
  let rw1 := WriteHeader 200 rw in
  match rw_sent rw1 with
  | Some (sc, _) =>
    if (sc =? 204) || (sc =? 304) || ((100 <=? sc) && (sc <=? 199)) then rw1
    else RW (rw_header rw1) (rw_sent rw1) (rw_body rw1 +:+ data)
  | None => rw1
  end.

(** [json.NewEncoder(w).Encode(v)] *)
Definition Encode (j : json) (rw : ResponseWriter) : ResponseWriter :=
  Write (json_print j +:+ String nl EmptyString) rw.

(** What the client gets: status, header and body.  The header leaves out what
    net/http adds to every response (Date, Content-Length, Connection). *)
Record response := Sent {
  st_status : Z;
  st_header : gmap string string;
  st_body : string
}.

(** The first 512 bytes, which [DetectContentType] looks at. *)
Definition first512 (s : string) : string := String.substring 0 512 s.

(** The end of a request with the method [meth]: a handler that wrote nothing
    answers 200; data that is sent without a Content-Type gets the one that
    [http.DetectContentType] finds in it, whether the body is sent or, for
    HEAD, discarded. *)
Definition finish (DetectContentType : string → string) (meth : string) (rw : ResponseWriter) : response :=
  let '(sc, h) := default (200, rw_header rw) (rw_sent rw) in
  let h' := match h !! "Content-Type"%string with
            | Some _ => h
            | None => if decide (rw_body rw = EmptyString) then h
                      else <["Content-Type" := DetectContentType (first512 (rw_body rw))]> h
            end in
  Sent sc h' (if decide (meth = "HEAD"%string) then EmptyString else rw_body rw).

(** ** The handlers *)

(** [type HealthResponse struct] *)
Record HealthResponse := Health {
  NumMtnConnected : string;
  NumRvrConnected : string;
  TargetNumMtn : string;
  TargetNumRvr : string;
  LastHeartbeat : string
}.

Definition health_json (h : HealthResponse) : json :=
  JObj [("num_mtn", JStr (NumMtnConnected h)); ("num_rvr", JStr (NumRvrConnected h));
        ("target_mtn", JStr (TargetNumMtn h)); ("target_rvr", JStr (TargetNumRvr h));
        ("last_heartbeat", JStr (LastHeartbeat h))].

(** [type ErrResponse struct] *)
Definition err_json (e : Z) (errMsg : string) : json :=
  JObj [("e", JInt e); ("err_msg", JStr errMsg)].

(** [SendResponseJSON] *)
Definition SendResponseJSON (rw : ResponseWriter) (sc : Z) (data : json) : ResponseWriter :=
  Encode data (WriteHeader sc (Header_Set "Content-Type" "application/json" rw)).

(** [sendJSONError]: a success status is reported as error code 0. *)
Definition sendJSONError (rw : ResponseWriter) (ecode : Z) (message : string) : ResponseWriter :=
  let httpCode := ecode in
  let ecode := if (200 <=? ecode) && (ecode <=? 299) then 0 else ecode in
  SendResponseJSON rw httpCode (err_json ecode message).

Definition notAllowed (rw : ResponseWriter) (rq : string) : ResponseWriter :=
  sendJSONError (Header_Set "Allow" "GET" rw) 405 ("(" +:+ rq +:+ ") Not Allowed").

(** What [doHealth] reports of the package variables. *)
Definition health_stats (w : world) : HealthResponse := {|
  NumMtnConnected := Itoa (zlen (mtn w) + zlen (pds w));
  NumRvrConnected := Itoa (zlen (rvr w));
  TargetNumMtn := Itoa (targetMtnNodes (nodes w));
  TargetNumRvr := Itoa (targetRvrNodes (nodes w));
  LastHeartbeat := lastHeartbeatTime (pod w)
|}.

(** [doHealth] on a request with the method [rq] *)
Definition doHealth (w : world) (rw : ResponseWriter) (rq : string) : ResponseWriter :=
  if decide (rq ≠ "GET"%string) then notAllowed rw rq else
  let stats := health_stats w in
  Encode (health_json stats)
    (Header_Set "Content-Type" "application/json" (WriteHeader 200 rw)).

(** [doLiveness] *)
Definition doLiveness (rw : ResponseWriter) (rq : string) : ResponseWriter :=
  if decide (rq ≠ "GET"%string) then notAllowed rw rq else WriteHeader 204 rw.

(** [doReadiness] *)
Definition doReadiness (rw : ResponseWriter) (rq : string) : ResponseWriter :=
  if decide (rq ≠ "GET"%string) then notAllowed rw rq else WriteHeader 204 rw.

(** ** The endpoints *)

Definition handler : Type := world → ResponseWriter → string → ResponseWriter.

(** The patterns [main] registers. *)
Definition routes : list (string * handler) :=
  [("/console-node/liveness", λ _, doLiveness); ("/console-node/readiness", λ _, doReadiness);
   ("/console-node/health", doHealth)]%string.

(** [http.DefaultServeMux]: a pattern without a final slash is for that path
    only; [unregistered] is what the multiplexer answers for other paths. *)
Definition serve (unregistered : string → ResponseWriter → string → ResponseWriter) (w : world)
    (path : string) (rw : ResponseWriter) (rq : string) : ResponseWriter :=
  match list_find (λ r, r.1 = path) routes with
  | Some (_, r) => r.2 w rw rq
  | None => unregistered path rw rq
  end.

(** The answer to a request for [path] with the method [rq]. *)
Definition answer (DetectContentType : string → string) (unregistered : string → ResponseWriter → string → ResponseWriter)
    (w : world) (path rq : string) : response :=
  finish DetectContentType rq (serve unregistered w path rw_new rq).

(** ** Properties *)

Lemma Itoa_ascii n : ascii_text (Itoa n).
Proof.
  unfold Itoa.
  assert (G : ∀ f m acc, ascii_text acc → ascii_text (utoa f m acc)).
  { assert (Hm : ∀ m, code (digit_char (m mod 10)) < 128).
    { intros m. pose proof (Z.mod_pos_bound m 10 ltac:(lia)). rewrite code_digit_char by done. lia. }
    induction f as [|f IH]; intros m acc Ha; cbn [utoa]; [by split|].
    destruct (m <? 10); [by split|]. apply IH. by split. }
  destruct (n <? 0); [split; [done|]|]; by apply G.
Qed.

Lemma health_json_ok w : ascii_text (lastHeartbeatTime (pod w)) → json_ok 0 (health_json (health_stats w)).
Proof.
  intros H. apply json_ok_members; [done|]. cbn [health_stats NumMtnConnected NumRvrConnected TargetNumMtn TargetNumRvr LastHeartbeat].
  repeat (apply Forall_cons; split; [split; [cbn; repeat split; lia|cbn [snd]; apply ok_str; auto using Itoa_ascii]|]).
  apply Forall_nil; done.
Qed.

Lemma Encode_body j sc h h' b :
  (sc =? 204) || (sc =? 304) || ((100 <=? sc) && (sc <=? 199)) = false →
  Encode j (RW h (Some (sc, h')) b) = RW h (Some (sc, h')) (b +:+ json_print j +:+ String nl EmptyString).
Proof. intros H. unfold Encode, Write. cbn [WriteHeader rw_sent]. by rewrite H. Qed.

(** Data that is sent without a type gets the detected one. *)
Lemma finish_untyped detect meth sc h0 h b :
  h !! "Content-Type"%string = None → b ≠ EmptyString →
  finish detect meth (RW h0 (Some (sc, h)) b) =
    Sent sc (<["Content-Type" := detect (first512 b)]> h) (if decide (meth = "HEAD"%string) then EmptyString else b).
Proof. intros Hh Hb. unfold finish. cbn [rw_sent rw_body default from_option id]. by rewrite Hh, (decide_False _ _ Hb). Qed.

Lemma encoded_nonempty s : s +:+ String nl EmptyString ≠ EmptyString.
Proof. by destruct s. Qed.

Section answers.
Context (DetectContentType : string → string) (other : string → ResponseWriter → string → ResponseWriter).

(** C38: a GET request for /console-node/health is answered with status 200 and
    a body that parses to the five members, the Mountain count being that of
    Mountain and Paradise together.  Its Content-Type is the one net/http
    detects in the first 512 bytes of the body, because the handler sets the
    header after the status was written; detection knows no JSON, so it is not
    the application/json that the handler sets. *)
Theorem doHealth_report w :
  ascii_text (lastHeartbeatTime (pod w)) →
  (∀ s, DetectContentType s ≠ "application/json"%string) →
  let a := answer DetectContentType other w "/console-node/health" "GET" in
  st_status a = 200 ∧
  st_header a = {["Content-Type" := DetectContentType (first512 (st_body a))]} ∧
  st_header a !! "Content-Type"%string ≠ Some "application/json"%string ∧
  json_parse (st_body a) = Some (JObj [
    ("num_mtn", JStr (Itoa (zlen (mtn w) + zlen (pds w)))); ("num_rvr", JStr (Itoa (zlen (rvr w))));
    ("target_mtn", JStr (Itoa (targetMtnNodes (nodes w)))); ("target_rvr", JStr (Itoa (targetRvrNodes (nodes w))));
    ("last_heartbeat", JStr (lastHeartbeatTime (pod w)))]%string).
Proof.
  intros H Hd.
  assert (Hs : answer DetectContentType other w "/console-node/health" "GET" =
    let b := json_print (health_json (health_stats w)) +:+ String nl EmptyString in
    Sent 200 {["Content-Type" := DetectContentType (first512 b)]} b).
  { change (finish DetectContentType "GET" (doHealth w rw_new "GET") =
      let b := json_print (health_json (health_stats w)) +:+ String nl EmptyString in
      Sent 200 {["Content-Type" := DetectContentType (first512 b)]} b).
    unfold doHealth. rewrite decide_False by auto. unfold Header_Set. cbn [rw_new WriteHeader rw_sent rw_header rw_body].
    rewrite Encode_body, append_nil_l by done. apply finish_untyped; [apply lookup_empty|apply encoded_nonempty]. }
  cbv zeta. rewrite Hs. cbn [st_status st_header st_body]. split; [done|]. split; [done|]. split.
  - rewrite lookup_singleton_eq. intros [= He]. by apply (Hd _ He).
  - rewrite json_parse_print; [done|by apply health_json_ok|by right].
Qed.

Lemma notAllowed_response rq :
  ascii_text rq →
  rw_sent (notAllowed rw_new rq) = Some (405, {["Allow" := "GET"; "Content-Type" := "application/json"]}) ∧
  json_parse (rw_body (notAllowed rw_new rq)) =
    Some (JObj [("e", JInt 405); ("err_msg", JStr ("(" +:+ rq +:+ ") Not Allowed"))])%string.
Proof.
  intros Ha. unfold notAllowed, sendJSONError, SendResponseJSON.
  unfold Header_Set. cbn [rw_new WriteHeader rw_sent rw_header rw_body]. rewrite Encode_body by done. cbn [rw_sent rw_body].
  split; [reflexivity|].
  rewrite append_nil_l, json_parse_print; [done| |by right].
  assert (in_i64 405) by (unfold in_i64, minInt64, maxInt64; lia).
  apply json_ok_members; [done|]. unfold JInt. change (if (200 <=? 405) && (405 <=? 299) then 0 else 405) with 405.
  repeat (apply Forall_cons; split; [split; [cbn; repeat split; lia|cbn [snd]]|]); [by apply ok_num| |apply Forall_nil; done].
  apply ok_str. rewrite !ascii_text_app. by split_and!.
Qed.

(** C37: each of the three registered paths answers a request that is not a GET
    with a 405 that names the allowed method, has a JSON content type and a
    JSON body with the code and the rejected method (no body for HEAD, where
    net/http discards it); the two probes answer a GET with an empty 204, the
    third path with the health report; for every other path the multiplexer
    answers. *)
Theorem endpoints_method rq w :
  ascii_text rq → rq ≠ "GET"%string →
  (∀ path, path ∈ ["/console-node/liveness"; "/console-node/readiness"; "/console-node/health"]%string →
    let a := answer DetectContentType other w path rq in
    st_status a = 405 ∧ st_header a = {["Allow" := "GET"; "Content-Type" := "application/json"]}%string ∧
    (rq = "HEAD"%string → st_body a = EmptyString) ∧
    (rq ≠ "HEAD"%string → json_parse (st_body a) =
      Some (JObj [("e", JInt 405); ("err_msg", JStr ("(" +:+ rq +:+ ") Not Allowed"))])%string)) ∧
  answer DetectContentType other w "/console-node/liveness" "GET" = Sent 204 ∅ EmptyString ∧
  answer DetectContentType other w "/console-node/readiness" "GET" = Sent 204 ∅ EmptyString ∧
  answer DetectContentType other w "/console-node/health" "GET" = finish DetectContentType "GET" (doHealth w rw_new "GET") ∧
  (∀ path meth, path ∉ ["/console-node/liveness"; "/console-node/readiness"; "/console-node/health"]%string →
    answer DetectContentType other w path meth = finish DetectContentType meth (other path rw_new meth)).
Proof.
  intros Ha H. split; [|split_and!; try done].
  - intros path Hp.
    assert (Hs : serve other w path rw_new rq = notAllowed rw_new rq).
    { assert (Hl : doLiveness rw_new rq = notAllowed rw_new rq) by (unfold doLiveness; by rewrite (decide_True _ _ H)).
      assert (Hh : doHealth w rw_new rq = notAllowed rw_new rq) by (unfold doHealth; by rewrite (decide_True _ _ H)).
      rewrite !elem_of_cons, elem_of_nil in Hp.
      destruct Hp as [->|[->|[->|[]]]]; [exact Hl|exact Hl|exact Hh]. }
    destruct (notAllowed_response rq Ha) as [Hn Hj]. unfold answer, finish. rewrite Hs, Hn. cbn [default from_option id].
    split; [done|]. split; [done|]. cbn [st_body]. by case_decide.
  - intros path meth Hp. unfold answer, serve. destruct (list_find _ routes) as [[i r]|] eqn:Ef; [|done].
    apply list_find_Some in Ef as (Hi&<-&_). destruct Hp. apply (list_elem_of_fmap_2 fst routes r). by eapply list_elem_of_lookup_2.
Qed.

End answers.

(** ** Witnesses *)

Definition detect_text (s : string) : string := "text/plain; charset=utf-8".

Definition no_route (path : string) (rw : ResponseWriter) (rq : string) : ResponseWriter := WriteHeader 404 rw.

Lemma doHealth_report_witness :
  let a := answer detect_text no_route small_world "/console-node/health" "GET" in
  st_status a = 200 ∧
  st_header a = {["Content-Type" := "text/plain; charset=utf-8"]}%string ∧
  st_header a !! "Content-Type"%string ≠ Some "application/json"%string ∧
  json_parse (st_body a) = Some (JObj [("num_mtn", JStr "2"); ("num_rvr", JStr "1");
    ("target_mtn", JStr "-1"); ("target_rvr", JStr "-1"); ("last_heartbeat", JStr "None")]%string).
Proof. apply (doHealth_report detect_text no_route small_world); [by repeat split|done]. Defined.

Lemma endpoints_method_witness :
  (∀ path, path ∈ ["/console-node/liveness"; "/console-node/readiness"; "/console-node/health"]%string →
    let a := answer detect_text no_route small_world path "POST" in
    st_status a = 405 ∧ st_header a = {["Allow" := "GET"; "Content-Type" := "application/json"]}%string ∧
    ("POST" = "HEAD" → st_body a = EmptyString)%string ∧
    ("POST" ≠ "HEAD" → json_parse (st_body a) =
      Some (JObj [("e", JInt 405); ("err_msg", JStr ("(" +:+ "POST" +:+ ") Not Allowed"))]))%string) ∧
  answer detect_text no_route small_world "/console-node/liveness" "GET" = Sent 204 ∅ EmptyString ∧
  answer detect_text no_route small_world "/console-node/readiness" "GET" = Sent 204 ∅ EmptyString ∧
  answer detect_text no_route small_world "/console-node/health" "GET" =
    finish detect_text "GET" (doHealth small_world rw_new "GET") ∧
  (∀ path meth, path ∉ ["/console-node/liveness"; "/console-node/readiness"; "/console-node/health"]%string →
    answer detect_text no_route small_world path meth = finish detect_text meth (no_route path rw_new meth)).
Proof. apply (endpoints_method detect_text no_route "POST" small_world); [by repeat split|done]. Defined.
