(* ===== verification/Server.v ===== *)
(** * The API server: package net/http, src/src/console_node/consoleNodeMain.go

    [main] runs an [http.Server] in a goroutine of its own and calls its
    [Shutdown] last.  The server is a transition system on its connections, as
    net/http documents it; the requests are answered by the handlers of
    Health.v, which read the program's state at that moment, without the mutex
    that the threads use. *)

From S2P Require Import Prelude GoStrings World Health.
From Stdlib Require Import ZArith Lia.
From stdpp Require Import base numbers strings gmap sets list.

(** ** The server *)

(** [ListenAndServe] was not reached, serves, or has returned with an error. *)
Inductive srv_life := SrvStarting | SrvServing | SrvReturned.

(** A connection: accepted and nothing read, with a request in a handler, or
    between two requests. *)
Inductive conn := ConnNew | ConnActive (path meth : string) | ConnIdle.

(** Whether [Shutdown] was called, the connections, and what is observed: the
    requests that were read and the answers that the handlers gave. *)
Record server := Server {
  srv_at : srv_life;
  srv_closing : bool;
  srv_conns : gmap nat conn;
  srv_requests : list (string * string);
  srv_answers : list (string * string * response)
}.

(** [httpSrv] before its goroutine runs. *)
Definition srv_start : server := Server SrvStarting false ∅ [] [].

(** The request a connection waits for an answer to. *)
Definition conn_request (c : conn) : option (string * string) :=
  match c with ConnActive path meth => Some (path, meth) | _ => None end.

(** [Shutdown]: the listener is closed.  Then it looks at the connections again
    and again, closes the idle ones, and returns when there is none left; that
    is the step [ps_return] of Process.v. *)
Definition Shutdown (a : server) : server :=
  Server (srv_at a) true (srv_conns a) (srv_requests a) (srv_answers a).

Section server.
(** What net/http detects in a body, and what the multiplexer answers for paths
    that are not registered. *)
Context (detect : string → string) (other : string → ResponseWriter → string → ResponseWriter).

(** A step of the server while the program is in the state [w].  A closing
    server accepts no connection, drops a connection after its answer, and
    closes those that wait for nothing. *)
Inductive srv_step (w : world) : server → server → Prop :=
| srv_listen m rq an :
    srv_step w (Server SrvStarting false m rq an) (Server SrvServing false m rq an)
| srv_return b m rq an : (** the address is taken, or [Shutdown] came first *)
    srv_step w (Server SrvStarting b m rq an) (Server SrvReturned b m rq an)
| srv_accept id m rq an : m !! id = None →
    srv_step w (Server SrvServing false m rq an) (Server SrvServing false (<[id := ConnNew]> m) rq an)
| srv_read id c path meth l b m rq an : m !! id = Some c → conn_request c = None →
    srv_step w (Server l b m rq an) (Server l b (<[id := ConnActive path meth]> m) (rq ++ [(path, meth)]) an)
| srv_answer id path meth l b m rq an : m !! id = Some (ConnActive path meth) →
    srv_step w (Server l b m rq an)
      (Server l b (if b : bool then delete id m else <[id := ConnIdle]> m) rq
        (an ++ [(path, meth, answer detect other w path meth)]))
| srv_hangup id c l b m rq an : m !! id = Some c → conn_request c = None →
    srv_step w (Server l b m rq an) (Server l b (delete id m) rq an).

(** ** Lemma *)

(** A closing server can be rid of its connections, one step for each. *)
Lemma srv_drains w l m rq an :
  ∃ an', bsteps (srv_step w) (size m) (Server l true m rq an) (Server l true ∅ rq an').
Proof.
  revert an. induction m as [|id c m Hn IH] using map_ind; intros an.
  - rewrite map_size_empty. exists an. constructor.
  - rewrite map_size_insert_None by done.
    assert (Hl : <[id := c]> m !! id = Some c) by by rewrite lookup_insert_eq.
    assert (Hd : delete id (<[id := c]> m) = m) by by apply delete_insert_id.
    destruct (conn_request c) as [r|] eqn:Ec.
    + destruct c as [|path meth|]; try done. destruct (IH (an ++ [(path, meth, answer detect other w path meth)])) as [an' Hs].
      exists an'. eapply bsteps_l; [|exact Hs]. rewrite <- Hd at 2. by apply (srv_answer w id path meth l true).
    + destruct (IH an) as [an' Hs]. exists an'. eapply bsteps_l; [|exact Hs]. rewrite <- Hd at 2. by eapply srv_hangup.
Qed.

End server.
