(* ===== verification/FakeLogs.v ===== *)
(** * Test log files: src/src/console_node/data.go

    [createTestLogFile], the goroutine that keeps writing to the console log
    of a node in debug mode, where there are no real consoles. *)

From S2P Require Import Prelude GoStrings World Files LogRotateConf Demo.
From Stdlib Require Import ZArith Lia.
From stdpp Require Import base numbers strings gmap sets list.

Local Open Scope Z_scope.
Local Open Scope go_scope.

Definition fake_text : string :=
  "ASAS:LDL:KJFSADSDfDSLKJYUIYHIUNMNKJHSDFKJHDSLKJDFHLKJDSFHASKAJUHSDAASDLKJFHLKJHADSLKJDSHFLKJDHFSD:OUISDFLKDJFHASLJKFHDKJFH".

(** The message of line number [n]. *)
Definition fake_message (xname : string) (n : Z) : string := xname +:+ ", " +:+ Itoa n +:+ ": " +:+ fake_text.

Section fake.
(** [stamp n] is the date and time that the log package puts before a message
    at interaction [n]. *)
Context (E : env) (stamp : nat → string).

(** [log1.Print] and [log1.Printf]: one write, whose error is ignored; the file
    is nil when it could not be opened. *)
Definition log_print (opened : bool) (path msg : string) : M () :=
  n ← next;
  fprint E opened path (line (stamp n +:+ msg)).

(** The inner loop: [k] more lines, the next one with the number [lineCnt]. *)
Fixpoint write_lines (opened : bool) (path xname : string) (k : nat) (lineCnt : Z) : M Z :=
  match k with
  | O => mret lineCnt
  | S k' =>
    log_print opened path (fake_message xname lineCnt);;
    write_lines opened path xname k' (lineCnt +i 1)
  end.

(** The loop that runs forever, for the first [turns] turns. *)
Fixpoint write_turns (opened : bool) (path xname : string) (turns : nat) (lineCnt : Z) : M Z :=
  match turns with
  | O => mret lineCnt
  | S t =>
    log_print opened path "Start new write:";;
    lineCnt' ← write_lines opened path xname 10 lineCnt;
    sleep (1 * second);;
    write_turns opened path xname t lineCnt'
  end.

(** [createTestLogFile]: false when it returned because the file is there. *)
Definition createTestLogFile (turns : nat) (xname : string) (respin : bool) : M bool :=
  let filename := consoleLog xname in
  st ← (if respin then osStat E filename else mret StatNotExist);
  match st with
  | StatOk _ => mret false
  | _ =>
    err ← osTruncate E filename 384;
    _ ← write_turns (match err with None => true | Some _ => false end) filename xname turns 0;
    mret true
  end.

(** ** What the file holds *)

(** The messages of [k] lines from number [n], and of [turns] turns. *)
Fixpoint line_messages (xname : string) (k : nat) (n : Z) : list string :=
  match k with O => [] | S k' => fake_message xname n :: line_messages xname k' (n +i 1) end.

Fixpoint turn_messages (xname : string) (turns : nat) (n : Z) : list string :=
  match turns with
  | O => []
  | S t => "Start new write:"%string :: line_messages xname 10 n ++ turn_messages xname t (Nat.iter 10 (λ m, m +i 1) n)
  end.

(** The messages, each with some date and time before it. *)
Inductive stamped : list string → string → Prop :=
| stamped_nil : stamped [] EmptyString
| stamped_cons m ms n s : stamped ms s → stamped (m :: ms) (line (stamp n +:+ m) +:+ s).

(** ** Lemmas *)

Lemma stamped_app ms1 ms2 s1 s2 : stamped ms1 s1 → stamped ms2 s2 → stamped (ms1 ++ ms2) (s1 +:+ s2).
Proof.
  induction 1 as [|m ms n s _ IH]; intros H2; [by rewrite append_nil_l|]. cbn [app]. rewrite append_assoc. constructor. by apply IH.
Qed.

(** The messages [ms] were added to the file, with pauses of a second. *)
Definition logged (path : string) (ms : list string) (pauses : nat) (w w' : world) : Prop :=
  only_fs w w' ∧ (∀ p, p ≠ path → fs w' !! p = fs w !! p) ∧
  trace w' = trace w ++ repeat (EvSleep (1 * second)) pauses ∧
  ∃ s, stamped ms s ∧ ∀ f, fs w !! path = Some f → fs w' !! path = Some (File (content f +:+ s) (mode f)).

Lemma logged_refl path w w' : only_fs w w' → fs w' = fs w → trace w' = trace w → logged path [] 0 w w'.
Proof.
  intros O F T. split; [done|]. split; [by rewrite F|]. split; [by rewrite T, app_nil_r|].
  exists EmptyString. split; [constructor|]. intros [c m] H. by rewrite F, append_nil_r.
Qed.

Lemma logged_trans path ms1 ms2 k1 k2 w w1 w2 :
  logged path ms1 k1 w w1 → logged path ms2 k2 w1 w2 → logged path (ms1 ++ ms2) (k1 + k2) w w2.
Proof.
  intros (O1&F1&T1&s1&S1&C1) (O2&F2&T2&s2&S2&C2). split; [by etrans|]. split; [intros p Hp; by rewrite F2, F1|].
  split; [by rewrite T2, T1, repeat_app, app_assoc|]. exists (s1 +:+ s2). split; [by apply stamped_app|].
  intros f Hf. apply C1, C2 in Hf. cbn in Hf. by rewrite append_assoc in Hf.
Qed.

Context (Hw : ∀ n p, fs_fault E n OpWrite p = None).

Lemma wp_log_print t path msg Q w :
  (∀ w', logged path [msg] 0 w w' → Q () w') → wp t (log_print true path msg) Q w.
Proof.
  intros H. unfold log_print, fprint, osAppend, fault. wp_pure. rewrite Hw. wp_pure. apply H.
  split; [by split|]. split; [intros p Hp; cbn; by rewrite lookup_alter_ne|]. split; [by rewrite app_nil_r|].
  exists (line (stamp (tick w) +:+ msg) +:+ EmptyString). split; [repeat constructor|].
  intros f Hf. rewrite append_nil_r. cbn. by rewrite lookup_alter_eq, Hf.
Qed.

Lemma wp_write_lines t path x k n Q w :
  (∀ w', logged path (line_messages x k n) 0 w w' → Q (Nat.iter k (λ m, m +i 1) n) w') →
  wp t (write_lines true path x k n) Q w.
Proof.
  revert n w. induction k as [|k IH]; intros n w H; cbn [write_lines].
  - by apply wp_ret, H, logged_refl.
  - rewrite wp_bind. apply wp_log_print. intros w1 L1. apply IH. intros w2 L2.
    assert (Ei : Nat.iter k (λ m, m +i 1) (n +i 1) = Nat.iter (S k) (λ m, m +i 1) n).
    { symmetry. apply (Nat.iter_succ_r k (λ m, m +i 1)). }
    rewrite Ei. apply H. by apply (logged_trans _ [_] _ 0 0 _ w1).
Qed.

Lemma wp_write_turns t path x turns n Q w :
  (∀ m w', logged path (turn_messages x turns n) turns w w' → Q m w') →
  wp t (write_turns true path x turns n) Q w.
Proof.
  revert n w. induction turns as [|turns IH]; intros n w H; cbn [write_turns].
  - by apply wp_ret, H, logged_refl.
  - rewrite wp_bind. apply wp_log_print. intros w1 L1. rewrite wp_bind. apply wp_write_lines. intros w2 L2.
    rewrite wp_bind, wp_sleep. apply IH. intros m w3 L3. apply H. cbn [turn_messages].
    apply (logged_trans _ [_] _ 0 (S turns) _ w1 _ L1). apply (logged_trans _ _ _ 0 (S turns) _ w2 _ L2).
    apply (logged_trans _ [] _ 1 turns _ (add_event (EvSleep (1 * second)) w2)); [|done].
    split; [by split|]. split; [done|]. split; [done|]. exists EmptyString. split; [constructor|].
    intros [c md] Hf. by rewrite append_nil_r.
Qed.

(** ** Properties *)

(** C40: a fake console log is left alone when it is only to be recreated and
    is there; otherwise it starts empty, and after any number of turns it
    holds for each turn the start line and ten numbered lines, the numbers
    running on from turn to turn, and a second has passed after each. *)
Theorem createTestLogFile_contents turns x respin w :
  (∀ n p, fs_fault E n OpStat p = None) → (∀ n p, fs_fault E n OpCreate p = None) →
  ∃ b w', createTestLogFile turns x respin w = Done b w' ∧
    if respin && bool_decide (is_Some (fs w !! consoleLog x))
    then b = false ∧ same_core w w' ∧ trace w' = trace w
    else b = true ∧ trace w' = trace w ++ repeat (EvSleep (1 * second)) turns ∧
      ∃ s, stamped (turn_messages x turns 0) s ∧ content <$> fs w' !! consoleLog x = Some s.
Proof.
  intros Hs Hc.
  assert (H : wp true (createTestLogFile turns x respin) (λ b w',
    if respin && bool_decide (is_Some (fs w !! consoleLog x))
    then b = false ∧ same_core w w' ∧ trace w' = trace w
    else b = true ∧ trace w' = trace w ++ repeat (EvSleep (1 * second)) turns ∧
      ∃ s, stamped (turn_messages x turns 0) s ∧ content <$> fs w' !! consoleLog x = Some s) w).
  { assert (Go : ∀ w1 Q, fs w1 = fs w → trace w1 = trace w →
      (∀ w', trace w' = trace w ++ repeat (EvSleep (1 * second)) turns ∧
        (∃ s, stamped (turn_messages x turns 0) s ∧ content <$> fs w' !! consoleLog x = Some s) → Q true w') →
      wp true (err ← osTruncate E (consoleLog x) 384;
        _ ← write_turns (match err with None => true | Some _ => false end) (consoleLog x) x turns 0; mret true) Q w1).
    { intros w1 Q Ef Et HQ. unfold osTruncate, fault. wp_pure. rewrite Hc. wp_pure.
      apply wp_write_turns. intros m w2 (_&_&T&s&Hst&C). apply wp_ret, HQ. split; [by rewrite T; cbn; rewrite Et|].
      exists s. split; [done|]. erewrite C by (cbn; by rewrite lookup_insert_eq). cbn. by rewrite append_nil_l. }
    unfold createTestLogFile. rewrite wp_bind. destruct respin; cbn [andb].
    - unfold osStat, fault. wp_pure. rewrite Hs. wp_pure. cbn [fs next_tick].
      destruct (fs w !! consoleLog x) as [f|] eqn:Ex.
      + rewrite bool_decide_true by eauto. by apply wp_ret.
      + rewrite bool_decide_false by by intros []. apply Go; [done|done|]. naive_solver.
    - apply wp_ret. apply Go; [done|done|]. naive_solver. }
  apply wp_total_done in H as (b&w'&H&HQ). eauto.
Qed.

End fake.

(** ** Witness *)

Definition fixed_stamp : nat → string := λ _, "2024/01/01 00:00:00 "%string.

Lemma createTestLogFile_contents_witness :
  ∃ b w', createTestLogFile quiet_env fixed_stamp 2 "x2000" true (demo_world [] [] []) = Done b w' ∧
    if true && bool_decide (is_Some (fs (demo_world [] [] []) !! consoleLog "x2000"))
    then b = false ∧ same_core (demo_world [] [] []) w' ∧ trace w' = trace (demo_world [] [] [])
    else b = true ∧ trace w' = trace (demo_world [] [] []) ++ repeat (EvSleep (1 * second)) 2 ∧
      ∃ s, stamped fixed_stamp (turn_messages "x2000" 2 0) s ∧ content <$> fs w' !! consoleLog "x2000" = Some s.
Proof.
  apply (createTestLogFile_contents quiet_env fixed_stamp (λ _ _, eq_refl) 2 "x2000" true (demo_world [] [] []));
    by intros.
Defined.

(** The last line of the second turn has the number 19. *)
Example second_turn_ends : last (turn_messages "x2000" 2 0) = Some (fake_message "x2000" 19).
Proof. by vm_compute. Qed.
