(* ===== verification/Flags.v ===== *)
(** * The command line: package flag, src/src/console_node/consoleNodeMain.go

    [main] declares one flag, the boolean [debug], and calls [flag.Parse],
    which ends the process when it does not accept the arguments. *)

From S2P Require Import Prelude GoStrings.
From Stdlib Require Import ZArith Ascii.
From stdpp Require Import base numbers strings sets list.

Local Open Scope Z_scope.

(** ** flag.Parse *)

Definition dash : ascii := "-"%char.

(** [strconv.ParseBool] *)
Definition ParseBool (s : string) : option bool :=
  if decide (s ∈ ["1"; "t"; "T"; "true"; "TRUE"; "True"]%string) then Some true
  else if decide (s ∈ ["0"; "f"; "F"; "false"; "FALSE"; "False"]%string) then Some false
  else None.

(** The name of a flag, and what follows its first equals sign. *)
Fixpoint split_value (s : string) : string * option string :=
  match s with
  | EmptyString => (EmptyString, None)
  | String c s' =>
    if decide (c = "="%char) then (EmptyString, Some s')
    else let r := split_value s' in (String c r.1, r.2)
  end.

(** How parsing ends: with the value of [debug] and the arguments that are left,
    or by [os.Exit]. *)
Inductive parsed := Parsed (debug : bool) (args : list string) | Exits (code : Z).

(** One flag, without its dashes: the new value of [debug], or an exit. *)
Definition parse_flag (name : string) : bool + Z :=
  match name with
  | EmptyString => inr 2
  | String c _ =>
    if decide (c = dash ∨ c = "="%char) then inr 2 else
    let r := split_value name in
    if decide (r.1 = "debug"%string) then
      match r.2 with
      | None => inl true
      | Some v => match ParseBool v with Some b => inl b | None => inr 2 end
      end
    else if decide (r.1 = "help"%string ∨ r.1 = "h"%string) then inr 0 else inr 2
  end.

(** [flag.Parse]: up to the first argument that is no flag, or behind a
    double dash. *)
Fixpoint parse_flags (debug : bool) (args : list string) : parsed :=
  match args with
  | [] => Parsed debug []
  | s :: rest =>
    match s with
    | String c1 (String c2 t) =>
      if decide (c1 = dash) then
        if decide (c2 = dash ∧ t = EmptyString) then Parsed debug rest else
        match parse_flag (if decide (c2 = dash) then t else String c2 t) with
        | inl b => parse_flags b rest
        | inr code => Exits code
        end
      else Parsed debug args
    | _ => Parsed debug args
    end
  end.

(** ** What the arguments mean *)

(** The ways to write the flag. *)
Inductive spells : bool → string → Prop :=
| sp_short : spells true "-debug"
| sp_long : spells true "--debug"
| sp_short_value b v : ParseBool v = Some b → spells b ("-debug=" +:+ v)
| sp_long_value b v : ParseBool v = Some b → spells b ("--debug=" +:+ v).

(** What ends the flags, and the arguments after it. *)
Inductive stops : list string → list string → Prop :=
| st_none : stops [] []
| st_dashes args : stops ("--"%string :: args) args
| st_empty args : stops (EmptyString :: args) (EmptyString :: args)
| st_single c args : stops (String c EmptyString :: args) (String c EmptyString :: args)
| st_word c s args : c ≠ dash → stops (String c s :: args) (String c s :: args).

(** Arguments that end the process, and its exit status. *)
Inductive refused : Z → string → Prop :=
| rf_help s : s ∈ ["-h"; "--h"; "-help"; "--help"]%string → refused 0 s
| rf_value d v : d ∈ ["-debug="; "--debug="]%string → ParseBool v = None → refused 2 (d +:+ v)
| rf_unknown d name : d ∈ ["-"; "--"]%string → no_char "="%char name →
    match name with String c _ => c ≠ dash | EmptyString => False end →
    name ∉ ["debug"; "help"; "h"]%string → refused 2 (d +:+ name).

(** ** Lemmas *)

(** A flag with one dash or two, when its name is not empty and starts otherwise. *)
Lemma parse_dashes d c name debug args :
  d ∈ ["-"; "--"]%string → c ≠ dash →
  parse_flags debug ((d +:+ String c name) :: args) =
  match parse_flag (String c name) with inl b => parse_flags b args | inr code => Exits code end.
Proof.
  intros Hd Hc. rewrite !elem_of_cons, elem_of_nil in Hd. destruct Hd as [->|[->|[]]].
  - change ("-" +:+ String c name) with (String dash (String c name)). cbn [parse_flags].
    rewrite decide_True by done. rewrite decide_False by naive_solver. by rewrite decide_False.
  - change ("--" +:+ String c name) with (String dash (String dash (String c name))). cbn [parse_flags].
    rewrite decide_True by done. rewrite decide_False by naive_solver. by rewrite decide_True.
Qed.

(** A value after the name [debug]. *)
Lemma parse_value v : parse_flag (String "d" ("ebug=" +:+ v)) = match ParseBool v with Some b => inl b | None => inr 2 end.
Proof. reflexivity. Qed.

Lemma parse_spelled b f debug args : spells b f → parse_flags debug (f :: args) = parse_flags b args.
Proof.
  destruct 1 as [| |b v H|b v H]; [reflexivity|reflexivity|..].
  - rewrite (parse_dashes "-" "d" ("ebug=" +:+ v)) by (done || set_solver). by rewrite (parse_value v), H.
  - rewrite (parse_dashes "--" "d" ("ebug=" +:+ v)) by (done || set_solver). by rewrite (parse_value v), H.
Qed.

Lemma parse_all_spelled bs fs debug args :
  Forall2 spells bs fs → parse_flags debug (fs ++ args) = parse_flags (default debug (last bs)) args.
Proof.
  intros H. revert debug. induction H as [|b f bs fs Hb _ IH]; intros debug; [done|].
  cbn [app]. rewrite (parse_spelled b) by done. rewrite IH. f_equal. destruct bs as [|b' bs]; [done|].
  rewrite (last_cons b). by destruct (last_is_Some (b' :: bs)) as [_ [x ->]].
Qed.

Lemma parse_stops debug args rest : stops args rest → parse_flags debug args = Parsed debug rest.
Proof. destruct 1 as [| | |c args|c s args Hc]; try done. destruct s; cbn; [done|]. by rewrite decide_False. Qed.

Lemma split_no_value s : no_char "="%char s → split_value s = (s, None).
Proof.
  induction s as [|c s IH]; cbn; [done|]. intros [Hc Hs]. rewrite decide_False by done. by rewrite IH.
Qed.

Lemma parse_unknown c s :
  c ≠ dash → no_char "="%char (String c s) → String c s ∉ ["debug"; "help"; "h"]%string → parse_flag (String c s) = inr 2.
Proof.
  intros Hc Hn Hin. unfold parse_flag. rewrite split_no_value by done. cbn [fst].
  rewrite decide_False by (destruct Hn; naive_solver). rewrite !not_elem_of_cons in Hin.
  rewrite !decide_False by naive_solver. done.
Qed.

Lemma parse_refused code f debug args : refused code f → parse_flags debug (f :: args) = Exits code.
Proof.
  destruct 1 as [s Hs|d v Hd Hv|d name Hd Hn Hm Hin].
  - rewrite !elem_of_cons, elem_of_nil in Hs. by destruct Hs as [->|[->|[->|[->|[]]]]].
  - rewrite !elem_of_cons, elem_of_nil in Hd. destruct Hd as [->|[->|[]]].
    + rewrite (parse_dashes "-" "d" ("ebug=" +:+ v)) by (done || set_solver). by rewrite (parse_value v), Hv.
    + rewrite (parse_dashes "--" "d" ("ebug=" +:+ v)) by (done || set_solver). by rewrite (parse_value v), Hv.
  - destruct name as [|c name]; [done|]. rewrite parse_dashes by done. by rewrite parse_unknown.
Qed.
