(* ===== verification/Main.v ===== *)
(** * Startup and shutdown: src/src/console_node/consoleNodeMain.go

    What [main] does before it starts the threads, from the initial values of
    the package's variables, and what it does after the signal to stop. *)

From S2P Require Import Prelude GoStrings Json World HttpUtils Operator Files LogAggregation.
From S2P Require Import DataService ConmanProc LogRotateConf Nodes NodesFacts PodSetup ConmanProps.
From S2P Require Import LogRotation Flags Demo.
From Stdlib Require Import ZArith Lia.
From stdpp Require Import base numbers strings gmap sets list.

Local Open Scope Z_scope.

(** The package's variables before [main], on a file system [files]. *)
Definition initial_world (files : gmap string file) : world := {|
  nodes := NodesState ∅ ∅ ∅ (-1) (-1) 500 200 30;
  tails := TailState ∅ ∅ ∅ 0 EmptyString None;
  command := CmdNil;
  creds := CredState None None;
  rot := initial_rot;
  pod := PodState false EmptyString EmptyString (Some podLocation_zero) false 30 "None";
  fs := files;
  tick := 0;
  trace := []
|}.

Section main.
Context (E : env) {Op : OperatorService}.

(** The first part of [main], up to the threads, after the command line;
    [debug] is its flag, [fuel] bounds the requests for the pod's location. *)
Definition main_startup (fuel : nat) (debug : bool) : M () :=
  modify (upd_pod (set_debugOnly debug));;
  (if decide (getenv E "DEBUG" = "TRUE"%string) then modify (upd_pod (set_debugOnly true)) else mret ());;
  read_settings E;;
  _ ← ensureDirPresent E "/var/log/conman" 666;
  setPodName E;;
  setPodLocation fuel;;
  respinAggLog E;;
  logRotate E.

(** [main] with its arguments: [flag.Parse] may end the process. *)
Definition main_start (fuel : nat) (args : list string) : M () :=
  match parse_flags false args with
  | Parsed debug _ => main_startup fuel debug
  | Exits code => panic ("exit status " +:+ Itoa code)
  end.

(** The end of [main], after the signal. *)
Definition set_shutdown : M () := modify (upd_pod (set_inShutdown true)).

Definition main_shutdown : M () :=
  set_shutdown;;
  releaseAllNodes E.

End main.

(** ** Lemmas *)

(** What the start leaves alone until the threads run. *)
Record started_up (w w' : world) : Prop := {
  su_pools : same_pools w w';
  su_threads : tailThreads (tails w') = tailThreads (tails w);
  su_watchers : watchers (tails w') = watchers (tails w);
  su_lingering : lingering (tails w') = lingering (tails w);
  su_command : command w' = command w;
  su_shutdown : inShutdown (pod w') = inShutdown (pod w)
}.

#[export] Instance started_up_preorder : PreOrder started_up.
Proof.
  split; [by split|]. intros w1 w2 w3 [P1 ? ? ? ? ?] [P2 ? ? ? ? ?]. split; congruence.
Qed.

Lemma started_up_core w w' : same_core w w' → started_up w w'.
Proof.
  intros C. split; [by apply core_same|..];
    by rewrite ?(tails_proper _ _ C), ?(command_proper _ _ C), ?(pod_proper _ _ C).
Qed.

Lemma started_up_fs w w' : only_fs w w' → started_up w w'.
Proof.
  intros (En&Et&Ec&_&_&Ep). split; rewrite ?Et, ?Ep; try done. by apply same_pools_nodes.
Qed.

Lemma wp_setPodLocation {Op : OperatorService} {OpS : OperatorServiceSpec Op} fuel Q w :
  (∀ w' loc, started_up w w' → nodes w' = nodes w → rot w' = rot w → tails w' = tails w → fs w' = fs w →
     pod w' = set_podLocData loc (pod w) → Q () w') →
  wp false (setPodLocation fuel) Q w.
Proof.
  revert w. induction fuel as [|f IH]; intros w H; cbn [setPodLocation]; [done|].
  rewrite wp_bind, wp_gets, wp_bind. apply getPodLocation_io. intros r w1 evs [C1 _] _ _.
  assert (S1 := started_up_core _ _ C1). destruct r.2.
  - rewrite wp_bind, wp_sleep. apply IH. cbn [add_event nodes rot tails fs pod].
    intros w2 loc S2 E1 E2 E3 E4 E5. apply (H w2 loc).
    + etrans; [exact S1|]. etrans; [|exact S2]. by split.
    + by rewrite E1, (nodes_proper _ _ C1).
    + by rewrite E2, (rot_proper _ _ C1).
    + by rewrite E3, (tails_proper _ _ C1).
    + by rewrite E4, (fs_proper _ _ C1).
    + by rewrite E5, (pod_proper _ _ C1).
  - rewrite wp_modify. apply (H _ r.1); cbn.
    + etrans; [exact S1|]. by split.
    + by rewrite (nodes_proper _ _ C1).
    + by rewrite (rot_proper _ _ C1).
    + by rewrite (tails_proper _ _ C1).
    + by rewrite (fs_proper _ _ C1).
    + by rewrite (pod_proper _ _ C1).
Qed.

Lemma wp_setPodName E Q w :
  (∀ w', started_up w w' → nodes w' = nodes w → fs w' = fs w → conAggLogFile (tails w') =
     conAggLogFileBase +:+ podName (pod w') +:+ ".log" →
     heartbeatIntervalSecs (pod w') = heartbeatIntervalSecs (pod w) → debugOnly (pod w') = debugOnly (pod w) → Q () w') →
  wp false (setPodName E) Q w.
Proof.
  intros H. unfold setPodName. rewrite wp_bind.
  assert (Go : ∀ w1, started_up w w1 → nodes w1 = nodes w → fs w1 = fs w →
    heartbeatIntervalSecs (pod w1) = heartbeatIntervalSecs (pod w) → debugOnly (pod w1) = debugOnly (pod w) →
    wp false (name ← gets (podName ∘ pod);
      (if 0 <? slen name then
         let pos := strLastIndex name "-" in
         if 0 <? pos then
           i ← deref "slice bounds out of range" (slice_from name (pos + 1));
           modify (upd_pod (set_podID i))
         else mret ()
       else mret ());;
      modify (upd_tails (set_conAggLogFile (conAggLogFileBase +:+ name +:+ ".log")))) Q w1).
  { intros w1 S1 En Ef Eh Ed. rewrite wp_bind, wp_gets, wp_bind. unfold compose. cbv zeta.
    assert (Fin : ∀ w2, started_up w1 w2 → nodes w2 = nodes w1 → fs w2 = fs w1 → podName (pod w2) = podName (pod w1) →
      heartbeatIntervalSecs (pod w2) = heartbeatIntervalSecs (pod w1) → debugOnly (pod w2) = debugOnly (pod w1) →
      Q () (upd_tails (set_conAggLogFile (conAggLogFileBase +:+ podName (pod w1) +:+ ".log")) w2)).
    { intros w2 S2 En2 Ef2 Ep2 Eh2 Ed2. apply H; cbn; [|congruence..].
      etrans; [exact S1|]. etrans; [exact S2|]. by split. }
    destruct (0 <? slen _); [|by apply wp_ret, Fin].
    destruct (0 <? strLastIndex _ _); [|by apply wp_ret, Fin].
    rewrite wp_bind. unfold deref. destruct (slice_from _ _); [|done].
    rewrite wp_ret, wp_modify, wp_modify. by apply Fin; [split|..]. }
  case_decide.
  - rewrite wp_bind, wp_next, wp_modify. by apply Go; [split|..].
  - rewrite wp_modify. by apply Go; [split|..].
Qed.

(** A pod that is ready to start its threads. *)
Record ready (E : env) (w : world) : Prop := {
  rd_inv : pod_inv w;
  rd_names : all_names w = ∅;
  rd_threads : tailThreads (tails w) = ∅;
  rd_lingering : lingering (tails w) = ∅;
  rd_command : command w = CmdNil;
  rd_shutdown : inShutdown (pod w) = false;
  rd_heartbeat : 5 ≤ heartbeatIntervalSecs (pod w) ≤ 300;
  rd_lookup : 10 ≤ newNodeLookupSec (nodes w) ≤ 600;
  rd_mtn : 5 ≤ maxAcquireMtn (nodes w) ≤ 2000;
  rd_rvr : 5 ≤ maxAcquireRvr (nodes w) ≤ 4000;
  rd_agg : conAggLogFile (tails w) = conAggLogFileBase +:+ podName (pod w) +:+ ".log";
  rd_conf : conf_writable E → ∃ md, fs w !! logRotConfFile = Some (File (conf_text w []) md)
}.

Lemma initial_pools files p : get_pool p (initial_world files) = ∅.
Proof. by destruct p. Qed.

Lemma started_empty files w : started_up (initial_world files) w →
  pod_inv w ∧ all_names w = ∅ ∧ tailThreads (tails w) = ∅ ∧ lingering (tails w) = ∅ ∧ command w = CmdNil ∧ inShutdown (pod w) = false.
Proof.
  intros [P T Wt Lg C S]. cbn in *.
  assert (Hn : all_names w = ∅).
  { rewrite (same_pools_names _ _ P). unfold all_names, rvr, pds, mtn. cbn. rewrite !dom_empty_L. set_solver. }
  split; [|done]. split.
  - intros p k n. rewrite P, initial_pools. by rewrite lookup_empty.
  - split; rewrite ?T, ?Wt, ?Lg; intros *; by rewrite lookup_empty.
  - rewrite T, dom_empty_L. set_solver.
Qed.

Lemma wp_logRotate E Q w :
  (∀ w', started_up w w' → nodes w' = nodes w → pod w' = pod w → conAggLogFile (tails w') = conAggLogFile (tails w) →
     (conf_writable E → ∃ xs md, node_names w' xs ∧ fs w' !! logRotConfFile = Some (File (conf_text w' xs) md)) →
     Q () w') →
  wp false (logRotate E) Q w.
Proof.
  intros H. unfold logRotate, doInitialConfFileUpdate. rewrite wp_bind. apply wp_ensureDirPresent.
  intros r w1 F1 _ _. rewrite wp_bind, wp_modify. apply wp_updateLogRotateConf. intros w2 T2 Conf.
  pose proof (touches_same _ _ _ T2) as P2. destruct T2 as (F2&_&_).
  assert (F2' := F2). destruct F1 as (En1&Et1&Ec1&_&_&Ep1), F2' as (En2&Et2&Ec2&_&Er2&Ep2). cbn in *.
  apply H.
  - split; rewrite ?Et2, ?Ep2, ?Et1, ?Ep1; try done; [|by rewrite Ec2].
    apply same_pools_nodes. congruence.
  - congruence.
  - congruence.
  - by rewrite Et2, Et1.
  - intros Hw. destruct (Conf Hw) as (xs&md&Hn&Hf). exists xs, md.
    destruct (conf_same _ w2 xs P2 Er2) as [Hn' ->]; [by rewrite Et2|done|done].
Qed.

Lemma node_names_none w xs : node_names w xs → all_names w = ∅ → xs = [].
Proof.
  intros (lr&lp&lm&Hr&Hp&Hm&->) He. rewrite all_names_entries in He.
  assert (Hl : lr.*1 ++ lp.*1 ++ lm.*1 ≡ₚ (all_entries w).*1).
  { unfold all_entries. by rewrite !fmap_app, Hr, Hp, Hm. }
  destruct ((all_entries w).*1) as [|x l]; [by apply Permutation_nil_r in Hl|].
  exfalso. rewrite list_to_set_cons in He. set_solver.
Qed.

(** The settings are within their bounds whatever the environment says. *)
Lemma wp_read_settings E files Q w :
  started_up (initial_world files) w → nodes w = nodes (initial_world files) →
  heartbeatIntervalSecs (pod w) = 30 →
  (∀ w', started_up (initial_world files) w' → fs w' = fs w → 5 ≤ heartbeatIntervalSecs (pod w') ≤ 300 →
     10 ≤ newNodeLookupSec (nodes w') ≤ 600 → 5 ≤ maxAcquireMtn (nodes w') ≤ 2000 →
     5 ≤ maxAcquireRvr (nodes w') ≤ 4000 → debugOnly (pod w') = debugOnly (pod w) → Q () w') →
  wp false (read_settings E) Q w.
Proof.
  intros S0 En Eh H. unfold read_settings, readSingleEnvVarInt. wp_pure.
  apply H; cbn; rewrite ?En, ?Eh; try (apply bounded_setting_range; cbn; lia); [|done..].
  etrans; [exact S0|]. by split; [intros []|..].
Qed.

Lemma wp_main_startup E {Op : OperatorService} {OpS : OperatorServiceSpec Op} fuel debug files Q :
  (∀ w', ready E w' → debugOnly (pod w') = bool_decide (getenv E "DEBUG" = "TRUE"%string) || debug → Q () w') →
  wp false (main_startup E fuel debug) Q (initial_world files).
Proof.
  intros H. unfold main_startup. rewrite wp_bind, wp_modify, wp_bind. set (w1 := upd_pod _ _).
  assert (Go : ∀ w2, started_up (initial_world files) w2 → nodes w2 = nodes (initial_world files) →
    heartbeatIntervalSecs (pod w2) = 30 →
    debugOnly (pod w2) = bool_decide (getenv E "DEBUG" = "TRUE"%string) || debug →
    wp false (read_settings E;; _ ← ensureDirPresent E "/var/log/conman" 666; setPodName E;; setPodLocation fuel;;
      respinAggLog E;; logRotate E) Q w2).
  { intros w2 S2 En2 Eh2 Ed2. rewrite wp_bind. apply (wp_read_settings E files); [done..|].
    intros w3 S3 _ B1 B2 B3 B4 Ed3. rewrite wp_bind. apply wp_ensureDirPresent. intros r w4 F4 _ _.
    assert (S4 := started_up_fs _ _ F4). destruct F4 as (En4&_&_&_&_&Ep4).
    rewrite wp_bind. apply wp_setPodName. intros w5 S5 En5 _ Ea5 Eh5 Ed5.
    rewrite wp_bind. apply wp_setPodLocation. intros w6 loc S6 En6 _ Et6 _ Ep6.
    rewrite wp_bind. apply wp_respinAggLog. intros w7 evs En7 Ec7 Ep7 _ _ Et7 Ew7 Ea7 _ El7 _ _ _.
    apply wp_logRotate. intros w8 S8 En8 Ep8 Ea8 Conf.
    assert (S : started_up (initial_world files) w8).
    { do 4 (etrans; [eassumption|]). etrans; [|exact S8]. split; rewrite ?Ep7; try done. by apply same_pools_nodes. }
    destruct (started_empty files w8 S) as (Hi&Hn&Ht&Hlg&Hc&Hs).
    assert (En : nodes w8 = nodes w3) by congruence. assert (Ep : pod w8 = set_podLocData loc (pod w5)) by congruence.
    apply H; [|rewrite Ep; cbn; by rewrite Ed5, Ep4, Ed3]. split; try done.
    - rewrite Ep. cbn. by rewrite Eh5, Ep4.
    - by rewrite En.
    - by rewrite En.
    - by rewrite En.
    - rewrite Ep. cbn. by rewrite Ea8, Ea7, Et6.
    - intros Hw. destruct (Conf Hw) as (xs&md&Hx&Hf). rewrite (node_names_none w8 xs Hx Hn) in Hf. eauto. }
  destruct (decide _) as [Hd|Hd]; [rewrite wp_modify|rewrite wp_ret]; (apply Go; [split; [intros []|..]|..]; try done); cbn.
  - by rewrite bool_decide_true.
  - by rewrite bool_decide_false.
Qed.

(** A pod that started is ready. *)
Lemma main_start_ready E {Op : OperatorService} {OpS : OperatorServiceSpec Op} fuel args files w :
  main_start E fuel args (initial_world files) = Done () w → ready E w.
Proof.
  unfold main_start. destruct (parse_flags false args) as [debug rest|code]; [|done]. intros Hd.
  apply (wp_done false _ (λ _ w', ready E w') _ _ _ Hd). by apply (wp_main_startup E).
Qed.

(** ** Properties *)

(** C30: when [main] starts its threads the pod watches nothing, tails nothing and
    runs no process; its settings are within their bounds, whatever the
    environment variables hold; the aggregation log is named after the pod;
    and the log rotation file covers the aggregation log alone. *)
Theorem main_startup_ready (E : env) (Op : OperatorService) (OpS : OperatorServiceSpec Op) fuel debug files :
  wp false (main_startup E fuel debug) (λ _ w', ready E w') (initial_world files).
Proof. by apply (wp_main_startup E); intros w' R _. Qed.

(** C31: the command line: the arguments before the first that is no flag, each a
    spelling of [debug], set debug mode to the last one's value, which the
    variable DEBUG=TRUE overrides, and the pod starts; an argument that asks for
    help, names no flag or has no boolean value ends the process, with nothing
    done, with the exit status of package flag. *)
Theorem main_debug_mode (E : env) (Op : OperatorService) (OpS : OperatorServiceSpec Op) fuel bs fs files :
  Forall2 spells bs fs →
  (∀ args rest, stops args rest →
     wp false (main_start E fuel (fs ++ args)) (λ _ w', ready E w' ∧
       debugOnly (pod w') = bool_decide (getenv E "DEBUG" = "TRUE"%string) || default false (last bs)) (initial_world files)) ∧
  (∀ code f args, refused code f →
     main_start E fuel (fs ++ f :: args) (initial_world files) = Panic ("exit status " +:+ Itoa code) (initial_world files)).
Proof.
  intros Hs. split; intros.
  - unfold main_start. rewrite (parse_all_spelled bs) by done. erewrite parse_stops by done.
    by apply (wp_main_startup E).
  - unfold main_start. rewrite (parse_all_spelled bs) by done. by erewrite parse_refused.
Qed.

(** ** Witnesses *)

Lemma main_debug_mode_witness :
  (∀ args rest, stops args rest →
     wp false (@main_start settings_env (demo_operator settings_env) 5 (["-debug"; "--debug=F"]%string ++ args)) (λ _ w', ready settings_env w' ∧
       debugOnly (pod w') = bool_decide (getenv settings_env "DEBUG" = "TRUE"%string) || default false (last [true; false])) (initial_world ∅)) ∧
  (∀ code f args, refused code f →
     @main_start settings_env (demo_operator settings_env) 5 (["-debug"; "--debug=F"]%string ++ f :: args) (initial_world ∅) =
       Panic ("exit status " +:+ Itoa code) (initial_world ∅)).
Proof.
  apply (main_debug_mode settings_env _ (demo_operator_spec settings_env) 5 [true; false] ["-debug"; "--debug=F"]%string ∅).
  constructor; [apply sp_short|]. constructor; [|constructor]. by apply (sp_long_value false "F").
Defined.


Lemma main_startup_ready_witness :
  wp false (@main_startup settings_env (demo_operator settings_env) 5 false) (λ _ w', ready settings_env w') (initial_world ∅).
Proof. exact (main_startup_ready settings_env _ (demo_operator_spec settings_env) 5 false ∅). Defined.

(** The same start, evaluated: two pauses before the location is known, and the
    log directory made with the decimal mode 666, which is octal 1232: after a
    umask of 022 its owner can only write to it. *)
Example startup_result :
  match @main_startup settings_env (demo_operator settings_env) 5 false (initial_world ∅) with
  | Done _ w' => podID (pod w') = "7"%string ∧ pl_Xname <$> podLocData (pod w') = Some "x3000c0s1b0n0"%string ∧
      mode <$> fs w' !! "/var/log/conman"%string = Some 136 ∧ 136 = Z.ldiff 154 18
  | _ => False
  end.
Proof. by vm_compute. Qed.
