(* ===== verification/Threads.v ===== *)
(** * What each thread leaves alone

    The goroutines of the program share the pod's state.  For each of them:
    what each part of its work may change, and that it keeps the pod's
    invariant. *)

From S2P Require Import Prelude GoStrings GoTime Json World HttpUtils Operator Files LogAggregation.
From S2P Require Import DataService ConmanProc LogRotateConf Nodes NodesFacts NodesProps Heartbeat.
From S2P Require Import PodSetup Creds ConmanConfig ConmanProps LogRotation Monitor Zombies.
From Stdlib Require Import ZArith Lia.
From stdpp Require Import base numbers strings gmap sets list.

Local Open Scope Z_scope.

(** The state that the invariant is about, the process and the identity of the
    pod are as they were. *)
Record same_pod (w w' : world) : Prop := {
  sp_nodes : nodes w' = nodes w;
  sp_threads : tailThreads (tails w') = tailThreads (tails w);
  sp_watchers : watchers (tails w') = watchers (tails w);
  sp_lingering : lingering (tails w') = lingering (tails w);
  sp_next : nextWatch (tails w') = nextWatch (tails w);
  sp_command : command w' = command w;
  sp_pod : pod w' = pod w
}.

#[export] Instance same_pod_preorder : PreOrder same_pod.
Proof.
  split; [by split|]. intros w1 w2 w3 [] []. split; congruence.
Qed.

Lemma same_pod_core w w' : same_core w w' → same_pod w w'.
Proof.
  intros C. split; by rewrite ?(nodes_proper _ _ C), ?(tails_proper _ _ C), ?(command_proper _ _ C), ?(pod_proper _ _ C).
Qed.

Lemma same_pod_fs w w' : only_fs w w' → same_pod w w'.
Proof. intros (?&Ht&?&?&?&?). split; by rewrite ?Ht. Qed.

Lemma same_pod_event ev w : same_pod w (add_event ev w).
Proof. by split. Qed.

Lemma same_pod_names w w' : same_pod w w' → all_names w' = all_names w.
Proof. intros S. apply same_pools_names, same_pools_nodes, S. Qed.

Lemma same_pod_inv w w' : same_pod w w' → pod_inv w → pod_inv w'.
Proof.
  intros S [Hn [He Hw Hf Hg] Hs]. pose proof (same_pools_nodes _ _ (sp_nodes _ _ S)) as Hp. split.
  - intros p k n. rewrite Hp. apply Hn.
  - split; rewrite ?(sp_threads _ _ S), ?(sp_watchers _ _ S), ?(sp_lingering _ _ S), ?(sp_next _ _ S); done.
  - by rewrite (sp_threads _ _ S), (same_pod_names _ _ S).
Qed.

(** What every critical section but the configuration's leaves alone: the
    process, the identity and the flags of the pod; no tail is started, and the
    invariant is kept. *)
Record quiet (w w' : world) : Prop := {
  qt_inv : pod_inv w → pod_inv w';
  qt_command : command w' = command w;
  qt_shutdown : inShutdown (pod w') = inShutdown (pod w);
  qt_loc : podLocData (pod w') = podLocData (pod w);
  qt_debug : debugOnly (pod w') = debugOnly (pod w);
  qt_threads : dom (tailThreads (tails w')) ⊆ dom (tailThreads (tails w));
  qt_watchers : watchers (tails w') ⊆ watchers (tails w)
}.

(** No goroutine comes or goes, at most some are told to stop. *)
Definition kept_alive (w w' : world) : Prop := alive (tails w') = alive (tails w).

(** And no node is taken. *)
Record gave_up (w w' : world) : Prop := {
  gu_quiet : quiet w w';
  gu_names : all_names w' ⊆ all_names w;
  gu_alive : kept_alive w w'
}.

#[export] Instance quiet_preorder : PreOrder quiet.
Proof.
  split; [by split|]. intros w1 w2 w3 [I1 C1 S1 L1 D1 T1 W1] [I2 C2 S2 L2 D2 T2 W2].
  split; [auto|congruence..|by etrans|by etrans].
Qed.

#[export] Instance gave_up_preorder : PreOrder gave_up.
Proof.
  split; [by split|]. intros w1 w2 w3 [Q1 N1 A1] [Q2 N2 A2]. split; [by etrans..|]. unfold kept_alive in *. congruence.
Qed.

Lemma gave_up_same_pod w w' : same_pod w w' → gave_up w w'.
Proof.
  intros S. split; [split|by rewrite (same_pod_names _ _ S)|].
  - by apply same_pod_inv.
  - apply S.
  - by rewrite (sp_pod _ _ S).
  - by rewrite (sp_pod _ _ S).
  - by rewrite (sp_pod _ _ S).
  - by rewrite (sp_threads _ _ S).
  - by rewrite (sp_watchers _ _ S).
  - unfold kept_alive, alive. by rewrite (sp_watchers _ _ S), (sp_lingering _ _ S).
Qed.

Lemma gave_up_core w w' : same_core w w' → gave_up w w'.
Proof. intros C. by apply gave_up_same_pod, same_pod_core. Qed.

(** From a weakest precondition to a completed call. *)
Lemma done_inv {A} (m : M A) (Q : A → world → Prop) w a w' : m w = Done a w' → wp false m Q w → Q a w'.
Proof. intros H. apply (wp_done _ _ _ _ _ _ H). Qed.

(** ** Signals *)

Lemma signal_process_done sg w w' :
  signal_process sg w = Done () w' → (command w = CmdRunning ∨ command w = CmdExited) ∧ same_pod w w'.
Proof.
  unfold signal_process, mbind, M_bind, gets, panic, emit, modify, mret, M_ret.
  destruct (command w); intros [= <-]; (split; [tauto|by split]).
Qed.

(** ** The node thread *)

Lemma change_nodes_quiet E {Op : OperatorService} {OpS : OperatorServiceSpec Op} w b w' :
  change_nodes E w = Done b w' → quiet w w' ∧ kept_alive w w'.
Proof.
  intros Hd. apply (done_inv _ (λ _ w', quiet w w' ∧ kept_alive w w') _ _ _ Hd).
  apply (wp_change_nodes E (λ _, True)); [apply targets_satisfy_trivial|done|].
  intros w4 ns rel dR dM [_ (w2&w3&P2&Tl2&D3&_&P4&Et4) _ (Ec&_&_&Ep&_&_)].
  split; [|unfold kept_alive; by rewrite Et4, (dr_stop _ _ _ D3), alive_stopped_all, Tl2].
  split; try by rewrite ?Ep.
  - intros Hi. apply (pod_inv_same w3 w4 P4 Et4), (dropped_inv _ _ _ D3).
    destruct (store_all_rest ns w) as [_ Ets].
    apply (pod_inv_same (store_all ns w)); [done|congruence|by apply store_all_inv].
  - rewrite Et4, (dr_dom _ _ _ D3), Tl2. set_solver.
  - rewrite Et4, <- Tl2. apply D3.
Qed.

Lemma updateLogRotateConf_same E w w' : updateLogRotateConf E w = Done () w' → same_pod w w'.
Proof.
  intros Hd. apply (done_inv _ (λ _ w', same_pod w w') _ _ _ Hd), wp_updateLogRotateConf.
  intros w1 ((En&Et&Ec&_&_&Ep)&_) _. split; by rewrite ?Et.
Qed.

(** ** The heartbeat, whatever console-data answers *)

Lemma wp_releaseNode_gives_up t x Q w :
  (∀ b w', gave_up w w' → Q b w') → wp t (releaseNode x) Q w.
Proof.
  intros H. apply wp_releaseNode_any. set (w1 := upd_nodes _ w).
  assert (Hp : ∀ p k n, get_pool p w1 !! k = Some n → get_pool p w !! k = Some n).
  { intros p k n. unfold w1. destruct (first_pool x w) as [q|]; [|by destruct p, w].
    rewrite get_upd_pool. case_decide as Hq; [subst; by intros [_ Hk]%lookup_delete_Some|done]. }
  assert (Hk : ∀ k, k ≠ x → k ∈ all_names w → k ∈ all_names w1).
  { intros k Hk. rewrite !elem_of_all_names. intros [p Hs]. exists p. unfold w1.
    destruct (first_pool x w) as [q|]; [|by destruct p, w].
    rewrite get_upd_pool. case_decide as Hq; [subst; by rewrite lookup_delete_ne by done|done]. }
  intros w' (En&Et&Ec&_&_&Epd&_). apply H.
  assert (P' : same_pools w1 w') by by apply same_pools_nodes.
  assert (Ht : tails w1 = tails w) by done.
  split; [split; rewrite ?Epd; try done| |].
  - intros [Hn Hok Hs]. split.
    + intros p k n. rewrite P'. intros Hl. apply (Hn p). by apply Hp.
    + rewrite Et. by apply tails_ok_stopped.
    + rewrite Et, dom_tail_stopped, (same_pools_names _ _ P'). intros k [Hin Hne]%elem_of_difference.
      apply Hk; [set_solver|by apply Hs].
  - rewrite Et, dom_tail_stopped. set_solver.
  - rewrite Et. apply watchers_stopped.
  - rewrite (same_pools_names _ _ P'). intros k. rewrite !elem_of_all_names. intros (p&n&Hl). exists p, n. by apply Hp.
  - unfold kept_alive. by rewrite Et, alive_stopped, Ht.
Qed.

Lemma wp_drop_nodes_gives_up t rb Q w :
  (∀ b w', gave_up w w' → Q b w') → wp t (drop_nodes rb) Q w.
Proof.
  intros H. unfold drop_nodes. destruct (unmarshal_nodes rb) as [[|n ns] []];
    try (apply wp_ret, H; reflexivity).
  rewrite wp_bind. apply (wp_forEach _ (λ _ w', gave_up w w')); [done| |intros w1 G; by apply wp_ret, H].
  intros x l w1 G. rewrite wp_bind. apply wp_releaseNode_gives_up. intros b w2 G2. apply wp_ret. by etrans.
Qed.

Lemma wp_exchange_gives_up E t Q w :
  (t = true → requests_return E ∧ podLocData (pod w) ≠ None) →
  (∀ b w', gave_up w w' → Q b w') → wp t (exchange_heartbeat E) Q w.
Proof.
  intros Ht H. unfold exchange_heartbeat. rewrite wp_bind, wp_gets, wp_bind, wp_gets, wp_bind.
  unfold compose. destruct (podLocData (pod w)) as [loc|] eqn:El; cbn [fmap option_fmap option_map deref].
  2: { destruct t; [by destruct (Ht eq_refl) as [_ []]|done]. }
  rewrite wp_ret. rewrite wp_bind, wp_gets. cbv beta delta [id].
  rewrite wp_bind. apply wp_goRange. intros lr _ _. rewrite wp_bind. apply wp_goRange. intros lp _ _.
  rewrite wp_bind. apply wp_goRange. intros lm _ _. rewrite wp_bind, wp_next, wp_bind, wp_modify, wp_bind.
  set (w4 := upd_pod _ _). assert (G4 : gave_up w w4).
  { split; [split; try done|done|done]. apply pod_inv_same; [by intros []|done]. }
  apply wp_postURL; [intros ->; by destruct (Ht eq_refl)|]. intros o w5 _ [C5 _] _.
  assert (G5 : gave_up w w5) by (etrans; [exact G4|by apply gave_up_core]).
  destruct o as [| |sc|sc rb]; cbn [http_result fst]; try by apply wp_ret, H.
  apply wp_drop_nodes_gives_up. intros b w6 G6. apply H. by etrans.
Qed.

Lemma exchange_gives_up E w b w' : exchange_heartbeat E w = Done b w' → gave_up w w'.
Proof. intros Hd. by apply (done_inv _ (λ _ w', gave_up w w') _ _ _ Hd), wp_exchange_gives_up. Qed.

(** ** Configuration *)

Lemma updateConfigFile_same E force w w' : updateConfigFile E force w = Done () w' → same_pod w w'.
Proof.
  intros Hd. apply (done_inv _ (λ _ w', same_pod w w') _ _ _ Hd).
  destruct (fs w !! baseConfFile) as [f|] eqn:Ef.
  - apply (wp_updateConfigFile E false force (content f)); [by rewrite Ef|done| |].
    + intros w1 off _ _ [En Et Ec _ Ep _]. by split; rewrite ?Et.
    + intros w1 _ _ C _. by apply same_pod_core.
  - unfold updateConfigFile, osOpen, fault. wp_pure. cbn [tick fs next_tick]. rewrite Ef.
    by destruct (fs_fault E (tick w) OpOpen baseConfFile).
Qed.

(** Every watched node is tailed, the new ones by running goroutines. *)
Record tailed_all (w w' : world) : Prop := {
  ta_nodes : nodes w' = nodes w;
  ta_lingering : pod_inv w → lingering (tails w') = lingering (tails w);
  ta_command : command w' = command w;
  ta_creds : creds w' = creds w;
  ta_pod : pod w' = pod w;
  ta_fs : fs w' = fs w;
  ta_inv : pod_inv w → pod_inv w';
  ta_dom : pod_inv w → dom (tailThreads (tails w')) = all_names w;
  ta_watchers : pod_inv w → watchers (tails w) ⊆ watchers (tails w') ∧
    ∀ x, x ∈ all_names w → x ∉ dom (tailThreads (tails w)) → ∃ id, watchers (tails w') !! id = Some x
}.

Lemma aggregate_all_tails E w w' : aggregate_all E w = Done () w' → tailed_all w w'.
Proof.
  intros Hd. apply (done_inv _ (λ _ w', tailed_all w w') _ _ _ Hd), wp_aggregate_all.
  intros xs w1 Hx [(En&Ec&Ecr&_&Ep&Ef) Et _].
  pose proof (same_pools_names _ _ (same_pools_nodes _ _ En)) as Hn.
  assert (Hdom : pod_inv w → tails_ok (tails w1) ∧ dom (tailThreads (tails w1)) = all_names w).
  { intros [_ Hok Hs]. destruct (started_all xs (tails w) Hok) as (Ok'&Hdm&_).
    rewrite Et. split; [done|]. rewrite Hdm, Hx. set_solver. }
  split; try done.
  - intros Hi. rewrite Et. apply started_keeps, Hi.
  - intros Hi. destruct (Hdom Hi) as [Hok Hdm]. split; [|done|by rewrite Hdm, Hn].
    intros p k n. rewrite (same_pools_nodes _ _ En p). by apply Hi.
  - intros Hi. by apply Hdom.
  - intros Hi. destruct (started_watchers xs (tails w) (pi_tails _ Hi)) as [H1 H2]. rewrite Et. split; [done|].
    intros x Hin. apply H2. rewrite <- Hx in Hin. by apply elem_of_list_to_set in Hin.
Qed.

Lemma key_frame_same_pod w w' : key_frame w w' → same_pod w w'.
Proof. intros (?&Ht&?&?&?&?&?&?). split; by rewrite ?Ht. Qed.

Lemma ensure_keys_same E fuel w b w' : ensureMountainConsoleKeysPresent E fuel w = Done b w' → same_pod w w'.
Proof.
  intros Hd. apply (done_inv _ (λ _ w', same_pod w w') _ _ _ Hd), wp_ensure_frame.
  intros k w1 F. by apply key_frame_same_pod.
Qed.

(** ** Shutdown *)

Lemma release_all_effect E w w' :
  releaseAllNodes E w = Done () w' → pod_inv w → gave_up w w' ∧ all_names w' = ∅ ∧ tailThreads (tails w') = ∅.
Proof.
  intros Hd Hi.
  apply (done_inv _ (λ _ w', gave_up w w' ∧ all_names w' = ∅ ∧ tailThreads (tails w') = ∅) _ _ _ Hd).
  apply wp_releaseAllNodes; [done|]. intros w1 ns o w2 xs (_&S&Hxs&_&_&He&Ht&Ec&Ep).
  destruct (stopped_all xs (tails w) (pi_tails _ Hi)) as [Hok Hdm].
  assert (Hn : all_names w1 = ∅) by by rewrite all_names_entries, He.
  assert (H0 : tailThreads (tails w1) = ∅).
  { apply dom_empty_inv_L. rewrite Ht, (st_tails _ _ _ S), Hdm. pose proof (pi_sub _ Hi) as Hs.
    rewrite all_names_entries in Hs. rewrite (list_to_set_perm_L _ _ Hxs). set_solver. }
  split; [|done]. split; [split; try by rewrite ?Ep|rewrite Hn; set_solver|].
  - intros _. split; [|by rewrite Ht, (st_tails _ _ _ S)|rewrite H0; set_solver].
    intros p k n Hk. exfalso. assert (Hin : k ∈ all_names w1) by (apply elem_of_all_names; eauto).
    rewrite Hn in Hin. set_solver.
  - rewrite H0. set_solver.
  - rewrite Ht, (st_tails _ _ _ S). apply stopped_watchers.
  - unfold kept_alive. by rewrite Ht, (st_tails _ _ _ S), alive_stopped_all.
Qed.

(** ** The monitor *)

Lemma passwords_same E w b w' : checkIfRiverPasswordsChanged E w = Done b w' → same_pod w w'.
Proof.
  intros Hd. apply (done_inv _ (λ _ w', same_pod w w') _ _ _ Hd).
  unfold checkIfRiverPasswordsChanged. rewrite wp_bind, wp_gets.
  destruct (previousPasswords (creds w)) as [prev|]; [|by apply wp_ret].
  rewrite wp_bind, wp_gets. cbv beta delta [id].
  rewrite wp_bind. apply wp_goRange. intros lr _ _. rewrite wp_bind. apply wp_goRange. intros lp _ _.
  rewrite wp_bind. apply wp_getPasswords; [done|]. intros w2 C2 T2 _ pw _ _. by apply wp_ret, same_pod_core.
Qed.

Lemma xnames_same E w ns w' : getCurrNodeXnames E w = Done ns w' → same_pod w w'.
Proof.
  intros Hd. apply (done_inv _ (λ _ w', same_pod w w') _ _ _ Hd), wp_getCurrNodeXnames.
  intros xs w1 C _ _. by apply same_pod_core.
Qed.

Lemma permissions_same E ns w w' : check_permissions E ns w = Done () w' → same_pod w w'.
Proof.
  intros Hd. apply (done_inv _ (λ _ w', same_pod w w') _ _ _ Hd), wp_check_permissions.
  intros w1 [(En&Et&Ec&_&_&Ep) _ _] _. by split; rewrite ?Et.
Qed.

(** ** Log rotation *)

Lemma wp_parseTimestamp_pure E t ln Q w :
  t = false → (∀ r, Q r w) → wp t (parseTimestamp E ln) Q w.
Proof.
  intros -> H. unfold parseTimestamp. rewrite wp_bind, wp_gets. cbv zeta.
  repeat first
    [ progress unfold deref | rewrite wp_ret
    | match goal with |- context [if ?b then _ else _] => destruct b
      | |- context [match slice_from ?a ?b with _ => _ end] => destruct (slice_from a b)
      | |- context [match slice ?a ?b ?c with _ => _ end] => destruct (slice a b c)
      | |- context [match scan_timestamp ?a with _ => _ end] => destruct (scan_timestamp a) end
    | done | apply H | rewrite wp_bind ].
Qed.

Lemma wp_read_stamps_pure E lines m con agg Q w :
  (∀ r, Q r w) → wp false (read_stamps E lines m con agg) Q w.
Proof.
  revert m con agg. induction lines as [|ln lines IH]; intros m con agg H; cbn [read_stamps]; [by apply wp_ret|].
  rewrite wp_bind. apply wp_parseTimestamp_pure; [done|]. intros [[[fileName [fd|]] isCon] isAgg]; [|by apply IH].
  destruct (isCon || isAgg); [|by apply IH]. case_decide; by apply IH.
Qed.

Lemma wp_respin_fakes_same E Q w :
  (∀ w', same_pod w w' → Q () w') → wp false (respin_fakes E) Q w.
Proof.
  assert (Loop : ∀ (l : list (string * nodeConsoleInfo)) Q w0,
    (∀ w', same_pod w0 w' → Q () w') → wp false (forEach l (λ kv, emit (EvFakeLog kv.1))) Q w0).
  { intros l. induction l as [|kv l IH]; intros Q0 w0 H; cbn [forEach]; [by apply wp_ret, H|].
    rewrite wp_bind, wp_emit. apply IH. intros w' S. apply H. etrans; [|exact S]. apply same_pod_event. }
  intros H. unfold respin_fakes. rewrite wp_bind, wp_gets. cbv beta delta [id].
  destruct (debugOnly (pod w)); [|by apply wp_ret, H].
  rewrite wp_bind. apply wp_goRange. intros lr _ _. rewrite wp_bind. apply Loop. intros w2 S2.
  rewrite wp_bind. apply wp_goRange. intros lm _ _. apply Loop. intros w3 S3. apply H.
  etrans; [|exact S3]. etrans; [|apply (same_pod_core w2 (next_tick w2)); done].
  etrans; [|exact S2]. by apply (same_pod_core w (next_tick w)).
Qed.

Lemma respin_fakes_same E w w' : respin_fakes E w = Done () w' → same_pod w w'.
Proof. intros Hd. by apply (done_inv _ (λ _ w', same_pod w w') _ _ _ Hd), wp_respin_fakes_same. Qed.

Lemma wp_readLogRotTimestamps_same E m Q w :
  (∀ r w', same_pod w w' → Q r w') → wp false (readLogRotTimestamps E m) Q w.
Proof.
  intros H. unfold readLogRotTimestamps, osRead, fault. wp_pure.
  match goal with |- context [match ?x with _ => _ end] => destruct x as [[data b]|] end;
    [|apply wp_ret, H; by split].
  apply wp_read_stamps_pure. intros r. apply H. by split.
Qed.

Lemma readLogRotTimestamps_same E m w r w' : readLogRotTimestamps E m w = Done r w' → same_pod w w'.
Proof. intros Hd. by apply (done_inv _ (λ _ w', same_pod w w') _ _ _ Hd), wp_readLogRotTimestamps_same. Qed.

(** The first part of [rotateLogsOnce]: logrotate runs, its state file is read,
    and after a rotation there is a pause. *)
Definition detect_rotation E (m : stamps) : M (stamps * bool * bool) :=
  _ ← run_external E logrotate_argv;
  r ← readLogRotTimestamps E m;
  (if r.1.2 || r.2 then sleep (5 * second) else mret ());;
  mret r.

Lemma detect_rotation_same E m w r w' : detect_rotation E m w = Done r w' → same_pod w w'.
Proof.
  intros Hd. apply (done_inv _ (λ _ w', same_pod w w') _ _ _ Hd).
  unfold detect_rotation, run_external. wp_pure. set (w1 := upd_fs _ _).
  assert (S1 : same_pod w w1) by by split.
  apply wp_readLogRotTimestamps_same. intros r2 w2 S2'. assert (S2 : same_pod w w2) by by etrans. rewrite wp_bind.
  destruct (r2.1.2 || r2.2); [|by apply wp_ret, wp_ret].
  rewrite wp_sleep. apply wp_ret. etrans; [exact S2|by split].
Qed.

(** The last part. *)
Definition respin_if E (agg : bool) : M () := if agg then respinAggLog E else mret ().

Lemma respin_same E agg w w' : respin_if E agg w = Done () w' → same_pod w w'.
Proof.
  intros Hd. apply (done_inv _ (λ _ w', same_pod w w') _ _ _ Hd). destruct agg; [|by apply wp_ret].
  apply wp_respinAggLog. intros w4 evs E1 E2 E3 E4 E5 E6 E7 E8 E9 E10 _ _ _. by split.
Qed.

(** ** Zombies *)

Lemma wp_watchForZombies_same E Q w :
  (∀ w', same_pod w w' → Q () w') → wp false (watchForZombies_turn E) Q w.
Proof.
  assert (Loop : ∀ (l : list Z) Q w0, (∀ w', same_pod w0 w' → Q () w') → wp false (forEach l go_killZombie) Q w0).
  { intros l. induction l as [|z l IH]; intros Q0 w0 H; cbn [forEach]; [by apply wp_ret, H|].
    rewrite wp_bind. unfold go_killZombie. rewrite wp_emit. apply IH. intros w' S. apply H. etrans; [|exact S].
    apply same_pod_event. }
  intros H. unfold watchForZombies_turn, findZombies, run_external. wp_pure. apply Loop. intros w' S.
  rewrite wp_sleep. apply H. etrans; [|apply same_pod_event]. etrans; [|exact S]. by split.
Qed.

Lemma zombies_same E w w' : watchForZombies_turn E w = Done () w' → same_pod w w'.
Proof. intros Hd. by apply (done_inv _ (λ _ w', same_pod w w') _ _ _ Hd), wp_watchForZombies_same. Qed.

Lemma reap_same w w' : reap_step w w' → same_pod w w'.
Proof. destruct 1 as [pid w w' _ H]. injection H as <-. apply same_pod_event. Qed.

(** ** The tailing goroutines *)

Lemma quiet_tails w w' :
  nodes w' = nodes w → command w' = command w → pod w' = pod w →
  (tails_ok (tails w) → tails_ok (tails w')) → tailThreads (tails w') = tailThreads (tails w) →
  watchers (tails w') ⊆ watchers (tails w) → quiet w w'.
Proof.
  intros En Ec Ep Hok Ht Hw. pose proof (same_pools_nodes _ _ En) as Hp.
  pose proof (same_pools_names _ _ Hp) as Hn. split; rewrite ?Ec, ?Ep, ?Ht; try done.
  intros [Hi Htl Hs]. split; [|auto|by rewrite Ht, Hn]. intros p k n. rewrite Hp. apply Hi.
Qed.

(** One is told to stop. *)
Lemma cancel_gives_up id w w' :
  nodes w' = nodes w → command w' = command w → pod w' = pod w → tails w' = cancel_watch id (tails w) → gave_up w w'.
Proof.
  intros En Ec Ep Et. destruct (cancel_watch_same id (tails w)) as (E1&E2&_). split.
  - apply quiet_tails; rewrite ?Et; [done..|by apply tails_ok_cancel|done|rewrite E2; apply delete_subseteq].
  - by rewrite (same_pools_names _ _ (same_pools_nodes _ _ En)).
  - unfold kept_alive. rewrite Et. apply alive_cancel.
Qed.

(** A goroutine returns: one that was told to stop, or could not start. *)
Definition end_watch (id : nat) : M () := modify (upd_tails (drop_watch id)).

Record watch_ended (w w' : world) : Prop := {
  we_quiet : quiet w w';
  we_nodes : nodes w' = nodes w;
  we_threads : tailThreads (tails w') = tailThreads (tails w);
  we_lingering : lingering (tails w') ⊆ lingering (tails w)
}.

Lemma end_watch_ends id w w' : end_watch id w = Done () w' → watch_ended w w'.
Proof.
  intros [= <-]. split; [|done|done|apply delete_subseteq].
  apply quiet_tails; try done; cbn; [by apply tails_ok_drop|apply delete_subseteq].
Qed.

(** Its entry stays, so that no configuration starts it again. *)
Lemma ended_not_recreated id x w :
  tails_ok (tails w) → watchers (tails w) !! id = Some x →
  ∃ w', end_watch id w = Done () w' ∧ watchers (tails w') !! id = None ∧ aggregateFile x w' = Done false w'.
Proof.
  intros Hok Hid. apply (to_watcher _ Hok) in Hid. eexists. split; [reflexivity|].
  split; [apply lookup_delete_eq|]. unfold aggregateFile, mbind, M_bind, gets. cbn. by rewrite Hid.
Qed.

Lemma watch_line_same x text w b w' : watch_loop x [TailLine text] w = Done b w' → same_pod w w'.
Proof.
  intros Hd. apply (done_inv _ (λ _ w', same_pod w w') _ _ _ Hd). cbn [watch_loop]. unfold writeToAggLog. wp_pure.
  destruct (conAggLogger (tails w)); wp_pure; [apply same_pod_event|done].
Qed.

(** The output of conmand goes to the log. *)
Lemma pipe_output_same data w w' : logPipeOutput data w = Done () w' → same_pod w w'.
Proof.
  intros Hd. apply (done_inv _ (λ _ w', same_pod w w') _ _ _ Hd), (wp_forEach _ (λ _, same_pod w)); [done| |done].
  intros x l w1 S. rewrite wp_emit. etrans; [exact S|apply same_pod_event].
Qed.

Lemma killTails_gives_up E w b w' : killTails_once E w = Done b w' →
  gave_up w w' ∧ nodes w' = nodes w ∧ tailThreads (tails w') = tailThreads (tails w).
Proof.
  set (R w1 := gave_up w w1 ∧ nodes w1 = nodes w ∧ tailThreads (tails w1) = tailThreads (tails w)).
  intros Hd. apply (done_inv _ (λ _ w', R w') _ _ _ Hd).
  assert (Same : ∀ w1 w2, R w1 → same_core w1 w2 → R w2).
  { intros w1 w2 (G&En&Et) C. split; [etrans; [exact G|by apply gave_up_core]|].
    by rewrite <- (nodes_proper _ _ C), <- (tails_proper _ _ C). }
  unfold killTails_once, osStat, fault. wp_pure.
  assert (C1 : R (next_tick w)) by by apply (Same w).
  match goal with |- context [match ?x with StatOk _ => _ | StatNotExist => _ | StatErr _ => _ end] => destruct x end.
  - rewrite wp_bind, wp_gets, wp_bind. apply wp_goRange. intros l _ _. rewrite wp_bind.
    apply (wp_forEach _ (λ _, R)).
    + by apply (Same (next_tick w)).
    + intros kv l' w1 (G&En&Et). unfold LogAggregation.cancel. wp_pure. split; [|split; [done|]].
      * etrans; [exact G|]. by apply (cancel_gives_up kv.2).
      * cbn. rewrite <- Et. apply (cancel_watch_same kv.2 (tails w1)).
    + intros w1 G. wp_pure. by apply (Same w1).
  - wp_pure. by apply (Same (next_tick w)).
  - by apply wp_ret.
Qed.
