(* ===== verification/Ending.v ===== *)
(** * Operations that end: src/src/console_node/

    No operation of the program waits for anything but a request that another
    service never answers, and the loops that are meant to wait.  Shown by a
    small logic of contracts that a tactic applies along the structure of the
    code. *)

From S2P Require Import Prelude GoStrings Json World HttpUtils Operator Files LogAggregation.
From S2P Require Import DataService ConmanProc LogRotateConf Nodes NodesFacts Heartbeat.
From S2P Require Import PodSetup Creds ConmanConfig LogRotation Monitor Zombies Threads.
From Stdlib Require Import ZArith Lia.
From stdpp Require Import base numbers strings gmap sets list.

Local Open Scope Z_scope.
Local Open Scope go_scope.

(** ** Contracts *)

(** [m] returns or panics, unless, with [may], the last thing it did is a request
    that never returns. *)
Definition settles (may : bool) {A} (m : M A) : Prop :=
  ∀ w, match m w with Stuck w' => may = true ∧ hung w' | _ => True end.

Section rules.
Context {may : bool}.

Lemma settles_ret {A} (a : A) : settles may (mret a).
Proof. done. Qed.

Lemma settles_bind {A B} (m : M A) (f : A → M B) : settles may m → (∀ a, settles may (f a)) → settles may (m ≫= f).
Proof.
  intros Hm Hf w. specialize (Hm w). unfold mbind, M_bind. destruct (m w) as [a w1| |]; [apply Hf|done|done].
Qed.

Lemma settles_panic {A} msg : settles may (panic msg : M A).
Proof. done. Qed.

Lemma settles_deref {A} msg (o : option A) : settles may (deref msg o).
Proof. by destruct o. Qed.

Lemma settles_forEach {A} (l : list A) (body : A → M ()) : (∀ x, settles may (body x)) → settles may (forEach l body).
Proof. intros H. induction l as [|x l IH]; cbn [forEach]; [done|]. by apply settles_bind. Qed.

(** An operation that is known to end, and one that ends or hangs. *)
Lemma settles_total {A} (m : M A) : (∀ w, wp true m (λ _ _, True) w) → settles may m.
Proof. intros H w. specialize (H w). unfold wp in H. by destruct (m w). Qed.

End rules.

Lemma settles_ends {A} (m : M A) : ends_or_hangs m → settles true m.
Proof. intros H w. specialize (H w). by destruct (m w). Qed.

(** Operations that never panic. *)
Lemma ends_bind {A B} (m : M A) (f : A → M B) :
  ends_or_hangs m → (∀ a, ends_or_hangs (f a)) → ends_or_hangs (m ≫= f).
Proof.
  intros Hm Hf w. specialize (Hm w). unfold mbind, M_bind. destruct (m w) as [a w1| |]; [apply Hf|done|done].
Qed.

Lemma ends_total {A} (m : M A) : (∀ w, wp true m (λ _ _, True) w) → ends_or_hangs m.
Proof. intros H w. specialize (H w). unfold wp in H. by destruct (m w). Qed.

Lemma do_request_ends E rq : ends_or_hangs (do_request E rq).
Proof.
  intros w. destruct (http_do E (tick w) rq) eqn:Eo.
  - unfold do_request, mbind, M_bind, next, emit, modify. by rewrite Eo.
  - destruct (do_request_hangs E rq w Eo) as (w'&->&H). done.
Qed.

Lemma postURL_ends E url body : ends_or_hangs (postURL E url body None).
Proof. unfold postURL, header_list. apply ends_bind; [done|]. intros hs. apply ends_bind; [apply do_request_ends|done]. Qed.

Create HintDb settles.
#[export] Hint Resolve settles_panic settles_deref : settles.

(** Along the structure of the code: known operations by their contracts, the
    rest by the rules. *)
Ltac settles_step :=
  lazymatch goal with
  | |- settles _ (_ ≫= _) => apply settles_bind; [|intros ?]
  | |- settles _ (match ?x with _ => _ end) => destruct x
  | |- settles _ (let _ := _ in _) => cbv zeta
  | |- settles _ (forEach _ _) => apply settles_forEach; intros ?
  | |- settles _ (mret _) => done
  | |- settles _ next => done
  | |- settles _ (gets _) => done
  | |- settles _ (modify _) => done
  | |- settles _ (emit _) => done
  | |- settles _ (sleep _) => done
  | |- settles _ (goRange _ _) => done
  | |- settles _ _ => solve [eauto 3 with settles]
  end.
Ltac settles_auto := repeat settles_step.

(** ** The operations *)

Section operations.
Context (E : env).

(** *** Files and requests *)

Lemma settles_fault may op path : settles may (fault E op path).
Proof. unfold fault. settles_auto. Qed.
#[local] Hint Resolve settles_fault : settles.

Lemma settles_osOpen may path : settles may (osOpen E path).
Proof. unfold osOpen. settles_auto. Qed.
Lemma settles_osRead may path : settles may (osRead E path).
Proof. unfold osRead. settles_auto. Qed.
Lemma settles_osTruncate may path perm : settles may (osTruncate E path perm).
Proof. unfold osTruncate. settles_auto. Qed.
Lemma settles_osAppend may path str : settles may (osAppend E path str).
Proof. unfold osAppend. settles_auto. Qed.
#[local] Hint Resolve settles_osOpen settles_osRead settles_osTruncate settles_osAppend : settles.

Lemma settles_fprint may o path str : settles may (fprint E o path str).
Proof. unfold fprint. settles_auto. Qed.

Lemma settles_do_request rq : settles true (do_request E rq).
Proof. apply settles_ends, do_request_ends. Qed.
#[local] Hint Resolve settles_do_request : settles.
Lemma settles_postURL url body hs : settles true (postURL E url body hs).
Proof. unfold postURL, header_list. settles_auto. Qed.
Lemma settles_getURL url hs : settles true (getURL E url hs).
Proof. unfold getURL, header_list. settles_auto. Qed.
#[local] Hint Resolve settles_fprint settles_postURL settles_getURL : settles.

(** *** Tails, the process, the rotation file *)

Lemma settles_aggregateFile may x : settles may (aggregateFile x).
Proof. unfold aggregateFile. settles_auto. Qed.
Lemma settles_cancel may id : settles may (LogAggregation.cancel id).
Proof. unfold LogAggregation.cancel. settles_auto. Qed.
#[local] Hint Resolve settles_aggregateFile settles_cancel : settles.
Lemma settles_stopTailing may x : settles may (stopTailing x).
Proof. unfold stopTailing. settles_auto. Qed.
Lemma settles_signal may sg : settles may (signal_process sg).
Proof. unfold signal_process. settles_auto. Qed.
#[local] Hint Resolve settles_stopTailing : settles.

Lemma settles_writeConfigEntry may o f d n s : settles may (writeConfigEntry E o f d n s).
Proof. unfold writeConfigEntry. settles_auto. Qed.
#[local] Hint Resolve settles_writeConfigEntry : settles.
Lemma settles_write_group may o m : settles may (write_group E o m).
Proof. unfold write_group. settles_auto. Qed.
#[local] Hint Resolve settles_write_group : settles.
Lemma settles_updateLogRotateConf may : settles may (updateLogRotateConf E).
Proof. unfold updateLogRotateConf. settles_auto. Qed.
#[local] Hint Resolve settles_updateLogRotateConf : settles.

(** *** Nodes *)

Lemma settles_releaseNodes ns : settles true (releaseNodes E ns).
Proof. unfold releaseNodes. settles_auto. Qed.
Lemma settles_getNumActiveNodePods : settles true (getNumActiveNodePods E).
Proof. unfold getNumActiveNodePods. settles_auto. Qed.
#[local] Hint Resolve settles_releaseNodes settles_getNumActiveNodePods : settles.

Lemma settles_acquireNewNodes a b loc : settles true (acquireNewNodes E a b loc).
Proof. unfold acquireNewNodes. settles_auto. Qed.
#[local] Hint Resolve settles_acquireNewNodes : settles.

Lemma settles_acquire_nodes a b : settles true (acquire_nodes E a b).
Proof. unfold acquire_nodes. settles_auto. Qed.

Lemma settles_target_on_line may txt ln old : settles may (target_on_line txt ln old).
Proof. unfold target_on_line. settles_auto. Qed.
#[local] Hint Resolve settles_target_on_line : settles.
Lemma settles_read_targets may lines a b : settles may (read_targets lines a b).
Proof. revert a b. induction lines as [|ln lines IH]; intros a b; cbn [read_targets]; settles_auto; apply IH. Qed.
#[local] Hint Resolve settles_read_targets : settles.
Lemma settles_updateNodesPerPod may : settles may (updateNodesPerPod E).
Proof. unfold updateNodesPerPod. settles_auto. Qed.
#[local] Hint Resolve settles_acquire_nodes settles_updateNodesPerPod : settles.

Lemma settles_drop_entry may p k : settles may (drop_entry p k).
Proof. unfold drop_entry. settles_auto. Qed.
#[local] Hint Resolve settles_drop_entry : settles.

Lemma settles_release_rvr may n l rn : settles may (release_rvr n l rn).
Proof. revert rn. induction l as [|[k ni] l IH]; intros rn; cbn [release_rvr]; settles_auto; apply IH. Qed.
#[local] Hint Resolve settles_release_rvr : settles.

(** The loop over the Mountain nodes ends by itself. *)
Lemma settles_release_mtn_phase may dM rn :
  settles may (if dM <? 0 then w ← gets id; release_mtn E (mtn_fuel w) (zlen (mtn w) + zlen (pds w) +i dM) rn else mret rn).
Proof. apply settles_total. intros w. by apply wp_release_mtn_phase. Qed.
#[local] Hint Resolve settles_release_mtn_phase : settles.

Lemma settles_rebalanceNodes dR dM : settles true (rebalanceNodes E dR dM).
Proof.
  unfold rebalanceNodes. apply settles_bind; [settles_auto|]. intros rn.
  apply settles_bind; [apply settles_release_mtn_phase|]. intros [|n ns]; settles_auto.
Qed.
#[local] Hint Resolve settles_rebalanceNodes : settles.

Lemma settles_releaseNode may x : settles may (releaseNode x).
Proof. unfold releaseNode. settles_auto. Qed.
#[local] Hint Resolve settles_releaseNode : settles.

Lemma settles_drop_nodes may rb : settles may (drop_nodes rb).
Proof. unfold drop_nodes. settles_auto. Qed.
#[local] Hint Resolve settles_drop_nodes : settles.

Lemma settles_exchange_heartbeat : settles true (exchange_heartbeat E).
Proof. unfold exchange_heartbeat. settles_auto. Qed.

Lemma settles_stop_group may m rn : settles may (stop_group E m rn).
Proof. unfold stop_group. settles_auto. Qed.
#[local] Hint Resolve settles_stop_group : settles.

Lemma settles_releaseAllNodes : settles true (releaseAllNodes E).
Proof. unfold releaseAllNodes. settles_auto. Qed.

(** *** Configuration and credentials *)

Lemma settles_getPasswords may xs : settles may (getPasswords E xs).
Proof. unfold getPasswords. settles_auto. Qed.
#[local] Hint Resolve settles_getPasswords : settles.

Lemma settles_password_tries may k xs n pw : settles may (password_tries E k xs n pw).
Proof. revert pw. induction k as [|k IH]; intros pw; cbn [password_tries]; settles_auto; apply IH. Qed.
#[local] Hint Resolve settles_password_tries : settles.

Lemma settles_getPasswordsWithRetries may xs a b : settles may (getPasswordsWithRetries E xs a b).
Proof. unfold getPasswordsWithRetries. settles_auto. Qed.
#[local] Hint Resolve settles_getPasswordsWithRetries : settles.

Lemma settles_write_endpoint may p pw n : settles may (write_endpoint E p pw n).
Proof. unfold write_endpoint. settles_auto. Qed.
#[local] Hint Resolve settles_write_endpoint : settles.
Lemma settles_write_endpoints may p pw : settles may (write_endpoints E p pw).
Proof. unfold write_endpoints. settles_auto. Qed.
Lemma settles_copy_base may data : settles may (copy_base E data).
Proof. unfold copy_base. settles_auto. Qed.
Lemma settles_willUpdateConfig may bf : settles may (willUpdateConfig E bf).
Proof. unfold willUpdateConfig. settles_auto. Qed.
#[local] Hint Resolve settles_write_endpoints settles_copy_base settles_willUpdateConfig : settles.

Lemma settles_updateConfigFile may force : settles may (updateConfigFile E force).
Proof. unfold updateConfigFile. settles_auto. Qed.

Lemma settles_aggregate_group may m : settles may (aggregate_group E m).
Proof. unfold aggregate_group. settles_auto. Qed.
#[local] Hint Resolve settles_aggregate_group : settles.
Lemma settles_aggregate_all may : settles may (aggregate_all E).
Proof. unfold aggregate_all. settles_auto. Qed.

(** *** With the operator service *)

Context {Op : OperatorService} {OpS : OperatorServiceSpec Op}.

Lemma settles_getCurrentTargets : settles true getCurrentTargets.
Proof. apply settles_ends, getCurrentTargets_ends. Qed.
#[local] Hint Resolve settles_getCurrentTargets : settles.

Lemma settles_calcChangeInNodes : settles true (calcChangeInNodes E).
Proof. unfold calcChangeInNodes. settles_auto. Qed.
#[local] Hint Resolve settles_calcChangeInNodes : settles.

Lemma settles_change_nodes : settles true (change_nodes E).
Proof. unfold change_nodes. settles_auto. Qed.

End operations.
