(* ===== verification/Steps.v ===== *)
(** * The threads as transition systems: src/src/console_node/

    Every goroutine that [main] starts is a transition system over the shared
    state and the mutex [currNodesMutex].  A step is a piece of code between
    two points where another thread can make a difference: taking and
    releasing the lock, and, since the process variable [command] is read and
    written without the lock, the test [command != nil] and the use of
    [command.Process] that follows it.  The program is their composition.

    A step of a thread is the whole piece of code, at the moment it is done: a
    piece with a request that never returns makes no step.  A piece that
    panics makes none either; that it ends the process is in Process.v. *)

From S2P Require Import Prelude GoStrings Json World HttpUtils Operator Files LogAggregation.
From S2P Require Import DataService ConmanProc LogRotateConf Nodes Heartbeat.
From S2P Require Import PodSetup Creds ConmanConfig LogRotation Monitor Zombies Threads Main.
From Stdlib Require Import ZArith.
From stdpp Require Import base numbers strings gmap sets list.

Local Open Scope Z_scope.

(** The threads; [TProc] is the conmand process, whose end is not up to the
    program; [TZombies] stands for the zombie killer and the goroutines it
    starts, [TTails] for the goroutines that tail the logs and those that read
    the output of conmand, and [TFiles] for everybody else who writes to the
    shared file system. *)
Inductive tid := TNode | THeart | TConman | TProc | TMonitor | TRotate | TZombies | TTails | TMain | TFiles.

#[export] Instance tid_eq_dec : EqDecision tid.
Proof. solve_decision. Defined.

(** ** Where a thread is *)

(** [watchForNodes]: sleeping; in [doGetNewNodes] after the test of
    [inShutdown], waiting for the lock; holding it; and after a change: before
    the test of [command], before the signal, before the rotation file is
    written. *)
Inductive node_pc := NodeIdle | NodeLocking | NodeLocked | NodeCheck | NodeSend | NodeConf.

(** [doHeartbeat]: sleeping, holding the lock, and after nodes were dropped:
    before the test of [command] and before the signal. *)
Inductive heart_pc := HeartIdle | HeartLocked | HeartCheck | HeartSend.

(** [runConman]: waiting for the lock; holding it, before the configuration
    file is written, before the tails are started, before the keys are there;
    then before the command is created, before it is started, waiting for the
    process, pausing because it ended with an error, and before the command is
    forgotten. *)
Inductive conman_pc :=
| CmConfig (force : bool) | CmUpdate (force : bool) | CmTail | CmKeys
| CmCreate | CmStart | CmWait | CmPause | CmReset.

(** [doMonitor]: sleeping; holding the lock for the keys; then before the
    passwords, before the names, before the permissions are checked, and
    before the test of [command] and the signal. *)
Inductive mon_pc :=
| MonIdle | MonKeys | MonPasswords (changed : bool) | MonNames (restart : bool)
| MonFiles (restart : bool) (ns : list string) | MonCheck | MonSend.

(** [doLogRotate]: in its initial delay; then, with the time stamps it
    remembers, sleeping; before the test of [command] and before the signal;
    before the aggregation log is restarted. *)
Inductive rot_pc :=
| RotStarting | RotIdle (st : stamps) | RotCheck (st : stamps) (agg : bool) | RotSend (st : stamps) (agg : bool)
| RotRespin (st : stamps) (agg : bool).

(** [main]: waiting for a signal, about to release all nodes, finished. *)
Inductive main_pc := MainServing | MainReleasing | MainDone.

(** Inside a critical section of [currNodesMutex]. *)
Definition node_in (n : node_pc) : bool := match n with NodeIdle | NodeLocking => false | _ => true end.
Definition heart_in (h : heart_pc) : bool := match h with HeartIdle => false | _ => true end.
Definition conman_in (c : conman_pc) : bool := match c with CmUpdate _ | CmTail | CmKeys => true | _ => false end.
Definition mon_in (m : mon_pc) : bool := match m with MonKeys => true | _ => false end.

(** ** The steps of each thread *)

Notation mutex := (option tid).

Section steps.
Context (E : env) {Op : OperatorService}.

(** [doGetNewNodes] *)
Inductive node_step : node_pc → mutex → world → node_pc → mutex → world → Prop :=
| node_serving l w : inShutdown (pod w) = false → node_step NodeIdle l w NodeLocking l w
| node_lock w : node_step NodeLocking None w NodeLocked (Some TNode) w
| node_change l w w' : change_nodes E w = Done true w' → node_step NodeLocked l w NodeCheck l w'
| node_keep l w w' : change_nodes E w = Done false w' → node_step NodeLocked l w NodeIdle None w'
| node_nil l w : command w = CmdNil → node_step NodeCheck l w NodeConf l w
| node_some l w : command w ≠ CmdNil → node_step NodeCheck l w NodeSend l w
| node_send l w w' : signal_process SIGTERM w = Done () w' → node_step NodeSend l w NodeConf l w'
| node_conf l w w' : updateLogRotateConf E w = Done () w' → node_step NodeConf l w NodeIdle None w'.

(** [sendSingleHeartbeat] *)
Inductive heart_step : heart_pc → mutex → world → heart_pc → mutex → world → Prop :=
| heart_lock w : heart_step HeartIdle None w HeartLocked (Some THeart) w
| heart_dropped l w w' : exchange_heartbeat E w = Done true w' → heart_step HeartLocked l w HeartCheck l w'
| heart_kept l w w' : exchange_heartbeat E w = Done false w' → heart_step HeartLocked l w HeartIdle None w'
| heart_nil l w : command w = CmdNil → heart_step HeartCheck l w HeartIdle None w
| heart_some l w : command w ≠ CmdNil → heart_step HeartCheck l w HeartSend l w
| heart_send l w w' : signal_process SIGTERM w = Done () w' → heart_step HeartSend l w HeartIdle None w'.

(** After the configuration: debug mode and a pod without nodes only pause. *)
Definition after_config (debug hasNodes : bool) : conman_pc :=
  if debug || negb hasNodes then CmConfig false else CmCreate.

(** [len(currentMtnNodes) + len(currentRvrNodes) + len(currentPdsNodes) > 0] *)
Definition has_nodes (w : world) : bool := 0 <? zlen (mtn w) + zlen (rvr w) + zlen (pds w).

(** [configConman] and [executeConman] *)
Inductive conman_step : conman_pc → mutex → world → conman_pc → mutex → world → Prop :=
| conman_lock f w : conman_step (CmConfig f) None w (CmUpdate f) (Some TConman) w
| conman_update f l w w' : updateConfigFile E f w = Done () w' → conman_step (CmUpdate f) l w CmTail l w'
| conman_tail l w w' : aggregate_all E w = Done () w' → conman_step CmTail l w CmKeys l w'
| conman_keys fuel b l w w' : ensureMountainConsoleKeysPresent E fuel w = Done b w' →
    conman_step CmKeys l w (after_config (debugOnly (pod w')) (has_nodes w')) None w'
| conman_create l w w' : create_command w = Done () w' → conman_step CmCreate l w CmStart l w'
| conman_start l w w' : start_command w = Done () w' → conman_step CmStart l w CmWait l w'
| conman_ended l w : command w = CmdExited → conman_step CmWait l w CmReset l w (** [Wait] returns *)
| conman_failed l w : command w = CmdExited → conman_step CmWait l w CmPause l w (** with an error *)
| conman_pause l w w' : sleep (15 * second) w = Done () w' → conman_step CmPause l w CmReset l w'
| conman_reset l w w' : reset_command w = Done () w' → conman_step CmReset l w (CmConfig false) l w'.

(** [checkForChanges]; before the first configuration there are no passwords to
    compare with, and the lock is not taken for them. *)
Inductive mon_step : mon_pc → mutex → world → mon_pc → mutex → world → Prop :=
| mon_lock w : mon_step MonIdle None w MonKeys (Some TMonitor) w
| mon_keys fuel k l w w' : checkIfMountainConsoleKeysChanged E fuel w = Done k w' →
    mon_step MonKeys l w (MonPasswords k) None w'
| mon_passwords k r w w' : checkIfRiverPasswordsChanged E w = Done r w' →
    mon_step (MonPasswords k) None w (MonNames (k || r)) None w'
| mon_no_passwords k l w : previousPasswords (creds w) = None → mon_step (MonPasswords k) l w (MonNames k) l w
| mon_names b ns w w' : getCurrNodeXnames E w = Done ns w' → mon_step (MonNames b) None w (MonFiles b ns) None w'
| mon_files b ns l w w' : check_permissions E ns w = Done () w' →
    mon_step (MonFiles b ns) l w (if b then MonCheck else MonIdle) l w'
| mon_nil l w : command w = CmdNil → mon_step MonCheck l w MonIdle l w
| mon_some l w : command w ≠ CmdNil → mon_step MonCheck l w MonSend l w
| mon_send l w w' : signal_process SIGTERM w = Done () w' → mon_step MonSend l w MonIdle l w'.

(** [doLogRotate] and [rotateLogsOnce]; the lock is never taken.  The stamps are
    read once before the first turn, and what changed is ignored. *)
Inductive rot_step : rot_pc → world → rot_pc → world → Prop :=
| rot_start st con agg w w' : readLogRotTimestamps E ∅ w = Done (st, con, agg) w' →
    rot_step RotStarting w (RotIdle st) w'
| rot_detect st st' con agg w w' : logRotEnabled (rot w) = true → detect_rotation E st w = Done (st', con, agg) w' →
    rot_step (RotIdle st) w (if con : bool then RotCheck st' agg else RotRespin st' agg) w'
| rot_nil st agg w w' : command w = CmdNil → respin_fakes E w = Done () w' →
    rot_step (RotCheck st agg) w (RotRespin st agg) w'
| rot_some st agg w : command w ≠ CmdNil → rot_step (RotCheck st agg) w (RotSend st agg) w
| rot_send st agg w w' : signal_process SIGHUP w = Done () w' → rot_step (RotSend st agg) w (RotRespin st agg) w'
| rot_respin st agg w w' : respin_if E agg w = Done () w' → rot_step (RotRespin st agg) w (RotIdle st) w'.

(** The zombie killer makes a turn, or a goroutine that it started waits for its
    process. *)
Inductive zombie_step : world → world → Prop :=
| zombie_turn w w' : watchForZombies_turn E w = Done () w' → zombie_step w w'
| zombie_reaped w w' : reap_step w w' → zombie_step w w'.

(** The goroutines that tail, those that were told to stop included: a line
    arrives, or one of them returns; [killTails] cancels them in debug mode;
    and those that log what conmand prints, once one was started. *)
Inductive tail_step : world → world → Prop :=
| tail_line id x text b w w' : alive (tails w) !! id = Some x →
    watch_loop x [TailLine text] w = Done b w' → tail_step w w'
| tail_end id w w' : is_Some (alive (tails w) !! id) → end_watch id w = Done () w' → tail_step w w'
| tail_kill b w w' : debugOnly (pod w) = true → killTails_once E w = Done b w' → tail_step w w'
| pipe_output data w w' : EvExec ["conmand"; "-F"; "-v"; "-c"; confFile] ∈ trace w →
    logPipeOutput data w = Done () w' → tail_step w w'.

(** The signal and [releaseAllNodes] *)
Inductive main_step : main_pc → mutex → world → main_pc → mutex → world → Prop :=
| main_signal l w w' : set_shutdown w = Done () w' → main_step MainServing l w MainReleasing l w'
| main_release w w' : releaseAllNodes E w = Done () w' → main_step MainReleasing None w MainDone None w'.

(** ** The program *)

(** The shared state, the mutex, and where the threads are. *)
Record system := Sys {
  state : world;
  lock : mutex;
  node_at : node_pc;
  heart_at : heart_pc;
  conman_at : conman_pc;
  mon_at : mon_pc;
  rot_at : rot_pc;
  main_at : main_pc
}.

(** A step of the program is a step of one thread. *)
Inductive tstep : tid → system → system → Prop :=
| by_node w l n w' l' n' h c m r q : node_step n l w n' l' w' →
    tstep TNode (Sys w l n h c m r q) (Sys w' l' n' h c m r q)
| by_heart w l h w' l' h' n c m r q : heart_step h l w h' l' w' →
    tstep THeart (Sys w l n h c m r q) (Sys w' l' n h' c m r q)
| by_conman w l c w' l' c' n h m r q : conman_step c l w c' l' w' →
    tstep TConman (Sys w l n h c m r q) (Sys w' l' n h c' m r q)
| by_process w w' l n h c m r q : command w = CmdRunning → exit_command w = Done () w' →
    tstep TProc (Sys w l n h c m r q) (Sys w' l n h c m r q)
| by_monitor w l m w' l' m' n h c r q : mon_step m l w m' l' w' →
    tstep TMonitor (Sys w l n h c m r q) (Sys w' l' n h c m' r q)
| by_rotate w l r w' r' n h c m q : rot_step r w r' w' →
    tstep TRotate (Sys w l n h c m r q) (Sys w' l n h c m r' q)
| by_zombies w w' l n h c m r q : zombie_step w w' →
    tstep TZombies (Sys w l n h c m r q) (Sys w' l n h c m r q)
| by_tails w w' l n h c m r q : tail_step w w' →
    tstep TTails (Sys w l n h c m r q) (Sys w' l n h c m r q)
| by_main w l q w' l' q' n h c m r : main_step q l w q' l' w' →
    tstep TMain (Sys w l n h c m r q) (Sys w' l' n h c m r q')
| by_files w files l n h c m r q :
    tstep TFiles (Sys w l n h c m r q) (Sys (upd_fs (λ _, files) w) l n h c m r q).

Definition step (s s' : system) : Prop := ∃ t, tstep t s s'.

(** The threads start when [main_start] is done; conmand's configuration is
    forced the first time. *)
Definition start_system (w : world) : system :=
  Sys w None NodeIdle HeartIdle (CmConfig true) MonIdle RotStarting MainServing.

Inductive starts : system → Prop :=
| starts_main fuel args files w :
    main_start E fuel args (initial_world files) = Done () w → starts (start_system w).

Definition reachable (s : system) : Prop := ∃ s0, starts s0 ∧ rtc step s0 s.

(** A thread is inside the critical section. *)
Definition holds (s : system) (t : tid) : bool :=
  match t with
  | TNode => node_in (node_at s)
  | THeart => heart_in (heart_at s)
  | TConman => conman_in (conman_at s)
  | TMonitor => mon_in (mon_at s)
  | _ => false
  end.

End steps.

(** ** Runs of a critical section

    A thread that is not disturbed does what the function it models does. *)

Section sequential.
Context (E : env) {Op : OperatorService}.

(** A configuration of one thread, and its steps until it leaves the part of
    its code that [inner] marks. *)
Definition conf (PC : Type) : Type := PC * mutex * world.

Definition within {PC} (inner : PC → bool) (R : PC → mutex → world → PC → mutex → world → Prop) (x y : conf PC) : Prop :=
  inner x.1.1 = true ∧ R x.1.1 x.1.2 x.2 y.1.1 y.1.2 y.2.

(** Taking apart a bind that is done. *)
Lemma bind_done {A B} (m : M A) (f : A → M B) w b w' :
  (m ≫= f) w = Done b w' ↔ ∃ a w1, m w = Done a w1 ∧ f a w1 = Done b w'.
Proof.
  unfold mbind, M_bind. split.
  - destruct (m w) as [a w1| |]; [eauto|done|done].
  - by intros (a&w1&->&H).
Qed.

Lemma signalConmanTERM_done w w' :
  signalConmanTERM w = Done () w' ↔
  (command w = CmdNil ∧ w' = w) ∨ (command w ≠ CmdNil ∧ signal_process SIGTERM w = Done () w').
Proof.
  unfold signalConmanTERM. rewrite bind_done. unfold gets. split.
  - intros (c&w1&[= <- <-]&H). case_decide as Hc; [injection H as <-; by left|by right].
  - intros [[Hc ->]|[Hc Hs]]; exists (command w), w; (split; [done|]);
      [by rewrite decide_True|by rewrite decide_False].
Qed.

(** One step of a path. *)
Lemma within_l {PC} inner (R : PC → mutex → world → PC → mutex → world → Prop) p l w p' l' w' y :
  inner p = true → R p l w p' l' w' → rtc (within inner R) (p', l', w') y → rtc (within inner R) (p, l, w) y.
Proof. intros Hin Hr Hp. eapply rtc_l; [|exact Hp]. by split. Qed.

Lemma node_pass_runs l w w' :
  doGetNewNodes_locked E w = Done () w' → rtc (within node_in (node_step E)) (NodeLocked, l, w) (NodeIdle, None, w').
Proof.
  unfold doGetNewNodes_locked. rewrite bind_done. intros (b&w1&Hc&H). destruct b.
  - apply bind_done in H as ([]&w2&Hs&Hf). eapply within_l; [done|by apply node_change|].
    apply signalConmanTERM_done in Hs as [[Hn ->]|[Hn Hs]].
    + eapply within_l; [done|by apply node_nil|]. eapply within_l; [done|by apply node_conf|done].
    + eapply within_l; [done|by apply node_some|]. eapply within_l; [done|by apply node_send|].
      eapply within_l; [done|by apply node_conf|done].
  - injection H as <-. eapply within_l; [done|by apply node_keep|done].
Qed.

Lemma config_runs fuel f b l w w' :
  configConman E fuel f w = Done b w' →
  rtc (within conman_in (conman_step E)) (CmUpdate f, l, w) (after_config (debugOnly (pod w')) b, None, w').
Proof.
  unfold configConman. intros H.
  apply bind_done in H as ([]&w1&Hu&H). apply bind_done in H as ([]&w2&Ht&H).
  apply bind_done in H as (k&w3&Hk&H). injection H as <- <-.
  eapply within_l; [done|by apply conman_update|]. eapply within_l; [done|by apply conman_tail|].
  eapply within_l; [done|by eapply conman_keys|done].
Qed.

End sequential.
