(* ===== verification/PodSpec.v ===== *)
(** * What a pod promises

    An abstract specification of one console-node pod: which consoles it
    watches, which of their logs it tails, what its conmand process does and
    how far its shutdown is, without maps, files, requests, locks or threads.
    The program is shown to implement it in System.v; what follows from the
    rules alone is proved here. *)

From S2P Require Import Prelude World.
From stdpp Require Import base strings gmap sets.

(** ** The specification *)

(** The life of the pod. *)
Inductive phase := Serving | Stopping | Stopped.

(** The names of the watched nodes, those in the table of tails, those whose
    log a goroutine reads that was not told to stop, those whose log one reads
    that was told to stop; the process; the phase; and whether a change of the
    nodes was admitted and is not finished. *)
Record pod_view := View {
  v_watched : gset string;
  v_tailed : gset string;
  v_running : gset string;
  v_lingering : gset string;
  v_proc : cmdState;
  v_phase : phase;
  v_pending : bool
}.

(** A pod that has just started. *)
Definition view_start : pod_view := View ∅ ∅ ∅ ∅ CmdNil Serving false.

(** The life of a process: none, created, running, ended. *)
Definition proc_next (c : cmdState) : cmdState :=
  match c with CmdNil => CmdCreated | CmdCreated => CmdRunning | CmdRunning => CmdExited | CmdExited => CmdNil end.

(** What a pod may do. *)
Inductive pstep : pod_view → pod_view → Prop :=
| p_admit W T R L c : (** a serving pod admits a change *)
    pstep (View W T R L c Serving false) (View W T R L c Serving true)
| p_take W W' T R L c ph : W ⊆ W' → (** nodes are taken in an admitted change only *)
    pstep (View W T R L c ph true) (View W' T R L c ph true)
| p_finish W T R L c ph :
    pstep (View W T R L c ph true) (View W T R L c ph false)
| p_give W W' T T' R R' L c ph b : (** nodes and tails are given up at any time, a node not before its tail;
      the goroutines that are told to stop linger *)
    W' ⊆ W → T' ⊆ T → R' ⊆ R → R' ⊆ T' → T' ⊆ W' →
    pstep (View W T R L c ph b) (View W' T' R' (L ∪ (R ∖ R')) c ph b)
| p_end W T R R' L L' c ph b : (** a goroutine returns *)
    R' ⊆ R → L' ⊆ L →
    pstep (View W T R L c ph b) (View W T R' L' c ph b)
| p_line x W T R L c ph b : (** a line is read, of a log that a goroutine reads, told to stop or not *)
    x ∈ R ∪ L →
    pstep (View W T R L c ph b) (View W T R L c ph b)
| p_tail W T R R' L c ph b : (** a configuration tails exactly the watched nodes, the new ones running *)
    R ⊆ R' → W ∖ T ⊆ R' → R' ⊆ W →
    pstep (View W T R L c ph b) (View W W R' L c ph b)
| p_proc W T R L c ph b : (** the process goes through its life in order *)
    pstep (View W T R L c ph b) (View W T R L (proc_next c) ph b)
| p_close W T R L c b :
    pstep (View W T R L c Serving b) (View W T R L c Stopping b)
| p_release W T R L c b : (** the end of a pod gives up everything and tells every goroutine to stop *)
    pstep (View W T R L c Stopping b) (View ∅ ∅ ∅ (L ∪ R) c Stopped b).

(** ** What follows from the rules *)

(** Only watched nodes are tailed, and only for tailed nodes there is a goroutine
    that was not told to stop. *)
Definition view_ok (v : pod_view) : Prop := v_running v ⊆ v_tailed v ∧ v_tailed v ⊆ v_watched v.

Lemma pstep_ok v v' : pstep v v' → view_ok v → view_ok v'.
Proof. unfold view_ok. destruct 1; cbn; set_solver. Qed.

(** The phases in order. *)
Definition phase_le (p q : phase) : Prop :=
  match p, q with Serving, _ | Stopping, (Stopping | Stopped) | Stopped, Stopped => True | _, _ => False end.

#[export] Instance phase_le_preorder : PreOrder phase_le.
Proof. split; [by intros []|by intros [] [] []]. Qed.

Lemma pstep_phase v v' : pstep v v' → phase_le (v_phase v) (v_phase v').
Proof. destruct 1; cbn; try done; by destruct ph. Qed.

(** A pod that is gone: nothing watched, nothing admitted, and at most the
    goroutines of [L] have not returned yet. *)
Definition gone (L : gset string) (v : pod_view) : Prop :=
  v_phase v = Stopped ∧ v_pending v = false ∧ v_watched v = ∅ ∧ view_ok v ∧ v_lingering v ⊆ L.

Lemma pstep_gone L v v' : pstep v v' → gone L v → gone L v'.
Proof.
  intros H (H1&H2&H3&H4&H5). pose proof (pstep_ok _ _ H H4) as H4'. unfold gone. split_and!; [..|exact H4'|].
  all: destruct H4 as [H4 H6]; destruct H; cbn in *; subst; try done; set_solver.
Qed.

(** A name that was not tailed before is tailed by a configuration, which
    leaves exactly the watched nodes tailed. *)
Lemma pstep_tails v v' : pstep v v' → v_tailed v' ⊆ v_tailed v ∨ v_tailed v' = v_watched v'.
Proof. destruct 1; cbn; set_solver. Qed.

(** Nodes are taken in an admitted change only. *)
Lemma pstep_takes v v' : pstep v v' → v_watched v' ⊆ v_watched v ∨ v_pending v = true.
Proof. destruct 1; cbn; set_solver. Qed.

(** A property that the rules keep holds along an execution. *)
Lemma psteps_keep (P : pod_view → Prop) :
  (∀ v v', pstep v v' → P v → P v') → ∀ v v', rtc pstep v v' → P v → P v'.
Proof. intros H v v'. induction 1 as [|v1 v2 v3 H12 _ IH]; [done|]. intros Hp. by apply IH, (H v1). Qed.

Lemma psteps_phase v v' : rtc pstep v v' → phase_le (v_phase v) (v_phase v').
Proof. intros H. induction H as [|v1 v2 v3 H12 _ IH]; [reflexivity|]. etrans; [by apply pstep_phase|done]. Qed.
