(* ===== verification/Runs.v ===== *)
(** * Executions of the program

    Paths of a single thread as paths of the whole program, and the concrete
    executions from which the races of the program are exhibited. *)

From S2P Require Import Prelude GoStrings Json World HttpUtils Operator Files LogAggregation.
From S2P Require Import DataService ConmanProc LogRotateConf Nodes Heartbeat PodSetup ConmanConfig Demo Main Steps.
From Stdlib Require Import ZArith Lia.
From stdpp Require Import base numbers strings gmap sets list.

Local Open Scope Z_scope.

(** ** One thread at a time *)

Section paths.
Context (E : env) {Op : OperatorService}.

Lemma node_path inner n l w n' l' w' h c m r q :
  rtc (within inner (node_step E)) (n, l, w) (n', l', w') →
  rtc (step E) (Sys w l n h c m r q) (Sys w' l' n' h c m r q).
Proof.
  intros H. apply (rtc_congruence (λ x : conf node_pc, Sys x.2 x.1.2 x.1.1 h c m r q) (step E)) in H; [exact H|].
  intros [[n1 l1] w1] [[n2 l2] w2] [_ Hs]. exists TNode. by apply by_node.
Qed.

Lemma conman_path inner c l w c' l' w' n h m r q :
  rtc (within inner (conman_step E)) (c, l, w) (c', l', w') →
  rtc (step E) (Sys w l n h c m r q) (Sys w' l' n h c' m r q).
Proof.
  intros H. apply (rtc_congruence (λ x : conf conman_pc, Sys x.2 x.1.2 n h x.1.1 m r q) (step E)) in H; [exact H|].
  intros [[n1 l1] w1] [[n2 l2] w2] [_ Hs]. exists TConman. by apply by_conman.
Qed.

Lemma reach_start w : (∃ fuel args files, main_start E fuel args (initial_world files) = Done () w) →
  reachable E (start_system w).
Proof. intros (fuel&args&files&H). exists (start_system w). split; [by econstructor|reflexivity]. Qed.

Lemma reach_steps s s' : reachable E s → rtc (step E) s s' → reachable E s'.
Proof. intros (s0&H0&Hr) Hs. exists s0. split; [done|]. by etrans. Qed.

Lemma reach_step t s s' : reachable E s → tstep E t s s' → reachable E s'.
Proof. intros Hr Hs. apply (reach_steps s); [done|]. apply rtc_once. by exists t. Qed.

(** A pass of the node thread, its test of the flag included. *)
Lemma reach_pass w w' h c m r q :
  reachable E (Sys w None NodeIdle h c m r q) → inShutdown (pod w) = false →
  doGetNewNodes_locked E w = Done () w' →
  reachable E (Sys w' None NodeIdle h c m r q).
Proof.
  intros Hr Hs Hd. apply (reach_step TNode _ (Sys w None NodeLocking h c m r q)) in Hr; [|by apply by_node, node_serving].
  apply (reach_step TNode _ (Sys w (Some TNode) NodeLocked h c m r q)) in Hr; [|by apply by_node, node_lock].
  apply (reach_steps _ _ Hr). eapply node_path, node_pass_runs, Hd.
Qed.

(** A configuration. *)
Lemma reach_config w w' fuel f b n h m r q :
  reachable E (Sys w None n h (CmConfig f) m r q) → configConman E fuel f w = Done b w' →
  reachable E (Sys w' None n h (after_config (debugOnly (pod w')) b) m r q).
Proof.
  intros Hr Hd.
  apply (reach_step TConman _ (Sys w (Some TConman) n h (CmUpdate f) m r q)) in Hr; [|by apply by_conman, conman_lock].
  apply (reach_steps _ _ Hr). eapply conman_path.
  by eapply config_runs.
Qed.

End paths.

(** Running an operation that is known to finish. *)
Definition after {A} (m : M A) (w : world) : world :=
  match m w with Done _ w' | Panic _ w' | Stuck w' => w' end.

Definition result {A} (m : M A) (w : world) : option A := match m w with Done a _ => Some a | _ => None end.

Lemma result_done {A} (m : M A) w a : result m w = Some a → m w = Done a (after m w).
Proof. unfold result, after. by destruct (m w); intros [= ->]. Qed.

(** ** The services of the executions

    They answer: the pod's location, two pods, a new Mountain node at every
    request, and a heartbeat answered by a dropped node. *)

Definition race_answer (n : nat) (rq : http_request) : http_outcome :=
  if decide (rq_url rq = dataAddrBase +:+ "/activepods") then Response 200 (qs "{'numactivepods':2}")
  else if decide (rq_url rq = operatorAddrBase NewOperatorService +:+ "/currentTargets") then
    Response 200 (qs "{'totalrvrnodes':6,'totalmtnnodes':10}")
  else if decide (rq_url rq = dataAddrBase +:+ "/consolepod/1000/heartbeat") then Response 200 (qs "[{'NodeName':'x9'}]")
  else if decide (rq_method rq = "POST"%string) then
    Response 200 (qs ("[{'NodeName':'x" +:+ Itoa (Z.of_nat n) +:+ "','Class':'Mountain'}]"))
  else Response 200 (qs "{'podname':'cray-console-node-1000','xname':'x3000c0s1b0n0','alias':'ncn-w001'}").

Definition race_env : env := env_http race_answer.
#[export] Instance race_op : OperatorService := demo_operator race_env.
#[export] Instance race_op_spec : OperatorServiceSpec race_op := demo_operator_spec race_env.

Definition race_files : gmap string file :=
  {["/app/conman_base.conf" := File ("# conman base file" +:+ String nl "UPDATE_CONFIG=TRUE and some more text to fill the head") 420]}%string.

(** ** The worlds of the executions *)

(** The process variable set by a phase of [executeConman]. *)
Definition with_command (c : cmdState) (w : world) : world := upd_command (λ _, c) w.

(** The threads start; a first node is acquired; conmand is configured for it. *)
Definition world0 : world := after (main_start race_env 1 []) (initial_world race_files).
Definition world1 : world := after (doGetNewNodes_locked race_env) world0.
Definition world2 : world := after (configConman race_env 1 true) world1.

(** Then a node is acquired between the configuration and the process. *)
Definition world3 : world := after (doGetNewNodes_locked race_env) world2.
Definition world4 : world := after start_command (with_command CmdCreated world3).

(** Or the process runs when the node thread changes the nodes. *)
Definition world5 : world := after start_command (with_command CmdCreated world2).
Definition world6 : world := after (change_nodes race_env) world5.

(** Or the heartbeat drops a node while the command is created and not started. *)
Definition world7 : world := with_command CmdCreated world2.
Definition world8 : world := after (exchange_heartbeat race_env) world7.

(** Or the signal to stop arrives at the beginning, while the node thread
    waits for the lock. *)
Definition world9 : world := after set_shutdown world0.
Definition world10 : world := after (releaseAllNodes race_env) world9.
Definition world11 : world := after (doGetNewNodes_locked race_env) world10.

(** The signal arrives while the node thread is about to signal a process that
    has ended. *)
Definition world12 : world := after set_shutdown (with_command CmdExited world6).
Definition world13 : world := after (updateLogRotateConf race_env) world12.

(** Or it arrives when conmand is configured for a node, whose log is tailed. *)
Definition world16 : world := after set_shutdown world2.
Definition world17 : world := after (releaseAllNodes race_env) world16.

Ltac run := match goal with |- ?m ?w = Done ?a _ =>
  let H := fresh in assert (H : result m w = Some a) by (by vm_compute); exact (result_done m w a H) end.

Lemma run0 : main_start race_env 1 [] (initial_world race_files) = Done () world0.
Proof. run. Qed.

Lemma run1 : doGetNewNodes_locked race_env world0 = Done () world1.
Proof. run. Qed.

Lemma run2 : configConman race_env 1 true world1 = Done true world2.
Proof. run. Qed.

Lemma run3 : doGetNewNodes_locked race_env world2 = Done () world3.
Proof. run. Qed.

Lemma run4 : start_command (with_command CmdCreated world3) = Done () world4.
Proof. run. Qed.

Lemma run5 : start_command (with_command CmdCreated world2) = Done () world5.
Proof. run. Qed.

Lemma run6 : change_nodes race_env world5 = Done true world6.
Proof. run. Qed.

Lemma run8 : exchange_heartbeat race_env world7 = Done true world8.
Proof. run. Qed.

Lemma run9 : set_shutdown world0 = Done () world9.
Proof. run. Qed.

Lemma run10 : releaseAllNodes race_env world9 = Done () world10.
Proof. run. Qed.

Lemma run11 : doGetNewNodes_locked race_env world10 = Done () world11.
Proof. run. Qed.

Lemma run12 : set_shutdown (with_command CmdExited world6) = Done () world12.
Proof. reflexivity. Qed.

Lemma run13 : updateLogRotateConf race_env world12 = Done () world13.
Proof. run. Qed.

Lemma run16 : set_shutdown world2 = Done () world16.
Proof. run. Qed.

Lemma run17 : releaseAllNodes race_env world16 = Done () world17.
Proof. run. Qed.

Lemma world0_serving : inShutdown (pod world0) = false.
Proof. by vm_compute. Qed.

Lemma world2_serving : inShutdown (pod world2) = false.
Proof. by vm_compute. Qed.

Lemma world2_debug : debugOnly (pod world2) = false.
Proof. by vm_compute. Qed.

Lemma world4_running : command world4 = CmdRunning.
Proof. by vm_compute. Qed.

Lemma world5_serving : inShutdown (pod world5) = false.
Proof. by vm_compute. Qed.

Lemma world6_running : command world6 = CmdRunning.
Proof. by vm_compute. Qed.

Lemma world8_created : command world8 = CmdCreated.
Proof. by vm_compute. Qed.

Lemma world8_nodes : has_nodes world8 = true.
Proof. by vm_compute. Qed.

Lemma world11_takes : has_nodes world11 = true.
Proof. by vm_compute. Qed.

(** The steps of the process. *)
Section process.
Context (E : env) {Op : OperatorService}.

Lemma create_step w l n h m r q :
  tstep E TConman (Sys w l n h CmCreate m r q) (Sys (with_command CmdCreated w) l n h CmStart m r q).
Proof. by apply by_conman, conman_create. Qed.

Lemma exit_step w l n h c m r q : command w = CmdRunning →
  tstep E TProc (Sys w l n h c m r q) (Sys (with_command CmdExited w) l n h c m r q).
Proof. intros H. by apply by_process. Qed.

Lemma ended_step w l n h m r q :
  tstep E TConman (Sys (with_command CmdExited w) l n h CmWait m r q) (Sys (with_command CmdExited w) l n h CmReset m r q).
Proof. by apply by_conman, conman_ended. Qed.

Lemma reset_step w l n h m r q :
  tstep E TConman (Sys w l n h CmReset m r q) (Sys (with_command CmdNil w) l n h (CmConfig false) m r q).
Proof. by apply by_conman, conman_reset. Qed.

End process.

(** ** The executions *)

Lemma reach_start0 : reachable race_env (start_system world0).
Proof. apply reach_start. exists 1%nat, [], race_files. exact run0. Qed.

Lemma reach_configured :
  reachable race_env (Sys world2 None NodeIdle HeartIdle CmCreate MonIdle RotStarting MainServing).
Proof.
  pose proof (reach_pass race_env _ _ _ _ _ _ _ reach_start0 world0_serving run1) as H.
  pose proof (reach_config race_env _ _ _ _ _ _ _ _ _ _ H run2) as H2. by rewrite world2_debug in H2.
Qed.

Lemma reach_changed : reachable race_env (Sys world3 None NodeIdle HeartIdle CmCreate MonIdle RotStarting MainServing).
Proof. exact (reach_pass race_env _ _ _ _ _ _ _ reach_configured world2_serving run3). Qed.

Lemma reach_lost : reachable race_env (Sys world4 None NodeIdle HeartIdle CmWait MonIdle RotStarting MainServing).
Proof.
  pose proof (reach_step race_env _ _ _ reach_changed (create_step _ _ _ _ _ _ _ _)) as H2.
  exact (reach_step race_env _ _ _ H2 (by_conman _ _ _ _ _ _ _ _ _ _ _ _ (conman_start _ _ _ _ run4))).
Qed.

(** The process ends, and is forgotten, between the test of [command] and its use. *)
Definition exited_state : system :=
  Sys (with_command CmdExited world6) (Some TNode) NodeSend HeartIdle CmReset MonIdle RotStarting MainServing.

Lemma reach_exited : reachable race_env exited_state.
Proof.
  pose proof (reach_step race_env _ _ _ reach_configured (create_step _ _ _ _ _ _ _ _)) as H1.
  pose proof (reach_step race_env _ _ _ H1 (by_conman _ _ _ _ _ _ _ _ _ _ _ _ (conman_start _ _ _ _ run5))) as H2.
  pose proof (reach_step race_env _ _ _ H2 (by_node _ _ _ _ _ _ _ _ _ _ _ _ (node_serving _ _ _ world5_serving))) as H3.
  pose proof (reach_step race_env _ _ _ H3 (by_node _ _ _ _ _ _ _ _ _ _ _ _ (node_lock _ _))) as H4.
  pose proof (reach_step race_env _ _ _ H4 (by_node _ _ _ _ _ _ _ _ _ _ _ _ (node_change _ _ _ _ run6))) as H5.
  assert (Hn : command world6 ≠ CmdNil) by by rewrite world6_running.
  pose proof (reach_step race_env _ _ _ H5 (by_node _ _ _ _ _ _ _ _ _ _ _ _ (node_some _ _ _ Hn))) as H6.
  pose proof (reach_step race_env _ _ _ H6 (exit_step _ _ _ _ _ _ _ _ _ world6_running)) as H7.
  exact (reach_step race_env _ _ _ H7 (ended_step _ _ _ _ _ _ _ _)).
Qed.

Lemma reach_use : reachable race_env
  (Sys (with_command CmdNil (with_command CmdExited world6)) (Some TNode) NodeSend HeartIdle (CmConfig false)
    MonIdle RotStarting MainServing).
Proof. exact (reach_step race_env _ _ _ reach_exited (reset_step _ _ _ _ _ _ _ _)). Qed.

Definition beat_state : system :=
  Sys world8 (Some THeart) NodeIdle HeartSend CmStart MonIdle RotStarting MainServing.

Lemma reach_beat : reachable race_env beat_state.
Proof.
  pose proof (reach_step race_env _ _ _ reach_configured (create_step _ _ _ _ _ _ _ _)) as H1.
  pose proof (reach_step race_env _ _ _ H1 (by_heart _ _ _ _ _ _ _ _ _ _ _ _ (heart_lock _ _))) as H2.
  pose proof (reach_step race_env _ _ _ H2 (by_heart _ _ _ _ _ _ _ _ _ _ _ _ (heart_dropped _ _ _ _ run8))) as H3.
  assert (Hn : command world8 ≠ CmdNil) by by rewrite world8_created.
  exact (reach_step race_env _ _ _ H3 (by_heart _ _ _ _ _ _ _ _ _ _ _ _ (heart_some _ _ _ Hn))).
Qed.

Lemma reach_releasing : reachable race_env
  (Sys world9 None NodeIdle HeartIdle (CmConfig true) MonIdle RotStarting MainReleasing).
Proof. exact (reach_step race_env _ _ _ reach_start0 (by_main _ _ _ _ _ _ _ _ _ _ _ _ (main_signal _ _ _ _ run9))). Qed.

Lemma reach_after_shutdown : reachable race_env
  (Sys world11 None NodeIdle HeartIdle (CmConfig true) MonIdle RotStarting MainDone).
Proof.
  pose proof (reach_step race_env _ _ _ reach_start0 (by_node _ _ _ _ _ _ _ _ _ _ _ _ (node_serving _ _ _ world0_serving))) as H1.
  pose proof (reach_step race_env _ _ _ H1 (by_main _ _ _ _ _ _ _ _ _ _ _ _ (main_signal _ _ _ _ run9))) as H2.
  pose proof (reach_step race_env _ _ _ H2 (by_main _ _ _ _ _ _ _ _ _ _ _ _ (main_release _ _ _ run10))) as H3.
  pose proof (reach_step race_env _ _ _ H3 (by_node _ _ _ _ _ _ _ _ _ _ _ _ (node_lock _ _))) as H4.
  apply (reach_steps _ _ _ H4). eapply node_path, node_pass_runs, run11.
Qed.

Lemma reach_stopping : reachable race_env
  (Sys world16 None NodeIdle HeartIdle CmCreate MonIdle RotStarting MainReleasing).
Proof. exact (reach_step race_env _ _ _ reach_configured (by_main _ _ _ _ _ _ _ _ _ _ _ _ (main_signal _ _ _ _ run16))). Qed.
