(* ===== verification/System.v ===== *)
(** * The program as a whole: src/src/console_node/

    What holds in every state that the composed threads of Steps.v can reach,
    how the program implements the specification of PodSpec.v, what the mutex
    protects, and the races that it does not prevent. *)

From S2P Require Import Prelude GoStrings Json World HttpUtils Operator Files LogAggregation.
From S2P Require Import DataService ConmanProc LogRotateConf Nodes NodesFacts NodesProps Heartbeat.
From S2P Require Import PodSetup Creds ConmanConfig ConmanProps LogRotation Monitor Zombies Demo Threads.
From S2P Require Import Main Steps PodSpec Runs.
From Stdlib Require Import ZArith Lia.
From stdpp Require Import base numbers strings gmap sets list.

Local Open Scope Z_scope.

(** ** The invariant *)

(** What the state of the process can be, for each place of its thread. *)
Definition fits (c : conman_pc) (x : cmdState) : Prop :=
  match c with
  | CmStart => x = CmdCreated
  | CmWait => x = CmdRunning ∨ x = CmdExited
  | CmPause | CmReset => x = CmdExited
  | _ => x = CmdNil
  end.

(** The flag is set exactly when the signal has arrived. *)
Definition stopping (q : main_pc) : bool := match q with MainServing => false | _ => true end.

Record sys_inv (s : system) : Prop := {
  si_pod : pod_inv (state s);
  si_command : fits (conman_at s) (command (state s));
  si_shutdown : inShutdown (pod (state s)) = stopping (main_at s);
  si_lock : ∀ t, lock s = Some t ↔ holds s t = true;
  si_tailed : conman_at s = CmKeys → dom (tailThreads (tails (state s))) = all_names (state s)
}.

(** ** Lemmas about one thread *)

(** What a step does to the mutex, for a thread [t] that is inside its
    critical section before ([b]) and after ([b']). *)
Inductive lock_move (t : tid) : bool → mutex → bool → mutex → Prop :=
| lm_keep b l : lock_move t b l b l
| lm_take : lock_move t false None true (Some t)
| lm_release l : lock_move t true l false None.

Lemma lock_move_inv t (h h' : tid → bool) l l' :
  (∀ u, u ≠ t → h' u = h u) → lock_move t (h t) l (h' t) l' →
  (∀ u, l = Some u ↔ h u = true) → ∀ u, l' = Some u ↔ h' u = true.
Proof.
  intros Ho M Hl u. destruct (decide (u = t)) as [->|Hu].
  - inversion M; subst; [|naive_solver..]. rewrite Hl. by f_equiv.
  - rewrite (Ho u Hu). inversion M as [b l0 E1 E2 E3 E4|E1 E2|l0 E1]; subst.
    + by rewrite Hl.
    + rewrite <- Hl. naive_solver.
    + split; [done|]. intros Hh. apply Hl in Hh. symmetry in E1. apply Hl in E1. congruence.
Qed.

(** A step that is not about the nodes leaves the maps and the table alone. *)
Definition same_table (w w' : world) : Prop :=
  nodes w' = nodes w ∧ tailThreads (tails w') = tailThreads (tails w).

Lemma same_pod_table w w' : same_pod w w' → same_table w w'.
Proof. intros S. split; apply S. Qed.

Section facts.
Context (E : env) {Op : OperatorService} {OpS : OperatorServiceSpec Op}.

Lemma node_effect n l w n' l' w' : node_step E n l w n' l' w' →
  lock_move TNode (node_in n) l (node_in n') l' ∧ quiet w w' ∧ kept_alive w w' ∧ (same_pod w w' ∨ n = NodeLocked).
Proof.
  destruct 1 as [l w H|w|l w w' H|l w w' H|l w H|l w H|l w w' H|l w w' H]; (split; [constructor|]).
  - split; [done|]. split; [done|by left].
  - split; [done|]. split; [done|by left].
  - destruct (change_nodes_quiet E _ _ _ H) as [Q A]. split; [done|]. split; [done|by right].
  - destruct (change_nodes_quiet E _ _ _ H) as [Q A]. split; [done|]. split; [done|by right].
  - split; [done|]. split; [done|by left].
  - split; [done|]. split; [done|by left].
  - apply signal_process_done in H as [_ S]. destruct (gave_up_same_pod _ _ S) as [Q _ A]. split; [done|]. split; [done|by left].
  - apply updateLogRotateConf_same in H as S. destruct (gave_up_same_pod _ _ S) as [Q _ A]. split; [done|]. split; [done|by left].
Qed.

Lemma heart_effect h l w h' l' w' : heart_step E h l w h' l' w' →
  lock_move THeart (heart_in h) l (heart_in h') l' ∧ gave_up w w' ∧ (same_pod w w' ∨ h = HeartLocked).
Proof.
  destruct 1 as [w|l w w' H|l w w' H|l w H|l w H|l w w' H]; (split; [constructor|]).
  - by split; [|left].
  - split; [by eapply exchange_gives_up|by right].
  - split; [by eapply exchange_gives_up|by right].
  - by split; [|left].
  - by split; [|left].
  - apply signal_process_done in H as [_ S]. split; [by apply gave_up_same_pod|by left].
Qed.

Lemma mon_effect m l w m' l' w' : mon_step E m l w m' l' w' →
  lock_move TMonitor (mon_in m) l (mon_in m') l' ∧ same_pod w w'.
Proof.
  destruct 1 as [w|fuel k l w w' H|k r w w' H|k l w H|b ns w w' H|b ns l w w' H|l w H|l w H|l w w' H];
    (split; [try constructor|]).
  - done.
  - by eapply ensure_keys_same.
  - by eapply passwords_same.
  - done.
  - by eapply xnames_same.
  - destruct b; constructor.
  - by eapply permissions_same.
  - done.
  - done.
  - by apply signal_process_done in H as [_ S].
Qed.

Lemma rot_effect r w r' w' : rot_step E r w r' w' → same_pod w w'.
Proof.
  destruct 1 as [st con agg w w' H|st st' con agg w w' He H|st agg w w' Hn H|st agg w H|st agg w w' H|st agg w w' H].
  - by eapply readLogRotTimestamps_same.
  - by eapply detect_rotation_same.
  - by eapply respin_fakes_same.
  - done.
  - by apply signal_process_done in H as [_ S].
  - by eapply respin_same.
Qed.

Lemma zombie_effect w w' : zombie_step E w w' → same_pod w w'.
Proof. destruct 1; [by eapply zombies_same|by apply reap_same]. Qed.

(** A tail step reads, ends or is told to stop. *)
Lemma tail_effect w w' : tail_step E w w' →
  quiet w w' ∧ same_table w w' ∧ (gave_up w w' ∨ watch_ended w w').
Proof.
  destruct 1 as [id x text b w w' Hid H|id w w' Hid H|b w w' Hd H|data w w' He H].
  - apply watch_line_same in H. apply gave_up_same_pod in H as G. split; [apply G|]. split; [by apply same_pod_table|by left].
  - apply end_watch_ends in H. split; [apply H|]. split; [split; apply H|by right].
  - apply killTails_gives_up in H as (G&?&?). split; [apply G|]. split; [done|by left].
  - apply pipe_output_same in H. apply gave_up_same_pod in H as G. split; [apply G|]. split; [by apply same_pod_table|by left].
Qed.

(** The conmand thread: the process, and for the rest what its place says. *)
Inductive conman_does : conman_pc → world → conman_pc → world → Prop :=
| cd_same c w c' w' : (fits c (command w) → fits c' (command w)) → c' ≠ CmKeys → same_pod w w' → conman_does c w c' w'
| cd_tail w w' : tailed_all w w' → conman_does CmTail w CmKeys w'
| cd_proc k c w c' w' : (fits c (command w) → k = proc_next (command w) ∧ fits c' k) → c' ≠ CmKeys →
    same_pod (upd_command (λ _, k) w) w' → conman_does c w c' w'.

Lemma conman_effect c l w c' l' w' : conman_step E c l w c' l' w' →
  lock_move TConman (conman_in c) l (conman_in c') l' ∧ conman_does c w c' w' ∧
  (same_table w w' ∨ c = CmTail).
Proof.
  assert (Ha : ∀ d b, conman_in (after_config d b) = false ∧ fits (after_config d b) CmdNil ∧ after_config d b ≠ CmKeys).
  { intros d b. unfold after_config. by destruct (d || negb b). }
  destruct 1 as [f w|f l w w' H|l w w' H|fuel b l w w' H|l w w' H|l w w' H|l w H|l w H|l w w' H|l w w' H];
    try (split; [constructor|]).
  - by split; [apply cd_same|left].
  - apply updateConfigFile_same in H. split; [by apply cd_same|left; by apply same_pod_table].
  - apply aggregate_all_tails in H. split; [by apply cd_tail|by right].
  - apply ensure_keys_same in H. destruct (Ha (debugOnly (pod w')) (has_nodes w')) as (E1&E2&E3).
    rewrite E1. split; [constructor|]. split; [|left; by apply same_pod_table].
    apply cd_same; [|done|done]. cbn. by intros ->.
  - injection H as <-. split; [apply (cd_proc CmdCreated); [cbn; by intros ->|done|by split]|by left].
  - injection H as <-. split; [apply (cd_proc CmdRunning); [cbn; intros ->; auto|done|by split]|by left].
  - split; [by apply cd_same|by left].
  - split; [by apply cd_same|by left].
  - injection H as <-. split; [by apply cd_same; [| |by split]|by left].
  - injection H as <-. split; [apply (cd_proc CmdNil); [cbn; by intros ->|done|by split]|by left].
Qed.

(** ** Every step keeps the invariant *)

Lemma si_quiet w w' l n h c m r q l' n' h' m' r' :
  quiet w w' → (c = CmKeys → same_table w w') →
  (∀ t, l' = Some t ↔ holds (Sys w' l' n' h' c m' r' q) t = true) →
  sys_inv (Sys w l n h c m r q) → sys_inv (Sys w' l' n' h' c m' r' q).
Proof.
  intros Q Ht Hl [Hi Hc Hs _ Hk]. split; cbn in *.
  - by apply Q.
  - by rewrite (qt_command _ _ Q).
  - by rewrite (qt_shutdown _ _ Q).
  - done.
  - intros Ek. destruct (Ht Ek) as [En Et]. rewrite Et, (Hk Ek).
    symmetry. by apply same_pools_names, same_pools_nodes.
Qed.

(** Whoever holds the lock, no other thread is inside. *)
Lemma holds_alone s t u : sys_inv s → holds s t = true → holds s u = true → t = u.
Proof. intros Hi Ht Hu. apply (si_lock _ Hi) in Ht, Hu. congruence. Qed.

Lemma tstep_inv t s s' : tstep E t s s' → sys_inv s → sys_inv s'.
Proof.
  destruct 1 as [w l n w' l' n' h c m r q H|w l h w' l' h' n c m r q H|w l c w' l' c' n h m r q H
    |w w' l n h c m r q Hrun H|w l m w' l' m' n h c r q H|w l r w' r' n h c m q H|w w' l n h c m r q H|w w' l n h c m r q H
    |w l q w' l' q' n h c m r H|w files l n h c m r q]; intros Inv; assert (Inv' := Inv);
    destruct Inv' as [Hi Hc Hs Hl Hk]; cbn [state lock conman_at main_at] in *.
  - destruct (node_effect _ _ _ _ _ _ H) as (M&Q&_&T). eapply si_quiet; [exact Q| | |exact Inv].
    + intros Ek. destruct T as [S| ->]; [by apply same_pod_table|]. exfalso. subst.
      by assert (TNode = TConman) by by apply (holds_alone _ _ _ Inv).
    + eapply (lock_move_inv TNode (holds (Sys w l n h c m r q))); [by intros []|exact M|exact Hl].
  - destruct (heart_effect _ _ _ _ _ _ H) as (M&Q&T). eapply si_quiet; [apply Q| | |exact Inv].
    + intros Ek. destruct T as [S| ->]; [by apply same_pod_table|]. exfalso. subst.
      by assert (THeart = TConman) by by apply (holds_alone _ _ _ Inv).
    + eapply (lock_move_inv THeart (holds (Sys w l n h c m r q))); [by intros []|exact M|exact Hl].
  - destruct (conman_effect _ _ _ _ _ _ H) as (M&D&_).
    assert (Hl' : ∀ t, l' = Some t ↔ holds (Sys w' l' n h c' m r q) t = true).
    { eapply (lock_move_inv TConman (holds (Sys w l n h c m r q))); [by intros []|exact M|exact Hl]. }
    inversion D as [c0 w0 c1 w1 Ec Hn S|w0 w1 T|k c0 w0 c1 w1 Ec Hn S]; subst; split; cbn; try done.
    + by apply (same_pod_inv w).
    + rewrite (sp_command _ _ S). by apply Ec.
    + by rewrite (sp_pod _ _ S).
    + by apply T.
    + by rewrite (ta_command _ _ T).
    + by rewrite (ta_pod _ _ T).
    + intros _. rewrite (ta_dom _ _ T Hi). symmetry. apply same_pools_names, same_pools_nodes, T.
    + apply (same_pod_inv _ _ S). by apply (pod_inv_same w).
    + rewrite (sp_command _ _ S). by apply Ec.
    + by rewrite (sp_pod _ _ S).
  - injection H as <-. rewrite Hrun in Hc. split; cbn; try done.
    + by apply (pod_inv_same w).
    + destruct c; cbn in *; try done. by right.
  - destruct (mon_effect _ _ _ _ _ _ H) as (M&S). eapply si_quiet; [by apply gave_up_same_pod| | |exact Inv].
    + intros _. by apply same_pod_table.
    + eapply (lock_move_inv TMonitor (holds (Sys w l n h c m r q))); [by intros []|exact M|exact Hl].
  - apply rot_effect in H. eapply si_quiet; [by apply gave_up_same_pod| |exact Hl|exact Inv].
    intros _. by apply same_pod_table.
  - apply zombie_effect in H. eapply si_quiet; [by apply gave_up_same_pod| |exact Hl|exact Inv].
    intros _. by apply same_pod_table.
  - apply tail_effect in H as (Q&T&_). eapply si_quiet; [exact Q|done|exact Hl|exact Inv].
  - destruct H as [l w w' H|w w' H].
    + injection H as <-. split; cbn; try done. by apply (pod_inv_same w).
    + destruct (release_all_effect E w w' H Hi) as (G&Hn&Ht). split; cbn.
      * by apply G.
      * by rewrite (qt_command _ _ (gu_quiet _ _ G)).
      * by rewrite (qt_shutdown _ _ (gu_quiet _ _ G)).
      * exact Hl.
      * intros _. rewrite Hn, Ht. by rewrite dom_empty_L.
  - eapply (si_quiet w); [by apply gave_up_same_pod; split| |exact Hl|exact Inv]. by intros _.
Qed.

Lemma starts_inv s : starts E s → sys_inv s.
Proof.
  intros [fuel args files w Hd]. destruct (main_start_ready E fuel args files w Hd). split; try done. by intros [].
Qed.

Lemma steps_inv s s' : rtc (step E) s s' → sys_inv s → sys_inv s'.
Proof. induction 1 as [s|s1 s2 s3 [t H12] _ IH]; [done|]. intros Hi. by eapply IH, tstep_inv. Qed.

Lemma reachable_inv s : reachable E s → sys_inv s.
Proof. intros (s0&Hs&Hr). by apply (steps_inv s0), starts_inv. Qed.

End facts.

(** ** The program implements its specification *)

(** The names whose logs are read by goroutines that were not told to stop, and
    by those that were. *)
Definition names_in (m : gmap nat string) : gset string := list_to_set (map_to_list m).*2.

Definition running_names (w : world) : gset string := names_in (watchers (tails w)).
Definition lingering_names (w : world) : gset string := names_in (lingering (tails w)).

Definition phase_of (q : main_pc) : phase :=
  match q with MainServing => Serving | MainReleasing => Stopping | MainDone => Stopped end.

Definition admitted (n : node_pc) : bool := match n with NodeIdle => false | _ => true end.

Definition view_of (w : world) (ph : phase) (b : bool) : pod_view :=
  View (all_names w) (dom (tailThreads (tails w))) (running_names w) (lingering_names w) (command w) ph b.

(** What is visible of a state of the program. *)
Definition view (s : system) : pod_view := view_of (state s) (phase_of (main_at s)) (admitted (node_at s)).

Lemma elem_of_names m x : x ∈ names_in m ↔ ∃ id, m !! id = Some x.
Proof.
  unfold names_in. rewrite elem_of_list_to_set, list_elem_of_fmap. split.
  - intros ([id y]&->&H). apply elem_of_map_to_list in H. by exists id.
  - intros [id H]. exists (id, x). by rewrite elem_of_map_to_list.
Qed.

Lemma names_sub m m' : m' ⊆ m → names_in m' ⊆ names_in m.
Proof. intros Hw x. rewrite !elem_of_names. intros [id H]. exists id. by eapply lookup_weaken. Qed.

Lemma names_empty : names_in ∅ = ∅.
Proof. unfold names_in. by rewrite map_to_list_empty. Qed.

Lemma running_tailed w : pod_inv w → running_names w ⊆ dom (tailThreads (tails w)).
Proof.
  intros Hi x. unfold running_names. rewrite elem_of_names. intros [id H]. apply (to_watcher _ (pi_tails _ Hi)) in H.
  by eapply elem_of_dom_2.
Qed.

Lemma view_of_ok w ph b : pod_inv w → view_ok (view_of w ph b).
Proof. intros Hi. split; [by apply running_tailed|apply Hi]. Qed.

(** The goroutines that are told to stop linger, under their names. *)
Lemma alive_lookup s id :
  alive s !! id = match watchers s !! id with Some x => Some x | None => lingering s !! id end.
Proof. unfold alive. rewrite lookup_union. by destruct (watchers s !! id), (lingering s !! id). Qed.

Lemma lingering_grows s s' : tails_ok s → tails_ok s' → watchers s' ⊆ watchers s → alive s' = alive s →
  names_in (lingering s') = names_in (lingering s) ∪ (names_in (watchers s) ∖ names_in (watchers s')).
Proof.
  intros Hok Hok' Hw Ha.
  assert (Hl : ∀ id, alive s' !! id = alive s !! id) by by rewrite Ha.
  assert (Hdead : ∀ id x, lingering s !! id = Some x → lingering s' !! id = Some x).
  { intros id x Hx. destruct (to_lingering _ Hok id x Hx) as [Hn _]. specialize (Hl id).
    rewrite !alive_lookup, Hn, Hx in Hl. destruct (watchers s' !! id) as [y|] eqn:Ey; [|done].
    by rewrite (lookup_weaken _ _ _ _ Ey Hw) in Hn. }
  apply set_eq. intros x. rewrite elem_of_union, elem_of_difference, !elem_of_names. split.
  - intros [id Hx]. destruct (to_lingering _ Hok' id x Hx) as [Hn _]. specialize (Hl id).
    rewrite !alive_lookup, Hn, Hx in Hl. destruct (watchers s !! id) as [y|] eqn:Ey; [|left; by exists id].
    injection Hl as <-. right. split; [by exists id|]. intros [id2 H2].
    assert (Heq : id = id2).
    { pose proof (to_watcher _ Hok _ _ Ey) as E1. pose proof (to_watcher _ Hok _ _ (lookup_weaken _ _ _ _ H2 Hw)) as E2.
      congruence. }
    congruence.
  - intros [[id Hx]|[[id Hx] Hno]]; [exists id; by apply Hdead|]. exists id. specialize (Hl id).
    rewrite !alive_lookup, Hx in Hl. destruct (watchers s' !! id) as [y|] eqn:Ey; [|done].
    injection Hl as ->. destruct Hno. by exists id.
Qed.

(** Giving up, and taking in an admitted change. *)
Lemma shrink_step w w' W ph b : pod_inv w → quiet w w' → kept_alive w w' → all_names w' ⊆ W →
  pstep (View W (dom (tailThreads (tails w))) (running_names w) (lingering_names w) (command w) ph b) (view_of w' ph b).
Proof.
  intros Hi Q A Hn. unfold view_of. rewrite (qt_command _ _ Q). pose proof (qt_inv _ _ Q Hi) as Hi'.
  assert (Hl : lingering_names w' = lingering_names w ∪ (running_names w ∖ running_names w')).
  { apply lingering_grows; [apply Hi|apply Hi'|apply Q|exact A]. }
  rewrite Hl. apply p_give; [done|apply Q|by apply names_sub, Q|by apply running_tailed|apply Hi'].
Qed.

Lemma give_step w w' ph b : pod_inv w → gave_up w w' → pstep (view_of w ph b) (view_of w' ph b).
Proof. intros Hi [Q Hn A]. by apply shrink_step. Qed.

Lemma same_step w w' ph b : pod_inv w → same_pod w w' → pstep (view_of w ph b) (view_of w' ph b).
Proof. intros Hi S. by apply give_step, gave_up_same_pod. Qed.

Lemma change_steps w w' ph : pod_inv w → quiet w w' → kept_alive w w' →
  rtc pstep (view_of w ph true) (view_of w' ph true).
Proof.
  intros Hi Q A. eapply rtc_l; [apply (p_take _ (all_names w ∪ all_names w')); set_solver|]. apply rtc_once.
  apply shrink_step; [done..|set_solver].
Qed.

(** A goroutine returns. *)
Lemma end_step w w' ph b : watch_ended w w' → pstep (view_of w ph b) (view_of w' ph b).
Proof.
  intros [Q En Et Hl]. unfold view_of.
  rewrite (qt_command _ _ Q), Et, (same_pools_names _ _ (same_pools_nodes _ _ En)).
  apply p_end; apply names_sub; [apply Q|done].
Qed.

Lemma tail_all_step w w' ph b : pod_inv w → tailed_all w w' → pstep (view_of w ph b) (view_of w' ph b).
Proof.
  intros Hi T. unfold view_of, lingering_names. pose proof (ta_inv _ _ T Hi) as Hi'.
  rewrite (ta_command _ _ T), (ta_dom _ _ T Hi), (ta_lingering _ _ T Hi),
    (same_pools_names _ _ (same_pools_nodes _ _ (ta_nodes _ _ T))).
  destruct (ta_watchers _ _ T Hi) as [Hw Hn]. apply p_tail.
  - by apply names_sub.
  - intros x [H1 H2]%elem_of_difference. apply elem_of_names. by apply Hn.
  - rewrite <- (ta_dom _ _ T Hi). by apply running_tailed.
Qed.

Section refinement.
Context (E : env) {Op : OperatorService} {OpS : OperatorServiceSpec Op}.

Lemma node_refines n l w n' l' w' ph :
  node_step E n l w n' l' w' → pod_inv w → (inShutdown (pod w) = false → ph = Serving) →
  rtc pstep (view_of w ph (admitted n)) (view_of w' ph (admitted n')).
Proof.
  intros H Hi Hph. destruct H as [l w H|w|l w w' H|l w w' H|l w H|l w H|l w w' H|l w w' H]; try reflexivity.
  - rewrite (Hph H). apply rtc_once, p_admit.
  - destruct (change_nodes_quiet E _ _ _ H) as [Q A]. by apply change_steps.
  - destruct (change_nodes_quiet E _ _ _ H) as [Q A]. eapply rtc_r; [by apply change_steps|]. apply p_finish.
  - apply signal_process_done in H as [_ S]. by apply rtc_once, same_step.
  - apply updateLogRotateConf_same in H. eapply rtc_l; [by apply same_step|]. apply rtc_once, p_finish.
Qed.

Lemma proc_view_step k w w' ph b : k = proc_next (command w) → same_pod (upd_command (λ _, k) w) w' →
  pstep (view_of w ph b) (view_of w' ph b).
Proof.
  intros -> S.
  assert (Hv : view_of w' ph b = View (all_names w) (dom (tailThreads (tails w))) (running_names w) (lingering_names w)
    (proc_next (command w)) ph b).
  { unfold view_of, running_names, lingering_names.
    by rewrite (same_pod_names _ _ S), (sp_threads _ _ S), (sp_watchers _ _ S), (sp_lingering _ _ S), (sp_command _ _ S). }
  rewrite Hv. apply p_proc.
Qed.

Lemma conman_refines c w c' w' ph b :
  conman_does c w c' w' → pod_inv w → fits c (command w) → pstep (view_of w ph b) (view_of w' ph b).
Proof.
  intros D Hi Hc. inversion D as [c0 w0 c1 w1 Ec Hn S|w0 w1 T|k c0 w0 c1 w1 Ec Hn S]; subst.
  - by apply same_step.
  - by apply tail_all_step.
  - apply (proc_view_step k); [by apply Ec|done].
Qed.

(** A line is read of a log that a goroutine reads, told to stop or not. *)
Lemma tail_refines w w' ph b : tail_step E w w' → pod_inv w → rtc pstep (view_of w ph b) (view_of w' ph b).
Proof.
  intros H Hi. assert (H' := H). destruct H as [id x text b0 w w' Hid H| | |].
  2-4: destruct (tail_effect E _ _ H') as (_&_&[G|D]); apply rtc_once; [by apply give_step|by apply end_step].
  eapply rtc_l; [|apply rtc_once, same_step; [done|by eapply watch_line_same]].
  apply (p_line x). rewrite alive_lookup in Hid. apply elem_of_union. unfold running_names, lingering_names.
  rewrite !elem_of_names. destruct (watchers (tails w) !! id) as [y|] eqn:Ey; [injection Hid as ->; left|right]; by exists id.
Qed.

Lemma tstep_refines t s s' : tstep E t s s' → sys_inv s → rtc pstep (view s) (view s').
Proof.
  destruct 1 as [w l n w' l' n' h c m r q H|w l h w' l' h' n c m r q H|w l c w' l' c' n h m r q H
    |w w' l n h c m r q Hrun H|w l m w' l' m' n h c r q H|w l r w' r' n h c m q H|w w' l n h c m r q H|w w' l n h c m r q H
    |w l q w' l' q' n h c m r H|w files l n h c m r q]; intros [Hi Hc Hs _ _];
    unfold view; cbn [state main_at node_at conman_at] in *.
  - apply (node_refines _ _ _ _ _ _ _ H Hi). rewrite Hs. by destruct q.
  - apply rtc_once, give_step; [done|]. by apply (heart_effect E _ _ _ _ _ _ H).
  - destruct (conman_effect E _ _ _ _ _ _ H) as (_&D&_). by eapply rtc_once, conman_refines.
  - injection H as <-. apply rtc_once, (proc_view_step CmdExited); [by rewrite Hrun|by split].
  - apply rtc_once, same_step; [done|]. by apply (mon_effect E _ _ _ _ _ _ H).
  - by eapply rtc_once, same_step, rot_effect.
  - by eapply rtc_once, same_step, zombie_effect.
  - by apply tail_refines.
  - destruct H as [l w w' H|w w' H].
    + injection H as <-. apply rtc_once, p_close.
    + destruct (release_all_effect E w w' H Hi) as (G&Hn&Ht). apply rtc_once.
      pose proof (qt_inv _ _ (gu_quiet _ _ G) Hi) as Hi'.
      assert (Hr : running_names w' = ∅).
      { unfold running_names. by rewrite (no_entries_no_watchers _ (pi_tails _ Hi') Ht), names_empty. }
      assert (Hl : lingering_names w' = lingering_names w ∪ running_names w).
      { transitivity (lingering_names w ∪ (running_names w ∖ running_names w')); [|rewrite Hr; set_solver].
        apply lingering_grows; [apply Hi|apply Hi'|apply G|apply (gu_alive _ _ G)]. }
      unfold view_of. rewrite Hn, Ht, Hr, Hl, dom_empty_L, (qt_command _ _ (gu_quiet _ _ G)). apply p_release.
  - by apply rtc_once, same_step.
Qed.

Lemma steps_refine s s' : rtc (step E) s s' → sys_inv s → rtc pstep (view s) (view s').
Proof.
  induction 1 as [s|s1 s2 s3 [t H12] _ IH]; [reflexivity|]. intros Hi.
  etrans; [by eapply tstep_refines|]. by eapply IH, tstep_inv.
Qed.

Lemma start_view s : starts E s → view s = view_start.
Proof.
  intros [fuel args files w Hd]. pose proof (main_start_ready E fuel args files w Hd) as R.
  unfold view, view_of, running_names, lingering_names. cbn.
  by rewrite (no_entries_no_watchers _ (pi_tails _ (rd_inv _ _ R)) (rd_threads _ _ R)), (rd_lingering _ _ R), names_empty,
    (rd_names _ _ R), (rd_threads _ _ R), (rd_command _ _ R), dom_empty_L.
Qed.

End refinement.

(** ** Properties *)

Section properties.
Context (E : env) {Op : OperatorService} {OpS : OperatorServiceSpec Op}.

(** C1: in every state the program can reach, whatever the other services, the
    files and the scheduler do: each watched node is stored under its own name
    in the map of its class; only watched nodes are in the table of tails; every
    tailing goroutine that was not told to stop reads the log of the node it is
    kept under, and those that were told to stop and still run are others; the
    process variable is what the place of its thread allows, so that a new
    process is created only when there is none; the shutdown flag is set
    exactly once the signal has arrived; the mutex is held by exactly the
    thread that is inside its critical section; and when a configuration waits
    for the keys exactly the watched nodes are tailed. *)
Theorem reachable_sys_inv s : reachable E s → sys_inv s.
Proof. exact (reachable_inv E s). Qed.

(** C2: the program implements the specification of a pod: it starts as the
    specified pod does, and every step it can make in a reachable state is,
    seen through [view], a sequence of steps the specification allows; a
    goroutine that is told to stop lingers, and may read, until it returns. *)
Theorem pod_refines_spec :
  (∀ s, starts E s → view s = view_start) ∧
  (∀ t s s', reachable E s → tstep E t s s' → rtc pstep (view s) (view s')).
Proof.
  split; [by apply start_view|]. intros t s s' Hr Hs. by eapply tstep_refines, reachable_inv.
Qed.

(** C5: after shutdown nothing comes back: once [main] has released the nodes
    while the node thread slept, then in every later state, whatever the other
    threads do, no node is watched, no log is in the table of tails, every
    goroutine that tails was told to stop, and the logs that one still reads,
    until it notices, are among those that were read at the release. *)
Theorem shutdown_is_final w w' h c m r s' :
  reachable E (Sys w None NodeIdle h c m r MainReleasing) → releaseAllNodes E w = Done () w' →
  rtc (step E) (Sys w' None NodeIdle h c m r MainDone) s' →
  all_names (state s') = ∅ ∧ tailThreads (tails (state s')) = ∅ ∧ watchers (tails (state s')) = ∅ ∧
  names_in (lingering (tails (state s'))) ⊆ names_in (alive (tails w)).
Proof.
  intros Hr Hd Hs. pose proof (reachable_inv E _ Hr) as Inv.
  assert (Inv' := tstep_inv E _ _ _ (by_main E _ _ _ _ _ _ _ _ _ _ _ (main_release E _ _ Hd)) Inv).
  destruct (release_all_effect E w w' Hd (si_pod _ Inv)) as (G&Hn&_).
  pose proof (steps_refine E _ _ Hs Inv') as Hv. pose proof (si_pod _ (steps_inv E _ _ Hs Inv')) as Hi.
  assert (Hl : lingering_names w' ⊆ names_in (alive (tails w))).
  { rewrite <- (gu_alive _ _ G). intros x. unfold lingering_names. rewrite !elem_of_names. intros [id Hx]. exists id.
    destruct (to_lingering _ (pi_tails _ (si_pod _ Inv')) id x Hx) as [Hw _]. cbn in Hw. by rewrite alive_lookup, Hw. }
  destruct (psteps_keep (gone (names_in (alive (tails w)))) (pstep_gone _) _ _ Hv) as (_&_&Hw&[H1 H2]&H3).
  { split; [done|]. split; [done|]. split; [done|]. split; [apply view_of_ok, Inv'|done]. }
  cbn in Hw, H1, H2, H3. split; [done|].
  assert (Ht : tailThreads (tails (state s')) = ∅) by (apply dom_empty_inv_L; set_solver). split; [done|].
  split; [|done]. by apply no_entries_no_watchers; [apply Hi|].
Qed.

(** C10: what the mutex protects: while a thread holds it, no step of another
    thread changes the nodes or the table of tails. *)
Theorem lock_protects t u s s' :
  reachable E s → lock s = Some t → tstep E u s s' → u ≠ t →
  nodes (state s') = nodes (state s) ∧ tailThreads (tails (state s')) = tailThreads (tails (state s)).
Proof.
  intros Hr Hl Hs Hu. assert (Inv := reachable_inv E _ Hr).
  assert (Hh : holds s u = false).
  { apply not_true_is_false. intros Hh. apply (si_lock _ Inv) in Hh. congruence. }
  destruct Hs as [w l n w' l' n' h c m r q H|w l h w' l' h' n c m r q H|w l c w' l' c' n h m r q H
    |w w' l n h c m r q Hrun H|w l m w' l' m' n h c r q H|w l r w' r' n h c m q H|w w' l n h c m r q H|w w' l n h c m r q H
    |w l q w' l' q' n h c m r H|w files l n h c m r q]; cbn in *.
  - apply (node_effect E) in H as (_&_&_&[S| ->]); [by apply same_pod_table|done].
  - apply (heart_effect E) in H as (_&_&[S| ->]); [by apply same_pod_table|done].
  - apply (conman_effect E) in H as (_&_&[S| ->]); [exact S|done].
  - by injection H as <-.
  - apply (mon_effect E) in H as [_ S]. by apply same_pod_table.
  - apply (rot_effect E) in H. by apply same_pod_table.
  - apply (zombie_effect E) in H. by apply same_pod_table.
  - apply (tail_effect E) in H as (_&T&_). exact T.
  - destruct H as [l w w' H|w w' H]; [by injection H as <-|done].
  - done.
Qed.

End properties.

(** C23: a restart of conmand can be lost: a node acquired after the configuration
    was written and before the process is created finds no process to signal,
    and then conmand runs, the node thread sleeps, the node is watched, and its
    name is nowhere in the configuration file, its log is not tailed, and no
    signal was ever sent. *)
Theorem lost_restart : ∃ s x f,
  reachable race_env s ∧ conman_at s = CmWait ∧ command (state s) = CmdRunning ∧ node_at s = NodeIdle ∧ lock s = None ∧
  x ∈ all_names (state s) ∧ x ∉ dom (tailThreads (tails (state s))) ∧
  fs (state s) !! confFile = Some f ∧ strIndex (content f) x = -1 ∧
  (∀ sg, EvSignal sg ∉ trace (state s)).
Proof.
  assert (Hx : existsb (λ x, match tailThreads (tails world4) !! x, fs world4 !! confFile with
      None, Some f => strIndex (content f) x =? -1 | _, _ => false end)
    (elements (all_names world4)) = true) by by vm_compute.
  apply existsb_exists in Hx as (x&Hin&Hd). apply list_elem_of_In in Hin.
  destruct (tailThreads (tails world4) !! x) eqn:Ht; [done|].
  destruct (fs world4 !! confFile) as [f|] eqn:Ef; [|done]. apply Z.eqb_eq in Hd.
  eexists _, x, f. split; [exact reach_lost|]. split; [done|]. split; [exact world4_running|]. split; [done|]. split; [done|].
  split; [by apply elem_of_elements|]. split; [by apply not_elem_of_dom|]. split; [exact Ef|]. split; [exact Hd|].
  assert (Hs : forallb (λ ev, match ev with EvSignal _ => false | _ => true end) (trace world4) = true) by by vm_compute.
  rewrite forallb_forall in Hs. intros sg Hin'. by apply list_elem_of_In, Hs in Hin'.
Qed.

(** C22: signalling conmand can bring the whole program down, in two ways that
    the test of [command] does not prevent: a heartbeat drops nodes while the
    command is created and not started, and its nil process is signalled; or
    the process ends and the variable is reset between the node thread's test,
    which saw a running process, and its use of the pointer. *)
Theorem signal_crashes :
  (∃ s w', reachable race_env s ∧ heart_at s = HeartSend ∧ conman_at s = CmStart ∧
     signal_process SIGTERM (state s) = Panic "nil pointer dereference" w') ∧
  (∃ s w', reachable race_env s ∧ node_at s = NodeSend ∧ lock s = Some TNode ∧ command (state s) = CmdNil ∧
     signal_process SIGTERM (state s) = Panic "nil pointer dereference" w').
Proof.
  split.
  - eexists _, world8. split; [exact reach_beat|]. split; [done|]. split; [done|].
    cbn [state beat_state]. unfold signal_process, mbind, M_bind, gets. by rewrite world8_created.
  - eexists _, _. split; [exact reach_use|]. by split_and!.
Qed.

(** The flag is checked before the lock is taken: a pass of the node thread
    that was waiting for the lock while [main] released all nodes takes new
    ones afterwards, when [main] has only to stop the server. *)
Theorem shutdown_race : ∃ s,
  reachable race_env s ∧ main_at s = MainDone ∧ all_names (state s) ≠ ∅.
Proof.
  eexists. split; [exact reach_after_shutdown|]. split; [done|]. cbn [state].
  pose proof world11_takes as H. unfold has_nodes in H. rewrite group_sizes in H.
  by apply negb_true_iff, bool_decide_eq_false in H.
Qed.

(** ** Witnesses *)

Lemma reachable_sys_inv_witness : sys_inv (start_system world0).
Proof. exact (reachable_sys_inv race_env (start_system world0) reach_start0). Defined.

Lemma pod_refines_spec_witness :
  view (start_system world0) = view_start ∧
  rtc pstep
    (view (Sys (with_command CmdExited world6) (Some TNode) NodeSend HeartIdle CmReset MonIdle RotStarting MainServing))
    (view (Sys (with_command CmdNil (with_command CmdExited world6)) (Some TNode) NodeSend HeartIdle (CmConfig false)
      MonIdle RotStarting MainServing)).
Proof.
  exact (conj (proj1 (pod_refines_spec race_env) _ (starts_main race_env _ _ _ _ run0))
    (proj2 (pod_refines_spec race_env) TConman _ _ reach_exited (reset_step race_env _ _ _ _ _ _ _))).
Defined.

Lemma shutdown_is_final_witness :
  all_names world17 = ∅ ∧ tailThreads (tails world17) = ∅ ∧ watchers (tails world17) = ∅ ∧
  names_in (lingering (tails world17)) ⊆ names_in (alive (tails world16)).
Proof.
  exact (shutdown_is_final race_env world16 world17 HeartIdle CmCreate MonIdle RotStarting _
    reach_stopping run17 (rtc_refl _ _)).
Defined.

(** The goroutine of the node's log was told to stop and may still read. *)
Example still_reading : lingering (tails world17) ≠ ∅.
Proof.
  assert (H : bool_decide (map_to_list (lingering (tails world17)) = []) = false) by by vm_compute.
  apply bool_decide_eq_false in H. intros He. apply H. by rewrite He, map_to_list_empty.
Qed.

Lemma lock_protects_witness :
  nodes (with_command CmdNil (with_command CmdExited world6)) = nodes (with_command CmdExited world6) ∧
  tailThreads (tails (with_command CmdNil (with_command CmdExited world6))) = tailThreads (tails (with_command CmdExited world6)).
Proof.
  exact (lock_protects race_env TNode TConman _ _ reach_exited eq_refl (reset_step race_env _ _ _ _ _ _ _) ltac:(done)).
Defined.
