(* ===== verification/Progress.v ===== *)
(** * Progress of the program: src/src/console_node/

    A thread that holds [currNodesMutex] gives it back: no thread waits for
    another one, or for itself, while it holds the lock.  It can wait for other
    services, whose requests have no timeout. *)

From S2P Require Import Prelude GoStrings Json World HttpUtils Operator Files LogAggregation.
From S2P Require Import DataService ConmanProc LogRotateConf Nodes Heartbeat.
From S2P Require Import PodSetup Creds ConmanConfig LogRotation Monitor Zombies Threads Main.
From S2P Require Import Ending Steps Runs System.
From Stdlib Require Import ZArith Lia.
From stdpp Require Import base numbers strings gmap sets list.

Local Open Scope Z_scope.

Section progress.
Context (E : env) {Op : OperatorService} {OpS : OperatorServiceSpec Op}.

(** ** The lock is given back *)

Definition panics {A} (m : M A) (w : world) : Prop := ∃ msg w', m w = Panic msg w'.

(** The next thing thread [t] does kills the program; [fuel] bounds the wait
    for the keys. *)
Definition crash (fuel : nat) (t : tid) (s : system) : Prop :=
  match t with
  | TNode => match node_at s with
    | NodeLocked => panics (change_nodes E) (state s)
    | NodeSend => panics (signal_process SIGTERM) (state s)
    | NodeConf => panics (updateLogRotateConf E) (state s)
    | _ => False end
  | THeart => match heart_at s with
    | HeartLocked => panics (exchange_heartbeat E) (state s)
    | HeartSend => panics (signal_process SIGTERM) (state s)
    | _ => False end
  | TConman => match conman_at s with
    | CmUpdate f => panics (updateConfigFile E f) (state s)
    | CmTail => panics (aggregate_all E) (state s)
    | CmKeys => panics (ensureMountainConsoleKeysPresent E fuel) (state s)
    | _ => False end
  | TMonitor => match mon_at s with
    | MonKeys => panics (ensureMountainConsoleKeysPresent E fuel) (state s)
    | _ => False end
  | _ => False
  end.

(** Thread [t] waits for vault: the key does not come within [fuel] tries. *)
Definition waits_for_keys (fuel : nat) (t : tid) (s : system) : Prop :=
  match t with TConman => conman_at s = CmKeys | TMonitor => mon_at s = MonKeys | _ => False end ∧
  ∃ w', ensureMountainConsoleKeysPresent E fuel (state s) = Stuck w'.

(** Thread [t] waits for another service: the request it makes never returns. *)
Definition hangs (t : tid) (s : system) : Prop :=
  match t with
  | TNode => node_at s = NodeLocked ∧ ∃ w', change_nodes E (state s) = Stuck w' ∧ hung w'
  | THeart => heart_at s = HeartLocked ∧ ∃ w', exchange_heartbeat E (state s) = Stuck w' ∧ hung w'
  | _ => False
  end.

(** The thread cannot go on. *)
Definition held_up (fuel : nat) (t : tid) (s : system) : Prop :=
  crash fuel t s ∨ waits_for_keys fuel t s ∨ hangs t s.

(** How far a thread is from leaving its critical section. *)
Definition to_go (t : tid) (s : system) : nat :=
  match t with
  | TNode => match node_at s with NodeLocked => 4 | NodeCheck => 3 | NodeSend => 2 | NodeConf => 1 | _ => 0 end
  | THeart => match heart_at s with HeartLocked => 3 | HeartCheck => 2 | HeartSend => 1 | _ => 0 end
  | TConman => match conman_at s with CmUpdate _ => 3 | CmTail => 2 | CmKeys => 1 | _ => 0 end
  | TMonitor => match mon_at s with MonKeys => 1 | _ => 0 end
  | _ => 0
  end%nat.

(** One step of the thread that holds the lock. *)
Definition advances (t : tid) (s : system) : Prop :=
  ∃ s', tstep E t s s' ∧ (lock s' = None ∨ lock s' = lock s ∧ (to_go t s' < to_go t s)%nat).

Lemma settled {A} (m : M A) w : settles true m →
  (∃ a w', m w = Done a w') ∨ panics m w ∨ ∃ w', m w = Stuck w' ∧ hung w'.
Proof. intros H. specialize (H w). unfold panics. destruct (m w); naive_solver. Qed.

Lemma ended {A} (m : M A) w : settles false m → (∃ a w', m w = Done a w') ∨ panics m w.
Proof. intros H. specialize (H w). unfold panics. destruct (m w); naive_solver. Qed.

Lemma node_advances fuel s : node_in (node_at s) = true → advances TNode s ∨ held_up fuel TNode s.
Proof.
  destruct s as [w l n h c m r q]. cbn. intros Hn. unfold advances, held_up.
  destruct n; try done; cbn.
  - destruct (settled (change_nodes E) w (settles_change_nodes E)) as [([]&w'&H)|[H|H]]; [left|left|tauto|tauto].
    + eexists. split; [by apply by_node, node_change|]. right. cbn. split; [done|lia].
    + eexists. split; [by apply by_node, node_keep|]. by left.
  - left. destruct (decide (command w = CmdNil)).
    + eexists. split; [by apply by_node, node_nil|]. right. cbn. split; [done|lia].
    + eexists. split; [by apply by_node, node_some|]. right. cbn. split; [done|lia].
  - destruct (ended (signal_process SIGTERM) w (settles_signal false SIGTERM)) as [([]&w'&H)|]; [left|tauto].
    eexists. split; [by apply by_node, node_send|]. right. cbn. split; [done|lia].
  - destruct (ended (updateLogRotateConf E) w (settles_updateLogRotateConf E false)) as [([]&w'&H)|]; [left|tauto].
    eexists. split; [by apply by_node, node_conf|]. by left.
Qed.

Lemma heart_advances fuel s : heart_in (heart_at s) = true → advances THeart s ∨ held_up fuel THeart s.
Proof.
  destruct s as [w l n h c m r q]. cbn. intros Hn. unfold advances, held_up.
  destruct h; try done; cbn.
  - destruct (settled (exchange_heartbeat E) w (settles_exchange_heartbeat E)) as [([]&w'&H)|[H|H]]; [left|left|tauto|tauto].
    + eexists. split; [by apply by_heart, heart_dropped|]. right. cbn. split; [done|lia].
    + eexists. split; [by apply by_heart, heart_kept|]. by left.
  - left. destruct (decide (command w = CmdNil)).
    + eexists. split; [by apply by_heart, heart_nil|]. by left.
    + eexists. split; [by apply by_heart, heart_some|]. right. cbn. split; [done|lia].
  - destruct (ended (signal_process SIGTERM) w (settles_signal false SIGTERM)) as [([]&w'&H)|]; [left|tauto].
    eexists. split; [by apply by_heart, heart_send|]. by left.
Qed.

Lemma conman_advances fuel s : conman_in (conman_at s) = true → advances TConman s ∨ held_up fuel TConman s.
Proof.
  destruct s as [w l n h c m r q]. cbn. intros Hn. unfold advances, held_up, waits_for_keys.
  destruct c as [|f| | | | | | |]; try done; cbn.
  - destruct (ended (updateConfigFile E f) w (settles_updateConfigFile E false f)) as [([]&w'&H)|]; [left|tauto].
    eexists. split; [by apply by_conman, conman_update|]. right. cbn. split; [done|lia].
  - destruct (ended (aggregate_all E) w (settles_aggregate_all E false)) as [([]&w'&H)|]; [left|tauto].
    eexists. split; [by apply by_conman, conman_tail|]. right. cbn. split; [done|lia].
  - destruct (ensureMountainConsoleKeysPresent E fuel w) as [b w'|msg w'|w'] eqn:H.
    + left. eexists. split; [by eapply by_conman, conman_keys|]. by left.
    + right. left. by exists msg, w'.
    + right. right. left. split; [done|by eexists].
Qed.

Lemma mon_advances fuel s : mon_in (mon_at s) = true → advances TMonitor s ∨ held_up fuel TMonitor s.
Proof.
  destruct s as [w l n h c m r q]. cbn. intros Hn. unfold advances, held_up, waits_for_keys. destruct m; try done. cbn.
  destruct (ensureMountainConsoleKeysPresent E fuel w) as [b w'|msg w'|w'] eqn:H.
  - left. eexists. split; [by eapply by_monitor, mon_keys|]. by left.
  - right. left. by exists msg, w'.
  - right. right. left. split; [done|by eexists].
Qed.

Lemma holder_advances fuel t s : sys_inv s → lock s = Some t → advances t s ∨ held_up fuel t s.
Proof.
  intros Hi Hl. apply (si_lock _ Hi) in Hl. destruct t; try done; cbn in Hl.
  - by apply node_advances.
  - by apply heart_advances.
  - by apply conman_advances.
  - by apply mon_advances.
Qed.

(** A step of [t] that keeps the mutex. *)
Definition stays (t : tid) (s s' : system) : Prop := tstep E t s s' ∧ lock s' = Some t.

Lemma holder_path fuel t k s : sys_inv s → lock s = Some t → (to_go t s ≤ k)%nat →
  (∃ s', bsteps (tstep E t) k s s' ∧ lock s' = None) ∨
  (∃ s', bsteps (stays t) k s s' ∧ lock s' = Some t ∧ held_up fuel t s').
Proof.
  revert s. induction k as [|k IH]; intros s Hi Hl Hk;
    (destruct (holder_advances fuel t s Hi Hl) as [(s1&Hs&Hn)|Hc];
      [|right; exists s; split; [constructor|done]]).
  - exfalso. apply (si_lock _ Hi) in Hl. destruct s as [w l n h c m r q], t; cbn in *; try done;
      [destruct n|destruct h|destruct c|destruct m]; cbn in *; (done || lia).
  - destruct Hn as [Hn|[He Hlt]]; [left; exists s1; split; [by eapply bsteps_l, bsteps_refl|done]|].
    rewrite Hl in He. destruct (IH s1) as [(s'&Hp&Hf)|(s'&Hp&Hf)]; [by eapply tstep_inv|done|lia|left|right];
      exists s'; (split; [|done]); eapply bsteps_l; try exact Hp; [done|by split].
Qed.

Lemma stays_steps t k s s' : bsteps (stays t) k s s' → bsteps (tstep E t) k s s'.
Proof. induction 1 as [|k s1 s2 s3 [H _] _ IH]; [constructor|by eapply bsteps_l]. Qed.

Lemma to_go_bound t s : (to_go t s ≤ 4)%nat.
Proof. destruct s as [w l n h c m r q], t; cbn; [destruct n|destruct h|destruct c| |destruct m|..]; lia. Qed.

(** ** Property *)

(** C6: no deadlock: whenever a thread holds the mutex, that thread alone, in at
    most four of its own steps and without waiting for any other thread,
    gives it back, unless it crashes, waits for vault to have the key of the
    Mountain consoles, or waits for a request that another service never
    answers: the client has no timeout. *)
Theorem lock_released fuel s t :
  reachable E s → lock s = Some t →
  ∃ s', bsteps (tstep E t) 4 s s' ∧
    (lock s' = None ∨ crash fuel t s' ∨ waits_for_keys fuel t s' ∨ hangs t s').
Proof.
  intros Hr Hl. destruct (holder_path fuel t 4 s (reachable_inv E _ Hr) Hl (to_go_bound t s))
    as [(s'&Hs&Hf)|(s'&Hs&_&Hf)]; exists s'; [tauto|]. split; [by apply stays_steps|by right].
Qed.

End progress.

(** ** Witness *)

Lemma lock_released_witness :
  ∃ s', bsteps (tstep race_env THeart) 4 beat_state s' ∧
    (lock s' = None ∨ crash race_env 1 THeart s' ∨ waits_for_keys race_env 1 THeart s' ∨ hangs race_env THeart s').
Proof. exact (lock_released race_env 1 beat_state THeart reach_beat eq_refl). Defined.
