(* ===== verification/Fairness.v ===== *)
(** * Fair executions: src/src/console_node/

    Infinite executions of the composed threads under a scheduler.  That a
    thread can give the mutex back on its own (Progress.v) becomes: it does,
    whatever the others do meanwhile, if the scheduler does not forget it. *)

From S2P Require Import Prelude World HttpUtils Operator Files LogAggregation.
From S2P Require Import ConmanProc Nodes Threads Main Ending Steps Runs System Progress.
From Stdlib Require Import ZArith Lia.
From stdpp Require Import base numbers strings gmap sets list.

Local Open Scope nat_scope.

Section fairness.
Context (E : env) {Op : OperatorService} {OpS : OperatorServiceSpec Op}.

(** An infinite execution: [who i] is the thread that makes step [i], if any. *)
Record execution (r : nat → system) (who : nat → option tid) : Prop := {
  ex_start : reachable E (r 0);
  ex_step : ∀ i, match who i with Some t => tstep E t (r i) (r (S i)) | None => r (S i) = r i end
}.

(** A thread that could always make a step makes one again. *)
Definition fair (r : nat → system) (who : nat → option tid) (t : tid) : Prop :=
  ∀ i, ∃ j, i ≤ j ∧ (who j = Some t ∨ ¬ ∃ s', tstep E t (r j) s').

(** ** One step *)

(** A step of another thread leaves the holder where it is. *)
Lemma other_step t u s s' : sys_inv s → lock s = Some t → tstep E u s s' → u ≠ t →
  lock s' = Some t ∧ to_go t s' = to_go t s.
Proof.
  intros Hi Hl Hs Hu. pose proof (tstep_inv E u s s' Hs Hi) as Hi'.
  assert (Hk : holds s' t = holds s t ∧ to_go t s' = to_go t s).
  { destruct Hs; destruct t; try done; by destruct Hu. }
  destruct Hk as [Hh Hg]. split; [|done]. apply (si_lock _ Hi'). rewrite Hh. by apply (si_lock _ Hi).
Qed.

(** A step of the holder gives the mutex back or brings it closer. *)
Lemma own_step t s s' : sys_inv s → lock s = Some t → tstep E t s s' →
  lock s' = None ∨ lock s' = Some t ∧ to_go t s' < to_go t s.
Proof.
  intros Hi Hl Hs. assert (Hh := Hl). apply (si_lock _ Hi) in Hh.
  destruct Hs as [w l n w' l' n' h c m r q H|w l h w' l' h' n c m r q H|w l c w' l' c' n h m r q H
    |w w' l n h c m r q Hrun H|w l m w' l' m' n h c r q H|w l r w' r' n h c m q H|w w' l n h c m r q H|w w' l n h c m r q H
    |w l q w' l' q' n h c m r H|w files l n h c m r q]; cbn in *; try done.
  - destruct H; try done; subst; cbn; auto with lia.
  - destruct H; try done; subst; cbn; auto with lia.
  - destruct H; try done; subst; cbn; auto with lia.
  - destruct H; try done; subst; cbn; auto with lia.
Qed.

(** ** Executions *)

Context (r : nat → system) (who : nat → option tid) (Hex : execution r who).

Lemma execution_reachable i : reachable E (r i).
Proof.
  induction i as [|i IH]; [apply Hex|]. pose proof (ex_step _ _ Hex i) as Hs. destruct (who i) as [t|].
  - by apply (reach_step E t (r i)).
  - by rewrite Hs.
Qed.

Lemma execution_inv i : sys_inv (r i).
Proof. exact (reachable_inv E _ (execution_reachable i)). Qed.

(** Until its next step the holder stays where it is. *)
Lemma holder_waits t i d : lock (r i) = Some t →
  (lock (r (i + d)) = Some t ∧ to_go t (r (i + d)) = to_go t (r i)) ∨
  ∃ k, i ≤ k ∧ who k = Some t ∧ lock (r k) = Some t ∧ to_go t (r k) = to_go t (r i).
Proof.
  intros Hl. induction d as [|d [[IHl IHg]|IH]]; [rewrite Nat.add_0_r; by left| |by right].
  rewrite Nat.add_succ_r. pose proof (ex_step _ _ Hex (i + d)) as Hs. destruct (who (i + d)) as [u|] eqn:Eu.
  - destruct (decide (u = t)) as [->|Hu]; [right; exists (i + d); split_and!; [lia|done..]|].
    destruct (other_step t u _ _ (execution_inv _) IHl Hs Hu) as [Hl' Hg']. left. split; [done|congruence].
  - rewrite Hs. by left.
Qed.

Context (t : tid) (Hfair : fair r who t).

(** The holder comes to its next step. *)
Lemma holder_moves i : lock (r i) = Some t →
  (∀ j, i ≤ j → ∃ fuel, ¬ crash E fuel t (r j) ∧ ¬ waits_for_keys E fuel t (r j) ∧ ¬ hangs E t (r j)) →
  ∃ k, i ≤ k ∧ who k = Some t ∧ lock (r k) = Some t ∧ to_go t (r k) = to_go t (r i).
Proof.
  intros Hl Hok. destruct (Hfair i) as (j&Hj&Hw). destruct (holder_waits t i (j - i) Hl) as [[Hlj Hgj]|H]; [|done].
  replace (i + (j - i)) with j in Hlj, Hgj by lia. destruct Hw as [Hw|Hw]; [by exists j|].
  destruct (Hok j Hj) as (fuel&Hc&Hk&Hg). exfalso. apply Hw.
  destruct (holder_advances E fuel t (r j) (execution_inv j) Hlj) as [(s'&Hs&_)|[?|[?|?]]]; [by exists s'|done..].
Qed.

Lemma eventually_free n i : to_go t (r i) ≤ n → lock (r i) = Some t →
  (∀ j, i ≤ j → ∃ fuel, ¬ crash E fuel t (r j) ∧ ¬ waits_for_keys E fuel t (r j) ∧ ¬ hangs E t (r j)) →
  ∃ j, i ≤ j ∧ lock (r j) = None.
Proof.
  revert i. induction n as [|n IH]; intros i Hn Hl Hok; destruct (holder_moves i Hl Hok) as (k&Hk&Hw&Hlk&Hg);
    pose proof (ex_step _ _ Hex k) as Hs; rewrite Hw in Hs;
    destruct (own_step t _ _ (execution_inv k) Hlk Hs) as [Hf|[Hl' Hlt]]; try (exists (S k); split; [lia|done]).
  - lia.
  - destruct (IH (S k)) as (j&Hj&Hf); [lia|done|intros j Hj; apply Hok; lia|]. exists j. split; [lia|done].
Qed.

End fairness.

(** ** Property *)

(** C7: no starvation of the mutex: in every infinite execution of the program,
    a thread that holds the mutex does give it back, whatever the other
    threads do in between, if the scheduler treats it fairly, and unless it
    crashes, vault never has the key it waits for, or another service never
    answers its request. *)
Theorem fair_release (E : env) (Op : OperatorService) (OpS : OperatorServiceSpec Op) r who t i :
  execution E r who → fair E r who t → lock (r i) = Some t →
  (∀ j, i ≤ j → ∃ fuel, ¬ crash E fuel t (r j) ∧ ¬ waits_for_keys E fuel t (r j) ∧ ¬ hangs E t (r j)) →
  ∃ j, i ≤ j ∧ lock (r j) = None.
Proof. intros Hex Hf Hl Hok. by apply (eventually_free E r who Hex t Hf (to_go t (r i)) i). Qed.

(** ** Witness *)

(** The signal arrives, then the node thread goes on: it signals a process that
    has ended, writes the rotation file, gives the mutex back and never starts
    another pass. *)
Definition stopped_state : system :=
  Sys world13 None NodeIdle HeartIdle CmReset MonIdle RotStarting MainReleasing.

Definition stopping_run (i : nat) : system :=
  match i with
  | 0 => exited_state
  | 1 => Sys world12 (Some TNode) NodeSend HeartIdle CmReset MonIdle RotStarting MainReleasing
  | 2 => Sys world12 (Some TNode) NodeConf HeartIdle CmReset MonIdle RotStarting MainReleasing
  | _ => stopped_state
  end.

Definition stopping_who (i : nat) : option tid :=
  match i with 0 => Some TMain | 1 | 2 => Some TNode | _ => None end.

Lemma world12_signal : signal_process SIGTERM world12 = Done () world12.
Proof. reflexivity. Qed.

Lemma stopped_flag : inShutdown (pod (state stopped_state)) = true.
Proof. by vm_compute. Qed.

Lemma stopping_execution : execution race_env stopping_run stopping_who.
Proof.
  split; [exact reach_exited|]. intros [|[|[|i]]]; cbn [stopping_who stopping_run].
  - exact (by_main race_env _ _ _ _ _ _ _ _ _ _ _ (main_signal race_env _ _ _ run12)).
  - exact (by_node race_env _ _ _ _ _ _ _ _ _ _ _ (node_send race_env _ _ _ world12_signal)).
  - exact (by_node race_env _ _ _ _ _ _ _ _ _ _ _ (node_conf race_env _ _ _ run13)).
  - done.
Qed.

(** A node thread that sleeps in a pod that shuts down makes no step. *)
Lemma node_stopped E {Op : OperatorService} s s' :
  node_at s = NodeIdle → inShutdown (pod (state s)) = true → ¬ tstep E TNode s s'.
Proof.
  intros Hn Hf Hs. remember TNode as t. destruct Hs as [w l n w' l' n' h c m r q H| | | | | | | | |]; try done.
  cbn in *. subst n. inversion H as [l1 w1 Hf'| | | | | | |]; congruence.
Qed.

Lemma stopping_fair : fair race_env stopping_run stopping_who TNode.
Proof.
  intros i. exists (3 + i). split; [lia|]. right. intros [s' Hs].
  exact (node_stopped race_env stopped_state s' eq_refl stopped_flag Hs).
Qed.

Lemma stopping_safe j : ∃ fuel, ¬ crash race_env fuel TNode (stopping_run j) ∧
  ¬ waits_for_keys race_env fuel TNode (stopping_run j) ∧ ¬ hangs race_env TNode (stopping_run j).
Proof.
  exists 0. split; [|split; [by intros [? _]|by destruct j as [|[|[|j]]]; intros [? _]]]. destruct j as [|[|[|j]]]; cbn [stopping_run crash exited_state stopped_state node_at state].
  - by intros (msg&w'&H).
  - intros (msg&w'&H). by rewrite world12_signal in H.
  - intros (msg&w'&H). by rewrite run13 in H.
  - by intros [].
Qed.

Lemma fair_release_witness : ∃ j, 0 ≤ j ∧ lock (stopping_run j) = None.
Proof.
  exact (fair_release race_env _ _ stopping_run stopping_who TNode 0 stopping_execution stopping_fair eq_refl
    (λ j _, stopping_safe j)).
Defined.
