(* ===== verification/Process.v ===== *)
(** * The process: src/src/console_node/consoleNodeMain.go

    The threads of Steps.v together with the API server of Server.v, and the
    two ends of the process: after the nodes are released [main] shuts the
    server down, waits for the requests that are being answered, and returns,
    whatever the other threads are doing; or a goroutine panics, which ends
    the process at once. *)

From S2P Require Import Prelude GoStrings World HttpUtils Operator Files LogAggregation DataService.
From S2P Require Import ConmanProc Nodes NodesFacts Heartbeat PodSetup ConmanConfig LogRotation Monitor Zombies Threads.
From S2P Require Import Main Health Server ConmanProps Ending Steps Runs System Progress Fairness Demo.
From Stdlib Require Import ZArith Lia.
From stdpp Require Import base numbers strings gmap sets list relations.

(** [main] has not returned and nobody has panicked; it returned; somebody did. *)
Inductive life := Running | Returned | Crashed.

Record process := Proc {
  threads : system;
  api : server;
  fate : life
}.

(** Who makes a step: a thread, the server, the end of [main], a panic. *)
Inductive actor := Thread (t : tid) | Serve | Exit | Panicking.

Section process.
Context (E : env) {Op : OperatorService} (detect : string → string).
Context (other : string → ResponseWriter → string → ResponseWriter).

(** Some goroutine can panic next. *)
Inductive panics_in (s : system) : Prop :=
| dies_inside fuel t : crash E fuel t s → panics_in s (** in a critical section *)
| dies_passwords k : mon_at s = MonPasswords k → lock s = None →
    panics (checkIfRiverPasswordsChanged E) (state s) → panics_in s
| dies_files b ns : mon_at s = MonFiles b ns → panics (check_permissions E ns) (state s) → panics_in s
| dies_monitor : mon_at s = MonSend → panics (signal_process SIGTERM) (state s) → panics_in s
| dies_stamps : rot_at s = RotStarting → panics (readLogRotTimestamps E ∅) (state s) → panics_in s
| dies_rotation st : rot_at s = RotIdle st → logRotEnabled (rot (state s)) = true →
    panics (detect_rotation E st) (state s) → panics_in s
| dies_hup st agg : rot_at s = RotSend st agg → panics (signal_process SIGHUP) (state s) → panics_in s
| dies_respin st agg : rot_at s = RotRespin st agg → panics (respin_if E agg) (state s) → panics_in s
| dies_start : conman_at s = CmStart → panics_in s (** a pipe or the start of conmand fails *)
| dies_tail id x : alive (tails (state s)) !! id = Some x → panics (watch_loop x [TailClosed]) (state s) →
    panics_in s (** the tail library closes the channel *)
| dies_release : main_at s = MainReleasing → lock s = None → panics (releaseAllNodes E) (state s) → panics_in s.

Inductive proc_by : actor → process → process → Prop :=
| ps_thread t s s' a : tstep E t s s' → proc_by (Thread t) (Proc s a Running) (Proc s' a Running)
| ps_api s a a' : srv_step detect other (state s) a a' → proc_by Serve (Proc s a Running) (Proc s a' Running)
| ps_shutdown s a : main_at s = MainDone → srv_closing a = false →
    proc_by Exit (Proc s a Running) (Proc s (Shutdown a) Running)
| ps_return s a : main_at s = MainDone → srv_closing a = true → srv_conns a = ∅ →
    proc_by Exit (Proc s a Running) (Proc s a Returned)
| ps_panic s a : panics_in s → proc_by Panicking (Proc s a Running) (Proc s a Crashed).

Definition proc_step (p p' : process) : Prop := ∃ x, proc_by x p p'.

(** The process when [main] has started its threads. *)
Inductive proc_starts : process → Prop :=
| proc_starts_main s : starts E s → proc_starts (Proc s srv_start Running).

Definition proc_reachable (p : process) : Prop := ∃ p0, proc_starts p0 ∧ rtc proc_step p0 p.

(** Steps of some actors only. *)
Definition steps_of (who : actor → Prop) (p p' : process) : Prop := ∃ x, who x ∧ proc_by x p p'.

(** ** Lemmas *)

Lemma proc_step_threads p p' : proc_step p p' → reachable E (threads p) → reachable E (threads p').
Proof. intros [x H]. destruct H as [t s s' a H| | | |]; try done. intros Hr. by eapply reach_step. Qed.

Lemma proc_reachable_threads p : proc_reachable p → reachable E (threads p).
Proof.
  intros (p0&[s Hs]&Hr). assert (H0 : reachable E (threads (Proc s srv_start Running))) by by exists s.
  clear Hs. induction Hr as [p|p1 p2 p3 H12 _ IH]; [done|]. by eapply IH, proc_step_threads.
Qed.

Lemma proc_steps p p' : proc_reachable p → rtc proc_step p p' → proc_reachable p'.
Proof. intros (p0&H0&Hr) Hs. exists p0. split; [done|]. by etrans. Qed.

(** What the threads can reach, the process can, before its server runs. *)
Lemma threads_reach s : reachable E s → proc_reachable (Proc s srv_start Running).
Proof.
  intros (s0&H0&Hr). exists (Proc s0 srv_start Running). split; [by constructor|].
  apply (rtc_congruence (λ s, Proc s srv_start Running) (R := step E)); [|exact Hr].
  intros x y [t Hs]. exists (Thread t). by eapply ps_thread.
Qed.

Lemma returned_main p : proc_reachable p → fate p = Returned → main_at (threads p) = MainDone.
Proof.
  intros (p0&Hs&Hr). assert (H0 : fate p0 = Returned → main_at (threads p0) = MainDone) by by destruct Hs.
  clear Hs. induction Hr as [p|p1 p2 p3 [x H12] _ IH]; [done|]. apply IH. by destruct H12.
Qed.

(** *** Paths *)

Lemma threads_path (who : actor → Prop) t n s s' a : who (Thread t) → bsteps (tstep E t) n s s' →
  bsteps (steps_of who) n (Proc s a Running) (Proc s' a Running).
Proof.
  intros Hw H. eapply (bsteps_congruence (λ s, Proc s a Running)); [|exact H].
  intros x y Hs. exists (Thread t). split; [done|]. by eapply ps_thread.
Qed.

Lemma api_path (who : actor → Prop) s n a a' : who Serve → bsteps (srv_step detect other (state s)) n a a' →
  bsteps (steps_of who) n (Proc s a Running) (Proc s a' Running).
Proof.
  intros Hw H. eapply (bsteps_congruence (λ a, Proc s a Running)); [|exact H].
  intros x y Hs. exists Serve. split; [done|]. by apply ps_api.
Qed.

(** A pod that released its nodes can end, one step for each connection and two
    of [main]. *)
Lemma exit_path (who : actor → Prop) s a : who Serve → who Exit → main_at s = MainDone → ∃ a',
  bsteps (steps_of who) (size (srv_conns a) + 2) (Proc s a Running) (Proc s a' Returned).
Proof.
  intros Hw Hx Hm.
  assert (Go : ∀ l m rq an, ∃ a', bsteps (steps_of who) (size m + 1) (Proc s (Server l true m rq an) Running) (Proc s a' Returned)).
  { intros l m rq an. destruct (srv_drains detect other (state s) l m rq an) as [an' Hd].
    exists (Server l true ∅ rq an'). eapply bsteps_trans; [by apply api_path|]. apply bsteps_once. exists Exit.
    split; [done|]. by apply ps_return. }
  destruct a as [l b m rq an]. destruct (Go l m rq an) as [a' Hp]. exists a'. cbn [srv_conns].
  destruct b; [apply (bsteps_weaken (size m + 1)); [lia|done]|].
  replace (size m + 2)%nat with (S (size m + 1)) by lia. eapply bsteps_l; [|exact Hp].
  exists Exit. split; [done|]. by apply (ps_shutdown s (Server l false m rq an)).
Qed.

(** No other thread decides about the end of [main]. *)
Lemma tstep_main t s s' : tstep E t s s' → t ≠ TMain → main_at s' = main_at s.
Proof. by destruct 1. Qed.

Lemma bsteps_main t n s s' : bsteps (tstep E t) n s s' → t ≠ TMain → main_at s' = main_at s.
Proof.
  intros H Ht. induction H as [|n s1 s2 s3 H12 _ IH]; [done|]. by rewrite IH, (tstep_main t s1 s2).
Qed.

(** The release ends, or its request never returns. *)
Lemma release_ends : ends_or_hangs (releaseAllNodes E).
Proof.
  assert (Hg : ∀ m rn, ends_or_hangs (stop_group E m rn)) by (intros m rn; apply ends_total; intros w; by apply wp_stop_group).
  unfold releaseAllNodes. apply ends_bind; [done|]. intros w. apply ends_bind; [apply Hg|]. intros rn1.
  apply ends_bind; [apply Hg|]. intros rn2. apply ends_bind; [apply Hg|]. intros rn.
  apply ends_bind; [done|]. intros _. unfold releaseNodes. apply ends_bind; [done|]. intros loc.
  apply ends_bind; [|done]. apply postURL_ends.
Qed.

Definition release_hangs (s : system) : Prop :=
  main_at s = MainReleasing ∧ lock s = None ∧ ∃ w', releaseAllNodes E (state s) = Stuck w' ∧ hung w'.

(** A pass whose first request is not answered does not end. *)
Lemma change_nodes_blocked w b w' :
  (∀ n, http_do E n (get_request (dataAddrBase +:+ "/activepods")) = None) → change_nodes E w ≠ Done b w'.
Proof.
  intros Hno H. apply bind_done in H as (d&w1&H&_). apply bind_done in H as ([]&w2&_&H).
  apply bind_done in H as (w3&w4&[= <- <-]&H). apply bind_done in H as (pods&w5&H&_).
  apply bind_done in H as (r&w6&H&_). apply bind_done in H as (hs&w7&[= <- <-]&H).
  apply bind_done in H as (o&w8&H&_). destruct (do_request_hangs E _ w2 (Hno (tick w2))) as (w9&Hs&_).
  unfold get_request in Hs. congruence.
Qed.

Context {OpS : OperatorServiceSpec Op}.

Lemma blocked_step t s s' :
  (∀ n, http_do E n (get_request (dataAddrBase +:+ "/activepods")) = None) →
  reachable E s → tstep E t s s' → node_at s = NodeLocked → main_at s ≠ MainDone →
  node_at s' = NodeLocked ∧ main_at s' ≠ MainDone.
Proof.
  intros Hno Hr Hs Hn Hm. assert (Hl : lock s = Some TNode).
  { apply (si_lock _ (reachable_inv E _ Hr)). cbn. by rewrite Hn. }
  destruct Hs as [w l n w' l' n' h c m r q H|w l h w' l' h' n c m r q H|w l c w' l' c' n h m r q H
    |w w' l n h c m r q Hrun H|w l m w' l' m' n h c r q H|w l r w' r' n h c m q H|w w' l n h c m r q H|w w' l n h c m r q H
    |w l q w' l' q' n h c m r H|w files l n h c m r q]; cbn in *; try done; subst.
  - inversion H; subst; by destruct (change_nodes_blocked _ _ _ Hno ltac:(eassumption)).
  - by inversion H; subst.
Qed.

(** With the mutex free, [main] releases the nodes. *)
Lemma release_path s : main_at s = MainReleasing → lock s = None → reachable E s →
  release_hangs s ∨ ∃ s', tstep E TMain s s' ∧ main_at s' = MainDone ∧ all_names (state s') = ∅.
Proof.
  destruct s as [w l n h c m r q]. unfold release_hangs. cbn. intros -> -> Hr.
  pose proof (si_pod _ (reachable_inv E _ Hr)) as Hi. cbn in Hi. pose proof (release_ends w) as He.
  destruct (releaseAllNodes E w) as [[] w'|msg w'|w'] eqn:Ed; [right|done|left; by eauto].
  exists (Sys w' None n h c m r MainDone). split; [by apply by_main, main_release|]. split; [done|].
  by apply (release_all_effect E w).
Qed.

End process.

(** ** Properties *)

Section properties.
Context (E : env) (Op : OperatorService) (OpS : OperatorServiceSpec Op) (detect : string → string).
Context (other : string → ResponseWriter → string → ResponseWriter).

(** Who takes part in the end of a process: its server, [main], and the thread
    that holds the mutex when the signal has arrived. *)
Definition takes_part (s : system) (x : actor) : Prop :=
  x = Serve ∨ x = Exit ∨ x = Thread TMain ∨ ∃ t, lock s = Some t ∧ x = Thread t.

(** C8: the process can end by itself: once the signal has arrived, from every
    reachable state the holder of the mutex, [main] and the server alone bring
    it to an end, in one step for each connection and seven more: the holder
    gives the mutex back, [main] releases the nodes, the requests in progress
    are answered and [main] returns, with nothing watched if the release was
    still to come.  The exceptions are the holder's, which crashes or waits for
    another service inside the critical section it was in, and the release
    request's, which may never return. *)
Theorem process_exits fuel p :
  proc_reachable E detect other p → main_at (threads p) ≠ MainServing → fate p = Running →
  (∃ p', bsteps (steps_of E detect other (takes_part (threads p))) (size (srv_conns (api p)) + 7) p p' ∧
     fate p' = Returned ∧ main_at (threads p') = MainDone ∧
     (main_at (threads p) = MainReleasing → all_names (state (threads p')) = ∅)) ∨
  (∃ t s, lock (threads p) = Some t ∧ bsteps (stays E t) 4 (threads p) s ∧
     (crash E fuel t s ∨ waits_for_keys E fuel t s ∨ hangs E t s)) ∨
  (∃ s, (s = threads p ∨ ∃ t, lock (threads p) = Some t ∧ bsteps (tstep E t) 4 (threads p) s) ∧ release_hangs E s).
Proof.
  destruct p as [s a x]. cbn. intros Hp Hm ->. pose proof (proc_reachable_threads E detect other _ Hp) as Hr. cbn in Hr.
  assert (Fin : ∀ n s1, bsteps (steps_of E detect other (takes_part s)) n (Proc s a Running) (Proc s1 a Running) →
    (n ≤ 5)%nat → main_at s1 = MainDone → ∃ a',
    bsteps (steps_of E detect other (takes_part s)) (size (srv_conns a) + 7) (Proc s a Running) (Proc s1 a' Returned)).
  { intros n s1 Hs Hn Hd. destruct (exit_path E detect other (takes_part s) s1 a) as [a' He];
      [by left|by right; left|done|]. exists a'.
    apply (bsteps_weaken (n + (size (srv_conns a) + 2))); [lia|]. by eapply bsteps_trans. }
  destruct (main_at s) eqn:Em; [done| |].
  2: { destruct (Fin 0%nat s) as [a' Hf]; [apply bsteps_refl|lia|done|]. left. by exists (Proc s a' Returned). }
  assert (Rel : ∀ k s1, bsteps (steps_of E detect other (takes_part s)) k (Proc s a Running) (Proc s1 a Running) →
    (k ≤ 4)%nat → lock s1 = None → main_at s1 = MainReleasing → reachable E s1 →
    release_hangs E s1 ∨ ∃ p', bsteps (steps_of E detect other (takes_part s)) (size (srv_conns a) + 7) (Proc s a Running) p' ∧
      fate p' = Returned ∧ main_at (threads p') = MainDone ∧ (MainReleasing = MainReleasing → all_names (state (threads p')) = ∅)).
  { intros k s1 Hs Hk Hl Hm1 Hr1. destruct (release_path E s1 Hm1 Hl Hr1) as [Hh|(s2&H2&Hd&Hn)]; [by left|right].
    destruct (Fin (S k) s2) as [a' Hf]; [|lia|done|by exists (Proc s2 a' Returned)].
    eapply bsteps_r; [exact Hs|]. exists (Thread TMain). split; [by right; right; left|by apply ps_thread]. }
  destruct (lock s) as [t|] eqn:El.
  2: { destruct (Rel 0%nat s) as [Hh|Hp']; [apply bsteps_refl|lia|done..|right; right; exists s; tauto|by left]. }
  assert (Inv := reachable_inv E s Hr). assert (Ht : t ≠ TMain) by (intros ->; by apply (si_lock _ Inv) in El).
  destruct (holder_path E fuel t 4 s Inv El (to_go_bound t s)) as [(s1&Hs&Hl)|(s1&Hs&_&Hf)].
  2: { right. left. by exists t, s1. }
  destruct (Rel 4%nat s1) as [Hh|Hp'].
  - apply (threads_path E detect other _ t); [|done]. right. right. right. by exists t.
  - lia.
  - done.
  - by rewrite (bsteps_main E t 4 s s1).
  - apply (reach_steps E s); [done|]. apply rtc_bsteps_2 in Hs. eapply rtc_subrel; [|exact Hs]. intros u v Huv. by exists t.
  - right. right. exists s1. split; [right; by exists t|done].
  - by left.
Qed.

(** C25: a service that does not answer blocks the pod: if console-data never
    answers the first request of a pass of the node thread, which is made with
    the mutex held, then after the signal to stop the mutex is never given
    back, no heartbeat is sent, and neither does [main] release the nodes nor
    does the process return, whatever else happens. *)
Theorem hung_service_blocks p p' :
  (∀ n, http_do E n (get_request (dataAddrBase +:+ "/activepods")) = None) →
  proc_reachable E detect other p → node_at (threads p) = NodeLocked → main_at (threads p) ≠ MainDone →
  rtc (proc_step E detect other) p p' →
  lock (threads p') = Some TNode ∧ heart_at (threads p') = HeartIdle ∧ main_at (threads p') ≠ MainDone ∧ fate p' ≠ Returned.
Proof.
  intros Hno Hp Hn Hm Hs. pose proof (proc_reachable_threads E detect other _ Hp) as Hr.
  assert (Hk : reachable E (threads p') ∧ node_at (threads p') = NodeLocked ∧ main_at (threads p') ≠ MainDone ∧
    (fate p' = Returned → fate p = Returned)).
  { clear Hp. induction Hs as [p|p1 p2 p3 H12 _ IH]; [done|].
    assert (H2 : node_at (threads p2) = NodeLocked ∧ main_at (threads p2) ≠ MainDone ∧ (fate p2 = Returned → fate p1 = Returned)).
    { destruct H12 as [x H12]. destruct H12 as [t s s' a H|s a a' H|s a H1 H2|s a H1 H2 H3|s a H]; cbn in *; try done.
      split; [|split; [|done]]; by apply (blocked_step E t s s'). }
    destruct H2 as (H2&H3&H4). destruct IH as (I1&I2&I3&I4); [done|done|by eapply proc_step_threads|].
    split_and!; auto. }
  destruct Hk as (Hr'&Hn'&Hm'&_). assert (Hl : lock (threads p') = Some TNode).
  { apply (si_lock _ (reachable_inv E _ Hr')). cbn. by rewrite Hn'. }
  split; [done|]. split; [|split; [done|]].
  - assert (Hh : holds (threads p') THeart ≠ true).
    { intros Hh. apply (si_lock _ (reachable_inv E _ Hr')) in Hh. congruence. }
    cbn in Hh. by destruct (heart_at (threads p')).
  - intros Hf. apply Hm'. by apply (returned_main E detect other p'); [apply (proc_steps E detect other p)|].
Qed.

End properties.

(** The multiplexer's answer for other paths, and the detected type, for the
    executions below. *)
Definition not_found (path : string) (rw : ResponseWriter) (rq : string) : ResponseWriter := WriteHeader 404 rw.
Definition plain (s : string) : string := "text/plain; charset=utf-8".

Lemma has_nodes_names w : has_nodes w = true → all_names w ≠ ∅.
Proof. intros H. unfold has_nodes in H. rewrite group_sizes in H. by apply negb_true_iff, bool_decide_eq_false in H. Qed.

(** C24: the process can end with nodes that it took and never gave back: the node
    thread, past its test of the flag, waits for the lock while [main] releases
    all nodes, acquires new ones, and [main] returns. *)
Theorem exit_with_nodes : ∃ p,
  proc_reachable race_env plain not_found p ∧ fate p = Returned ∧ all_names (state (threads p)) ≠ ∅.
Proof.
  pose proof (threads_reach race_env plain not_found _ reach_after_shutdown) as Hp.
  exists (Proc (Sys world11 None NodeIdle HeartIdle (CmConfig true) MonIdle RotStarting MainDone) (Shutdown srv_start) Returned).
  split; [|split; [done|exact (has_nodes_names _ world11_takes)]]. apply (proc_steps _ _ _ _ _ Hp).
  eapply rtc_l; [exists Exit; by apply ps_shutdown|]. apply rtc_once. exists Exit. by apply ps_return.
Qed.

(** C26: a panic ends the process at once, with nodes that it never gives back: a
    heartbeat drops a node while conmand is created and not started, signals
    a process that is not there, and the process is gone while it watches
    another node and [main] still waits for a signal. *)
Theorem crash_with_nodes : ∃ p,
  proc_reachable race_env plain not_found p ∧ fate p = Crashed ∧ main_at (threads p) = MainServing ∧
  all_names (state (threads p)) ≠ ∅.
Proof.
  pose proof (threads_reach race_env plain not_found _ reach_beat) as Hp.
  exists (Proc beat_state srv_start Crashed).
  split; [|split; [done|split; [done|exact (has_nodes_names _ world8_nodes)]]]. apply (proc_steps _ _ _ _ _ Hp), rtc_once.
  exists Panicking. apply ps_panic, (dies_inside _ _ 0 THeart). cbn [crash beat_state heart_at].
  exists "nil pointer dereference"%string, world8. cbn [state beat_state].
  unfold signal_process, mbind, M_bind, gets. by rewrite world8_created.
Qed.

(** ** Witnesses *)

Definition releasing_proc : process :=
  Proc (Sys world16 None NodeIdle HeartIdle CmCreate MonIdle RotStarting MainReleasing) srv_start Running.

Lemma process_exits_witness :
  (∃ p', bsteps (steps_of race_env plain not_found (takes_part (threads releasing_proc)))
       (size (srv_conns (api releasing_proc)) + 7) releasing_proc p' ∧
     fate p' = Returned ∧ main_at (threads p') = MainDone ∧
     (main_at (threads releasing_proc) = MainReleasing → all_names (state (threads p')) = ∅)) ∨
  (∃ t s, lock (threads releasing_proc) = Some t ∧ bsteps (stays race_env t) 4 (threads releasing_proc) s ∧
     (crash race_env 1 t s ∨ waits_for_keys race_env 1 t s ∨ hangs race_env t s)) ∨
  (∃ s, (s = threads releasing_proc ∨ ∃ t, lock (threads releasing_proc) = Some t ∧
      bsteps (tstep race_env t) 4 (threads releasing_proc) s) ∧ release_hangs race_env s).
Proof.
  exact (process_exits race_env _ _ plain not_found 1 releasing_proc (threads_reach race_env plain not_found _ reach_stopping)
    ltac:(discriminate) eq_refl).
Defined.

(** console-data does not count its pods. *)
Definition hang_env : env := {|
  getenv := getenv race_env;
  http_do := λ n rq, if decide (rq_url rq = dataAddrBase +:+ "/activepods") then None else http_do race_env n rq;
  map_range := map_range race_env; map_range_perm := map_range_perm race_env;
  fs_fault := fs_fault race_env; read_limit := read_limit race_env; umask := umask race_env; clock := clock race_env;
  zone_lookup := zone_lookup race_env; rand_source := rand_source race_env;
  vault_adapter := vault_adapter race_env; vault_creds := vault_creds race_env; gjson_get := gjson_get race_env;
  run_cmd := run_cmd race_env
|}.

#[local] Instance hang_op : OperatorService := demo_operator hang_env.
#[local] Instance hang_op_spec : OperatorServiceSpec hang_op := demo_operator_spec hang_env.

Definition world20 : world := after (main_start hang_env 1 []) (initial_world race_files).
Definition world21 : world := after set_shutdown world20.

Lemma run20 : main_start hang_env 1 [] (initial_world race_files) = Done () world20.
Proof. run. Qed.
Lemma run21 : set_shutdown world20 = Done () world21.
Proof. run. Qed.
Lemma world20_serving : inShutdown (pod world20) = false.
Proof. by vm_compute. Qed.

Definition hung_system (w : world) (q : main_pc) : system :=
  Sys w (Some TNode) NodeLocked HeartIdle (CmConfig true) MonIdle RotStarting q.

Lemma reach_hung : reachable hang_env (hung_system world20 MainServing).
Proof.
  assert (H0 : reachable hang_env (start_system world20)).
  { apply reach_start. exists 1%nat, [], race_files. exact run20. }
  pose proof (reach_step hang_env _ _ _ H0 (by_node _ _ _ _ _ _ _ _ _ _ _ _ (node_serving _ _ _ world20_serving))) as H1.
  exact (reach_step hang_env _ _ _ H1 (by_node _ _ _ _ _ _ _ _ _ _ _ _ (node_lock _ _))).
Qed.

Lemma hang_signalled : rtc (proc_step hang_env plain not_found)
  (Proc (hung_system world20 MainServing) srv_start Running) (Proc (hung_system world21 MainReleasing) srv_start Running).
Proof.
  apply rtc_once. exists (Thread TMain). apply ps_thread.
  exact (by_main _ _ _ _ _ _ _ _ _ _ _ _ (main_signal _ _ _ _ run21)).
Qed.

Lemma hang_silent n : http_do hang_env n (get_request (dataAddrBase +:+ "/activepods")) = None.
Proof. cbn [http_do hang_env get_request rq_url]. by rewrite decide_True. Qed.

Lemma hung_service_blocks_witness :
  lock (hung_system world21 MainReleasing) = Some TNode ∧ heart_at (hung_system world21 MainReleasing) = HeartIdle ∧
  main_at (hung_system world21 MainReleasing) ≠ MainDone ∧ Running ≠ Returned.
Proof.
  exact (hung_service_blocks hang_env _ _ plain not_found (Proc (hung_system world20 MainServing) srv_start Running)
    (Proc (hung_system world21 MainReleasing) srv_start Running) hang_silent
    (threads_reach hang_env plain not_found _ reach_hung) eq_refl ltac:(discriminate) hang_signalled).
Defined.
