(* ===== verification/Isolation.v ===== *)
(** * What the mutex hides: src/src/console_node/

    While a thread holds [currNodesMutex] the other threads and the API server
    neither change the nodes and the table of tails nor look at them: their
    steps are the same whatever these hold, with one exception, the health
    report, which is made without the mutex.  Shown by contracts of the
    operations that run without the lock, composed along the structure of the
    code. *)

From S2P Require Import Prelude GoStrings World HttpUtils Operator Files LogAggregation.
From S2P Require Import ConmanProc Nodes LogRotation Monitor Zombies Threads Main.
From S2P Require Import Health Server Steps Runs System Process.
From Stdlib Require Import ZArith Lia.
From stdpp Require Import base numbers strings gmap sets list.

Local Open Scope Z_scope.

(** ** Operations that do not look *)

Definition set_tailThreads (T : gmap string nat) (s : tailState) : tailState :=
  TailState T (watchers s) (lingering s) (nextWatch s) (conAggLogFile s) (conAggLogger s).

(** The state with other nodes and another table. *)
Definition hide (N : nodesState) (T : gmap string nat) (w : world) : world :=
  upd_nodes (λ _, N) (upd_tails (set_tailThreads T) w).

Definition res_map {A} (f : world → world) (r : res A) : res A :=
  match r with Done a w => Done a (f w) | Panic msg w => Panic msg (f w) | Stuck w => Stuck (f w) end.

(** The operation does the same on every choice of nodes and table. *)
Definition blind {A} (m : M A) : Prop := ∀ N T w, m (hide N T w) = res_map (hide N T) (m w).

Lemma blind_ret {A} (a : A) : blind (mret a).
Proof. done. Qed.

Lemma blind_bind {A B} (m : M A) (f : A → M B) : blind m → (∀ a, blind (f a)) → blind (m ≫= f).
Proof.
  intros Hm Hf N T w. unfold mbind, M_bind. rewrite Hm. destruct (m w); [apply Hf|done|done].
Qed.

(** Reading a part of which only what is not hidden is used. *)
Lemma blind_read {A B} (g : world → A) (f : A → M B) :
  (∀ N T w, f (g (hide N T w)) = f (g w)) → (∀ a, blind (f a)) → blind (gets g ≫= f).
Proof. intros Hg Hf N T w. unfold mbind, M_bind, gets. rewrite Hg. apply Hf. Qed.

Lemma blind_panic {A} msg : blind (panic msg : M A).
Proof. done. Qed.

Lemma blind_modify f : (∀ N T w, f (hide N T w) = hide N T (f w)) → blind (modify f).
Proof. intros H N T w. unfold modify. by rewrite H. Qed.

Lemma blind_next : blind next.
Proof. done. Qed.

Lemma blind_deref {A} msg (o : option A) : blind (deref msg o).
Proof. by destruct o. Qed.

Lemma blind_forEach {A} (l : list A) (body : A → M ()) : (∀ x, blind (body x)) → blind (forEach l body).
Proof. intros H. induction l as [|x l IH]; cbn [forEach]; [done|]. by apply blind_bind. Qed.

Lemma blind_done {A} (m : M A) N T w a w' : blind m → m w = Done a w' → m (hide N T w) = Done a (hide N T w').
Proof. intros Hb Hd. by rewrite Hb, Hd. Qed.

Create HintDb blind discriminated.
#[local] Hint Resolve blind_ret blind_panic blind_next blind_deref : blind.

(** Along the structure of the code. *)
Ltac blind_step :=
  lazymatch goal with
  | |- blind (gets _ ≫= _) => apply blind_read; [done|intros ?]
  | |- blind (_ ≫= _) => apply blind_bind; [|intros ?]
  | |- blind (match ?x with _ => _ end) => destruct x
  | |- blind (let _ := _ in _) => cbv zeta
  | |- blind (forEach _ _) => apply blind_forEach; intros ?
  | |- blind (emit _) => by apply blind_modify
  | |- blind (sleep _) => by apply blind_modify
  | |- blind (modify _) => by apply blind_modify
  | |- blind _ => solve [eauto 2 with blind]
  end.
Ltac blind_auto := repeat blind_step.

(** ** The operations that run without the lock *)

Section operations.
Context (E : env).

Lemma blind_fault op path : blind (fault E op path).
Proof. unfold fault. blind_auto. Qed.
#[local] Hint Resolve blind_fault : blind.
Lemma blind_osStat path : blind (osStat E path).
Proof. unfold osStat. blind_auto. Qed.
Lemma blind_osMkdirAll dir perm : blind (osMkdirAll E dir perm).
Proof. unfold osMkdirAll. blind_auto. Qed.
Lemma blind_osRead path : blind (osRead E path).
Proof. unfold osRead. blind_auto. Qed.
Lemma blind_osTruncate path perm : blind (osTruncate E path perm).
Proof. unfold osTruncate. blind_auto. Qed.
Lemma blind_osChmod path md : blind (osChmod E path md).
Proof. unfold osChmod. blind_auto. Qed.
Lemma blind_run_external argv : blind (run_external E argv).
Proof. unfold run_external. blind_auto. Qed.
#[local] Hint Resolve blind_osStat blind_osMkdirAll blind_osRead blind_osTruncate blind_osChmod blind_run_external : blind.
Lemma blind_ensureDirPresent dir perm : blind (ensureDirPresent E dir perm).
Proof. unfold ensureDirPresent. blind_auto. Qed.
Lemma blind_checkItemPermissions p md : blind (checkItemPermissions E p md).
Proof. unfold checkItemPermissions. blind_auto. Qed.
#[local] Hint Resolve blind_ensureDirPresent blind_checkItemPermissions : blind.

Lemma blind_check_permissions ns : blind (check_permissions E ns).
Proof. unfold check_permissions. blind_auto. Qed.

Lemma blind_signal sg : blind (signal_process sg).
Proof. unfold signal_process. blind_auto. Qed.
Lemma blind_create : blind create_command.
Proof. unfold create_command. blind_auto. Qed.
Lemma blind_start : blind start_command.
Proof. unfold start_command. blind_auto. Qed.
Lemma blind_exit : blind exit_command.
Proof. unfold exit_command. blind_auto. Qed.
Lemma blind_reset : blind reset_command.
Proof. unfold reset_command. blind_auto. Qed.
Lemma blind_pipe data : blind (logPipeOutput data).
Proof. unfold logPipeOutput. blind_auto. Qed.

Lemma blind_parseTimestamp ln : blind (parseTimestamp E ln).
Proof. unfold parseTimestamp. blind_auto. Qed.
#[local] Hint Resolve blind_parseTimestamp : blind.
Lemma blind_read_stamps lines m a b : blind (read_stamps E lines m a b).
Proof. revert m a b. induction lines as [|ln lines IH]; intros m a b; cbn [read_stamps]; blind_auto; apply IH. Qed.
#[local] Hint Resolve blind_read_stamps : blind.
Lemma blind_detect_rotation m : blind (detect_rotation E m).
Proof. unfold detect_rotation, readLogRotTimestamps. blind_auto. Qed.
Lemma blind_respinAggLog : blind (respinAggLog E).
Proof. unfold respinAggLog. blind_auto. Qed.
#[local] Hint Resolve blind_respinAggLog : blind.
Lemma blind_respin_if b : blind (respin_if E b).
Proof. unfold respin_if. blind_auto. Qed.

Lemma blind_zombies : blind (watchForZombies_turn E).
Proof. unfold watchForZombies_turn, findZombies, go_killZombie. blind_auto. Qed.
Lemma blind_readLogRotTimestamps m : blind (readLogRotTimestamps E m).
Proof. unfold readLogRotTimestamps. blind_auto. Qed.
Lemma blind_watch_line x text : blind (watch_loop x [TailLine text]).
Proof. cbn [watch_loop]. unfold writeToAggLog. blind_auto. Qed.
Lemma blind_end_watch id : blind (end_watch id).
Proof. unfold end_watch. blind_auto. Qed.

(** Outside debug mode there are no fake logs to restart. *)
Lemma respin_fakes_quiet w w' : debugOnly (pod w) = false → respin_fakes E w = Done () w' → w' = w.
Proof. unfold respin_fakes, mbind, M_bind, gets. cbn. intros ->. by intros [= ->]. Qed.

End operations.

(** ** The steps of the other threads *)

Definition hidden (N : nodesState) (T : gmap string nat) (s : system) : system :=
  Sys (hide N T (state s)) (lock s) (node_at s) (heart_at s) (conman_at s) (mon_at s) (rot_at s) (main_at s).

Section steps.
Context (E : env) {Op : OperatorService} {OpS : OperatorServiceSpec Op}.
Context (N : nodesState) (T : gmap string nat).

Lemma node_blind n t w n' l' w' : node_step E n (Some t) w n' l' w' → node_in n = false →
  node_step E n (Some t) (hide N T w) n' l' (hide N T w').
Proof. intros Hs Hn. inversion Hs; subst; try done. by apply node_serving. Qed.

Lemma heart_blind h t w h' l' w' : heart_step E h (Some t) w h' l' w' → heart_in h = false →
  heart_step E h (Some t) (hide N T w) h' l' (hide N T w').
Proof. intros Hs Hn. by inversion Hs; subst. Qed.

Lemma conman_blind c t w c' l' w' : conman_step E c (Some t) w c' l' w' → conman_in c = false →
  conman_step E c (Some t) (hide N T w) c' l' (hide N T w').
Proof.
  intros Hs Hn. inversion Hs; subst; try done.
  - apply conman_create. by apply blind_done; [apply blind_create|].
  - apply conman_start. by apply blind_done; [apply blind_start|].
  - by apply conman_ended.
  - by apply conman_failed.
  - apply conman_pause. by apply blind_done; [apply blind_modify|].
  - apply conman_reset. by apply blind_done; [apply blind_reset|].
Qed.

Lemma mon_blind m t w m' l' w' : mon_step E m (Some t) w m' l' w' → mon_in m = false →
  mon_step E m (Some t) (hide N T w) m' l' (hide N T w').
Proof.
  intros Hs Hn. inversion Hs; subst; try done.
  - by apply mon_no_passwords.
  - apply mon_files. by apply blind_done; [apply blind_check_permissions|].
  - by apply mon_nil.
  - by apply mon_some.
  - apply mon_send. by apply blind_done; [apply blind_signal|].
Qed.

Lemma rot_blind r w r' w' : debugOnly (pod w) = false → rot_step E r w r' w' →
  rot_step E r (hide N T w) r' (hide N T w').
Proof.
  intros Hd. destruct 1 as [st con agg w w' H|st st' con agg w w' He H|st agg w w' Hn H|st agg w H|st agg w w' H|st agg w w' H].
  - eapply rot_start. by apply blind_done; [apply blind_readLogRotTimestamps|].
  - apply rot_detect; [exact He|]. by apply blind_done; [apply blind_detect_rotation|].
  - pose proof (respin_fakes_quiet E w w' Hd H) as ->. apply rot_nil; [done|].
    unfold respin_fakes, mbind, M_bind, gets. cbn. by rewrite Hd.
  - by apply rot_some.
  - apply rot_send. by apply blind_done; [apply blind_signal|].
  - apply rot_respin. by apply blind_done; [apply blind_respin_if|].
Qed.

Lemma zombie_blind w w' : zombie_step E w w' → zombie_step E (hide N T w) (hide N T w').
Proof.
  destruct 1 as [w w' H|w w' [pid u u' Hp H]].
  - apply zombie_turn. by apply blind_done; [apply blind_zombies|].
  - apply zombie_reaped, (reap_one pid); [exact Hp|]. by injection H as <-.
Qed.

Lemma tail_blind w w' : debugOnly (pod w) = false → tail_step E w w' → tail_step E (hide N T w) (hide N T w').
Proof.
  intros Hd. destruct 1 as [id x text b w w' Hid H|id w w' Hid H|b w w' Hk H|data w w' He H].
  - eapply tail_line; [exact Hid|]. by apply blind_done; [apply blind_watch_line|].
  - apply (tail_end E id); [exact Hid|]. by apply blind_done; [apply blind_end_watch|].
  - congruence.
  - eapply pipe_output; [exact He|]. by apply blind_done; [apply blind_pipe|].
Qed.

Lemma tstep_blind t u s s' : lock s = Some t → holds s u = false → debugOnly (pod (state s)) = false →
  tstep E u s s' → tstep E u (hidden N T s) (hidden N T s').
Proof.
  intros Hl Hu Hd Hs.
  destruct Hs as [w l n w' l' n' h c m r q H|w l h w' l' h' n c m r q H|w l c w' l' c' n h m r q H
    |w w' l n h c m r q Hrun H|w l m w' l' m' n h c r q H|w l r w' r' n h c m q H|w w' l n h c m r q H|w w' l n h c m r q H
    |w l q w' l' q' n h c m r H|w files l n h c m r q]; cbn in *; subst l; unfold hidden; cbn.
  - by apply by_node, node_blind.
  - by apply by_heart, heart_blind.
  - by apply by_conman, conman_blind.
  - apply by_process; [exact Hrun|]. by apply blind_done; [apply blind_exit|].
  - by apply by_monitor, mon_blind.
  - by apply by_rotate, rot_blind.
  - by apply by_zombies, zombie_blind.
  - by apply by_tails, tail_blind.
  - apply by_main. inversion H as [l1 w1 w2 Hm|]; subst. apply main_signal. by injection Hm as <-.
  - by apply (by_files E (hide N T w)).
Qed.

End steps.

(** ** The steps of the server *)

(** A request for the health report is answered. *)
Definition health_answered (a a' : server) : Prop :=
  ∃ r, srv_answers a' = srv_answers a ++ [("/console-node/health", "GET", r)]%string.

(** The other handlers use nothing of the state. *)
Lemma serve_blind other w w' path rw meth : (path, meth) ≠ ("/console-node/health", "GET")%string →
  serve other w path rw meth = serve other w' path rw meth.
Proof.
  intros Hne. unfold serve, routes. cbn [list_find fst]. case_decide; [done|]. cbn [list_find].
  case_decide; [done|]. cbn [list_find fmap option_fmap option_map prod_map]. case_decide as Hp; [|done]. cbn in *.
  subst path. unfold doHealth. by rewrite !decide_True by congruence.
Qed.

Lemma srv_blind detect other w w' a a' : srv_step detect other w a a' → ¬ health_answered a a' → srv_step detect other w' a a'.
Proof.
  destruct 1 as [m rq an|b m rq an|id m rq an H|id c path meth l b m rq an H Hc|id path meth l b m rq an H|id c l b m rq an H Hc];
    intros Hn; try by econstructor.
  assert (Ha : answer detect other w path meth = answer detect other w' path meth).
  { unfold answer. f_equal. apply serve_blind. intros [= -> ->]. apply Hn. by eexists. }
  rewrite Ha. by apply srv_answer.
Qed.

Definition proc_hidden (N : nodesState) (T : gmap string nat) (p : process) : process :=
  Proc (hidden N T (threads p)) (api p) (fate p).

(** ** Property *)

(** C11: mutual exclusion of the data: outside debug mode, while a thread holds
    the mutex, every step of the process that is not a step of that thread,
    a panic, or the answer to a GET of the health report, is the same step
    whatever the maps of nodes, the targets and the table of tails hold, and
    carries them over as they are: it neither reads nor writes them.  (The
    health report reads the maps and the targets without the mutex.) *)
Theorem lock_isolates (E : env) (Op : OperatorService) (OpS : OperatorServiceSpec Op) detect other t x p p' N T :
  proc_reachable E detect other p → debugOnly (pod (state (threads p))) = false → lock (threads p) = Some t →
  proc_by E detect other x p p' → x ≠ Thread t → x ≠ Panicking → ¬ health_answered (api p) (api p') →
  proc_by E detect other x (proc_hidden N T p) (proc_hidden N T p').
Proof.
  intros Hr Hd Hl Hs Hx Hp Hh. apply proc_reachable_threads in Hr. unfold proc_hidden.
  destruct Hs as [u s s' a H|s a a' H|s a H1 H2|s a H1 H2 H3|s a H]; cbn in *.
  - apply ps_thread, (tstep_blind E N T t u s s'); [done| |done|done].
    apply not_true_is_false. intros Hu. apply (si_lock _ (reachable_inv E _ Hr)) in Hu. congruence.
  - apply ps_api. by apply (srv_blind detect other (state s)).
  - by apply (ps_shutdown E detect other (hidden N T s)).
  - by apply (ps_return E detect other (hidden N T s)).
  - done.
Qed.

(** ** Witness *)

Lemma exited_debug : debugOnly (pod (state exited_state)) = false.
Proof. by vm_compute. Qed.

Definition reset_system : system :=
  Sys (with_command CmdNil (with_command CmdExited world6)) (Some TNode) NodeSend HeartIdle (CmConfig false) MonIdle
    RotStarting MainServing.

Lemma lock_isolates_witness :
  proc_by race_env plain not_found (Thread TConman)
    (proc_hidden (nodes world0) ∅ (Proc exited_state srv_start Running))
    (proc_hidden (nodes world0) ∅ (Proc reset_system srv_start Running)).
Proof.
  exact (lock_isolates race_env _ _ plain not_found TNode (Thread TConman) (Proc exited_state srv_start Running)
    (Proc reset_system srv_start Running) (nodes world0) ∅ (threads_reach race_env plain not_found _ reach_exited)
    exited_debug eq_refl (ps_thread _ _ _ _ _ _ _ (reset_step race_env _ _ _ _ _ _ _)) ltac:(congruence) ltac:(done)
    ltac:(intros [r Hr]; cbn in Hr; discriminate)).
Defined.
